(** * metricfs: record-level filtering engine

    A shallow embedding of the Go packages [auth], [mapper], [indexer],
    [projector] and [fusefs] of metricfs and of the flag checks of its
    command, the properties of the specification that are stated about
    them, and further properties of the code.

    Conventions.
    - A Go [string] is a Rocq [string]; a [[]byte] is a [list ascii]
      (an [ascii] is one 8-bit byte).
    - A Go map is a [gmap]; a map that the code tests against [nil] is an
      [option (gmap _ _)].  The order in which [range] visits a map is
      chosen by the runtime: it is an oracle ([range_order]) of which only
      the fact that it enumerates the map is known.
    - A Go slice is a list; [append] adds at the end.  A nil slice and an
      empty one are the same list: the code tells them apart nowhere but
      in what [json.Marshal] prints for them, and [sortedSliceMap] copies
      every list it marshals into a non-nil one.
    - [int64] arithmetic wraps; the wrap-around is written out.
    - A function returning [(T, error)] returns a [result T].
    - A loop whose number of turns depends on the data takes fuel; its
      result is [None] when the fuel runs out, and a lemma gives the fuel
      with which it does not.
    - The file system is a [gmap] from paths to nodes, threaded through
      the functions that write to it.  A write can fail, and the index
      cache drops the error: the file system afterwards tells whether
      the cache file is there.
    - Functions of the Go standard library and of third-party packages
      that the code calls but that are not part of the repository (the
      JSON and YAML decoders, SHA-1, glob matching, path cleaning, gzip and
      tar decoding, Unicode case mapping, the HTTP round trip to SpiceDB)
      are the fields of the classes [Text], [Codec], [FilePath],
      [IndexCodec], [Archive], [PermissionsCodec], [spicedb.Url] and
      [spicedb.Remote]; the order in which [range] visits a set of keys
      is the oracle [SetRange].
    - [auth.Authorizer] is the interface of the same name; the filtering
      code only reads its answers, so an instance is a function of the
      candidate key.  The SpiceDB authorizer keeps a cache and talks to
      a server: its state is explicit in [spicedb.IsAllowed]. *)

From Stdlib Require Import ZArith Strings.String Strings.Ascii List Bool Lia.
From Stdlib Require Import Numbers.DecimalString.
From Stdlib Require Numbers.DecimalZ Numbers.DecimalPos.
From stdpp Require Import base gmap strings list sorting.

Local Open Scope string_scope.
Local Open Scope list_scope.
Set Warnings "-register-all,-clear-no-such-hyp".

(** ** Errors and results *)

Inductive error :=
| EOF
| Errorf (msg : string).

Inductive result (A : Type) :=
| Ok (a : A)
| Err (e : error).

Arguments Ok {A} a.
Arguments Err {A} e.

#[export] Instance result_ret : MRet result := fun A a => Ok a.

#[export] Instance result_bind : MBind result := fun A B k r =>
  match r with
  | Ok a => k a
  | Err e => Err e
  end.

Abbreviation bytes := (list ascii).

Definition newline : ascii := "010"%char.
Definition carriage_return : ascii := "013"%char.

(** [[]byte(s)] and [string(b)]. *)
Definition bytes_of_string (s : string) : bytes := list_ascii_of_string s.
Definition string_of_bytes (b : bytes) : string := string_of_list_ascii b.

(** ** Package strings (byte-level functions) *)

Module strings.

Definition HasPrefix (s prefix : string) : bool := String.prefix prefix s.

Definition HasSuffix (s suffix : string) : bool :=
  (String.length suffix <=? String.length s)%nat &&
  String.eqb
    (String.substring (String.length s - String.length suffix)
       (String.length suffix) s)
    suffix.

Definition TrimPrefix (s prefix : string) : string :=
  if HasPrefix s prefix
  then String.substring (String.length prefix)
         (String.length s - String.length prefix) s
  else s.

Definition TrimSuffix (s suffix : string) : string :=
  if HasSuffix s suffix
  then String.substring 0 (String.length s - String.length suffix) s
  else s.

Fixpoint Contains (s substr : string) : bool :=
  String.prefix substr s ||
  match s with
  | EmptyString => false
  | String _ s' => Contains s' substr
  end.

(** [ReplaceAll s old new] for a non-empty [old], which is what every call
    site passes ([skip] counts the bytes of a match still to be dropped). *)
Fixpoint replace_from (old new s : string) (skip : nat) : string :=
  match s with
  | EmptyString => EmptyString
  | String c s' =>
      match skip with
      | S k => replace_from old new s' k
      | O =>
          if String.prefix old s
          then new +:+ replace_from old new s' (String.length old - 1)
          else String c (replace_from old new s' 0)
      end
  end.

Definition ReplaceAll (s old new : string) : string :=
  match old with
  | EmptyString => s
  | _ => replace_from old new s 0
  end.

Fixpoint in_cutset (c : ascii) (cutset : string) : bool :=
  match cutset with
  | EmptyString => false
  | String x r => Ascii.eqb c x || in_cutset c r
  end.

Fixpoint TrimLeft (s cutset : string) : string :=
  match s with
  | EmptyString => EmptyString
  | String c s' => if in_cutset c cutset then TrimLeft s' cutset else s
  end.

Fixpoint TrimRight (s cutset : string) : string :=
  match s with
  | EmptyString => EmptyString
  | String c s' =>
      match TrimRight s' cutset with
      | EmptyString => if in_cutset c cutset then EmptyString else String c EmptyString
      | r => String c r
      end
  end.

Definition Trim (s cutset : string) : string :=
  TrimRight (TrimLeft s cutset) cutset.

(** [Split s sep] for a non-empty [sep]. *)
Fixpoint split_from (sep s : string) (skip : nat) (cur : string) : list string :=
  match s with
  | EmptyString => [cur]
  | String c s' =>
      match skip with
      | S k => split_from sep s' k cur
      | O =>
          if String.prefix sep s
          then cur :: split_from sep s' (String.length sep - 1) EmptyString
          else split_from sep s' 0 (cur +:+ String c EmptyString)
      end
  end.

Definition Split (s sep : string) : list string := split_from sep s 0 EmptyString.

Fixpoint Join (elems : list string) (sep : string) : string :=
  match elems with
  | [] => EmptyString
  | [x] => x
  | x :: r => x +:+ sep +:+ Join r sep
  end.

(** [strings.Index(s, substr)]: the index of the first occurrence of
    [substr] in [s], [-1] when there is none. *)
Fixpoint index_from (s substr : string) : option nat :=
  if String.prefix substr s then Some O
  else match s with
       | EmptyString => None
       | String _ s' => option_map S (index_from s' substr)
       end.

Definition Index (s substr : string) : Z :=
  match index_from s substr with
  | Some i => Z.of_nat i
  | None => (-1)%Z
  end.

(** [strings.SplitN(s, sep, n)] for a non-empty [sep]: at most [n] pieces
    when [n > 0], the last one being the unsplit rest; none when [n = 0];
    all of them when [n < 0]. *)
Fixpoint splitN_pieces (s sep : string) (n : nat) : list string :=
  match n with
  | O => []
  | S O => [s]
  | S n' =>
      match index_from s sep with
      | None => [s]
      | Some i =>
          String.substring 0 i s ::
          splitN_pieces
            (String.substring (i + String.length sep)
               (String.length s - (i + String.length sep)) s)
            sep n'
      end
  end.

Definition SplitN (s sep : string) (n : Z) : list string :=
  if (n <? 0)%Z then Split s sep else splitN_pieces s sep (Z.to_nat n).

End strings.

(** [bytes.TrimRight]. *)
Fixpoint bytes_TrimRight (b : bytes) (cutset : string) : bytes :=
  match b with
  | [] => []
  | c :: b' =>
      match bytes_TrimRight b' cutset with
      | [] => if strings.in_cutset c cutset then [] else [c]
      | r => c :: r
      end
  end.

(** The parts of package [strings] and [fmt] that depend on Unicode tables
    or on the scanner of [fmt]. *)
Class Text := {
  (** [strings.ToLower] *)
  strings_ToLower : string -> string;
  (** [strings.TrimSpace] *)
  strings_TrimSpace : string -> string;
  (** [fmt.Sscanf(tok, "%d", &idx)]: the integer read, [None] on error *)
  fmt_Sscanf_d : string -> option Z;
}.

(** ** int64 *)

Definition int64 (z : Z) : Z :=
  ((z + 2 ^ 63) mod 2 ^ 64 - 2 ^ 63)%Z.

Definition int64_add (a b : Z) : Z := int64 (a + b).
Definition int64_sub (a b : Z) : Z := int64 (a - b).

(** ** Package auth *)

Module auth.

Record CandidateKey := {
  ObjectType : string;
  ObjectID : string;
  Permission : string;
}.

#[global] Instance CandidateKey_eq_dec : EqDecision CandidateKey.
Proof. solve_decision. Defined.

#[global] Instance CandidateKey_countable : Countable CandidateKey.
Proof.
  refine (inj_countable'
            (fun c => (ObjectType c, ObjectID c, Permission c))
            (fun t => {| ObjectType := t.1.1; ObjectID := t.1.2; Permission := t.2 |})
            _).
  intros []; reflexivity.
Defined.

(** [type Authorizer interface { IsAllowed(CandidateKey) bool }] *)
Class Authorizer (A : Type) := {
  IsAllowed : A -> CandidateKey -> bool;
}.

Record SetAuthorizer := {
  allowed : gset CandidateKey;
}.

Inductive denyAllAuthorizer := DenyAll.

#[global] Instance denyAll_Authorizer : Authorizer denyAllAuthorizer := {
  IsAllowed _ _ := false;
}.

Definition NewDenyAll : denyAllAuthorizer := DenyAll.

#[global] Instance Set_Authorizer : Authorizer SetAuthorizer := {
  IsAllowed a c := bool_decide (c ∈ allowed a);
}.

(** The loop of [NewFromPermissionsFile] over the decoded [allow] list. *)
Definition defaultPermission (k : CandidateKey) : CandidateKey :=
  if String.eqb (Permission k) ""
  then {| ObjectType := ObjectType k; ObjectID := ObjectID k; Permission := "read" |}
  else k.

Definition NewFromAllowList (allow : list CandidateKey) : SetAuthorizer :=
  {| allowed := foldl (fun acc k => {[ defaultPermission k ]} ∪ acc) ∅ allow |}.

End auth.


(** ** Decoded JSON documents and package fmt *)

(** A [float64] is represented by what [strconv] formats it from: the
    digits of its shortest decimal representation that reads back as the
    same number ([decimalSlice]: digits [d] without leading or trailing
    zero, decimal point position [dp], sign).  The value is
    [0.d1 d2 ... dn * 10^dp]; zero has no digit and [dp = 0]. *)
Record float64 := {
  neg : bool;
  d : string;
  dp : Z;
}.

(** What [json.Unmarshal] stores in an [any]: [nil], [bool], [float64],
    [string], [[]any] or [map[string]any].  The map is a list of bindings
    with distinct keys. *)
Inductive any :=
| ANil
| ABool (b : bool)
| AFloat64 (f : float64)
| AString (s : string)
| ASlice (l : list any)
| AMap (m : list (string * any)).

(** [v[tok]] on a [map[string]any]. *)
Fixpoint map_index (m : list (string * any)) (tok : string) : option any :=
  match m with
  | [] => None
  | (k, v) :: r => if String.eqb k tok then Some v else map_index r tok
  end.

Module fmt.

Definition zeros (n : nat) : string := string_of_list_ascii (repeat "0"%char n).

Definition digit (n : Z) : ascii := ascii_of_nat (48 + Z.to_nat n).

(** [d.d[j]] when [0 <= j < d.nd], ['0'] otherwise. *)
Definition digit_at (ds : string) (j : Z) : ascii :=
  if (0 <=? j)%Z
  then match String.get (Z.to_nat j) ds with
       | Some c => c
       | None => "0"%char
       end
  else "0"%char.

(** [strconv.fmtF]: [%f] with [prec] digits after the point. *)
Definition fmtF (f : float64) (prec : Z) : string :=
  let nd := Z.of_nat (String.length (d f)) in
  (if neg f then "-" else "") +:+
  (if (0 <? dp f)%Z
   then let m := Z.min nd (dp f) in
        String.substring 0 (Z.to_nat m) (d f) +:+ zeros (Z.to_nat (dp f - m))
   else "0") +:+
  (if (0 <? prec)%Z
   then "." +:+ string_of_list_ascii
                  (map (fun i => digit_at (d f) (dp f + Z.of_nat i))
                     (seq 0 (Z.to_nat prec)))
   else "").

(** [strconv.fmtE]: [%e] with [prec] digits after the point. *)
Definition fmtE (f : float64) (prec : Z) : string :=
  let nd := Z.of_nat (String.length (d f)) in
  let exp := if (nd =? 0)%Z then 0%Z else (dp f - 1)%Z in
  let aexp := Z.abs exp in
  (if neg f then "-" else "") +:+
  String (digit_at (d f) 0) "" +:+
  (if (0 <? prec)%Z
   then let m := Z.min nd (prec + 1) in
        "." +:+ String.substring 1 (Z.to_nat (m - 1)) (d f) +:+
        zeros (Z.to_nat (prec + 1 - Z.max m 1))
   else "") +:+
  "e" +:+ (if (exp <? 0)%Z then "-" else "+") +:+
  (if (aexp <? 10)%Z then String "0"%char (String (digit aexp) "")
   else if (aexp <? 100)%Z
        then String (digit (aexp / 10)) (String (digit (aexp mod 10)) "")
        else String (digit (aexp / 100))
               (String (digit ((aexp / 10) mod 10)) (String (digit (aexp mod 10)) ""))).

(** [strconv.FormatFloat(f, 'g', -1, 64)], which is what the verb [%v]
    prints for a [float64]: the shortest digits, in [%e] form when the
    decimal exponent is below [-4] or at least [eprec], and [eprec] is [6]
    when the precision is the shortest one. *)
Definition FormatFloat_g (f : float64) : string :=
  let nd := Z.of_nat (String.length (d f)) in
  let prec := nd in
  let eprec := 6%Z in
  let exp := (dp f - 1)%Z in
  if (exp <? -4)%Z || (eprec <=? exp)%Z
  then fmtE f (prec - 1)
  else fmtF f (Z.max (prec - dp f) 0).

Fixpoint insert_sorted (kv : string * string) (l : list (string * string))
  : list (string * string) :=
  match l with
  | [] => [kv]
  | x :: r => if String.leb kv.1 x.1 then kv :: l else x :: insert_sorted kv r
  end.

Definition sort_keys (l : list (string * string)) : list (string * string) :=
  foldr insert_sorted [] l.

(** [fmt.Sprintf("%v", v)] for the dynamic types that a decoded JSON
    document contains. *)
Fixpoint Sprintf_v (v : any) : string :=
  match v with
  | ANil => "<nil>"
  | ABool true => "true"
  | ABool false => "false"
  | AFloat64 f => FormatFloat_g f
  | AString s => s
  | ASlice l => "[" +:+ strings.Join (map Sprintf_v l) " " +:+ "]"
  | AMap m =>
      "map[" +:+
      strings.Join
        (map (fun kv : string * string => kv.1 +:+ ":" +:+ kv.2)
           (sort_keys
              ((fix each (m : list (string * any)) : list (string * string) :=
                  match m with
                  | [] => []
                  | (k, x) :: r => (k, Sprintf_v x) :: each r
                  end) m)))
        " " +:+ "]"
  end.

(** [fmt.Sprintf("%d", n)]. *)
Definition Sprintf_d (n : Z) : string := NilZero.string_of_int (Z.to_int n).

End fmt.

(** [hex.EncodeToString]. *)
Definition hex_digit (n : nat) : ascii :=
  match String.get n "0123456789abcdef" with
  | Some c => c
  | None => "0"%char
  end.

Fixpoint hex_EncodeToString (b : bytes) : string :=
  match b with
  | [] => ""
  | c :: r =>
      String (hex_digit (nat_of_ascii c / 16))
        (String (hex_digit (nat_of_ascii c mod 16)) (hex_EncodeToString r))
  end.

(** ** The file system and readers *)

Module DirEntry.
Record t := {
  Name : string;
  IsDir : bool;
}.
End DirEntry.

Inductive node :=
| File (content : bytes) (mtime : Z)
| Dir (entries : list DirEntry.t).

(** [os.FileInfo] as far as the code reads it. *)
Record FileInfo := {
  Size : Z;
  ModTimeUnixNano : Z;
  StIsDir : bool;
}.

(** An [io.Reader] is the bytes it will deliver and how the stream ends:
    [None] for a clean end ([io.EOF]), or the error it fails with once the
    bytes are consumed (a truncated or corrupt gzip stream, a directory). *)
Record Reader := {
  remaining : bytes;
  failure : option error;
}.

Module os.

Definition Stat (fs : gmap string node) (path : string) : result FileInfo :=
  match fs !! path with
  | Some (File c mt) =>
      Ok {| Size := Z.of_nat (length c); ModTimeUnixNano := mt; StIsDir := false |}
  | Some (Dir _) => Ok {| Size := 0; ModTimeUnixNano := 0; StIsDir := true |}
  | None => Err (Errorf "no such file or directory")
  end.

Definition ReadFile (fs : gmap string node) (path : string) : result bytes :=
  match fs !! path with
  | Some (File c _) => Ok c
  | Some (Dir _) => Err (Errorf "is a directory")
  | None => Err (Errorf "no such file or directory")
  end.

Definition Open (fs : gmap string node) (path : string) : result Reader :=
  match fs !! path with
  | Some (File c _) => Ok {| remaining := c; failure := None |}
  | Some (Dir _) => Ok {| remaining := []; failure := Some (Errorf "is a directory") |}
  | None => Err (Errorf "no such file or directory")
  end.

Definition ReadDir (fs : gmap string node) (path : string) : result (list DirEntry.t) :=
  match fs !! path with
  | Some (Dir es) => Ok es
  | Some (File _ _) => Err (Errorf "not a directory")
  | None => Err (Errorf "no such file or directory")
  end.

(** Writing.  The operating system finds a path by its elements, which
    [/] separates.  [parent path] is what [os.MkdirAll] takes for the
    directory above [path]: the path without its trailing separators, its
    last element and the separator before that ([path[:i]] in its
    source); it is empty when [path] has one element only. *)
Fixpoint drop_while (f : ascii -> bool) (l : bytes) : bytes :=
  match l with
  | [] => []
  | c :: r => if f c then drop_while f r else l
  end.

Definition IsPathSeparator (c : ascii) : bool := Ascii.eqb c "/".

Definition parent (path : string) : string :=
  let r := reverse (list_ascii_of_string path) in
  let r := drop_while IsPathSeparator r in
  let r := drop_while (fun c => negb (IsPathSeparator c)) r in
  string_of_list_ascii (reverse (tail r)).

(** [os.Mkdir(path, perm)] where nothing stands at [path] and the
    directory above it is there. *)
Definition Mkdir (fs : gmap string node) (path : string)
  : result (gmap string node) :=
  if String.eqb path "" then Err (Errorf "mkdir: no such file or directory")
  else Ok (<[path := Dir []]> fs).

(** [os.MkdirAll(path, perm)]: nothing is done when [path] is a
    directory; a file at [path] is an error; otherwise the directory
    above is made in the same way first, when the path names one, and
    [path] is made in it.  So the call fails when the nearest path that
    exists, from [path] upwards, is a file.  The recursion is on a shorter
    path each time: [fuel] is the length of the path. *)
Fixpoint MkdirAll_at (fuel : nat) (fs : gmap string node) (path : string)
  : result (gmap string node) :=
  match fs !! path with
  | Some (Dir _) => Ok fs
  | Some (File _ _) => Err (Errorf "mkdir: not a directory")
  | None =>
      made ← match fuel with
             | O => Ok fs
             | S fuel =>
                 if String.eqb (parent path) "" then Ok fs
                 else MkdirAll_at fuel fs (parent path)
             end;
      Mkdir made path
  end.

Definition MkdirAll (fs : gmap string node) (path : string)
  : result (gmap string node) :=
  MkdirAll_at (String.length path) fs path.

(** [os.WriteFile(path, data, perm)] at the time [now]: a directory at
    [path] is an error; a file at [path] is overwritten; a new file needs
    the directory above it, when its path names one. *)
Definition WriteFile (fs : gmap string node) (path : string) (data : bytes)
    (now : Z) : result (gmap string node) :=
  match fs !! path with
  | Some (Dir _) => Err (Errorf "is a directory")
  | Some (File _ _) => Ok (<[path := File data now]> fs)
  | None =>
      if String.eqb (parent path) "" then Ok (<[path := File data now]> fs)
      else
        match fs !! parent path with
        | Some (Dir _) => Ok (<[path := File data now]> fs)
        | Some (File _ _) => Err (Errorf "not a directory")
        | None => Err (Errorf "no such file or directory")
        end
  end.

(** [f.ReadAt(buf, off)] on an open regular file with content [c]: the
    buffer after the call and the error.  Fewer than [len(buf)] bytes are
    read only at the end of the file, and the error is then [io.EOF]; the
    rest of the buffer is left as it was. *)
Definition ReadAt (c : bytes) (buf : bytes) (off : Z) : bytes * option error :=
  if (off <? 0)%Z then (buf, Some (Errorf "negative offset"))
  else
    let avail := drop (Z.to_nat off) c in
    let n := Nat.min (length buf) (length avail) in
    (take n avail ++ drop n buf,
     if (n <? length buf)%nat then Some EOF else None).

End os.

(** [bufio.Reader.ReadBytes(delim)]: the bytes up to and including the
    first [delim]; when the stream ends first, the bytes read so far
    together with the error that ended it ([io.EOF] for a clean end). *)
Fixpoint span_delim (delim : ascii) (b : bytes) : option (bytes * bytes) :=
  match b with
  | [] => None
  | c :: r =>
      if Ascii.eqb c delim then Some ([c], r)
      else match span_delim delim r with
           | Some (chunk, rest) => Some (c :: chunk, rest)
           | None => None
           end
  end.

Definition ReadBytes (br : Reader) (delim : ascii) : bytes * option error * Reader :=
  match span_delim delim (remaining br) with
  | Some (chunk, rest) =>
      (chunk, None, {| remaining := rest; failure := failure br |})
  | None =>
      (remaining br,
       Some (match failure br with Some e => e | None => EOF end),
       {| remaining := []; failure := failure br |})
  end.

(** [io.Writer].  [Write] returns the sink after the call and the error. *)
Class Writer (W : Type) := { Write : W -> bytes -> W * option error }.

(** [bytes.Buffer]: [Write] appends and never fails. *)
Record Buffer := { Bytes : bytes }.

#[export] Instance Buffer_Writer : Writer Buffer :=
  { Write w p := ({| Bytes := Bytes w ++ p |}, None) }.

(** The order in which [for k, v := range m] visits a map.  The runtime
    chooses the order anew at every [range] statement; an instance of the
    class stands for one choice, the same for every evaluation that uses
    it.  A statement that compares two evaluations takes an instance for
    each. *)
Class MapRange := {
  range_order : forall {V : Type}, gmap string V -> list (string * V);
  range_order_perm : forall (V : Type) (m : gmap string V),
    range_order m ≡ₚ map_to_list m;
}.

(** [range] over a map that may be [nil]. *)
Definition range_map `{MapRange} {V : Type} (m : option (gmap string V))
  : list (string * V) :=
  match m with
  | Some m => range_order m
  | None => []
  end.

(** ** Package mapper: the mapping file *)

Module RuleMatch.
Record t := { Glob : string }.
End RuleMatch.

Module NormalizeSpec.
Record t := { Lowercase : bool; TrimSlash : bool }.
End NormalizeSpec.

Module FromArraySpec.
Record t := {
  Pointer : string;
  Fields : option (gmap string string);
  CanonicalTemplate : string;
}.
End FromArraySpec.

Module EmitSpec.
Record t := {
  ObjectType : string;
  Permission : string;
  Fields : option (gmap string string);
  FromArray : option FromArraySpec.t;
  CanonicalTemplate : string;
}.
End EmitSpec.

Module MapperSpec.
Record t := {
  Kind : string;
  Pointer : string;
  CanonicalTemplate : string;
  Fields : option (gmap string string);
  FromArray : option FromArraySpec.t;
  Emit : list EmitSpec.t;
  Normalize : NormalizeSpec.t;
  FallbackPaths : option (gmap string (list string));
}.
End MapperSpec.

Module MappingRule.
Record t := {
  Match : RuleMatch.t;
  Decision : string;
  ObjectType : string;
  Permission : string;
  MissingResourceKey : string;
  Mapper : MapperSpec.t;
}.
End MappingRule.

Module MappingFile.
Record t := {
  Version : Z;
  Extends : string;
  Rules : list MappingRule.t;
}.
End MappingFile.

Module SelectedRule.
Record t := {
  Decision : string;
  MissingResourceKey : string;
  Rule : MappingRule.t;
  RuleHash : string;
}.
End SelectedRule.

Module Config.
Record t := {
  SourceDir : string;
  MapperFileName : string;
  InheritParent : bool;
  MissingMapperMode : string;
  DefaultMissingKey : string;
}.
End Config.

(** The decoders, encoders and digests of the libraries. *)
Class Codec := {
  (** [json.Unmarshal(line, &doc)] into an [any]; [None] on error *)
  json_Unmarshal : bytes -> option any;
  (** [yaml.Unmarshal(b, &mf)] into a [MappingFile]; [None] on error *)
  yaml_Unmarshal : bytes -> option MappingFile.t;
  (** [json.Marshal] of a [[]MappingRule] (map keys are written sorted) *)
  json_Marshal_rules : list MappingRule.t -> bytes;
  (** [sha1.Sum] *)
  sha1_Sum : bytes -> bytes;
}.

(** Package [path/filepath] and [doublestar.Match]. *)
Class FilePath := {
  filepath_Abs : string -> result string;
  filepath_Dir : string -> string;
  filepath_Base : string -> string;
  filepath_Join : string -> string -> string;
  filepath_Clean : string -> string;
  filepath_Rel : string -> string -> result string;
  filepath_ToSlash : string -> string;
  (** [doublestar.Match(pattern, name)], the error dropped as the code does *)
  doublestar_Match : string -> string -> bool;
}.

(** What the upward walk of rule resolution relies on: an absolute path is
    rooted, and [Dir] of a rooted path is rooted and is either the path
    itself (the root) or shorter. *)
Class FilePathLaws `{FilePath} : Prop := {
  filepath_Abs_rooted : forall p a,
    filepath_Abs p = Ok a -> strings.HasPrefix a "/" = true;
  filepath_Dir_rooted : forall p,
    strings.HasPrefix p "/" = true ->
    strings.HasPrefix (filepath_Dir p) "/" = true /\
    (filepath_Dir p = p \/
     (String.length (filepath_Dir p) < String.length p)%nat);
}.

Module mapper.

Abbreviation Candidate := auth.CandidateKey.

Definition defaults (cfg : Config.t) : Config.t :=
  let cfg :=
    if String.eqb (Config.MapperFileName cfg) ""
    then {| Config.SourceDir := Config.SourceDir cfg;
            Config.MapperFileName := ".metricfs-map.yaml";
            Config.InheritParent := Config.InheritParent cfg;
            Config.MissingMapperMode := Config.MissingMapperMode cfg;
            Config.DefaultMissingKey := Config.DefaultMissingKey cfg |}
    else cfg in
  let cfg :=
    if String.eqb (Config.MissingMapperMode cfg) ""
    then {| Config.SourceDir := Config.SourceDir cfg;
            Config.MapperFileName := Config.MapperFileName cfg;
            Config.InheritParent := Config.InheritParent cfg;
            Config.MissingMapperMode := "deny";
            Config.DefaultMissingKey := Config.DefaultMissingKey cfg |}
    else cfg in
  if String.eqb (Config.DefaultMissingKey cfg) ""
  then {| Config.SourceDir := Config.SourceDir cfg;
          Config.MapperFileName := Config.MapperFileName cfg;
          Config.InheritParent := Config.InheritParent cfg;
          Config.MissingMapperMode := Config.MissingMapperMode cfg;
          Config.DefaultMissingKey := "deny" |}
  else cfg.

(** [sort.Strings]. *)
Fixpoint insert_string (k : string) (l : list string) : list string :=
  match l with
  | [] => [k]
  | x :: r => if String.leb k x then k :: l else x :: insert_string k r
  end.

Definition sort_Strings (l : list string) : list string :=
  foldr insert_string [] l.

Section canonical.
Context `{MapRange} `{Codec}.

(** [in[k]]: the zero value when the key is absent. *)
Definition sortedMap (m : gmap string string) : gmap string string :=
  let keys := sort_Strings (map fst (range_order m)) in
  foldl (fun out k => <[k := default "" (m !! k)]> out) ∅ keys.

Definition sortedSliceMap (m : gmap string (list string)) : gmap string (list string) :=
  let keys := sort_Strings (map fst (range_order m)) in
  foldl (fun out k => <[k := [] ++ default [] (m !! k)]> out) ∅ keys.

Definition canonicalRule (r : MappingRule.t) : MappingRule.t :=
  let ms := MappingRule.Mapper r in
  {| MappingRule.Match := MappingRule.Match r;
     MappingRule.Decision := MappingRule.Decision r;
     MappingRule.ObjectType := MappingRule.ObjectType r;
     MappingRule.Permission := MappingRule.Permission r;
     MappingRule.MissingResourceKey := MappingRule.MissingResourceKey r;
     MappingRule.Mapper :=
       {| MapperSpec.Kind := MapperSpec.Kind ms;
          MapperSpec.Pointer := MapperSpec.Pointer ms;
          MapperSpec.CanonicalTemplate := MapperSpec.CanonicalTemplate ms;
          MapperSpec.Fields :=
            match MapperSpec.Fields ms with
            | Some f => Some (sortedMap f)
            | None => None
            end;
          MapperSpec.FromArray := MapperSpec.FromArray ms;
          MapperSpec.Emit := MapperSpec.Emit ms;
          MapperSpec.Normalize := MapperSpec.Normalize ms;
          MapperSpec.FallbackPaths :=
            match MapperSpec.FallbackPaths ms with
            | Some f => Some (sortedSliceMap f)
            | None => None
            end |} |}.

(** [canonicalRules]; [json.Marshal] cannot fail on a [[]MappingRule]. *)
Definition canonicalRules (rules : list MappingRule.t) : bytes :=
  let copyRules := map canonicalRule rules in
  json_Marshal_rules copyRules.

(** The last lines of [loadRules]: the digest of the canonical form. *)
Definition ruleHashOf (rules : list MappingRule.t) : string :=
  let canonical := canonicalRules rules in
  let h := sha1_Sum canonical in
  hex_EncodeToString h.

End canonical.

Section resolve.
Context `{MapRange} `{Codec} `{FilePath} `{Text}.

(** [loadRules].  The recursion follows [extends]; every call adds a path
    that names an existing file to [seen], so it ends.  [fuel] bounds the
    depth: [None] is "out of fuel", which [loadRules] below never returns
    (lemma [loadRules_total]). *)
Fixpoint loadRules_from (fuel : nat) (fs : gmap string node) (path : string)
    (inherit : bool) (seen : gset string)
  : option (result (list MappingRule.t * string)) :=
  match fuel with
  | O => None
  | S fuel =>
      match filepath_Abs path with
      | Err e => Some (Err e)
      | Ok abs =>
          if decide (abs ∈ seen)
          then Some (Err (Errorf ("extends cycle detected at " +:+ abs)))
          else
            let seen := {[abs]} ∪ seen in
            match os.ReadFile fs abs with
            | Err e => Some (Err e)
            | Ok b =>
                match yaml_Unmarshal b with
                | None => Some (Err (Errorf "yaml: cannot unmarshal"))
                | Some mf =>
                    if negb (MappingFile.Version mf =? 1)%Z
                    then Some (Err (Errorf
                           ("unsupported mapping version: " +:+
                            fmt.Sprintf_d (MappingFile.Version mf))))
                    else
                      let rules := [] ++ MappingFile.Rules mf in
                      let extended :=
                        if inherit &&
                           negb (String.eqb
                                   (strings_TrimSpace (MappingFile.Extends mf)) "")
                        then
                          let parent :=
                            filepath_Clean
                              (filepath_Join (filepath_Dir abs)
                                 (MappingFile.Extends mf)) in
                          match loadRules_from fuel fs parent inherit seen with
                          | None => None
                          | Some (Err e) => Some (Err e)
                          | Some (Ok (parentRules, _)) =>
                              Some (Ok (rules ++ parentRules))
                          end
                        else Some (Ok rules) in
                      match extended with
                      | None => None
                      | Some (Err e) => Some (Err e)
                      | Some (Ok rules) => Some (Ok (rules, ruleHashOf rules))
                      end
                end
            end
      end
  end.

Definition loadRules (fs : gmap string node) (path : string) (inherit : bool)
    (seen : gset string) : option (result (list MappingRule.t * string)) :=
  loadRules_from (S (size fs)) fs path inherit seen.

(** The upward walk of [ResolveRuleForFile]: the path of the nearest
    mapping file, [""] when there is none below the source root. *)
Fixpoint findMapper (fuel : nat) (fs : gmap string node)
    (dir absSource name : string) : option string :=
  match fuel with
  | O => None
  | S fuel =>
      let candidate := filepath_Join dir name in
      match os.Stat fs candidate with
      | Ok _ => Some candidate
      | Err _ =>
          if String.eqb dir absSource || String.eqb dir (filepath_Dir dir)
          then Some ""
          else findMapper fuel fs (filepath_Dir dir) absSource name
      end
  end.

(** The loop of [ResolveRuleForFile] over the loaded rules. *)
Fixpoint selectRule (rules : list MappingRule.t) (mapperPath absFile : string)
    (cfg : Config.t) (ruleHash : string) : option (result SelectedRule.t) :=
  match rules with
  | [] => None
  | r :: rest =>
      let glob := strings_TrimSpace (RuleMatch.Glob (MappingRule.Match r)) in
      if String.eqb glob "" then selectRule rest mapperPath absFile cfg ruleHash
      else
        let relToMapper :=
          match filepath_Rel (filepath_Dir mapperPath) absFile with
          | Ok rel => rel
          | Err _ => filepath_Base absFile
          end in
        let relToMapper := filepath_ToSlash relToMapper in
        let name := filepath_Base absFile in
        let m1 := doublestar_Match glob relToMapper in
        let m2 := doublestar_Match glob name in
        if negb m1 && negb m2
        then selectRule rest mapperPath absFile cfg ruleHash
        else
          let decision :=
            if String.eqb (MappingRule.Decision r) "" then "any"
            else MappingRule.Decision r in
          if negb (String.eqb decision "any") && negb (String.eqb decision "all")
          then Some (Err (Errorf ("invalid decision: " +:+ decision)))
          else
            let missing :=
              if String.eqb (MappingRule.MissingResourceKey r) ""
              then Config.DefaultMissingKey cfg
              else MappingRule.MissingResourceKey r in
            if negb (String.eqb missing "deny") &&
               negb (String.eqb missing "ignore")
            then Some (Err (Errorf ("invalid missing_resource_key: " +:+ missing)))
            else Some (Ok {| SelectedRule.Decision := decision;
                             SelectedRule.MissingResourceKey := missing;
                             SelectedRule.Rule := r;
                             SelectedRule.RuleHash := ruleHash |})
  end.

(** [ResolveRuleForFile]: [Ok None] is the Go result [(nil, nil)], "no
    rule"; the outer [None] is "out of fuel" (never, see
    [ResolveRuleForFile_total]). *)
Definition ResolveRuleForFile (fs : gmap string node) (filePath : string)
    (cfg : Config.t) : option (result (option SelectedRule.t)) :=
  let cfg := defaults cfg in
  match filepath_Abs filePath with
  | Err e => Some (Err e)
  | Ok absFile =>
      match filepath_Abs (Config.SourceDir cfg) with
      | Err e => Some (Err e)
      | Ok absSource =>
          let dir := filepath_Dir absFile in
          match findMapper (S (String.length dir)) fs dir absSource
                  (Config.MapperFileName cfg) with
          | None => None
          | Some mapperPath =>
              if String.eqb mapperPath ""
              then
                if String.eqb (Config.MissingMapperMode cfg) "deny"
                then Some (Err (Errorf ("no mapper file found for " +:+ filePath)))
                else Some (Ok None)
              else
                match loadRules fs mapperPath (Config.InheritParent cfg) ∅ with
                | None => None
                | Some (Err e) => Some (Err e)
                | Some (Ok (rules, ruleHash)) =>
                    match selectRule rules mapperPath absFile cfg ruleHash with
                    | Some (Err e) => Some (Err e)
                    | Some (Ok sel) => Some (Ok (Some sel))
                    | None =>
                        if String.eqb (Config.MissingMapperMode cfg) "deny"
                        then Some (Err (Errorf
                               ("no matching mapper rule for " +:+ filePath)))
                        else Some (Ok None)
                    end
                end
          end
      end
  end.

End resolve.

Section evaluate.
Context `{MapRange} `{Codec} `{Text}.

Definition applyNormalize (s : string) (n : NormalizeSpec.t) : string :=
  let out := s in
  let out := if NormalizeSpec.Lowercase n then strings_ToLower out else out in
  let out := if NormalizeSpec.TrimSlash n then strings.Trim out "/" else out in
  out.

(** One turn of the loop of [resolveRootPointer] and [resolveItemPointer]
    over the tokens: the [switch v := cur.(type)]. *)
Definition descend (cur : any) (tok : string) : option any :=
  match cur with
  | AMap v => map_index v tok
  | ASlice v =>
      match fmt_Sscanf_d tok with
      | None => None
      | Some idx =>
          if (idx <? 0)%Z || (Z.of_nat (length v) <=? idx)%Z then None
          else v !! Z.to_nat idx
      end
  | _ => None
  end.

Definition unescape (raw : string) : string :=
  strings.ReplaceAll (strings.ReplaceAll raw "~1" "/") "~0" "~".

Fixpoint walkRoot (parts : list string) (cur : any) : option any :=
  match parts with
  | [] => Some cur
  | raw :: rest =>
      match descend cur (unescape raw) with
      | None => None
      | Some next => walkRoot rest next
      end
  end.

Fixpoint walkItem (parts : list string) (cur : any) : option any :=
  match parts with
  | [] => Some cur
  | tok :: rest =>
      match descend cur tok with
      | None => None
      | Some next => walkItem rest next
      end
  end.

(** [s[n:]] *)
Definition slice_from (s : string) (n : nat) : string :=
  String.substring n (String.length s - n) s.

(** [(v, true)] is [Some v]; [(nil, false)] is [None]. *)
Definition resolveRootPointer (doc : any) (ptr : string) : option any :=
  if negb (strings.HasPrefix ptr "/") then None
  else if String.eqb ptr "/" then Some doc
  else walkRoot (strings.Split (slice_from ptr 1) "/") doc.

Definition resolveItemPointer (item : any) (ptr : string) : option any :=
  if negb (strings.HasPrefix ptr "./") then None
  else if String.eqb ptr "./" then Some item
  else walkItem (strings.Split (slice_from ptr 2) "/") item.

(** The inner loop of the fallback: the first pointer that resolves to a
    value whose trimmed text is not empty replaces the placeholder. *)
Fixpoint tryFallback (doc : any) (ptrs : list string) (replaced needle : string)
  : string :=
  match ptrs with
  | [] => replaced
  | p :: rest =>
      match resolveRootPointer doc p with
      | Some val =>
          let s := strings_TrimSpace (fmt.Sprintf_v val) in
          if negb (String.eqb s "")
          then strings.ReplaceAll replaced needle s
          else tryFallback doc rest replaced needle
      | None => tryFallback doc rest replaced needle
      end
  end.

(** The closure [buildCandidate] of [EvaluateLine]; [doc], [norm] and
    [fallback] are the variables it captures. *)
Definition buildCandidate (doc : any) (norm : NormalizeSpec.t)
    (fallback : option (gmap string (list string)))
    (objectType permission tmpl : string) (values : gmap string any)
  : option mapper.Candidate :=
  let replaced := tmpl in
  let replaced :=
    foldl (fun replaced kv =>
             let s := fmt.Sprintf_v kv.2 in
             strings.ReplaceAll replaced ("{" +:+ kv.1 +:+ "}") s)
      replaced (range_order values) in
  let replaced :=
    foldl (fun replaced kp =>
             let needle := "{" +:+ kp.1 +:+ "}" in
             if strings.Contains replaced needle
             then tryFallback doc kp.2 replaced needle
             else replaced)
      replaced (range_map fallback) in
  if strings.Contains replaced "{" || strings.Contains replaced "}" then None
  else
    let id := applyNormalize replaced norm in
    let prefix := objectType +:+ ":" in
    let id := if strings.HasPrefix id prefix
              then strings.TrimPrefix id prefix else id in
    if String.eqb id "" then None
    else
      let permission := if String.eqb permission "" then "read" else permission in
      Some {| auth.ObjectType := objectType;
              auth.ObjectID := id;
              auth.Permission := permission |}.

(** [for k, p := range fields]: the values resolved before the first field
    that does not resolve ([break]); a pointer without the required prefix
    is an error. *)
Fixpoint collectFields (pfx errmsg : string) (resolve : string -> option any)
    (fields : list (string * string)) (vals : gmap string any)
  : result (gmap string any) :=
  match fields with
  | [] => Ok vals
  | (k, p) :: rest =>
      if negb (strings.HasPrefix p pfx) then Err (Errorf errmsg)
      else match resolve p with
           | None => Ok vals
           | Some v => collectFields pfx errmsg resolve rest (<[k := v]> vals)
           end
  end.

(** [for _, item := range arr] of the [from_array] branch. *)
Fixpoint emitItems (doc : any) (norm : NormalizeSpec.t)
    (fallback : option (gmap string (list string)))
    (e : EmitSpec.t) (fa : FromArraySpec.t) (arr : list any)
    (out : list mapper.Candidate) : result (list mapper.Candidate) :=
  match arr with
  | [] => Ok out
  | item :: rest =>
      vals ← collectFields "./" "from_array field pointer must start with ./"
               (resolveItemPointer item) (range_map (FromArraySpec.Fields fa)) ∅;
      match buildCandidate doc norm fallback (EmitSpec.ObjectType e)
              (EmitSpec.Permission e) (FromArraySpec.CanonicalTemplate fa) vals with
      | Some cand => emitItems doc norm fallback e fa rest (out ++ [cand])
      | None => emitItems doc norm fallback e fa rest out
      end
  end.

(** [for _, e := range ms.Emit] of the [multi_extract] case. *)
Fixpoint emitAll (doc : any) (norm : NormalizeSpec.t)
    (fallback : option (gmap string (list string)))
    (emit : list EmitSpec.t) (out : list mapper.Candidate)
  : result (list mapper.Candidate) :=
  match emit with
  | [] => Ok out
  | e :: rest =>
      match EmitSpec.FromArray e with
      | Some fa =>
          match resolveRootPointer doc (FromArraySpec.Pointer fa) with
          | None => emitAll doc norm fallback rest out
          | Some (ASlice arr) =>
              out ← emitItems doc norm fallback e fa arr out;
              emitAll doc norm fallback rest out
          | Some _ => emitAll doc norm fallback rest out
          end
      | None =>
          vals ← collectFields "/" "fields pointer must start with /"
                   (resolveRootPointer doc) (range_map (EmitSpec.Fields e)) ∅;
          match buildCandidate doc norm fallback (EmitSpec.ObjectType e)
                  (EmitSpec.Permission e) (EmitSpec.CanonicalTemplate e) vals with
          | Some cand => emitAll doc norm fallback rest (out ++ [cand])
          | None => emitAll doc norm fallback rest out
          end
      end
  end.

(** The final loop of [EvaluateLine]: first occurrences only. *)
Fixpoint dedupe (out : list mapper.Candidate) (uniq : gset mapper.Candidate)
    (res : list mapper.Candidate) : list mapper.Candidate :=
  match out with
  | [] => res
  | c :: rest =>
      if decide (c ∈ uniq) then dedupe rest uniq res
      else dedupe rest ({[c]} ∪ uniq) (res ++ [c])
  end.

(** [EvaluateLine]; a [nil] result slice is the empty list. *)
Definition EvaluateLine (rule : option SelectedRule.t) (line : bytes)
  : result (list mapper.Candidate) :=
  match rule with
  | None => Err (Errorf "nil rule")
  | Some rule =>
      match json_Unmarshal line with
      | None => Ok []
      | Some doc =>
          let ms := MappingRule.Mapper (SelectedRule.Rule rule) in
          let norm := MapperSpec.Normalize ms in
          let fallback := MapperSpec.FallbackPaths ms in
          out ←
            (if String.eqb (MapperSpec.Kind ms) "json_pointer" then
               let ptr := MapperSpec.Pointer ms in
               if negb (strings.HasPrefix ptr "/")
               then Err (Errorf "json_pointer pointer must start with /")
               else
                 match resolveRootPointer doc ptr with
                 | None => Ok None
                 | Some val =>
                     match buildCandidate doc norm fallback
                             (MappingRule.ObjectType (SelectedRule.Rule rule))
                             (MappingRule.Permission (SelectedRule.Rule rule))
                             (MapperSpec.CanonicalTemplate ms)
                             {[ "value" := val ]} with
                     | None => Ok None
                     | Some cand => Ok (Some ([] ++ [cand]))
                     end
                 end
             else if String.eqb (MapperSpec.Kind ms) "multi_extract" then
               out ← emitAll doc norm fallback (MapperSpec.Emit ms) [];
               Ok (Some out)
             else Err (Errorf ("unsupported mapper kind: " +:+ MapperSpec.Kind ms)));
          match out with
          | None => Ok []
          | Some out => Ok (dedupe out ∅ [])
          end
      end
  end.

End evaluate.

End mapper.

(** ** Package indexer *)

Module LineIndex.
Record t := {
  Start : Z;
  End_ : Z;
  Decision : string;
  Candidates : list auth.CandidateKey;
}.
End LineIndex.

Module FileIndex.
Record t := {
  SourcePath : string;
  Size : Z;
  MtimeUnix : Z;
  RuleHash : string;
  Passthrough : bool;
  BuiltAt : Z;
  Lines : list LineIndex.t;
}.
End FileIndex.

Module Options.
Record t := {
  SourceDir : string;
  MapperFileName : string;
  MapperInherit : bool;
  MissingMapperMode : string;
  MissingResource : string;
  IndexDir : string;
  FormatVersion : Z;
}.
End Options.

(** [json.Marshal] and [json.Unmarshal] of a [FileIndex], the form in which
    the index cache keeps it. *)
Class IndexCodec := {
  index_Marshal : FileIndex.t -> result bytes;
  index_Unmarshal : bytes -> option FileIndex.t;
}.

Module indexer.

Section indexer.
Context `{MapRange} `{Codec} `{FilePath} `{Text} `{IndexCodec}.

Definition cacheFilePath (indexDir sourcePath : string) (size mtime : Z)
    (ruleHash : string) (formatVersion : Z) : string :=
  let k := fmt.Sprintf_d formatVersion +:+ "|" +:+ sourcePath +:+ "|" +:+
           fmt.Sprintf_d size +:+ "|" +:+ fmt.Sprintf_d mtime +:+ "|" +:+
           ruleHash in
  let h := sha1_Sum (bytes_of_string k) in
  filepath_Join indexDir (hex_EncodeToString h +:+ ".json").

(** [save]: the file system afterwards and the error.  Nothing of the
    cache file is written when making the directory, marshalling the
    index or writing the file fails. *)
Definition save (fs : gmap string node) (path : string) (fi : FileIndex.t)
    (now : Z) : gmap string node * option error :=
  match os.MkdirAll fs (filepath_Dir path) with
  | Err e => (fs, Some e)
  | Ok fs =>
      match index_Marshal fi with
      | Err e => (fs, Some e)
      | Ok b =>
          match os.WriteFile fs path b now with
          | Err e => (fs, Some e)
          | Ok fs => (fs, None)
          end
      end
  end.

Definition load (fs : gmap string node) (path : string) : result FileIndex.t :=
  b ← os.ReadFile fs path;
  match index_Unmarshal b with
  | Some fi => Ok fi
  | None => Err (Errorf "json: cannot unmarshal")
  end.

(** The [for] loop of [build].  One turn reads one chunk; [fuel] bounds the
    number of turns ([None]: out of fuel, which [build] never is, see
    [build_lines_total]). *)
Fixpoint build_lines (fuel : nat) (br : Reader) (rule : SelectedRule.t)
    (offset : Z) (lines : list LineIndex.t) : option (result (list LineIndex.t)) :=
  match fuel with
  | O => None
  | S fuel =>
      let '(chunk, err, br) := ReadBytes br newline in
      match err with
      | Some (Errorf msg) => Some (Err (Errorf msg))
      | _ =>
          let '(offset, lines) :=
            if (0 <? length chunk)%nat then
              let start := offset in
              let end_ := int64_add offset (Z.of_nat (length chunk)) in
              let lineTrim := strings.TrimRight (string_of_bytes chunk)
                                (String carriage_return (String newline "")) in
              let cands :=
                match mapper.EvaluateLine (Some rule) (bytes_of_string lineTrim) with
                | Ok cands => cands
                | Err _ => []
                end in
              (end_,
               lines ++ [ {| LineIndex.Start := start;
                             LineIndex.End_ := end_;
                             LineIndex.Decision := SelectedRule.Decision rule;
                             LineIndex.Candidates := cands |} ])
            else (offset, lines) in
          match err with
          | Some EOF => Some (Ok lines)
          | _ => build_lines fuel br rule offset lines
          end
      end
  end.

(** [build]; [now] is the reading of the clock ([time.Now()]). *)
Definition build (fs : gmap string node) (sourcePath : string) (st : FileInfo)
    (rule : SelectedRule.t) (now : Z) : option (result FileIndex.t) :=
  match os.Open fs sourcePath with
  | Err e => Some (Err e)
  | Ok f =>
      match build_lines (S (length (remaining f))) f rule 0 [] with
      | None => None
      | Some (Err e) => Some (Err e)
      | Some (Ok lines) =>
          Some (Ok {| FileIndex.SourcePath := sourcePath;
                      FileIndex.Size := Size st;
                      FileIndex.MtimeUnix := ModTimeUnixNano st;
                      FileIndex.RuleHash := SelectedRule.RuleHash rule;
                      FileIndex.Passthrough := false;
                      FileIndex.BuiltAt := now;
                      FileIndex.Lines := lines |})
      end
  end.

(** [BuildOrLoad]: the result and the file system afterwards (the cache
    file may have been written). *)
Definition BuildOrLoad (fs : gmap string node) (sourcePath : string)
    (opts : Options.t) (now : Z)
  : option (result FileIndex.t * gmap string node) :=
  match mapper.ResolveRuleForFile fs sourcePath
          {| Config.SourceDir := Options.SourceDir opts;
             Config.MapperFileName := Options.MapperFileName opts;
             Config.InheritParent := Options.MapperInherit opts;
             Config.MissingMapperMode := Options.MissingMapperMode opts;
             Config.DefaultMissingKey := Options.MissingResource opts |} with
  | None => None
  | Some (Err e) => Some (Err e, fs)
  | Some (Ok rule) =>
      match os.Stat fs sourcePath with
      | Err e => Some (Err e, fs)
      | Ok st =>
          let cachePath :=
            if negb (String.eqb (Options.IndexDir opts) "") then
              let formatVersion :=
                if (Options.FormatVersion opts <=? 0)%Z then 1%Z
                else Options.FormatVersion opts in
              let ruleHash :=
                match rule with
                | Some rule => SelectedRule.RuleHash rule
                | None => "passthrough"
                end in
              cacheFilePath (Options.IndexDir opts) sourcePath (Size st)
                (ModTimeUnixNano st) ruleHash formatVersion
            else "" in
          let cached :=
            if negb (String.eqb (Options.IndexDir opts) "")
            then match load fs cachePath with
                 | Ok fi => Some fi
                 | Err _ => None
                 end
            else None in
          match cached with
          | Some fi => Some (Ok fi, fs)
          | None =>
              match rule with
              | None =>
                  let fi := {| FileIndex.SourcePath := sourcePath;
                               FileIndex.Size := Size st;
                               FileIndex.MtimeUnix := ModTimeUnixNano st;
                               FileIndex.RuleHash := "passthrough";
                               FileIndex.Passthrough := true;
                               FileIndex.BuiltAt := now;
                               FileIndex.Lines := [] |} in
                  Some (Ok fi,
                        if negb (String.eqb cachePath "")
                        then (save fs cachePath fi now).1 else fs)
              | Some rule =>
                  match build fs sourcePath st rule now with
                  | None => None
                  | Some (Err e) => Some (Err e, fs)
                  | Some (Ok fi) =>
                      Some (Ok fi,
                            if negb (String.eqb cachePath "")
                            then (save fs cachePath fi now).1 else fs)
                  end
              end
          end
      end
  end.

End indexer.

Section filter.
Context {A : Type} `{auth.Authorizer A}.

(** The two loops of [isVisible] with their early [return]. *)
Fixpoint everyAllowed (az : A) (cands : list auth.CandidateKey) : bool :=
  match cands with
  | [] => true
  | c :: rest => if negb (auth.IsAllowed az c) then false else everyAllowed az rest
  end.

Fixpoint someAllowed (az : A) (cands : list auth.CandidateKey) : bool :=
  match cands with
  | [] => false
  | c :: rest => if auth.IsAllowed az c then true else someAllowed az rest
  end.

Definition isVisible (ln : LineIndex.t) (az : A) : bool :=
  if (length (LineIndex.Candidates ln) =? 0)%nat then false
  else if String.eqb (LineIndex.Decision ln) "all"
       then everyAllowed az (LineIndex.Candidates ln)
       else someAllowed az (LineIndex.Candidates ln).

(** The loop of [VisibleSegments] over [fi.Lines]; [segments] and
    [current] are its variables, and the last lines of the function close
    the segment that is still open. *)
Fixpoint segmentLines (lines : list LineIndex.t) (az : A)
    (segments : list (Z * Z)) (current : option (Z * Z)) : list (Z * Z) :=
  match lines with
  | [] =>
      match current with
      | Some seg => segments ++ [seg]
      | None => segments
      end
  | ln :: rest =>
      if isVisible ln az then
        match current with
        | None =>
            segmentLines rest az segments
              (Some (LineIndex.Start ln, LineIndex.End_ ln))
        | Some (s, e) =>
            if (e =? LineIndex.Start ln)%Z
            then segmentLines rest az segments (Some (s, LineIndex.End_ ln))
            else segmentLines rest az (segments ++ [(s, e)])
                   (Some (LineIndex.Start ln, LineIndex.End_ ln))
        end
      else
        match current with
        | Some seg => segmentLines rest az (segments ++ [seg]) None
        | None => segmentLines rest az segments None
        end
  end.

(** [VisibleSegments]: a segment [[2]int64{start, end}] is a pair. *)
Definition VisibleSegments (fi : FileIndex.t) (az : A) : list (Z * Z) :=
  if FileIndex.Passthrough fi then [(0%Z, FileIndex.Size fi)]
  else segmentLines (FileIndex.Lines fi) az [] None.

Context {W : Type} `{Writer W}.

(** [io.Copy(w, f)]: the bytes of [f], in order, are handed to [w]. *)
Definition io_Copy (w : W) (f : Reader) : W * option error :=
  let '(w, err) :=
    match remaining f with
    | [] => (w, None)
    | b => Write w b
    end in
  match err with
  | Some e => (w, Some e)
  | None => (w, failure f)
  end.

(** [f.ReadAt] on the file opened by [os.Open]. *)
Definition file_ReadAt (f : Reader) (buf : bytes) (off : Z) : bytes * option error :=
  match failure f with
  | Some e => (buf, Some e)
  | None => os.ReadAt (remaining f) buf off
  end.

(** The loop of [FilterToWriter] over [fi.Lines]. *)
Fixpoint filterLines (f : Reader) (lines : list LineIndex.t) (az : A) (w : W)
  : W * option error :=
  match lines with
  | [] => (w, None)
  | ln :: rest =>
      if negb (isVisible ln az) then filterLines f rest az w
      else
        let sz := int64_sub (LineIndex.End_ ln) (LineIndex.Start ln) in
        if (sz <=? 0)%Z then filterLines f rest az w
        else
          let buf := repeat zero (Z.to_nat sz) in
          match file_ReadAt f buf (LineIndex.Start ln) with
          | (_, Some (Errorf msg)) => (w, Some (Errorf msg))
          | (buf, _) =>
              match Write w buf with
              | (w, Some e) => (w, Some e)
              | (w, None) => filterLines f rest az w
              end
          end
  end.

Definition FilterToWriter (fs : gmap string node) (fi : FileIndex.t) (az : A)
    (w : W) : W * option error :=
  if FileIndex.Passthrough fi then
    match os.Open fs (FileIndex.SourcePath fi) with
    | Err e => (w, Some e)
    | Ok f => io_Copy w f
    end
  else
    match os.Open fs (FileIndex.SourcePath fi) with
    | Err e => (w, Some e)
    | Ok f => filterLines f (FileIndex.Lines fi) az w
    end.

End filter.

End indexer.

(** ** Package projector *)

Module tar.
Record Header := {
  Typeflag : ascii;
  Name : string;
}.
Definition TypeReg : ascii := "0"%char.
End tar.

(** [gzip.NewReader] and [tar.NewReader]. *)
Class Archive := {
  (** the decoded stream of a gzip file, or the error of a bad header; the
      decoded stream fails at its end when the file is truncated or corrupt *)
  gzip_NewReader : Reader -> result Reader;
  (** the entries that successive [tr.Next()] return, each with the reader
      of its content, and the error that ends the archive ([None]: [io.EOF]) *)
  tar_NewReader : Reader -> list (tar.Header * Reader) * option error;
}.

Module projector.

Section names.
Context `{Text}.

Definition VirtualJSONLName (name : string) : string * bool :=
  let lower := strings_ToLower name in
  if strings.HasSuffix lower ".jsonl" then (name, false)
  else if strings.HasSuffix lower ".jsonl.gz"
       then (strings.TrimSuffix name ".gz", true)
  else if strings.HasSuffix lower ".jsonl.tar.gz"
       then (strings.TrimSuffix name ".tar.gz", true)
  else (name, false).

Definition virtualPathForRule (sourcePath : string) : string :=
  let lower := strings_ToLower sourcePath in
  if strings.HasSuffix lower ".jsonl.gz"
  then strings.TrimSuffix sourcePath ".gz"
  else if strings.HasSuffix lower ".jsonl.tar.gz"
       then strings.TrimSuffix sourcePath ".tar.gz"
  else sourcePath.

End names.

Section projector.
Context `{MapRange} `{Codec} `{FilePath} `{Text} `{IndexCodec} `{Archive}.
Context {A : Type} `{auth.Authorizer A} {W : Type} `{Writer W}.

Definition isVisibleLine (rule : option SelectedRule.t) (line : bytes) (az : A)
  : bool :=
  match rule with
  | None => true
  | Some r =>
      match mapper.EvaluateLine rule line with
      | Err _ => false
      | Ok cands =>
          if (length cands =? 0)%nat then false
          else if String.eqb (SelectedRule.Decision r) "all"
               then indexer.everyAllowed az cands
               else indexer.someAllowed az cands
      end
  end.

(** [streamJSONLLines]: the sink afterwards and the error; [None] is "out
    of fuel" (never for the fuel [renderStream] gives, see
    [streamJSONLLines_total]). *)
Fixpoint streamJSONLLines (fuel : nat) (br : Reader) (rule : option SelectedRule.t)
    (az : A) (w : W) : option (W * option error) :=
  match fuel with
  | O => None
  | S fuel =>
      let '(line, err, br) := ReadBytes br newline in
      match err with
      | Some (Errorf msg) => Some (w, Some (Errorf msg))
      | _ =>
          let '(w, werr) :=
            if (0 <? length line)%nat then
              if isVisibleLine rule
                   (bytes_TrimRight line (String carriage_return (String newline "")))
                   az
              then Write w line
              else (w, None)
            else (w, None) in
          match werr with
          | Some e => Some (w, Some e)
          | None =>
              match err with
              | Some EOF => Some (w, None)
              | _ => streamJSONLLines fuel br rule az w
              end
          end
      end
  end.

Definition renderStream (r : Reader) (rule : option SelectedRule.t) (az : A) (w : W)
  : option (W * option error) :=
  streamJSONLLines (S (length (remaining r))) r rule az w.

Definition renderGzipJSONL (fs : gmap string node) (path : string)
    (rule : option SelectedRule.t) (az : A) (w : W) : option (W * option error) :=
  match os.Open fs path with
  | Err e => Some (w, Some e)
  | Ok f =>
      match gzip_NewReader f with
      | Err e => Some (w, Some e)
      | Ok gz => renderStream gz rule az w
      end
  end.

(** The [for] loop of [renderTarGzipJSONL] over the entries of the archive. *)
Fixpoint renderEntries (entries : list (tar.Header * Reader)) (last : option error)
    (rule : option SelectedRule.t) (az : A) (w : W) : option (W * option error) :=
  match entries with
  | [] =>
      match last with
      | None | Some EOF => Some (w, None)
      | Some e => Some (w, Some e)
      end
  | (hdr, tr) :: rest =>
      if negb (Ascii.eqb (tar.Typeflag hdr) tar.TypeReg)
      then renderEntries rest last rule az w
      else if negb (strings.HasSuffix (strings_ToLower (tar.Name hdr)) ".jsonl")
      then renderEntries rest last rule az w
      else
        match renderStream tr rule az w with
        | None => None
        | Some (w, Some e) => Some (w, Some e)
        | Some (w, None) => renderEntries rest last rule az w
        end
  end.

Definition renderTarGzipJSONL (fs : gmap string node) (path : string)
    (rule : option SelectedRule.t) (az : A) (w : W) : option (W * option error) :=
  match os.Open fs path with
  | Err e => Some (w, Some e)
  | Ok f =>
      match gzip_NewReader f with
      | Err e => Some (w, Some e)
      | Ok gz =>
          let '(entries, last) := tar_NewReader gz in
          renderEntries entries last rule az w
      end
  end.

(** [RenderFiltered]: the sink, the error and the file system afterwards.
    [projector.Options] has the fields of [indexer.Options], to which it is
    copied field by field. *)
Definition RenderFiltered (fs : gmap string node) (sourcePath : string)
    (opts : Options.t) (az : A) (w : W) (now : Z)
  : option (W * option error * gmap string node) :=
  let lower := strings_ToLower sourcePath in
  if strings.HasSuffix lower ".jsonl" then
    match indexer.BuildOrLoad fs sourcePath opts now with
    | None => None
    | Some (Err e, fs') => Some (w, Some e, fs')
    | Some (Ok fi, fs') => Some (indexer.FilterToWriter fs' fi az w, fs')
    end
  else
    let virtualPath := virtualPathForRule sourcePath in
    match mapper.ResolveRuleForFile fs virtualPath
            {| Config.SourceDir := Options.SourceDir opts;
               Config.MapperFileName := Options.MapperFileName opts;
               Config.InheritParent := Options.MapperInherit opts;
               Config.MissingMapperMode := Options.MissingMapperMode opts;
               Config.DefaultMissingKey := Options.MissingResource opts |} with
    | None => None
    | Some (Err e) => Some (w, Some e, fs)
    | Some (Ok rule) =>
        if strings.HasSuffix lower ".jsonl.gz" then
          match renderGzipJSONL fs sourcePath rule az w with
          | None => None
          | Some r => Some (r, fs)
          end
        else if strings.HasSuffix lower ".jsonl.tar.gz" then
          match renderTarGzipJSONL fs sourcePath rule az w with
          | None => None
          | Some r => Some (r, fs)
          end
        else Some (w, Some (Errorf ("unsupported file type for filtering: " +:+
                                    sourcePath)), fs)
    end.

End projector.

End projector.

(** ** Package fusefs

    The source holds two files that declare [dirNode] and its methods
    for systems other than Windows; they cannot be compiled into one
    package.  The one with the build tag [!windows], the counterpart of
    [fs_windows.go], lists virtual names: it is [fusefs_unix] below.  The
    one without build tag lists the entries of a directory under their
    own names: its functions are those of the module [fusefs], which also
    has the types that the two share. *)

Module fuse.
Record DirEntry := {
  Name : string;
  Mode : Z;
}.
End fuse.

Module fusefs.

Record Config := {
  SourceDir : string;
  MountDir : string;
  MapperFileName : string;
  MapperInherit : bool;
  MissingMapperMode : string;
  MissingResource : string;
  IndexDir : string;
  IndexFormatVersion : Z;
  AllowOther : bool;
  ReadOnly : bool;
}.


Definition S_IFREG : Z := 32768.
Definition S_IFDIR : Z := 16384.

Inductive Errno := ENOENT | EIO.

Record dirNode (A : Type) := {
  cfg : Config;
  az : A;
  sourcePath : string;
}.

Arguments cfg {A} _.
Arguments az {A} _.
Arguments sourcePath {A} _.

(** What [Lookup] hands to [NewInode]: a child directory, or a
    [fs.MemRegularFile] holding [Data] (mode [0o444], size [len(data)]). *)
Inductive Inode (A : Type) :=
| DirInode (ch : dirNode A)
| MemFile (Data : bytes) (Mode : Z) (FileSize : Z).

Arguments DirInode {A} ch.
Arguments MemFile {A} Data Mode FileSize.

Section fusefs.
Context `{MapRange} `{Codec} `{FilePath} `{Text} `{IndexCodec}.
Context {A : Type} `{auth.Authorizer A}.

Definition Readdir (fs : gmap string node) (d : dirNode A)
  : list fuse.DirEntry + Errno :=
  match os.ReadDir fs (sourcePath d) with
  | Err _ => inr EIO
  | Ok entries =>
      inl (foldl (fun out e =>
                    let mode := if DirEntry.IsDir e then S_IFDIR else S_IFREG in
                    out ++ [ {| fuse.Name := DirEntry.Name e; fuse.Mode := mode |} ])
             [] entries)
  end.

(** [fileData]: the bytes and the file system afterwards. *)
Definition fileData (fs : gmap string node) (d : dirNode A) (path : string)
    (now : Z) : option (result bytes * gmap string node) :=
  if negb (strings.HasSuffix (strings_ToLower path) ".jsonl")
  then Some (os.ReadFile fs path, fs)
  else
    match indexer.BuildOrLoad fs path
            {| Options.SourceDir := SourceDir (cfg d);
               Options.MapperFileName := MapperFileName (cfg d);
               Options.MapperInherit := MapperInherit (cfg d);
               Options.MissingMapperMode := MissingMapperMode (cfg d);
               Options.MissingResource := MissingResource (cfg d);
               Options.IndexDir := IndexDir (cfg d);
               Options.FormatVersion := IndexFormatVersion (cfg d) |} now with
    | None => None
    | Some (Err e, fs') => Some (Err e, fs')
    | Some (Ok fi, fs') =>
        match indexer.FilterToWriter fs' fi (az d) {| Bytes := [] |} with
        | (_, Some e) => Some (Err e, fs')
        | (b, None) => Some (Ok (Bytes b), fs')
        end
    end.

Definition Lookup (fs : gmap string node) (d : dirNode A) (name : string)
    (now : Z) : option ((Inode A + Errno) * gmap string node) :=
  let next := filepath_Join (sourcePath d) name in
  match os.Stat fs next with
  | Err _ => Some (inr ENOENT, fs)
  | Ok st =>
      if StIsDir st
      then Some (inl (DirInode {| cfg := cfg d; az := az d; sourcePath := next |}), fs)
      else
        match fileData fs d next now with
        | None => None
        | Some (Err _, fs') => Some (inr EIO, fs')
        | Some (Ok data, fs') =>
            Some (inl (MemFile data 292 (Z.of_nat (length data))), fs')
        end
  end.

End fusefs.

End fusefs.

(** ** The remote authorizer *)

Module spicedb.

(** What [a.client.Do(req)] gives: an error, or a response with its status
    code and body. *)
Inductive http_result :=
| TransportError (e : error)
| Response (StatusCode : Z) (Body : bytes).

(** The remote end: the result of each request, by the call number and the
    resource, permission asked.  [json.NewDecoder(resp.Body).Decode(&out)]
    gives the [permissionship] field, [None] when the body does not decode. *)
Class Remote := {
  client_Do : nat -> auth.CandidateKey -> http_result;
  decode_permissionship : bytes -> option string;
}.

(** The mutable part of a [SpiceDBAuthorizer]: the cache, and the requests
    sent so far (their number indexes the remote end). *)
Record SpiceDBAuthorizer := {
  cache : gmap auth.CandidateKey bool;
  requests : list auth.CandidateKey;
}.

Section spicedb.
Context `{Remote}.

(** [checkRemote]: the answer, and the authorizer with the request logged. *)
Definition checkRemote (a : SpiceDBAuthorizer) (c : auth.CandidateKey)
  : result bool * SpiceDBAuthorizer :=
  let resp := client_Do (length (requests a)) c in
  let a := {| cache := cache a; requests := requests a ++ [c] |} in
  match resp with
  | TransportError e => (Err e, a)
  | Response status body =>
      if negb (status =? 200)%Z
      then (Err (Errorf "spicedb check failed"), a)
      else match decode_permissionship body with
           | None => (Err (Errorf "json: cannot decode"), a)
           | Some permissionship =>
               (Ok (String.eqb permissionship "PERMISSIONSHIP_HAS_PERMISSION"), a)
           end
  end.

(** [if c.Permission == "" { c.Permission = "read" }] *)
Definition defaultRead (c : auth.CandidateKey) : auth.CandidateKey :=
  if String.eqb (auth.Permission c) ""
  then {| auth.ObjectType := auth.ObjectType c;
          auth.ObjectID := auth.ObjectID c;
          auth.Permission := "read" |}
  else c.

Definition IsAllowed (a : SpiceDBAuthorizer) (c : auth.CandidateKey)
  : bool * SpiceDBAuthorizer :=
  let c := defaultRead c in
  if String.eqb (auth.ObjectType c) "" || String.eqb (auth.ObjectID c) ""
  then (false, a)
  else
    match cache a !! c with
    | Some allowed => (allowed, a)
    | None =>
        match checkRemote a c with
        | (Err _, a) => (false, a)
        | (Ok allowed, a) =>
            (allowed, {| cache := <[c := allowed]> (cache a);
                         requests := requests a |})
        end
    end.

End spicedb.

(** *** The settings of the remote authorizer *)

Module objectRef.
Record t := {
  ObjectType : string;
  ObjectID : string;
}.
End objectRef.

Module subjectRef.
Record t := {
  Object : objectRef.t;
  OptionalRelation : string;
}.
End subjectRef.

Module SpiceDBConfig.
Record t := {
  Endpoint : string;
  Token : string;
  Subject : string;
  Consistency : string;
}.
End SpiceDBConfig.

(** [url.Parse]: the [Host] of the parsed URL, or the error. *)
Class Url := {
  url_Parse : string -> result string;
}.

(** The fields of a [SpiceDBAuthorizer] that [NewSpiceDB] sets and nothing
    changes afterwards. *)
Record settings := {
  url : string;
  token : string;
  subject : subjectRef.t;
  consistency : gmap string any;
}.

Section settings.
Context `{Text} `{Url}.

(** [parseSubject].  The message of an error is kept up to the quoted
    input that [%q] appends. *)
Definition parseSubject (raw : string) : result subjectRef.t :=
  let s := strings_TrimSpace raw in
  if String.eqb s "" then Err (Errorf "spicedb subject is required")
  else
    let i := strings.Index s "#" in
    '(relation, s) ←
      (if (0 <=? i)%Z then
         let relation :=
           strings_TrimSpace
             (String.substring (Z.to_nat (i + 1))
                (String.length s - Z.to_nat (i + 1)) s) in
         let s := strings_TrimSpace (String.substring 0 (Z.to_nat i) s) in
         if String.eqb relation ""
         then Err (Errorf "invalid subject relation in")
         else Ok (relation, s)
       else Ok ("", s));
    match strings.SplitN s ":" 2 with
    | [p0; p1] =>
        if String.eqb (strings_TrimSpace p0) "" ||
           String.eqb (strings_TrimSpace p1) ""
        then Err (Errorf "invalid subject, expected type:id or type:id#relation")
        else Ok {| subjectRef.Object :=
                     {| objectRef.ObjectType := strings_TrimSpace p0;
                        objectRef.ObjectID := strings_TrimSpace p1 |};
                   subjectRef.OptionalRelation := relation |}
    | _ => Err (Errorf "invalid subject, expected type:id or type:id#relation")
    end.

Definition parseConsistency (raw : string) : result (gmap string any) :=
  let mode := strings_TrimSpace (strings_ToLower raw) in
  let mode := if String.eqb mode "" then "minimize_latency" else mode in
  if String.eqb mode "minimize_latency"
  then Ok {[ "minimizeLatency" := ABool true ]}
  else if String.eqb mode "fully_consistent"
  then Ok {[ "fullyConsistent" := ABool true ]}
  else Err (Errorf "unsupported spicedb consistency mode").

(** [NewSpiceDB]: the settings, and the authorizer with its empty cache. *)
Definition NewSpiceDB (cfg : SpiceDBConfig.t) : result (settings * SpiceDBAuthorizer) :=
  let endpoint := strings_TrimSpace (SpiceDBConfig.Endpoint cfg) in
  if String.eqb endpoint "" then Err (Errorf "spicedb endpoint is required")
  else
    let endpoint :=
      if negb (strings.Contains endpoint "://") then "http://" +:+ endpoint
      else endpoint in
    match url_Parse endpoint with
    | Err _ => Err (Errorf "invalid spicedb endpoint")
    | Ok host =>
        if String.eqb host "" then Err (Errorf "invalid spicedb endpoint")
        else if String.eqb (strings_TrimSpace (SpiceDBConfig.Token cfg)) ""
        then Err (Errorf "spicedb token is required")
        else
          subject ← parseSubject (SpiceDBConfig.Subject cfg);
          consistency ← parseConsistency (SpiceDBConfig.Consistency cfg);
          Ok ({| url := strings.TrimRight endpoint "/" +:+ "/v1/permissions/check";
                 token := SpiceDBConfig.Token cfg;
                 subject := subject;
                 consistency := consistency |},
              {| cache := ∅; requests := [] |})
    end.

End settings.

End spicedb.

(** ** Package auth: the authorizer read from a permissions file *)

(** [json.Unmarshal(b, &doc)] into a [permissionsDoc]: its [allow] list,
    [None] on error. *)
Class PermissionsCodec := {
  json_Unmarshal_permissions : bytes -> option (list auth.CandidateKey);
}.

(** The order in which [for k := range a.allowed] visits the set. *)
Class SetRange := {
  range_set : gset auth.CandidateKey -> list auth.CandidateKey;
  range_set_perm : forall s, range_set s ≡ₚ elements s;
}.

Module permissions.

(** The function [less] that [DebugAllowed] hands to [sort.Slice]. *)
Definition less (a b : auth.CandidateKey) : bool :=
  if negb (String.eqb (auth.ObjectType a) (auth.ObjectType b))
  then String.ltb (auth.ObjectType a) (auth.ObjectType b)
  else if negb (String.eqb (auth.ObjectID a) (auth.ObjectID b))
  then String.ltb (auth.ObjectID a) (auth.ObjectID b)
  else String.ltb (auth.Permission a) (auth.Permission b).

Fixpoint insert_key (k : auth.CandidateKey) (l : list auth.CandidateKey)
  : list auth.CandidateKey :=
  match l with
  | [] => [k]
  | x :: r => if less x k then x :: insert_key k r else k :: l
  end.

(** [sort.Slice(out, less)]. *)
Definition sort_Slice (l : list auth.CandidateKey) : list auth.CandidateKey :=
  foldr insert_key [] l.

(** [DebugAllowed]: the keys of the set, in the order in which [range]
    visits them, sorted. *)
Definition DebugAllowed `{SetRange} (a : auth.SetAuthorizer) : list auth.CandidateKey :=
  let out := foldl (fun out k => out ++ [k]) [] (range_set (auth.allowed a)) in
  sort_Slice out.

Section permissions.
Context `{PermissionsCodec}.

Definition NewFromPermissionsFile (fs : gmap string node) (path : string)
  : result auth.SetAuthorizer :=
  b ← os.ReadFile fs path;
  match json_Unmarshal_permissions b with
  | None => Err (Errorf "json: cannot unmarshal")
  | Some allow => Ok (auth.NewFromAllowList allow)
  end.

Definition New (fs : gmap string node) (permissionsFile : string)
  : result auth.SetAuthorizer :=
  if String.eqb permissionsFile ""
  then Err (Errorf "--permissions-file is required")
  else NewFromPermissionsFile fs permissionsFile.

End permissions.

End permissions.

(** ** Package fusefs, the file that lists virtual names

    The file of the package with the build tag [!windows], the surface
    that is mounted: a directory is read through [resolveEntries], which
    maps every name to be shown to the entry behind it. *)

Module fusefs_unix.

Module resolvedEntry.
Record t := {
  name : string;
  source : string;
  isDir : bool;
  projected : bool;
}.
End resolvedEntry.

(** The zero value of [resolvedEntry], which [entries[name]] gives for an
    absent key. *)
Definition zeroEntry : resolvedEntry.t :=
  {| resolvedEntry.name := ""; resolvedEntry.source := "";
     resolvedEntry.isDir := false; resolvedEntry.projected := false |}.

Section fusefs_unix.
Context `{MapRange} `{Codec} `{FilePath} `{Text} `{IndexCodec} `{Archive}.
Context {A : Type} `{auth.Authorizer A}.

(** One turn of the loop of [resolveEntries]. *)
Definition resolveEntry (sourcePath : string) (out : gmap string resolvedEntry.t)
    (e : DirEntry.t) : gmap string resolvedEntry.t :=
  let source := filepath_Join sourcePath (DirEntry.Name e) in
  if DirEntry.IsDir e then
    <[DirEntry.Name e :=
        {| resolvedEntry.name := DirEntry.Name e;
           resolvedEntry.source := source;
           resolvedEntry.isDir := true;
           resolvedEntry.projected := false |}]> out
  else
    let '(vname, projected) := projector.VirtualJSONLName (DirEntry.Name e) in
    let kept :=
      match out !! vname with
      | Some existing => negb (resolvedEntry.projected existing)
      | None => false
      end in
    if kept then out
    else
      <[vname :=
          {| resolvedEntry.name := vname;
             resolvedEntry.source := source;
             resolvedEntry.isDir := false;
             resolvedEntry.projected := projected |}]> out.

Definition resolveEntries (fs : gmap string node) (d : fusefs.dirNode A)
  : result (gmap string resolvedEntry.t) :=
  dirEntries ← os.ReadDir fs (fusefs.sourcePath d);
  Ok (foldl (resolveEntry (fusefs.sourcePath d)) ∅ dirEntries).

Definition Readdir (fs : gmap string node) (d : fusefs.dirNode A)
  : list fuse.DirEntry + fusefs.Errno :=
  match resolveEntries fs d with
  | Err _ => inr fusefs.EIO
  | Ok entries =>
      let names := foldl (fun names kv => names ++ [kv.1]) [] (range_order entries) in
      let names := mapper.sort_Strings names in
      inl (foldl (fun out name =>
                    let e := default zeroEntry (entries !! name) in
                    let mode := if resolvedEntry.isDir e
                                then fusefs.S_IFDIR else fusefs.S_IFREG in
                    out ++ [ {| fuse.Name := resolvedEntry.name e; fuse.Mode := mode |} ])
             [] names)
  end.

(** [fileData]: the bytes and the file system afterwards. *)
Definition fileData (fs : gmap string node) (d : fusefs.dirNode A)
    (ent : resolvedEntry.t) (now : Z) : option (result bytes * gmap string node) :=
  let lower := strings_ToLower (resolvedEntry.source ent) in
  if negb (resolvedEntry.projected ent) && negb (strings.HasSuffix lower ".jsonl")
  then Some (os.ReadFile fs (resolvedEntry.source ent), fs)
  else
    match projector.RenderFiltered fs (resolvedEntry.source ent)
            {| Options.SourceDir := fusefs.SourceDir (fusefs.cfg d);
               Options.MapperFileName := fusefs.MapperFileName (fusefs.cfg d);
               Options.MapperInherit := fusefs.MapperInherit (fusefs.cfg d);
               Options.MissingMapperMode := fusefs.MissingMapperMode (fusefs.cfg d);
               Options.MissingResource := fusefs.MissingResource (fusefs.cfg d);
               Options.IndexDir := fusefs.IndexDir (fusefs.cfg d);
               Options.FormatVersion := fusefs.IndexFormatVersion (fusefs.cfg d) |}
            (fusefs.az d) {| Bytes := [] |} now with
    | None => None
    | Some (_, Some e, fs') => Some (Err e, fs')
    | Some (b, None, fs') => Some (Ok (Bytes b), fs')
    end.

Definition Lookup (fs : gmap string node) (d : fusefs.dirNode A) (name : string)
    (now : Z) : option ((fusefs.Inode A + fusefs.Errno) * gmap string node) :=
  match resolveEntries fs d with
  | Err _ => Some (inr fusefs.EIO, fs)
  | Ok entries =>
      match entries !! name with
      | None => Some (inr fusefs.ENOENT, fs)
      | Some ent =>
          if resolvedEntry.isDir ent
          then Some (inl (fusefs.DirInode
                            {| fusefs.cfg := fusefs.cfg d;
                               fusefs.az := fusefs.az d;
                               fusefs.sourcePath := resolvedEntry.source ent |}), fs)
          else
            match fileData fs d ent now with
            | None => None
            | Some (Err _, fs') => Some (inr fusefs.EIO, fs')
            | Some (Ok data, fs') =>
                Some (inl (fusefs.MemFile data 292 (Z.of_nat (length data))), fs')
            end
      end
  end.

End fusefs_unix.

End fusefs_unix.


(** ** Command metricfs: the checks of the flags and the choice of the
    authorizer *)

Module main.

Record commonFlags := {
  sourceDir : string;
  mountDir : string;
  authBackend : string;
  subject : string;
  readOnly : bool;
  allowOther : bool;
  spiceEndpoint : string;
  spiceToken : string;
  spiceTokenEnv : string;
  spiceConsistency : string;
  watchEnabled : bool;
  watchBackoff : string;
  reconcileInterval : Z;
  onSpiceUnavailable : string;
  staleSnapshotTTL : Z;
  indexDir : string;
  indexFormatVersion : Z;
  indexHash : string;
  indexWorkers : Z;
  mapperFileName : string;
  mapperResolution : string;
  mapperInheritParent : bool;
  missingMapper : string;
  missingResourceKey : string;
  permissionsFile : string;
  allowNoAuthz : bool;
}.

(** [st, err := os.Stat(dir); err != nil || !st.IsDir()] *)
Definition notDir (fs : gmap string node) (dir : string) : bool :=
  match os.Stat fs dir with
  | Err _ => true
  | Ok st => negb (StIsDir st)
  end.

(** [validate]: [None] is the [nil] error. *)
Definition validate (fs : gmap string node) (c : commonFlags)
    (needMountFields : bool) : option error :=
  if String.eqb (sourceDir c) ""
  then Some (Errorf "--source-dir is required")
  else if needMountFields && String.eqb (mountDir c) ""
  then Some (Errorf "--mount-dir is required")
  else if negb (String.eqb (mapperResolution c) "nearest_ancestor")
  then Some (Errorf "--mapper-resolution supports nearest_ancestor only")
  else if negb (String.eqb (missingMapper c) "deny") &&
          negb (String.eqb (missingMapper c) "passthrough")
  then Some (Errorf "--missing-mapper must be deny|passthrough")
  else if negb (String.eqb (missingResourceKey c) "deny") &&
          negb (String.eqb (missingResourceKey c) "ignore")
  then Some (Errorf "--missing-resource-key must be deny|ignore")
  else if negb (readOnly c)
  then Some (Errorf "writable mode is not supported in MVP")
  else if notDir fs (sourceDir c)
  then Some (Errorf ("source dir invalid: " +:+ sourceDir c))
  else if needMountFields && notDir fs (mountDir c)
  then Some (Errorf ("mount dir invalid: " +:+ mountDir c))
  else if negb (String.eqb (authBackend c) "file") &&
          negb (String.eqb (authBackend c) "spicedb")
  then Some (Errorf "--auth-backend must be file|spicedb")
  else if String.eqb (authBackend c) "file" &&
          String.eqb (permissionsFile c) "" && negb (allowNoAuthz c)
  then Some (Errorf "file auth backend requires --permissions-file or --allow-no-authz")
  else if String.eqb (authBackend c) "spicedb" &&
          String.eqb (spiceEndpoint c) ""
  then Some (Errorf "spicedb auth backend requires --spicedb-endpoint")
  else if String.eqb (authBackend c) "spicedb" && String.eqb (subject c) ""
  then Some (Errorf "spicedb auth backend requires --subject")
  else None.

(** The dynamic type of the [auth.Authorizer] that [newAuthorizer]
    returns. *)
Inductive authorizer :=
| DenyAll (a : auth.denyAllAuthorizer)
| FromFile (a : auth.SetAuthorizer)
| Remote (s : spicedb.settings) (a : spicedb.SpiceDBAuthorizer).

Section main.
Context `{Text} `{spicedb.Url} `{PermissionsCodec}.

(** [newAuthorizer]; [env] is the environment that [os.Getenv] reads, an
    unset variable reading as the empty string. *)
Definition newAuthorizer (fs : gmap string node) (env : gmap string string)
    (c : commonFlags) : result authorizer :=
  if String.eqb (authBackend c) "file" then
    if String.eqb (permissionsFile c) "" then Ok (DenyAll auth.NewDenyAll)
    else a ← permissions.New fs (permissionsFile c); Ok (FromFile a)
  else if String.eqb (authBackend c) "spicedb" then
    let token := strings_TrimSpace (spiceToken c) in
    let token :=
      if String.eqb token "" && negb (String.eqb (spiceTokenEnv c) "")
      then strings_TrimSpace (default "" (env !! spiceTokenEnv c))
      else token in
    if String.eqb token ""
    then Err (Errorf ("spicedb auth backend requires --spicedb-token or " +:+
                      spiceTokenEnv c +:+ " env var"))
    else
      '(s, a) ← spicedb.NewSpiceDB
                  {| spicedb.SpiceDBConfig.Endpoint := spiceEndpoint c;
                     spicedb.SpiceDBConfig.Token := token;
                     spicedb.SpiceDBConfig.Subject := subject c;
                     spicedb.SpiceDBConfig.Consistency := spiceConsistency c |};
      Ok (Remote s a)
  else Err (Errorf ("unsupported --auth-backend: " +:+ authBackend c)).

End main.

End main.
(** ** Vocabulary of the statements *)

Section vocabulary.
Context `{MapRange} `{Codec} `{Text}.

(** The line that the indexer would store for a record under [rule]: the
    candidates are those of [EvaluateLine], none when it fails. *)
Definition indexed_line (rule : SelectedRule.t) (line : bytes) : LineIndex.t :=
  {| LineIndex.Start := 0;
     LineIndex.End_ := Z.of_nat (length line);
     LineIndex.Decision := SelectedRule.Decision rule;
     LineIndex.Candidates :=
       match mapper.EvaluateLine (Some rule) line with
       | Ok cands => cands
       | Err _ => []
       end |}.

End vocabulary.


Section remote_vocabulary.
Context `{spicedb.Remote}.

(** The remote check fails at transport or protocol level: the request
    fails, the status is not 200, or the body does not decode. *)
Definition remote_failure (r : spicedb.http_result) : Prop :=
  match r with
  | spicedb.TransportError _ => True
  | spicedb.Response status body =>
      status <> 200%Z \/ spicedb.decode_permissionship body = None
  end.

End remote_vocabulary.

Section template_vocabulary.
Context `{MapRange} `{Codec} `{Text}.

(** The template after the substitution of the values and of the
    fallbacks: the value of [replaced] when [buildCandidate] tests it for
    braces. *)
Definition renderTemplate (doc : any) (fallback : option (gmap string (list string)))
    (tmpl : string) (values : gmap string any) : string :=
  let replaced :=
    foldl (fun replaced kv =>
             strings.ReplaceAll replaced ("{" +:+ kv.1 +:+ "}") (fmt.Sprintf_v kv.2))
      tmpl (range_order values) in
  foldl (fun replaced kp =>
           let needle := "{" +:+ kp.1 +:+ "}" in
           if strings.Contains replaced needle
           then mapper.tryFallback doc kp.2 replaced needle
           else replaced)
    replaced (range_map fallback).

(** Dropping a leading [object_type:]. *)
Definition stripTypePrefix (objectType id : string) : string :=
  if strings.HasPrefix id (objectType +:+ ":")
  then strings.TrimPrefix id (objectType +:+ ":")
  else id.

(** The order of the specification: the prefix is stripped from the
    rendered id, then the result is normalized. *)
Definition stripThenNormalize (objectType : string) (norm : NormalizeSpec.t)
    (rendered : string) : string :=
  mapper.applyNormalize (stripTypePrefix objectType rendered) norm.

(** The other order: the rendered id is normalized, then the prefix is
    stripped from the result. *)
Definition normalizeThenStrip (objectType : string) (norm : NormalizeSpec.t)
    (rendered : string) : string :=
  stripTypePrefix objectType (mapper.applyNormalize rendered norm).

Definition brace_free (s : string) : Prop :=
  strings.Contains s "{" = false /\ strings.Contains s "}" = false.

(** The object id of [c] is a rendered template without braces, normalized
    and then stripped of the prefix [object_type:]. *)
Definition normalized_then_stripped (norm : NormalizeSpec.t)
    (c : auth.CandidateKey) : Prop :=
  exists rendered,
    brace_free rendered /\
    auth.ObjectID c = normalizeThenStrip (auth.ObjectType c) norm rendered.

End template_vocabulary.

(** The [float64] that the integer numeral [s] (the digits of its absolute
    value, at most 2^53) denotes: its shortest digits are those of [s]
    without the trailing zeros, and the decimal point is after the last
    digit of [s]. *)
Definition float64_of_numeral (negative : bool) (s : string) : float64 :=
  let ds := strings.TrimRight s "0" in
  {| neg := negative;
     d := ds;
     dp := if String.eqb ds "" then 0%Z else Z.of_nat (String.length s) |}.

Fixpoint all_digits (s : string) : bool :=
  match s with
  | EmptyString => true
  | String c r =>
      (48 <=? nat_of_ascii c)%nat && (nat_of_ascii c <=? 57)%nat && all_digits r
  end.

(** A decimal numeral of a natural number: digits, not empty, no leading
    zero unless it is ["0"]. *)
Definition is_numeral (s : string) : bool :=
  match s with
  | EmptyString => false
  | String "0"%char r => String.eqb r ""
  | _ => all_digits s
  end.

(** The integer written in plain decimal, which is how the specification
    says a numeric scalar with an integer value renders. *)
Definition plainDecimal (negative : bool) (s : string) : string :=
  (if negative then "-" else "") +:+ s.

Section archive_vocabulary.
Context `{Text}.

(** The entries of an archive that [renderTarGzipJSONL] streams: regular
    files whose name ends in [.jsonl]. *)
Definition jsonl_entry (e : tar.Header * Reader) : bool :=
  Ascii.eqb (tar.Typeflag e.1) tar.TypeReg &&
  strings.HasSuffix (strings_ToLower (tar.Name e.1)) ".jsonl".

(** The decoded record content of an archive: the bytes of its [.jsonl]
    entries, in archive order. *)
Definition decoded_records (entries : list (tar.Header * Reader)) : bytes :=
  concat (map (fun e => remaining e.2) (filter (fun e => Is_true (jsonl_entry e)) entries)).

(** The stream, or the archive, ends with [io.EOF]. *)
Definition clean_end (last : option error) : Prop :=
  last = None \/ last = Some EOF.

End archive_vocabulary.

(** The bytes of [content] in the half-open range [[start, end)]. *)
Definition byte_range (content : bytes) (start end_ : Z) : bytes :=
  take (Z.to_nat (end_ - start)) (drop (Z.to_nat start) content).

(** The physical lines of a byte sequence: each ends after its newline; the
    last one is what remains after the last newline, if anything. *)
Fixpoint physical_lines (b : bytes) : list bytes :=
  match b with
  | [] => []
  | c :: r =>
      if Ascii.eqb c newline then [c] :: physical_lines r
      else match physical_lines r with
           | [] => [[c]]
           | chunk :: rest => (c :: chunk) :: rest
           end
  end.

(** [lines] are consecutive non-empty ranges that start at [from] and end
    at [to]: each begins where the one before ends. *)
Fixpoint partitions (lines : list LineIndex.t) (from to : Z) : Prop :=
  match lines with
  | [] => from = to
  | ln :: rest =>
      LineIndex.Start ln = from /\
      (from < LineIndex.End_ ln)%Z /\
      partitions rest (LineIndex.End_ ln) to
  end.

(** One record: bytes without newline followed by the newline, or, for the
    last line only, not-empty bytes without newline. *)
Definition one_record (chunk : bytes) (is_last : bool) : Prop :=
  exists body,
    (newline ∉ body) /\
    (chunk = body ++ [newline] \/ (is_last = true /\ chunk = body /\ body <> [])).

Section index_vocabulary.
Context `{MapRange} `{Codec} `{Text}.

(** The candidates that [build] stores for a chunk: those of the chunk
    without its line terminator, none when the evaluation fails. *)
Definition chunk_candidates (rule : SelectedRule.t) (chunk : bytes)
  : list auth.CandidateKey :=
  match mapper.EvaluateLine (Some rule)
          (bytes_of_string
             (strings.TrimRight (string_of_bytes chunk)
                (String carriage_return (String newline "")))) with
  | Ok cands => cands
  | Err _ => []
  end.

(** The lines of an index over the chunks [chunks], the first of which
    starts at [offset]. *)
Fixpoint index_chunks (rule : SelectedRule.t) (offset : Z) (chunks : list bytes)
  : list LineIndex.t :=
  match chunks with
  | [] => []
  | chunk :: rest =>
      let end_ := int64_add offset (Z.of_nat (length chunk)) in
      {| LineIndex.Start := offset;
         LineIndex.End_ := end_;
         LineIndex.Decision := SelectedRule.Decision rule;
         LineIndex.Candidates := chunk_candidates rule chunk |}
      :: index_chunks rule end_ rest
  end.

End index_vocabulary.

Section filter_vocabulary.
Context {A : Type} `{auth.Authorizer A}.

(** The source byte ranges of the visible lines, concatenated in line
    order. *)
Definition visible_ranges (content : bytes) (lines : list LineIndex.t) (az : A)
  : bytes :=
  concat
    (map (fun ln => byte_range content (LineIndex.Start ln) (LineIndex.End_ ln))
       (filter (fun ln => Is_true (indexer.isVisible ln az)) lines)).

(** The ranges of the visible lines lie inside a source of [size] bytes:
    both ends are offsets of the source. *)
Definition ranges_in_source (size : Z) (lines : list LineIndex.t) (az : A) : Prop :=
  forall ln, ln ∈ lines -> indexer.isVisible ln az = true ->
    (0 <= LineIndex.Start ln <= size)%Z /\ (0 <= LineIndex.End_ ln <= size)%Z.

End filter_vocabulary.

Section cache_vocabulary.
Context `{MapRange} `{Codec} `{FilePath} `{Text} `{IndexCodec}.



Definition Config_of (opts : Options.t) : Config.t :=
  {| Config.SourceDir := Options.SourceDir opts;
     Config.MapperFileName := Options.MapperFileName opts;
     Config.InheritParent := Options.MapperInherit opts;
     Config.MissingMapperMode := Options.MissingMapperMode opts;
     Config.DefaultMissingKey := Options.MissingResource opts |}.

End cache_vocabulary.

(** The value of a hexadecimal digit. *)
Definition hex_value (c : ascii) : nat :=
  let n := nat_of_ascii c in
  if (n <=? 57)%nat then n - 48 else n - 87.

Section hash_vocabulary.
Context `{Codec}.

(** SHA-1 does not make the serializations of the two rule lists collide. *)
Definition no_collision (rules1 rules2 : list MappingRule.t) : Prop :=
  sha1_Sum (json_Marshal_rules rules1) = sha1_Sum (json_Marshal_rules rules2) ->
  json_Marshal_rules rules1 = json_Marshal_rules rules2.

End hash_vocabulary.

(** ** Vocabulary of the further properties *)

Section segment_vocabulary.
Context {A : Type} `{auth.Authorizer A}.

(** The bytes of the source that the segments cover, in order. *)
Definition segment_bytes (content : bytes) (segments : list (Z * Z)) : bytes :=
  concat (map (fun seg => byte_range content seg.1 seg.2) segments).

(** No visible line ends before it starts. *)
Definition forward_ranges (lines : list LineIndex.t) (az : A) : Prop :=
  forall ln, ln ∈ lines -> indexer.isVisible ln az = true ->
    (LineIndex.Start ln <= LineIndex.End_ ln)%Z.

(** The segments are not empty, ascend, and leave a gap between one and
    the next; the first one starts after [lo]. *)
Fixpoint gapped (segments : list (Z * Z)) (lo : Z) : Prop :=
  match segments with
  | [] => True
  | seg :: rest => (lo < seg.1)%Z /\ (seg.1 < seg.2)%Z /\ gapped rest seg.2
  end.

(** The lines of the index that [az] may see. *)
Definition visible_lines (lines : list LineIndex.t) (az : A) : list LineIndex.t :=
  filter (fun ln => Is_true (indexer.isVisible ln az)) lines.

End segment_vocabulary.

Section order_vocabulary.
Context {A B : Type} `{auth.Authorizer A} `{auth.Authorizer B}.

(** [bz] allows every candidate that [az] allows. *)
Definition allows_more (az : A) (bz : B) : Prop :=
  forall c, auth.IsAllowed az c = true -> auth.IsAllowed bz c = true.

End order_vocabulary.

Section index_cache_vocabulary.
Context `{MapRange} `{Codec} `{FilePath} `{Text} `{IndexCodec}.

(** The cache file that [BuildOrLoad] consults for a file with the stat
    [st] under the rule [rule] ([None]: no rule). *)
Definition index_cache_path (opts : Options.t) (sourcePath : string)
    (st : FileInfo) (rule : option SelectedRule.t) : string :=
  indexer.cacheFilePath (Options.IndexDir opts) sourcePath (Size st)
    (ModTimeUnixNano st)
    (match rule with
     | Some rule => SelectedRule.RuleHash rule
     | None => "passthrough"
     end)
    (if (Options.FormatVersion opts <=? 0)%Z then 1%Z else Options.FormatVersion opts).

(** The index survives the cache: what [json.Marshal] writes of it,
    [json.Unmarshal] reads back as it was. *)
Definition reads_back (fi : FileIndex.t) : Prop :=
  exists b, index_Marshal fi = Ok b /\ index_Unmarshal b = Some fi.

End index_cache_vocabulary.

(** The separator of the fields of a cache key. *)
Definition pipe : ascii := "|"%char.

(** The separator of the tokens of a pointer. *)
Definition slash : ascii := "/"%char.

(** The key that [cacheFilePath] hashes: its variable [k]. *)
Definition cache_key (sourcePath : string) (size mtime : Z) (ruleHash : string)
    (formatVersion : Z) : string :=
  fmt.Sprintf_d formatVersion +:+ "|" +:+ sourcePath +:+ "|" +:+
  fmt.Sprintf_d size +:+ "|" +:+ fmt.Sprintf_d mtime +:+ "|" +:+ ruleHash.

(** A rule hash as the code makes it: the word [passthrough], or the
    hexadecimal form of a digest. *)
Definition is_rule_hash (h : string) : Prop :=
  h = "passthrough" \/ exists b, h = hex_EncodeToString b.

Section key_vocabulary.
Context `{Codec}.

(** SHA-1 does not make the two keys collide. *)
Definition keys_do_not_collide (k1 k2 : string) : Prop :=
  sha1_Sum (bytes_of_string k1) = sha1_Sum (bytes_of_string k2) -> k1 = k2.

End key_vocabulary.

(** A table with at most one key: the order of [range] leaves no choice. *)
Definition one_key {V : Type} (m : option (gmap string V)) : Prop :=
  match m with
  | Some m => (size m <= 1)%nat
  | None => True
  end.

(** Every table of the rule that the evaluation of a line ranges over has
    at most one key: the fallback paths of the mapper, and the fields of
    each of its [emit] entries and of their [from_array].  (For a mapper
    of kind [json_pointer] the one further table is the one that holds
    the value.) *)
Definition one_key_tables (r : MappingRule.t) : Prop :=
  one_key (MapperSpec.FallbackPaths (MappingRule.Mapper r)) /\
  Forall (fun e =>
            one_key (EmitSpec.Fields e) /\
            match EmitSpec.FromArray e with
            | Some fa => one_key (FromArraySpec.Fields fa)
            | None => True
            end)
    (MapperSpec.Emit (MappingRule.Mapper r)).

(** [if permission == "" { permission = "read" }] *)
Definition readOr (permission : string) : string :=
  if String.eqb permission "" then "read" else permission.

(** The candidate has the object type and the permission of the rule
    itself, or those of one of the [emit] entries of its mapper. *)
Definition candidate_of_rule (r : MappingRule.t) (c : auth.CandidateKey) : Prop :=
  (auth.ObjectType c = MappingRule.ObjectType r /\
   auth.Permission c = readOr (MappingRule.Permission r)) \/
  exists e, e ∈ MapperSpec.Emit (MappingRule.Mapper r) /\
    auth.ObjectType c = EmitSpec.ObjectType e /\
    auth.Permission c = readOr (EmitSpec.Permission e).

Section resolution_vocabulary.
Context `{FilePath} `{Text}.

(** The test of the loop of [ResolveRuleForFile] on one rule: its glob is
    not blank and matches the path of the file relative to the directory
    of the mapping file, or the base name of the file. *)
Definition rule_matches (mapperPath absFile : string) (r : MappingRule.t) : bool :=
  let glob := strings_TrimSpace (RuleMatch.Glob (MappingRule.Match r)) in
  negb (String.eqb glob "") &&
  (doublestar_Match glob
     (filepath_ToSlash
        match filepath_Rel (filepath_Dir mapperPath) absFile with
        | Ok rel => rel
        | Err _ => filepath_Base absFile
        end) ||
   doublestar_Match glob (filepath_Base absFile)).

(** The [n]-th directory above [dir]. *)
Definition ancestor (n : nat) (dir : string) : string := Nat.iter n filepath_Dir dir.

End resolution_vocabulary.

Section stream_vocabulary.
Context `{MapRange} `{Codec} `{FilePath} `{Text} `{IndexCodec} `{Archive}.
Context {A : Type} `{auth.Authorizer A}.

(** The physical lines of a decoded stream that [az] may see under
    [rule], whole and in order. *)
Definition filtered_stream (rule : option SelectedRule.t) (az : A) (content : bytes)
  : bytes :=
  concat
    (filter
       (fun chunk =>
          Is_true (projector.isVisibleLine rule
                     (bytes_TrimRight chunk (String carriage_return (String newline "")))
                     az))
       (physical_lines content)).

(** The same for an archive: its [.jsonl] entries one after the other. *)
Definition filtered_records (rule : option SelectedRule.t) (az : A)
    (entries : list (tar.Header * Reader)) : bytes :=
  concat (map (fun e => filtered_stream rule az (remaining e.2))
            (filter (fun e => Is_true (jsonl_entry e)) entries)).

End stream_vocabulary.

Section surface_vocabulary.
Context `{FilePath} `{Text}.

(** What [resolveEntries] makes of one entry of the directory [dir]. *)
Definition resolved (dir : string) (e : DirEntry.t) : fusefs_unix.resolvedEntry.t :=
  if DirEntry.IsDir e then
    {| fusefs_unix.resolvedEntry.name := DirEntry.Name e;
       fusefs_unix.resolvedEntry.source := filepath_Join dir (DirEntry.Name e);
       fusefs_unix.resolvedEntry.isDir := true;
       fusefs_unix.resolvedEntry.projected := false |}
  else
    {| fusefs_unix.resolvedEntry.name := (projector.VirtualJSONLName (DirEntry.Name e)).1;
       fusefs_unix.resolvedEntry.source := filepath_Join dir (DirEntry.Name e);
       fusefs_unix.resolvedEntry.isDir := false;
       fusefs_unix.resolvedEntry.projected :=
         (projector.VirtualJSONLName (DirEntry.Name e)).2 |}.

End surface_vocabulary.

(** The entry is a compressed file of records: a file whose name is
    [base] with the suffix [.gz] or [.tar.gz] after it, and ends in
    [.jsonl.gz] or [.jsonl.tar.gz] whatever the case of its letters. *)
Definition compressed_as `{Text} (e : DirEntry.t) (base : string) : Prop :=
  DirEntry.IsDir e = false /\
  (DirEntry.Name e = base +:+ ".gz" /\
   strings.HasSuffix (strings_ToLower (DirEntry.Name e)) ".jsonl.gz" = true \/
   DirEntry.Name e = base +:+ ".tar.gz" /\
   strings.HasSuffix (strings_ToLower (DirEntry.Name e)) ".jsonl.tar.gz" = true).

(** What [Lookup] makes of a rendering into an empty buffer: a memory
    file with the bytes written, read-only (mode [0o444]), or the error
    [EIO]. *)
Definition served {A : Type}
    (rendered : option (Buffer * option error * gmap string node))
  : option ((fusefs.Inode A + fusefs.Errno) * gmap string node) :=
  match rendered with
  | None => None
  | Some (b, None, fs') =>
      Some (inl (fusefs.MemFile (Bytes b) 292 (Z.of_nat (length (Bytes b)))), fs')
  | Some (_, Some _, fs') => Some (inr fusefs.EIO, fs')
  end.

(** The strings ascend in the order of [sort.Strings]. *)
Definition ascending (l : list string) : Prop :=
  Sorted (fun a b => String.leb a b = true) l.

(** The mode of a listed entry. *)
Definition mode_of (isDir : bool) : Z :=
  if isDir then fusefs.S_IFDIR else fusefs.S_IFREG.

(** The options that the surface hands to the indexer and the projector. *)
Definition Options_of (cfg : fusefs.Config) : Options.t :=
  {| Options.SourceDir := fusefs.SourceDir cfg;
     Options.MapperFileName := fusefs.MapperFileName cfg;
     Options.MapperInherit := fusefs.MapperInherit cfg;
     Options.MissingMapperMode := fusefs.MissingMapperMode cfg;
     Options.MissingResource := fusefs.MissingResource cfg;
     Options.IndexDir := fusefs.IndexDir cfg;
     Options.FormatVersion := fusefs.IndexFormatVersion cfg |}.

Section chain_vocabulary.
Context `{Codec} `{FilePath} `{Text}.

(** The mapping file at the absolute path [abs] decodes to [mf], of
    version 1. *)
Definition mapping_file_at (fs : gmap string node) (abs : string)
    (mf : MappingFile.t) : Prop :=
  exists b, os.ReadFile fs abs = Ok b /\ yaml_Unmarshal b = Some mf /\
            MappingFile.Version mf = 1%Z.

(** The chain of mapping files that [loadRules] follows from [path]: the
    absolute paths of the files, nearest first, and their rules one list
    after the other.  The chain goes on to the file that [extends] names,
    relative to the directory of the file, when [inherit] is set and the
    name is not blank. *)
Inductive extends_chain (fs : gmap string node) (inherit : bool)
  : string -> list string -> list MappingRule.t -> Prop :=
| chain_end (path abs : string) (mf : MappingFile.t) :
    filepath_Abs path = Ok abs ->
    mapping_file_at fs abs mf ->
    inherit && negb (String.eqb (strings_TrimSpace (MappingFile.Extends mf)) "") = false ->
    extends_chain fs inherit path [abs] (MappingFile.Rules mf)
| chain_step (path abs : string) (mf : MappingFile.t)
    (files : list string) (rules : list MappingRule.t) :
    filepath_Abs path = Ok abs ->
    mapping_file_at fs abs mf ->
    inherit && negb (String.eqb (strings_TrimSpace (MappingFile.Extends mf)) "") = true ->
    extends_chain fs inherit
      (filepath_Clean (filepath_Join (filepath_Dir abs) (MappingFile.Extends mf)))
      files rules ->
    extends_chain fs inherit path (abs :: files) (MappingFile.Rules mf ++ rules).

End chain_vocabulary.
(** ** A concrete platform

    Instances of the library classes on which the definitions above can be
    run: ASCII case mapping and white space, maps visited in the order of
    [map_to_list], slash-separated rooted paths, and decoders given by the
    table of the documents used in the examples. *)

Module Fixture.

Definition lower_ascii (c : ascii) : ascii :=
  let n := nat_of_ascii c in
  if (65 <=? n)%nat && (n <=? 90)%nat then ascii_of_nat (n + 32) else c.

Fixpoint ToLower (s : string) : string :=
  match s with
  | EmptyString => EmptyString
  | String c r => String (lower_ascii c) (ToLower r)
  end.

Definition white_space : string :=
  String " "%char (String "009"%char (String "010"%char
    (String "011"%char (String "012"%char (String "013"%char "")))))%string.

Definition TrimSpace (s : string) : string := strings.Trim s white_space.

Fixpoint read_digits (s : string) (acc : option Z) : option Z :=
  match s with
  | EmptyString => acc
  | String c r =>
      let n := nat_of_ascii c in
      if (48 <=? n)%nat && (n <=? 57)%nat
      then read_digits r (Some (10 * default 0%Z acc + Z.of_nat (n - 48))%Z)
      else acc
  end.

Definition Sscanf_d (s : string) : option Z := read_digits s None.

#[export] Instance text : Text := {
  strings_ToLower := ToLower;
  strings_TrimSpace := TrimSpace;
  fmt_Sscanf_d := Sscanf_d;
}.

#[export] Instance map_range : MapRange := {
  range_order V m := map_to_list m;
  range_order_perm V m := reflexivity _;
}.

Fixpoint has_slash (s : string) : bool :=
  match s with
  | EmptyString => false
  | String c r => Ascii.eqb c "/"%char || has_slash r
  end.

(** What precedes the last slash; nothing when there is no slash. *)
Fixpoint before_last_slash (s : string) : string :=
  match s with
  | EmptyString => EmptyString
  | String c r => if has_slash r then String c (before_last_slash r) else EmptyString
  end.

(** What follows the last slash; everything when there is no slash. *)
Fixpoint after_last_slash (s : string) : string :=
  match s with
  | EmptyString => EmptyString
  | String c r =>
      if has_slash r then after_last_slash r
      else if Ascii.eqb c "/"%char then r else s
  end.

Definition path_Dir (p : string) : string :=
  match p with
  | String "/"%char rest => String "/"%char (before_last_slash rest)
  | _ => "."
  end.

Definition path_Abs (p : string) : result string :=
  if strings.HasPrefix p "/" then Ok p else Ok (String "/"%char p).

Definition path_Join (a b : string) : string :=
  if String.eqb a "/" then a +:+ b else a +:+ "/" +:+ b.

Definition path_Rel (base target : string) : result string :=
  let pfx := if String.eqb base "/" then base else base +:+ "/" in
  if strings.HasPrefix target pfx then Ok (strings.TrimPrefix target pfx)
  else Err (Errorf "Rel: can't make relative").

(** Globs of the examples: [*suffix] matches a name without slash that ends
    in [suffix]; any other pattern matches itself. *)
Definition glob_Match (pattern name : string) : bool :=
  match pattern with
  | String "*"%char suffix => strings.HasSuffix name suffix && negb (has_slash name)
  | _ => String.eqb pattern name
  end.

(** [Clean] of a rooted path: empty and [.] elements are dropped, [..]
    drops the element before it. *)
Definition clean_step (stack : list string) (elem : string) : list string :=
  if String.eqb elem "" || String.eqb elem "." then stack
  else if String.eqb elem ".." then removelast stack
  else stack ++ [elem].

Definition path_Clean (p : string) : string :=
  "/" +:+ strings.Join (foldl clean_step [] (strings.Split p "/")) "/".

#[export] Instance file_path : FilePath := {
  filepath_Abs := path_Abs;
  filepath_Dir := path_Dir;
  filepath_Base := after_last_slash;
  filepath_Join := path_Join;
  filepath_Clean := path_Clean;
  filepath_Rel := path_Rel;
  filepath_ToSlash p := p;
  doublestar_Match := glob_Match;
}.

(** The double quote. *)
Definition q : string := String "034"%char "".

Definition quoted (s : string) : string := q +:+ s +:+ q.

(** The record [{"k":v}] with [v] written as it stands. *)
Definition record1 (k v : string) : string := "{" +:+ quoted k +:+ ":" +:+ v +:+ "}".

Definition ten : float64 := {| neg := false; d := "1"; dp := 2 |}.
Definition million : float64 := {| neg := false; d := "1"; dp := 7 |}.

(** The JSON documents of the examples and what they decode to. *)
Definition json_table : list (string * any) :=
  [ (record1 "metric_row_id" (quoted "orders_1"),
     AMap [("metric_row_id", AString "orders_1")]);
    (record1 "metric_row_id" (quoted "orders_2"),
     AMap [("metric_row_id", AString "orders_2")]);
    (record1 "metric_row_id" (quoted "orders_3"),
     AMap [("metric_row_id", AString "orders_3")]);
    (record1 "id" "null", AMap [("id", ANil)]);
    (record1 "id" "1000000", AMap [("id", AFloat64 million)]);
    (record1 "id" "10", AMap [("id", AFloat64 ten)]);
    (record1 "id" (quoted "a"), AMap [("id", AString "a")]) ].

Fixpoint lookup_table {V : Type} (t : list (string * V)) (s : string) : option V :=
  match t with
  | [] => None
  | (k, v) :: r => if String.eqb k s then Some v else lookup_table r s
  end.

Definition pointer_rule (objectType pointer tmpl : string) (norm : NormalizeSpec.t)
  : MappingRule.t :=
  {| MappingRule.Match := {| RuleMatch.Glob := "*.jsonl" |};
     MappingRule.Decision := "";
     MappingRule.ObjectType := objectType;
     MappingRule.Permission := "read";
     MappingRule.MissingResourceKey := "deny";
     MappingRule.Mapper :=
       {| MapperSpec.Kind := "json_pointer";
          MapperSpec.Pointer := pointer;
          MapperSpec.CanonicalTemplate := tmpl;
          MapperSpec.Fields := None;
          MapperSpec.FromArray := None;
          MapperSpec.Emit := [];
          MapperSpec.Normalize := norm;
          MapperSpec.FallbackPaths := None |} |}.

Definition no_normalize : NormalizeSpec.t :=
  {| NormalizeSpec.Lowercase := false; NormalizeSpec.TrimSlash := false |}.

Definition trim_slash : NormalizeSpec.t :=
  {| NormalizeSpec.Lowercase := false; NormalizeSpec.TrimSlash := true |}.

(** The rule of the repository's tests: [metric_row:{value}] over
    [/metric_row_id]. *)
Definition orders_rule : MappingRule.t :=
  pointer_rule "metric_row" "/metric_row_id" "metric_row:{value}" no_normalize.

(** A rule with tables: [fields] and [fallback_paths] of the mapper, built
    by the YAML decoder from the entries in the order of the document. *)
Definition table_rule_of (fields : gmap string string)
    (fallback : gmap string (list string)) : MappingRule.t :=
  {| MappingRule.Match := {| RuleMatch.Glob := "*.jsonl" |};
     MappingRule.Decision := "all";
     MappingRule.ObjectType := "job";
     MappingRule.Permission := "read";
     MappingRule.MissingResourceKey := "";
     MappingRule.Mapper :=
       {| MapperSpec.Kind := "multi_extract";
          MapperSpec.Pointer := "";
          MapperSpec.CanonicalTemplate := "";
          MapperSpec.Fields := Some fields;
          MapperSpec.FromArray := None;
          MapperSpec.Emit := [];
          MapperSpec.Normalize := no_normalize;
          MapperSpec.FallbackPaths := Some fallback |} |}.

Definition table_rule (fields : list (string * string))
    (fallback : list (string * list string)) : MappingRule.t :=
  table_rule_of (list_to_map fields) (list_to_map fallback).

(** The mapping files of the examples (YAML in flow style) and what they
    decode to. *)
Definition yaml_orders : string :=
  "{version: 1, rules: [{match: {glob: '*.jsonl'}, object_type: metric_row, permission: read, missing_resource_key: deny, mapper: {kind: json_pointer, pointer: /metric_row_id, canonical_template: 'metric_row:{value}'}}]}".

Definition yaml_child : string :=
  "{version: 1, extends: ../.metricfs-map.yaml, rules: [{match: {glob: '*.jsonl'}, decision: all, object_type: job, permission: read, mapper: {kind: multi_extract, fields: {namespace: /ns, name: /name}, fallback_paths: {namespace: [/f/ns], name: [/f/name]}}}]}".

Definition yaml_child_reordered : string :=
  "{version: 1, extends: ../.metricfs-map.yaml, rules: [{match: {glob: '*.jsonl'}, decision: all, object_type: job, permission: read, mapper: {kind: multi_extract, fields: {name: /name, namespace: /ns}, fallback_paths: {name: [/f/name], namespace: [/f/ns]}}}]}".

Definition yaml_table : list (string * MappingFile.t) :=
  [ (yaml_orders,
     {| MappingFile.Version := 1; MappingFile.Extends := "";
        MappingFile.Rules := [orders_rule] |});
    (yaml_child,
     {| MappingFile.Version := 1; MappingFile.Extends := "../.metricfs-map.yaml";
        MappingFile.Rules :=
          [table_rule [("namespace", "/ns"); ("name", "/name")]
             [("namespace", ["/f/ns"]); ("name", ["/f/name"])]] |});
    (yaml_child_reordered,
     {| MappingFile.Version := 1; MappingFile.Extends := "../.metricfs-map.yaml";
        MappingFile.Rules :=
          [table_rule [("name", "/name"); ("namespace", "/ns")]
             [("name", ["/f/name"]); ("namespace", ["/f/ns"])]] |}) ].

(** A serialization of the rules that tells apart the rules of the
    examples, and the identity as digest. *)
Definition marshal_rule (r : MappingRule.t) : string :=
  MappingRule.ObjectType r +:+ "|" +:+ MappingRule.Decision r +:+ "|" +:+
  MapperSpec.Kind (MappingRule.Mapper r) +:+ "|" +:+
  MapperSpec.CanonicalTemplate (MappingRule.Mapper r).

Definition marshal_rules (rules : list MappingRule.t) : bytes :=
  bytes_of_string (strings.Join (map marshal_rule rules) ";").

#[export] Instance codec : Codec := {
  json_Unmarshal b := lookup_table json_table (string_of_bytes b);
  yaml_Unmarshal b := lookup_table yaml_table (string_of_bytes b);
  json_Marshal_rules := marshal_rules;
  sha1_Sum b := b;
}.

(** An index cache that keeps nothing readable. *)
#[export] Instance index_codec : IndexCodec := {
  index_Marshal _ := Ok [];
  index_Unmarshal _ := None;
}.

(** The authorizer of the repository's tests: rows 1 and 3 may be read. *)
Definition row (id : string) : auth.CandidateKey :=
  {| auth.ObjectType := "metric_row"; auth.ObjectID := id; auth.Permission := "read" |}.

Definition alice : auth.SetAuthorizer :=
  auth.NewFromAllowList
    [ row "orders_1";
      {| auth.ObjectType := "metric_row"; auth.ObjectID := "orders_3";
         auth.Permission := "" |} ].

Definition selected (decision : string) (r : MappingRule.t) : SelectedRule.t :=
  {| SelectedRule.Decision := decision;
     SelectedRule.MissingResourceKey := "deny";
     SelectedRule.Rule := r;
     SelectedRule.RuleHash := "0000000000000000000000000000000000000000" |}.

Definition line_of (decision : string) (cands : list auth.CandidateKey) : LineIndex.t :=
  {| LineIndex.Start := 0; LineIndex.End_ := 1;
     LineIndex.Decision := decision; LineIndex.Candidates := cands |}.

(** A remote end that is unavailable for the first request (status 503)
    and grants every permission afterwards. *)
Definition granted_body : bytes :=
  bytes_of_string (record1 "permissionship" (quoted "PERMISSIONSHIP_HAS_PERMISSION")).

#[export] Instance flaky_remote : spicedb.Remote := {
  spicedb.client_Do n _ :=
    match n with
    | O => spicedb.Response 503 []
    | S _ => spicedb.Response 200 granted_body
    end;
  spicedb.decode_permissionship b :=
    if String.eqb (string_of_bytes b) (string_of_bytes granted_body)
    then Some "PERMISSIONSHIP_HAS_PERMISSION" else None;
}.

Definition fresh_authorizer : spicedb.SpiceDBAuthorizer :=
  {| spicedb.cache := ∅; spicedb.requests := [] |}.

(** A toy container in place of gzip: two magic bytes, then the payload as
    it is; and a toy archive: a directory entry [inner/] followed by the
    regular file [inner/orders.jsonl] that holds the whole stream. *)
Definition magic : bytes := [ascii_of_nat 31; ascii_of_nat 139].

Definition unpack (r : Reader) : result Reader :=
  match remaining r with
  | a :: b :: payload =>
      if Ascii.eqb a (ascii_of_nat 31) && Ascii.eqb b (ascii_of_nat 139)
      then Ok {| remaining := payload; failure := None |}
      else Err (Errorf "gzip: invalid header")
  | _ => Err (Errorf "unexpected EOF")
  end.

Definition unarchive (r : Reader) : list (tar.Header * Reader) * option error :=
  ([ ({| tar.Typeflag := "5"%char; tar.Name := "inner/" |},
      {| remaining := []; failure := None |});
     ({| tar.Typeflag := tar.TypeReg; tar.Name := "inner/orders.jsonl" |},
      {| remaining := remaining r; failure := None |}) ],
   None).

#[export] Instance archive : Archive := {
  gzip_NewReader := unpack;
  tar_NewReader := unarchive;
}.

Definition nl : string := String newline "".

Definition order (n : string) : string :=
  record1 "metric_row_id" (quoted ("orders_" +:+ n)).

(** The three records of the repository's tests; the last one has no
    newline after it. *)
Definition orders : bytes :=
  bytes_of_string (order "1" +:+ nl +:+ order "2" +:+ nl +:+ order "3").

Definition file_entry (name : string) : DirEntry.t :=
  {| DirEntry.Name := name; DirEntry.IsDir := false |}.

(** [/data] has a mapping file; [/raw] has none. *)
Definition disk : gmap string node :=
  {[ "/data" := Dir [ file_entry ".metricfs-map.yaml"; file_entry "orders.jsonl";
                      file_entry "orders.jsonl.gz"; file_entry "orders.jsonl.tar.gz" ];
     "/data/.metricfs-map.yaml" := File (bytes_of_string yaml_orders) 1;
     "/data/orders.jsonl" := File orders 2;
     "/data/orders.jsonl.gz" := File (magic ++ orders) 3;
     "/data/orders.jsonl.tar.gz" := File (magic ++ orders) 4;
     "/raw" := Dir [ file_entry "raw.jsonl"; file_entry "raw.jsonl.gz";
                     file_entry "raw.jsonl.tar.gz" ];
     "/raw/raw.jsonl" := File orders 5;
     "/raw/raw.jsonl.gz" := File (magic ++ orders) 6;
     "/raw/raw.jsonl.tar.gz" := File (magic ++ orders) 7 ]}.

Definition options (sourceDir missingMapper : string) : Options.t :=
  {| Options.SourceDir := sourceDir;
     Options.MapperFileName := ".metricfs-map.yaml";
     Options.MapperInherit := true;
     Options.MissingMapperMode := missingMapper;
     Options.MissingResource := "deny";
     Options.IndexDir := "";
     Options.FormatVersion := 1 |}.

Definition mount (sourceDir missingMapper : string) : fusefs.dirNode auth.SetAuthorizer :=
  {| fusefs.cfg :=
       {| fusefs.SourceDir := sourceDir;
          fusefs.MountDir := "/mnt";
          fusefs.MapperFileName := ".metricfs-map.yaml";
          fusefs.MapperInherit := true;
          fusefs.MissingMapperMode := missingMapper;
          fusefs.MissingResource := "deny";
          fusefs.IndexDir := "";
          fusefs.IndexFormatVersion := 1;
          fusefs.AllowOther := false;
          fusefs.ReadOnly := true |};
     fusefs.az := alice;
     fusefs.sourcePath := sourceDir |}.

Definition empty : Buffer := {| Bytes := [] |}.

(** An index of a file of five bytes, [ab\ncd], whose two lines are
    visible to [alice], and the file after it has been cut to three bytes. *)
Definition stale_index : FileIndex.t :=
  {| FileIndex.SourcePath := "/data/short.jsonl";
     FileIndex.Size := 5;
     FileIndex.MtimeUnix := 1;
     FileIndex.RuleHash := "0000000000000000000000000000000000000000";
     FileIndex.Passthrough := false;
     FileIndex.BuiltAt := 0;
     FileIndex.Lines :=
       [ {| LineIndex.Start := 0; LineIndex.End_ := 3; LineIndex.Decision := "any";
            LineIndex.Candidates := [row "orders_1"] |};
         {| LineIndex.Start := 3; LineIndex.End_ := 5; LineIndex.Decision := "any";
            LineIndex.Candidates := [row "orders_3"] |} ] |}.

Definition cut_file : bytes := bytes_of_string ("ab" +:+ nl).

Definition cut_disk : gmap string node :=
  {[ "/data/short.jsonl" := File cut_file 2 ]}.

(** [/data/sub] has a mapping file that extends the one of [/data]; in
    [reordered_disk] the same file has the keys of its tables in another
    order. *)
Definition extended_disk : gmap string node :=
  <["/data/sub/.metricfs-map.yaml" := File (bytes_of_string yaml_child) 8]> disk.

Definition reordered_disk : gmap string node :=
  <["/data/sub/.metricfs-map.yaml" := File (bytes_of_string yaml_child_reordered) 9]> disk.

(** A serialization of the rules that is injective: the bits of the code of
    the rule list as a countable type. *)
#[export] Instance RuleMatch_eq_dec : EqDecision RuleMatch.t.
Proof. solve_decision. Defined.
#[export] Instance NormalizeSpec_eq_dec : EqDecision NormalizeSpec.t.
Proof. solve_decision. Defined.
#[export] Instance FromArraySpec_eq_dec : EqDecision FromArraySpec.t.
Proof. solve_decision. Defined.
#[export] Instance EmitSpec_eq_dec : EqDecision EmitSpec.t.
Proof. solve_decision. Defined.
#[export] Instance MapperSpec_eq_dec : EqDecision MapperSpec.t.
Proof. solve_decision. Defined.
#[export] Instance MappingRule_eq_dec : EqDecision MappingRule.t.
Proof. solve_decision. Defined.

#[export] Instance RuleMatch_countable : Countable RuleMatch.t.
Proof.
  refine (inj_countable' RuleMatch.Glob (fun g => {| RuleMatch.Glob := g |}) _).
  by intros [].
Defined.
#[export] Instance NormalizeSpec_countable : Countable NormalizeSpec.t.
Proof.
  refine (inj_countable'
            (fun n => (NormalizeSpec.Lowercase n, NormalizeSpec.TrimSlash n))
            (fun t => {| NormalizeSpec.Lowercase := t.1; NormalizeSpec.TrimSlash := t.2 |}) _).
  by intros [].
Defined.
#[export] Instance FromArraySpec_countable : Countable FromArraySpec.t.
Proof.
  refine (inj_countable'
            (fun f => (FromArraySpec.Pointer f, FromArraySpec.Fields f,
                       FromArraySpec.CanonicalTemplate f))
            (fun t => {| FromArraySpec.Pointer := t.1.1; FromArraySpec.Fields := t.1.2;
                         FromArraySpec.CanonicalTemplate := t.2 |}) _).
  by intros [].
Defined.
#[export] Instance EmitSpec_countable : Countable EmitSpec.t.
Proof.
  refine (inj_countable'
            (fun e => (EmitSpec.ObjectType e, EmitSpec.Permission e, EmitSpec.Fields e,
                       EmitSpec.FromArray e, EmitSpec.CanonicalTemplate e))
            (fun t => {| EmitSpec.ObjectType := t.1.1.1.1; EmitSpec.Permission := t.1.1.1.2;
                         EmitSpec.Fields := t.1.1.2; EmitSpec.FromArray := t.1.2;
                         EmitSpec.CanonicalTemplate := t.2 |}) _).
  by intros [].
Defined.
#[export] Instance MapperSpec_countable : Countable MapperSpec.t.
Proof.
  refine (inj_countable'
            (fun m => (MapperSpec.Kind m, MapperSpec.Pointer m, MapperSpec.CanonicalTemplate m,
                       MapperSpec.Fields m, MapperSpec.FromArray m, MapperSpec.Emit m,
                       MapperSpec.Normalize m, MapperSpec.FallbackPaths m))
            (fun t => {| MapperSpec.Kind := t.1.1.1.1.1.1.1; MapperSpec.Pointer := t.1.1.1.1.1.1.2;
                         MapperSpec.CanonicalTemplate := t.1.1.1.1.1.2;
                         MapperSpec.Fields := t.1.1.1.1.2; MapperSpec.FromArray := t.1.1.1.2;
                         MapperSpec.Emit := t.1.1.2; MapperSpec.Normalize := t.1.2;
                         MapperSpec.FallbackPaths := t.2 |}) _).
  by intros [].
Defined.
#[export] Instance MappingRule_countable : Countable MappingRule.t.
Proof.
  refine (inj_countable'
            (fun r => (MappingRule.Match r, MappingRule.Decision r, MappingRule.ObjectType r,
                       MappingRule.Permission r, MappingRule.MissingResourceKey r,
                       MappingRule.Mapper r))
            (fun t => {| MappingRule.Match := t.1.1.1.1.1; MappingRule.Decision := t.1.1.1.1.2;
                         MappingRule.ObjectType := t.1.1.1.2; MappingRule.Permission := t.1.1.2;
                         MappingRule.MissingResourceKey := t.1.2; MappingRule.Mapper := t.2 |}) _).
  by intros [].
Defined.

Fixpoint pos_bits (p : positive) : bytes :=
  match p with
  | xH => []
  | xO p => "0"%char :: pos_bits p
  | xI p => "1"%char :: pos_bits p
  end.

Definition marshal_injective (rules : list MappingRule.t) : bytes :=
  pos_bits (encode rules).


Definition injective_codec : Codec := {|
  json_Unmarshal b := lookup_table json_table (string_of_bytes b);
  yaml_Unmarshal b := lookup_table yaml_table (string_of_bytes b);
  json_Marshal_rules := marshal_injective;
  sha1_Sum b := b;
|}.

(** An authorizer that may read the three rows. *)
Definition everyone : auth.SetAuthorizer :=
  auth.NewFromAllowList [ row "orders_1"; row "orders_2"; row "orders_3" ].

(** The file of [stale_index] before it was cut: [ab\ncd]. *)
Definition whole_file : bytes := bytes_of_string ("ab" +:+ nl +:+ "cd").

Definition whole_disk : gmap string node :=
  {[ "/data/short.jsonl" := File whole_file 1 ]}.

Definition orders_stat : FileInfo :=
  {| Size := 86; ModTimeUnixNano := 2; StIsDir := false |}.

(** An index cache that keeps what it is given: the bits of the code of
    the index as a countable type, and their reading. *)
#[export] Instance LineIndex_eq_dec : EqDecision LineIndex.t.
Proof. solve_decision. Defined.
#[export] Instance FileIndex_eq_dec : EqDecision FileIndex.t.
Proof. solve_decision. Defined.

#[export] Instance LineIndex_countable : Countable LineIndex.t.
Proof.
  refine (inj_countable'
            (fun ln => ((LineIndex.Start ln, LineIndex.End_ ln),
                        (LineIndex.Decision ln, LineIndex.Candidates ln)))
            (fun t => {| LineIndex.Start := t.1.1; LineIndex.End_ := t.1.2;
                         LineIndex.Decision := t.2.1; LineIndex.Candidates := t.2.2 |}) _).
  by intros [].
Defined.
#[export] Instance FileIndex_countable : Countable FileIndex.t.
Proof.
  refine (inj_countable'
            (fun fi => (((FileIndex.SourcePath fi, FileIndex.RuleHash fi),
                         (FileIndex.Size fi, FileIndex.MtimeUnix fi)),
                        ((FileIndex.Passthrough fi, FileIndex.BuiltAt fi),
                         FileIndex.Lines fi)))
            (fun t => {| FileIndex.SourcePath := t.1.1.1; FileIndex.RuleHash := t.1.1.2;
                         FileIndex.Size := t.1.2.1; FileIndex.MtimeUnix := t.1.2.2;
                         FileIndex.Passthrough := t.2.1.1; FileIndex.BuiltAt := t.2.1.2;
                         FileIndex.Lines := t.2.2 |}) _).
  by intros [].
Defined.

Fixpoint bits_pos (b : bytes) : option positive :=
  match b with
  | [] => Some xH
  | c :: r =>
      match bits_pos r with
      | Some p =>
          if Ascii.eqb c "0" then Some (xO p)
          else if Ascii.eqb c "1" then Some (xI p)
          else None
      | None => None
      end
  end.

Definition keeping_codec : IndexCodec := {|
  index_Marshal fi := Ok (pos_bits (encode fi));
  index_Unmarshal b := match bits_pos b with Some p => decode p | None => None end;
|}.

Definition cached_options (sourceDir missingMapper : string) : Options.t :=
  {| Options.SourceDir := sourceDir;
     Options.MapperFileName := ".metricfs-map.yaml";
     Options.MapperInherit := true;
     Options.MissingMapperMode := missingMapper;
     Options.MissingResource := "deny";
     Options.IndexDir := "/cache";
     Options.FormatVersion := 1 |}.

Definition short_stat : FileInfo :=
  {| Size := 5; ModTimeUnixNano := 1; StIsDir := false |}.

(** Results and file systems can be compared. *)
#[export] Instance error_eq_dec : EqDecision error.
Proof. solve_decision. Defined.
#[export] Instance result_eq_dec {T : Type} `{EqDecision T} : EqDecision (result T).
Proof. solve_decision. Defined.
#[export] Instance DirEntry_eq_dec : EqDecision DirEntry.t.
Proof. solve_decision. Defined.
#[export] Instance node_eq_dec : EqDecision node.
Proof. solve_decision. Defined.
#[export] Instance Buffer_eq_dec : EqDecision Buffer.
Proof. solve_decision. Defined.

Definition dir_entry (name : string) : DirEntry.t :=
  {| DirEntry.Name := name; DirEntry.IsDir := true |}.

(** [/s] holds a mapping file, a compressed file of records, a directory
    and a file of another kind. *)
Definition shelf : gmap string node :=
  {[ "/s" := Dir [ file_entry ".metricfs-map.yaml"; file_entry "a.jsonl.gz";
                   dir_entry "sub"; file_entry "notes.txt" ];
     "/s/.metricfs-map.yaml" := File (bytes_of_string yaml_orders) 1;
     "/s/a.jsonl.gz" := File (magic ++ orders) 2;
     "/s/notes.txt" := File (bytes_of_string "hi") 3;
     "/s/sub" := Dir [] ]}.

(** A permissions file and what it decodes to: its second entry names no
    permission. *)
Definition allow_entry (id permission : string) : string :=
  "{" +:+ quoted "object_type" +:+ ":" +:+ quoted "metric_row" +:+ "," +:+
  quoted "object_id" +:+ ":" +:+ quoted id +:+ "," +:+
  quoted "permission" +:+ ":" +:+ quoted permission +:+ "}".

Definition permissions_doc : string :=
  record1 "allow"
    ("[" +:+ allow_entry "orders_1" "read" +:+ "," +:+ allow_entry "orders_3" "" +:+ "]").

Definition permissions_table : list (string * list auth.CandidateKey) :=
  [ (permissions_doc,
     [ row "orders_1";
       {| auth.ObjectType := "metric_row"; auth.ObjectID := "orders_3";
          auth.Permission := "" |} ]) ].

#[export] Instance permissions_codec : PermissionsCodec := {
  json_Unmarshal_permissions b := lookup_table permissions_table (string_of_bytes b);
}.

(** A toy [url.Parse]: the host is what stands between [://] and the next
    slash. *)
Definition host_of (endpoint : string) : result string :=
  let i := strings.Index endpoint "://" in
  if (i <? 0)%Z then Err (Errorf "parse: missing protocol scheme")
  else
    let rest := String.substring (Z.to_nat i + 3)
                  (String.length endpoint - (Z.to_nat i + 3)) endpoint in
    match strings.Split rest "/" with
    | host :: _ => Ok host
    | [] => Ok ""
    end.

#[export] Instance url_parser : spicedb.Url := {
  spicedb.url_Parse := host_of;
}.

(** The machine of the command: the source and the mount directory, and
    the permissions file. *)
Definition office : gmap string node :=
  {[ "/srv" := Dir [];
     "/mnt" := Dir [];
     "/etc/permissions.json" := File (bytes_of_string permissions_doc) 1 ]}.

Definition environment : gmap string string := {[ "SPICEDB_TOKEN" := "secret" ]}.

Definition flags (backend permissions : string) (noAuthz : bool) : main.commonFlags :=
  {| main.sourceDir := "/srv";
     main.mountDir := "/mnt";
     main.authBackend := backend;
     main.subject := "user:alice";
     main.readOnly := true;
     main.allowOther := false;
     main.spiceEndpoint := "spicedb:8443";
     main.spiceToken := "";
     main.spiceTokenEnv := "SPICEDB_TOKEN";
     main.spiceConsistency := "";
     main.watchEnabled := false;
     main.watchBackoff := "1s";
     main.reconcileInterval := 0;
     main.onSpiceUnavailable := "fail_closed";
     main.staleSnapshotTTL := 0;
     main.indexDir := "";
     main.indexFormatVersion := 1;
     main.indexHash := "sha1";
     main.indexWorkers := 1;
     main.mapperFileName := ".metricfs-map.yaml";
     main.mapperResolution := "nearest_ancestor";
     main.mapperInheritParent := true;
     main.missingMapper := "deny";
     main.missingResourceKey := "deny";
     main.permissionsFile := permissions;
     main.allowNoAuthz := noAuthz |}.

Definition remote_config : spicedb.SpiceDBConfig.t :=
  {| spicedb.SpiceDBConfig.Endpoint := "spicedb:8443/";
     spicedb.SpiceDBConfig.Token := "secret";
     spicedb.SpiceDBConfig.Subject := "group:eng#member";
     spicedb.SpiceDBConfig.Consistency := "fully_consistent" |}.

(** The authorizer after its first request, which failed. *)
Definition tried_authorizer : spicedb.SpiceDBAuthorizer :=
  {| spicedb.cache := ∅; spicedb.requests := [row "orders_1"] |}.

(** A document with a key that holds a slash. *)
Definition nested_doc : any :=
  AMap [("a", AMap [("b", AString "x"); ("c/d", AString "y")])].

(** Another order of [range]: the reverse of the one of [map_range]. *)
Definition reversed_range : MapRange := {|
  range_order V m := reverse (map_to_list m);
  range_order_perm V m := reverse_Permutation (map_to_list m);
|}.

(** The index directory of [cached_options] is taken by a regular file. *)
Definition blocked_disk : gmap string node :=
  <["/cache" := File [] 0]> whole_disk.

End Fixture.
(** * Properties *)

(** ** Visibility of a line *)

Section visibility.
Context {A : Type} `{auth.Authorizer A}.

Lemma everyAllowed_Forall (az : A) (cands : list auth.CandidateKey) :
  indexer.everyAllowed az cands = true <->
  forall c, c ∈ cands -> auth.IsAllowed az c = true.
Proof.
  induction cands as [|c rest IH]; simpl.
  - split; [intros _ c Hc; inversion Hc | done].
  - destruct (auth.IsAllowed az c) eqn:Hc; simpl.
    + rewrite IH. split.
      * intros Hrest c' Hin. apply elem_of_cons in Hin as [->|Hin]; auto.
      * intros Hall c' Hin. apply Hall. by apply list_elem_of_further.
    + split; [done|]. intros Hall.
      rewrite (Hall c) in Hc; [done | apply list_elem_of_here].
Qed.

Lemma someAllowed_Exists (az : A) (cands : list auth.CandidateKey) :
  indexer.someAllowed az cands = true <->
  exists c, c ∈ cands /\ auth.IsAllowed az c = true.
Proof.
  induction cands as [|c rest IH]; simpl.
  - split; [done | intros (c & Hc & _); inversion Hc].
  - destruct (auth.IsAllowed az c) eqn:Hc.
    + split; [|done]. intros _. exists c. split; [apply list_elem_of_here | done].
    + rewrite IH. split.
      * intros (c' & Hin & Hal). exists c'. split; [by apply list_elem_of_further | done].
      * intros (c' & Hin & Hal). apply elem_of_cons in Hin as [->|Hin].
        -- congruence.
        -- by exists c'.
Qed.

Lemma length_eqb_0_nil {T : Type} (l : list T) :
  (length l =? 0)%nat = true <-> l = [].
Proof. destruct l; simpl; split; done. Qed.

Lemma isVisible_unfold (ln : LineIndex.t) (az : A) :
  indexer.isVisible ln az = true <->
  LineIndex.Candidates ln <> [] /\
  (if String.eqb (LineIndex.Decision ln) "all"
   then forall c, c ∈ LineIndex.Candidates ln -> auth.IsAllowed az c = true
   else exists c, c ∈ LineIndex.Candidates ln /\ auth.IsAllowed az c = true).
Proof.
  unfold indexer.isVisible.
  destruct (length _ =? 0)%nat eqn:Hlen.
  - apply length_eqb_0_nil in Hlen. split; [done | intros [Hne _]; done].
  - assert (LineIndex.Candidates ln <> []) as Hne.
    { intros Hnil. apply length_eqb_0_nil in Hnil. congruence. }
    destruct (String.eqb _ "all").
    + rewrite everyAllowed_Forall. tauto.
    + rewrite someAllowed_Exists. tauto.
Qed.

Context `{MapRange} `{Codec} `{Text}.

Context `{FilePath} `{IndexCodec} `{Archive}.

(** C1.  For every indexed line and every authorizer: a line without
    candidates is not visible whatever its decision; under decision "any"
    the line is visible iff it has a candidate that the authorizer allows;
    under decision "all" it is visible iff it has candidates and the
    authorizer allows every one of them.  The projector decides a streamed
    record under a rule exactly as the indexer decides the line it would
    store for that record. *)
Theorem visibility_rule (ln : LineIndex.t) (az : A)
    (rule : SelectedRule.t) (line : bytes) :
  (LineIndex.Candidates ln = [] -> indexer.isVisible ln az = false) /\
  (LineIndex.Decision ln = "any" ->
   (indexer.isVisible ln az = true <->
    exists c, c ∈ LineIndex.Candidates ln /\ auth.IsAllowed az c = true)) /\
  (LineIndex.Decision ln = "all" ->
   (indexer.isVisible ln az = true <->
    LineIndex.Candidates ln <> [] /\
    forall c, c ∈ LineIndex.Candidates ln -> auth.IsAllowed az c = true)) /\
  projector.isVisibleLine (Some rule) line az =
    indexer.isVisible (indexed_line rule line) az.
Proof.
  split; [|split; [|split]].
  - intros Hnil. unfold indexer.isVisible. by rewrite Hnil.
  - intros Hany. rewrite isVisible_unfold, Hany. simpl. split.
    + intros [_ Hvis]. exact Hvis.
    + intros (c & Hin & Hal). split; [|by exists c].
      intros Hnil. rewrite Hnil in Hin. inversion Hin.
  - intros Hall. rewrite isVisible_unfold, Hall. simpl. reflexivity.
  - unfold projector.isVisibleLine, indexer.isVisible, indexed_line.
    cbn [LineIndex.Candidates LineIndex.Decision].
    destruct (mapper.EvaluateLine (Some rule) line); reflexivity.
Qed.

End visibility.

(** ** The remote authorizer does not keep failures *)

Section remote.
Context `{spicedb.Remote}.

Lemma checkRemote_requests (a : spicedb.SpiceDBAuthorizer) (k : auth.CandidateKey) :
  spicedb.cache (spicedb.checkRemote a k).2 = spicedb.cache a /\
  spicedb.requests (spicedb.checkRemote a k).2 = spicedb.requests a ++ [k].
Proof.
  unfold spicedb.checkRemote.
  destruct (spicedb.client_Do _ k) as [e|status body]; [done|].
  destruct (negb _); [done|].
  destruct (spicedb.decode_permissionship body); done.
Qed.

Lemma checkRemote_failure (a : spicedb.SpiceDBAuthorizer) (k : auth.CandidateKey) :
  remote_failure (spicedb.client_Do (length (spicedb.requests a)) k) <->
  exists e, (spicedb.checkRemote a k).1 = Err e.
Proof.
  unfold spicedb.checkRemote, remote_failure.
  destruct (spicedb.client_Do _ k) as [e|status body]; simpl.
  - split; [intros _; by exists e | done].
  - destruct (Z.eqb_spec status 200) as [->|Hne]; simpl.
    + destruct (spicedb.decode_permissionship body) eqn:Hd; simpl.
      * split; [intros [?|?]; done | intros [e He]; done].
      * split; [intros _; eauto | intros _; by right].
    + split; [intros _; eauto | intros _; by left].
Qed.

(** What [IsAllowed] does on a key that is not in the cache. *)
Lemma IsAllowed_miss (a : spicedb.SpiceDBAuthorizer) (c : auth.CandidateKey) :
  let k := spicedb.defaultRead c in
  auth.ObjectType k <> "" -> auth.ObjectID k <> "" ->
  spicedb.cache a !! k = None ->
  spicedb.IsAllowed a c =
    match spicedb.checkRemote a k with
    | (Err _, a') => (false, a')
    | (Ok allowed, a') =>
        (allowed, {| spicedb.cache := <[k := allowed]> (spicedb.cache a');
                     spicedb.requests := spicedb.requests a' |})
    end.
Proof.
  intros k Ht Hi Hmiss. unfold spicedb.IsAllowed. fold k.
  apply String.eqb_neq in Ht, Hi. rewrite Ht, Hi. simpl.
  by rewrite Hmiss.
Qed.

(** C7.  For every candidate key (with its object type and id, as
    [IsAllowed] requires before it asks anyone) that is not in the cache:
    when the remote check fails at transport or protocol level,
    [IsAllowed] returns false, leaves the cache as it was, and has sent one
    request; a later call with the same key is again a cache miss, sends a
    new request, and returns what the remote end answers then. *)
Theorem IsAllowed_failure_not_cached
    (a : spicedb.SpiceDBAuthorizer) (c : auth.CandidateKey) :
  let k := spicedb.defaultRead c in
  let first := spicedb.IsAllowed a c in
  let later := spicedb.IsAllowed first.2 c in
  auth.ObjectType k <> "" -> auth.ObjectID k <> "" ->
  spicedb.cache a !! k = None ->
  remote_failure (spicedb.client_Do (length (spicedb.requests a)) k) ->
  first.1 = false /\
  spicedb.cache first.2 = spicedb.cache a /\
  spicedb.requests first.2 = spicedb.requests a ++ [k] /\
  spicedb.requests later.2 = spicedb.requests a ++ [k; k] /\
  later.1 = match (spicedb.checkRemote first.2 k).1 with
            | Ok allowed => allowed
            | Err _ => false
            end.
Proof.
  intros k first later Ht Hi Hmiss Hfail.
  apply checkRemote_failure in Hfail as [e He].
  pose proof (checkRemote_requests a k) as [Hc Hr].
  assert (first = (false, (spicedb.checkRemote a k).2)) as Hfirst.
  { unfold first. rewrite IsAllowed_miss by done. fold k.
    destruct (spicedb.checkRemote a k) as [r a']. simpl in He. by subst r. }
  rewrite Hfirst. simpl. split; [done|]. split; [done|]. split; [done|].
  unfold later. rewrite Hfirst. simpl.
  rewrite IsAllowed_miss by (fold k; rewrite ?Hc; done). fold k.
  pose proof (checkRemote_requests (spicedb.checkRemote a k).2 k) as [Hc2 Hr2].
  destruct (spicedb.checkRemote (spicedb.checkRemote a k).2 k) as [r2 a2].
  simpl in *. rewrite Hr in Hr2. rewrite <- (assoc_L (++)) in Hr2. simpl in Hr2.
  destruct r2; simpl; done.
Qed.

End remote.

(** ** The object id of a candidate *)

Section templates.
Context `{MapRange} `{Codec} `{Text}.

Lemma buildCandidate_unfold (doc : any) (norm : NormalizeSpec.t)
    (fallback : option (gmap string (list string)))
    (objectType permission tmpl : string) (values : gmap string any) :
  mapper.buildCandidate doc norm fallback objectType permission tmpl values =
  let rendered := renderTemplate doc fallback tmpl values in
  if strings.Contains rendered "{" || strings.Contains rendered "}" then None
  else
    let id := normalizeThenStrip objectType norm rendered in
    if String.eqb id "" then None
    else Some {| auth.ObjectType := objectType;
                 auth.ObjectID := id;
                 auth.Permission :=
                   if String.eqb permission "" then "read" else permission |}.
Proof. reflexivity. Qed.

Lemma buildCandidate_id (doc : any) (norm : NormalizeSpec.t)
    (fallback : option (gmap string (list string)))
    (objectType permission tmpl : string) (values : gmap string any)
    (c : auth.CandidateKey) :
  mapper.buildCandidate doc norm fallback objectType permission tmpl values = Some c ->
  normalized_then_stripped norm c.
Proof.
  rewrite buildCandidate_unfold. cbv zeta.
  destruct (strings.Contains _ "{") eqn:Hl; [done|].
  destruct (strings.Contains _ "}") eqn:Hr; [done|]. simpl.
  destruct (String.eqb _ ""); [done|].
  intros [= <-]. exists (renderTemplate doc fallback tmpl values). by repeat split.
Qed.

Lemma emitItems_ids (doc : any) (norm : NormalizeSpec.t)
    (fallback : option (gmap string (list string)))
    (e : EmitSpec.t) (fa : FromArraySpec.t) (arr : list any)
    (out out' : list auth.CandidateKey) :
  Forall (normalized_then_stripped norm) out ->
  mapper.emitItems doc norm fallback e fa arr out = Ok out' ->
  Forall (normalized_then_stripped norm) out'.
Proof.
  revert out. induction arr as [|item rest IH]; intros out Hout; simpl.
  - by intros [= <-].
  - destruct (mapper.collectFields _ _ _ _ _) as [vals|err]; [simpl|done].
    destruct (mapper.buildCandidate _ _ _ _ _ _ _) as [cand|] eqn:Hb.
    + apply IH. apply Forall_app. split; [done|].
      apply Forall_singleton. by eapply buildCandidate_id.
    + by apply IH.
Qed.

Lemma emitAll_ids (doc : any) (norm : NormalizeSpec.t)
    (fallback : option (gmap string (list string)))
    (emit : list EmitSpec.t) (out out' : list auth.CandidateKey) :
  Forall (normalized_then_stripped norm) out ->
  mapper.emitAll doc norm fallback emit out = Ok out' ->
  Forall (normalized_then_stripped norm) out'.
Proof.
  revert out. induction emit as [|e rest IH]; intros out Hout; simpl.
  - by intros [= <-].
  - destruct (EmitSpec.FromArray e) as [fa|].
    + destruct (mapper.resolveRootPointer doc _) as [[| | | |arr|]|]; try by apply IH.
      destruct (mapper.emitItems _ _ _ _ _ _ _) as [out1|err] eqn:Hitems; [simpl|done].
      apply IH. by eapply emitItems_ids.
    + destruct (mapper.collectFields _ _ _ _ _) as [vals|err]; [simpl|done].
      destruct (mapper.buildCandidate _ _ _ _ _ _ _) as [cand|] eqn:Hb.
      * apply IH. apply Forall_app. split; [done|].
        apply Forall_singleton. by eapply buildCandidate_id.
      * by apply IH.
Qed.

Lemma dedupe_elem (out res : list auth.CandidateKey) (uniq : gset auth.CandidateKey)
    (c : auth.CandidateKey) :
  c ∈ mapper.dedupe out uniq res -> c ∈ out \/ c ∈ res.
Proof.
  revert uniq res. induction out as [|x rest IH]; intros uniq res; simpl.
  - by right.
  - destruct (decide (x ∈ uniq)); intros Hin; apply IH in Hin as [Hin|Hin].
    + left. by apply list_elem_of_further.
    + by right.
    + left. by apply list_elem_of_further.
    + apply elem_of_app in Hin as [Hin|Hin]; [by right|].
      apply list_elem_of_singleton in Hin as ->. left. apply list_elem_of_here.
Qed.

(** C9 as amended.  For every rule and record, once template substitution
    and fallback have left no brace, the rendered id is normalized
    (lowercase, trim_slash) first, and a leading [object_type:] is then
    stripped from the normalized text; the result is the candidate's object
    id.  This is what [buildCandidate] computes, and every candidate that
    [EvaluateLine] returns has such an id. *)
Theorem object_id_normalized_then_stripped
    (rule : SelectedRule.t) (line : bytes) (cands : list auth.CandidateKey)
    (doc : any) (fallback : option (gmap string (list string)))
    (objectType permission tmpl : string) (values : gmap string any) :
  let norm := MapperSpec.Normalize (MappingRule.Mapper (SelectedRule.Rule rule)) in
  (forall c,
     mapper.buildCandidate doc norm fallback objectType permission tmpl values = Some c ->
     brace_free (renderTemplate doc fallback tmpl values) /\
     auth.ObjectID c =
       normalizeThenStrip objectType norm (renderTemplate doc fallback tmpl values)) /\
  (mapper.EvaluateLine (Some rule) line = Ok cands ->
   forall c, c ∈ cands -> normalized_then_stripped norm c).
Proof.
  intros norm. split.
  - intros c. rewrite buildCandidate_unfold. cbv zeta.
    destruct (strings.Contains _ "{") eqn:Hl; [done|].
    destruct (strings.Contains _ "}") eqn:Hr; [done|]. simpl.
    destruct (String.eqb _ ""); [done|]. intros [= <-]. by repeat split.
  - unfold mapper.EvaluateLine. fold norm.
    destruct (json_Unmarshal line) as [doc'|]; [|intros [= <-] c Hc; inversion Hc].
    set (ms := MappingRule.Mapper (SelectedRule.Rule rule)).
    assert (forall out : option (list auth.CandidateKey),
              (forall l, out = Some l -> Forall (normalized_then_stripped norm) l) ->
              match out with
              | Some out => Ok (mapper.dedupe out ∅ [])
              | None => Ok []
              end = Ok cands ->
              forall c, c ∈ cands -> normalized_then_stripped norm c) as Hfinish.
    { intros [out|] Hout [= <-] c Hc; [|inversion Hc].
      apply dedupe_elem in Hc as [Hc|Hc]; [|inversion Hc].
      specialize (Hout out eq_refl). rewrite Forall_forall in Hout. by apply Hout. }
    destruct (String.eqb (MapperSpec.Kind ms) "json_pointer").
    + destruct (negb _); [done|].
      destruct (mapper.resolveRootPointer doc' _) as [val|].
      * destruct (mapper.buildCandidate _ _ _ _ _ _ _) as [cand|] eqn:Hb.
        -- apply (Hfinish (Some ([] ++ [cand]))). intros l [= <-].
           apply Forall_singleton. by eapply buildCandidate_id.
        -- apply (Hfinish None). done.
      * apply (Hfinish None). done.
    + destruct (String.eqb (MapperSpec.Kind ms) "multi_extract"); [|done].
      destruct (mapper.emitAll _ _ _ _ _) as [out|err] eqn:Hall; [|done].
      apply (Hfinish (Some out)). intros l [= <-].
      eapply emitAll_ids; [|exact Hall]. constructor.
Qed.

End templates.

(** ** How a value is written into a template *)

Lemma app_cons (c : ascii) (r s : string) : String c r +:+ s = String c (r +:+ s).
Proof. reflexivity. Qed.

Lemma app_nil_l (s : string) : "" +:+ s = s.
Proof. reflexivity. Qed.

Lemma append_empty_r (s : string) : s +:+ "" = s.
Proof. induction s as [|c r IH]; [done|]. by rewrite app_cons, IH. Qed.

Lemma zeros_S (n : nat) : fmt.zeros (S n) = String "0"%char (fmt.zeros n).
Proof. reflexivity. Qed.

Lemma in_cutset_zero (c : ascii) : strings.in_cutset c "0" = true -> c = "0"%char.
Proof.
  simpl. rewrite orb_false_r. intros Hc. by apply Ascii.eqb_eq in Hc.
Qed.

Lemma TrimRight_zeros (s : string) :
  strings.TrimRight s "0" +:+
  fmt.zeros (String.length s - String.length (strings.TrimRight s "0")) = s.
Proof.
  induction s as [|c r IH]; [done|].
  cbn [strings.TrimRight].
  destruct (strings.TrimRight r "0") as [|x t] eqn:Ht.
  - rewrite app_nil_l in IH. cbn [String.length] in IH. rewrite Nat.sub_0_r in IH.
    destruct (strings.in_cutset c "0") eqn:Hc.
    + apply in_cutset_zero in Hc as ->. rewrite app_nil_l. cbn [String.length].
      rewrite Nat.sub_0_r, zeros_S. by rewrite IH.
    + rewrite app_cons, app_nil_l. cbn [String.length].
      replace (S (String.length r) - 1)%nat with (String.length r) by lia.
      by rewrite IH.
  - rewrite app_cons. cbn [String.length] in *.
    replace (S (String.length r) - S (S (String.length t)))%nat
      with (String.length r - S (String.length t))%nat by lia.
    by rewrite IH.
Qed.

Lemma substring_all (s : string) : String.substring 0 (String.length s) s = s.
Proof. induction s; simpl; congruence. Qed.

Lemma TrimRight_length (s cutset : string) :
  (String.length (strings.TrimRight s cutset) <= String.length s)%nat.
Proof.
  induction s as [|c r IH]; simpl; [lia|].
  destruct (strings.TrimRight r cutset); [destruct (strings.in_cutset c cutset)|]; simpl in *; lia.
Qed.

Lemma numeral_cases (s : string) :
  is_numeral s = true ->
  s = "0" \/ strings.TrimRight s "0" <> "".
Proof.
  destruct s as [|c r]; [done|]. unfold is_numeral.
  destruct (Ascii.eqb_spec c "0") as [->|Hc].
  - intros Hr. apply String.eqb_eq in Hr as ->. by left.
  - intros _. right. cbn [strings.TrimRight].
    destruct (strings.TrimRight r "0"); [|done].
    destruct (strings.in_cutset c "0") eqn:Hin; [|done].
    by apply in_cutset_zero in Hin.
Qed.

Lemma numeral_plain (negative : bool) (s : string) :
  is_numeral s = true -> (String.length s <= 6)%nat ->
  fmt.FormatFloat_g (float64_of_numeral negative s) = plainDecimal negative s.
Proof.
  intros Hnum Hlen. unfold plainDecimal.
  destruct (numeral_cases s Hnum) as [->|Hne].
  { by destruct negative. }
  unfold fmt.FormatFloat_g, float64_of_numeral. cbn [d dp neg].
  apply String.eqb_neq in Hne. rewrite Hne.
  pose proof (TrimRight_length s "0") as Hle.
  assert (String.length s <> 0)%nat as Hs.
  { destruct s; [done|]. simpl. lia. }
  replace (_ <? -4)%Z with false by lia.
  replace (6 <=? _)%Z with false by lia.
  cbn [orb]. unfold fmt.fmtF. cbn [d dp neg].
  replace (0 <? Z.of_nat (String.length s))%Z with true by lia.
  replace (0 <? Z.max _ 0)%Z with false by lia.
  rewrite Z.min_l by lia. rewrite Nat2Z.id, substring_all.
  replace (Z.to_nat _) with
    (String.length s - String.length (strings.TrimRight s "0"))%nat by lia.
  by rewrite TrimRight_zeros, append_empty_r.
Qed.

Lemma prefix_refl (s : string) : String.prefix s s = true.
Proof. induction s as [|c r IH]; simpl; [done|]. by destruct (ascii_dec c c). Qed.

Lemma replace_from_skip (old new r : string) (n : nat) :
  (String.length r <= n)%nat -> strings.replace_from old new r n = "".
Proof.
  revert n. induction r as [|c r IH]; intros n Hn; [done|].
  simpl in Hn. destruct n as [|n]; [lia|]. simpl. apply IH. lia.
Qed.

Lemma ReplaceAll_whole (s new : string) :
  s <> "" -> strings.ReplaceAll s s new = new.
Proof.
  destruct s as [|c r]; [done|]. intros _. unfold strings.ReplaceAll.
  cbn [strings.replace_from]. rewrite prefix_refl.
  rewrite replace_from_skip by (simpl; lia). apply append_empty_r.
Qed.

Section stringification.
Context `{MapRange} `{Codec} `{Text}.

Lemma range_order_singleton {V : Type} (k : string) (v : V) :
  range_order ({[ k := v ]} : gmap string V) = [(k, v)].
Proof.
  apply Permutation_singleton_r. rewrite range_order_perm.
  by rewrite map_to_list_singleton.
Qed.

Lemma renderTemplate_value (doc : any) (v : any) :
  renderTemplate doc None "{value}" {[ "value" := v ]} = fmt.Sprintf_v v.
Proof.
  unfold renderTemplate. rewrite range_order_singleton. simpl.
  apply append_empty_r.
Qed.

Lemma no_type_prefix_nil (objectType : string) :
  strings.HasPrefix "<nil>" (objectType +:+ ":") = false.
Proof.
  unfold strings.HasPrefix.
  do 5 (destruct objectType as [|? objectType];
        [vm_compute; reflexivity|];
        rewrite app_cons; simpl; destruct (ascii_dec _ _); [|done]).
  by destruct objectType.
Qed.

(** C8 as amended.  In the value stringification of line evaluation a
    numeric scalar is written by the verb [%v]: an integer of at most six
    digits in plain decimal, an integer of seven digits or more in
    exponent form ([fmtE], as in [1e+06]); a string is written verbatim,
    a boolean as [true] or [false]; and a JSON null that a placeholder
    resolves to is written as the text [<nil>] and substituted like any
    other value: with the template [{value}] it gives a candidate whose
    object id is [<nil>]. *)
Theorem value_stringification :
  (forall negative s,
     is_numeral s = true -> (String.length s <= 6)%nat ->
     fmt.Sprintf_v (AFloat64 (float64_of_numeral negative s)) =
       plainDecimal negative s) /\
  (forall negative s,
     is_numeral s = true -> (7 <= String.length s)%nat ->
     fmt.Sprintf_v (AFloat64 (float64_of_numeral negative s)) =
       fmt.fmtE (float64_of_numeral negative s)
         (Z.of_nat (String.length (strings.TrimRight s "0")) - 1)) /\
  (forall s, fmt.Sprintf_v (AString s) = s) /\
  fmt.Sprintf_v (ABool true) = "true" /\
  fmt.Sprintf_v (ABool false) = "false" /\
  fmt.Sprintf_v ANil = "<nil>" /\
  (forall doc v,
     renderTemplate doc None "{value}" {[ "value" := v ]} = fmt.Sprintf_v v) /\
  (forall doc objectType permission,
     mapper.buildCandidate doc
       {| NormalizeSpec.Lowercase := false; NormalizeSpec.TrimSlash := false |}
       None objectType permission "{value}" {[ "value" := ANil ]} =
     Some {| auth.ObjectType := objectType;
             auth.ObjectID := "<nil>";
             auth.Permission :=
               if String.eqb permission "" then "read" else permission |}).
Proof.
  split; [|split; [|repeat split]].
  - intros negative s Hnum Hlen. by apply numeral_plain.
  - intros negative s Hnum Hlen. cbn [fmt.Sprintf_v].
    destruct (numeral_cases s Hnum) as [->|Hne]; [simpl in Hlen; lia|].
    unfold fmt.FormatFloat_g, float64_of_numeral. cbn [d dp neg].
    apply String.eqb_neq in Hne. rewrite Hne.
    replace (6 <=? _)%Z with true by lia. by rewrite orb_true_r.
  - intros doc v. apply renderTemplate_value.
  - intros doc objectType permission.
    rewrite buildCandidate_unfold, renderTemplate_value. cbv zeta.
    unfold normalizeThenStrip, stripTypePrefix, mapper.applyNormalize.
    cbn [NormalizeSpec.Lowercase NormalizeSpec.TrimSlash fmt.Sprintf_v].
    by rewrite no_type_prefix_nil.
Qed.

End stringification.

(** ** Streams, chunks and suffixes *)

Lemma span_delim_Some (delim : ascii) (b chunk rest : bytes) :
  span_delim delim b = Some (chunk, rest) ->
  b = chunk ++ rest /\ chunk <> [] /\
  exists body, chunk = body ++ [delim] /\ delim ∉ body.
Proof.
  revert chunk rest. induction b as [|c r IH]; intros chunk rest; simpl; [done|].
  destruct (Ascii.eqb_spec c delim) as [->|Hne].
  - intros [= <- <-]. repeat split; [done|]. exists []. split; [done|]. apply not_elem_of_nil.
  - destruct (span_delim delim r) as [[chunk' rest']|]; [|done].
    intros [= <- <-]. destruct (IH _ _ eq_refl) as (-> & _ & body & -> & Hbody).
    repeat split; [done|]. exists (c :: body). split; [done|].
    apply not_elem_of_cons. by split.
Qed.

Lemma span_delim_None (delim : ascii) (b : bytes) :
  span_delim delim b = None -> delim ∉ b.
Proof.
  induction b as [|c r IH]; simpl; [intros _; apply not_elem_of_nil|].
  destruct (Ascii.eqb_spec c delim) as [->|Hne]; [done|].
  destruct (span_delim delim r) as [[chunk' rest']|]; [done|].
  intros _. apply not_elem_of_cons. split; [done | by apply IH].
Qed.

Lemma Buffer_eta (w : Buffer) : {| Bytes := Bytes w |} = w.
Proof. by destruct w. Qed.

Lemma string_app_length (p q : string) :
  String.length (p +:+ q) = (String.length p + String.length q)%nat.
Proof. induction p as [|c p IH]; [done|]. rewrite app_cons. simpl. by rewrite IH. Qed.

Lemma string_app_assoc (p q r : string) : (p +:+ q) +:+ r = p +:+ q +:+ r.
Proof. induction p as [|c p IH]; [done|]. by rewrite !app_cons, IH. Qed.

Lemma string_app_inj_tail (p p' q q' : string) :
  p +:+ q = p' +:+ q' -> String.length q = String.length q' -> q = q'.
Proof.
  revert p'. induction p as [|c p IH]; intros [|c' p'] Heq Hlen.
  - done.
  - change ("" +:+ q) with q in Heq. subst q.
    rewrite app_cons in Hlen. simpl in Hlen. rewrite string_app_length in Hlen. lia.
  - change ("" +:+ q') with q' in Heq. subst q'.
    rewrite app_cons in Hlen. simpl in Hlen. rewrite string_app_length in Hlen. lia.
  - rewrite !app_cons in Heq. injection Heq as _ Heq. by eapply IH.
Qed.

Lemma substring_split (s : string) (n : nat) :
  (n <= String.length s)%nat ->
  s = String.substring 0 n s +:+ String.substring n (String.length s - n) s.
Proof.
  revert n. induction s as [|c s IH]; intros [|n] Hn; simpl in *; try lia.
  - done.
  - by rewrite substring_all.
  - rewrite app_cons. f_equal. apply IH. lia.
Qed.

Lemma HasSuffix_app (s suffix : string) :
  strings.HasSuffix s suffix = true <-> exists p, s = p +:+ suffix.
Proof.
  unfold strings.HasSuffix. rewrite andb_true_iff, Nat.leb_le, String.eqb_eq. split.
  - intros [Hlen Hsub].
    exists (String.substring 0 (String.length s - String.length suffix) s).
    pose proof (substring_split s (String.length s - String.length suffix)) as Hs.
    replace (String.length s - (String.length s - String.length suffix))%nat
      with (String.length suffix) in Hs by lia.
    rewrite Hsub in Hs. apply Hs. lia.
  - intros [p ->]. rewrite string_app_length. split; [lia|].
    replace (String.length p + String.length suffix - String.length suffix)%nat
      with (String.length p) by lia.
    induction p as [|c p IH]; [apply substring_all|]. by rewrite app_cons.
Qed.

(** A string that ends in [a] does not end in [b] when [a], which is at
    least as long, does not. *)
Lemma HasSuffix_excludes (s a b : string) :
  strings.HasSuffix s a = true ->
  (String.length b <= String.length a)%nat ->
  strings.HasSuffix a b = false ->
  strings.HasSuffix s b = false.
Proof.
  intros [p ->]%HasSuffix_app Hlen Hab.
  destruct (strings.HasSuffix (p +:+ a) b) eqn:Hsb; [|done].
  apply HasSuffix_app in Hsb as [p' Heq].
  rewrite (substring_split a (String.length a - String.length b)) in Heq by lia.
  rewrite <- string_app_assoc in Heq.
  apply string_app_inj_tail in Heq.
  - assert (strings.HasSuffix a b = true); [|congruence].
    apply HasSuffix_app.
    exists (String.substring 0 (String.length a - String.length b) a).
    pose proof (substring_split a (String.length a - String.length b)) as Hs.
    rewrite Heq in Hs. apply Hs. lia.
  - assert (forall s n m, (n + m <= String.length s)%nat ->
              String.length (String.substring n m s) = m) as Hsub.
    { induction s as [|c s IH]; intros [|n] [|m]; simpl; intros; try lia; try done.
      all: try (rewrite IH; [done|lia]). all: try (apply IH; lia).
      all: by destruct s. }
    rewrite Hsub; lia.
Qed.

(** ** Projection of compressed files without a rule *)

Section passthrough_projection.
Context `{MapRange} `{Codec} `{FilePath} `{Text} `{IndexCodec} `{Archive}.
Context {A : Type} `{auth.Authorizer A}.

Lemma streamJSONLLines_passthrough (fuel : nat) (br : Reader) (az : A) (w : Buffer) :
  (length (remaining br) < fuel)%nat ->
  failure br = None ->
  projector.streamJSONLLines fuel br None az w =
    Some ({| Bytes := Bytes w ++ remaining br |}, None).
Proof.
  revert br w. induction fuel as [|fuel IH]; intros br w Hfuel Hclean; [lia|].
  cbn [projector.streamJSONLLines]. unfold ReadBytes.
  destruct (span_delim newline (remaining br)) as [[chunk rest]|] eqn:Hspan.
  - apply span_delim_Some in Hspan as (Hb & Hne & _).
    destruct chunk as [|c chunk]; [done|]. cbn -[projector.streamJSONLLines].
    rewrite IH; cbn; [|rewrite Hb in Hfuel; rewrite length_app in Hfuel; simpl in Hfuel; lia|done].
    rewrite Hb. by rewrite <- (assoc_L (++)).
  - rewrite Hclean. destruct (remaining br) as [|c r]; cbn.
    + by rewrite app_nil_r, Buffer_eta.
    + done.
Qed.

Lemma streamJSONLLines_total {W : Type} `{Writer W} (fuel : nat) (br : Reader)
    (rule : option SelectedRule.t) (az : A) (w : W) :
  (length (remaining br) < fuel)%nat ->
  is_Some (projector.streamJSONLLines fuel br rule az w).
Proof.
  revert br w. induction fuel as [|fuel IH]; intros br w Hfuel; [lia|].
  cbn [projector.streamJSONLLines]. unfold ReadBytes.
  destruct (span_delim newline (remaining br)) as [[chunk rest]|] eqn:Hspan.
  - apply span_delim_Some in Hspan as (Hb & Hne & _).
    destruct chunk as [|c chunk]; [done|].
    cbn -[projector.streamJSONLLines projector.isVisibleLine bytes_TrimRight].
    destruct (projector.isVisibleLine _ _ _).
    + destruct (Write w (c :: chunk)) as [w' [e|]]; [by eexists|].
      apply IH. cbn. rewrite Hb, length_app in Hfuel. simpl in Hfuel. lia.
    + apply IH. cbn. rewrite Hb, length_app in Hfuel. simpl in Hfuel. lia.
  - destruct (failure br) as [[|msg]|]; cbn -[projector.isVisibleLine bytes_TrimRight];
      try (by eexists).
    all: destruct (remaining br) as [|c r]; [by eexists|].
    all: destruct (projector.isVisibleLine _ _ _); [|by eexists].
    all: destruct (Write w (c :: r)) as [w' [e|]]; by eexists.
Qed.

Lemma renderEntries_passthrough (entries : list (tar.Header * Reader))
    (last : option error) (az : A) (w : Buffer) :
  (forall e, e ∈ entries -> jsonl_entry e = true -> failure e.2 = None) ->
  clean_end last ->
  projector.renderEntries entries last None az w =
    Some ({| Bytes := Bytes w ++ decoded_records entries |}, None).
Proof.
  intros Hclean Hlast. revert w Hclean.
  induction entries as [|[hdr tr] rest IH]; intros w Hclean.
  - cbn. unfold decoded_records. cbn. rewrite app_nil_r, Buffer_eta.
    by destruct Hlast as [-> | ->].
  - cbn [projector.renderEntries]. unfold decoded_records.
    rewrite filter_cons.
    assert (jsonl_entry (hdr, tr) =
            Ascii.eqb (tar.Typeflag hdr) tar.TypeReg &&
            strings.HasSuffix (strings_ToLower (tar.Name hdr)) ".jsonl") as Hentry
      by reflexivity.
    assert (forall e, e ∈ rest -> jsonl_entry e = true -> failure e.2 = None) as Hrest.
    { intros e He. apply Hclean. by apply list_elem_of_further. }
    destruct (Ascii.eqb (tar.Typeflag hdr) tar.TypeReg) eqn:Hreg; cbn [negb andb] in *.
    + destruct (strings.HasSuffix _ ".jsonl") eqn:Hname; cbn [negb].
      * rewrite decide_True by (rewrite Hentry; exact I).
        unfold projector.renderStream.
        rewrite streamJSONLLines_passthrough; [|lia|].
        -- rewrite IH by done. cbn. by rewrite <- (assoc_L (++)).
        -- apply (Hclean (hdr, tr)); [apply list_elem_of_here | done].
      * rewrite decide_False by (rewrite Hentry; exact id). by apply IH.
    + rewrite decide_False by (rewrite Hentry; exact id). by apply IH.
Qed.

(** C10.  For a [.jsonl.gz] or [.jsonl.tar.gz] source for which rule
    resolution (on the virtual path) returns no rule, [RenderFiltered]
    succeeds and appends to the sink, for every authorizer, the decoded
    content: the whole decompressed stream of a [.jsonl.gz], line after
    line; for a [.jsonl.tar.gz] the content of the regular [.jsonl]
    entries in archive order.  The compressed bytes of the source are not
    what is written. *)
Theorem RenderFiltered_passthrough (fs : gmap string node) (sourcePath : string)
    (opts : Options.t) (az : A) (w : Buffer) (now : Z) (f gz : Reader) :
  let lower := strings_ToLower sourcePath in
  mapper.ResolveRuleForFile fs (projector.virtualPathForRule sourcePath)
    {| Config.SourceDir := Options.SourceDir opts;
       Config.MapperFileName := Options.MapperFileName opts;
       Config.InheritParent := Options.MapperInherit opts;
       Config.MissingMapperMode := Options.MissingMapperMode opts;
       Config.DefaultMissingKey := Options.MissingResource opts |} = Some (Ok None) ->
  os.Open fs sourcePath = Ok f ->
  gzip_NewReader f = Ok gz ->
  (strings.HasSuffix lower ".jsonl.gz" = true ->
   failure gz = None ->
   projector.RenderFiltered fs sourcePath opts az w now =
     Some ({| Bytes := Bytes w ++ remaining gz |}, None, fs)) /\
  (strings.HasSuffix lower ".jsonl.tar.gz" = true ->
   forall entries last,
     tar_NewReader gz = (entries, last) ->
     clean_end last ->
     (forall e, e ∈ entries -> jsonl_entry e = true -> failure e.2 = None) ->
     projector.RenderFiltered fs sourcePath opts az w now =
       Some ({| Bytes := Bytes w ++ decoded_records entries |}, None, fs)).
Proof.
  intros lower Hrule Hopen Hgz. split.
  - intros Hsuf Hclean. unfold projector.RenderFiltered. fold lower.
    rewrite (HasSuffix_excludes lower ".jsonl.gz" ".jsonl") by (done || (simpl; lia)).
    rewrite Hrule, Hsuf. unfold projector.renderGzipJSONL.
    rewrite Hopen, Hgz. unfold projector.renderStream.
    by rewrite streamJSONLLines_passthrough by (done || lia).
  - intros Hsuf entries last Htar Hlast Hclean.
    unfold projector.RenderFiltered. fold lower.
    rewrite (HasSuffix_excludes lower ".jsonl.tar.gz" ".jsonl") by (done || (simpl; lia)).
    rewrite Hrule.
    rewrite (HasSuffix_excludes lower ".jsonl.tar.gz" ".jsonl.gz") by (done || (simpl; lia)).
    rewrite Hsuf. unfold projector.renderTarGzipJSONL.
    rewrite Hopen, Hgz, Htar. by rewrite renderEntries_passthrough.
Qed.

End passthrough_projection.

(** ** The index of a file partitions it *)

Lemma physical_lines_span (b : bytes) :
  match span_delim newline b with
  | Some (chunk, rest) => physical_lines b = chunk :: physical_lines rest
  | None => physical_lines b = match b with [] => [] | _ => [b] end
  end.
Proof.
  induction b as [|c r IH]; simpl; [done|].
  destruct (Ascii.eqb c newline); [done|].
  destruct (span_delim newline r) as [[chunk rest]|].
  - by rewrite IH.
  - rewrite IH. by destruct r.
Qed.

Lemma physical_lines_concat (b : bytes) : concat (physical_lines b) = b.
Proof.
  induction b as [|c r IH]; simpl; [done|].
  destruct (Ascii.eqb c newline); simpl; [by rewrite IH|].
  destruct (physical_lines r) as [|chunk rest]; simpl in *; by rewrite <- IH.
Qed.

Lemma physical_lines_nonempty (b : bytes) : Forall (fun chunk => chunk <> []) (physical_lines b).
Proof.
  induction b as [|c r IH]; simpl; [constructor|].
  destruct (Ascii.eqb c newline); [by constructor|].
  destruct (physical_lines r) as [|chunk rest]; [by repeat constructor|].
  inversion IH; subst. by constructor.
Qed.

Lemma physical_lines_records (b : bytes) (i : nat) (chunk : bytes) :
  physical_lines b !! i = Some chunk ->
  one_record chunk (bool_decide (S i = length (physical_lines b))).
Proof.
  revert i chunk. induction b as [|c r IH]; intros i chunk; simpl; [done|].
  destruct (Ascii.eqb_spec c newline) as [->|Hne].
  - destruct i as [|i]; simpl.
    + intros [= <-]. exists []. split; [apply not_elem_of_nil | by left].
    + intros Hi. apply IH in Hi.
      replace (bool_decide (S (S i) = S (length (physical_lines r))))
        with (bool_decide (S i = length (physical_lines r))); [done|].
      apply bool_decide_ext. lia.
  - destruct (physical_lines r) as [|first rest] eqn:Hr.
    + destruct i as [|i]; [|done]. intros [= <-]. exists [c].
      split; [apply not_elem_of_cons; split; [congruence | apply not_elem_of_nil]|].
      right. by rewrite bool_decide_eq_true.
    + destruct i as [|i]; simpl.
      * intros [= <-]. destruct (IH 0%nat first eq_refl) as (body & Hbody & Hshape).
        exists (c :: body). split; [apply not_elem_of_cons; split; [congruence | done]|].
        destruct Hshape as [->|(Hlast & -> & Hnil)]; [by left|]. right.
        simpl in Hlast. by repeat split.
      * intros Hi. apply (IH (S i)) in Hi. simpl in Hi. done.
Qed.

Lemma int64_small (z : Z) : (- 2 ^ 63 <= z < 2 ^ 63)%Z -> int64 z = z.
Proof.
  intros Hz. unfold int64. rewrite Z.mod_small; lia.
Qed.

Lemma partitions_consecutive (lines : list LineIndex.t) (from to : Z) (i : nat)
    (a b : LineIndex.t) :
  partitions lines from to ->
  lines !! i = Some a -> lines !! S i = Some b ->
  LineIndex.End_ a = LineIndex.Start b.
Proof.
  revert from i. induction lines as [|ln rest IH]; intros from i; [done|].
  intros (_ & _ & Hrest). destruct i as [|i]; simpl.
  - intros [= <-]. destruct rest as [|ln' rest']; [done|].
    intros [= <-]. by destruct Hrest as (-> & _).
  - intros Ha Hb. by eapply IH.
Qed.

Lemma partitions_last (lines : list LineIndex.t) (from to : Z) (ln : LineIndex.t) :
  partitions lines from to -> last lines = Some ln -> LineIndex.End_ ln = to.
Proof.
  revert from. induction lines as [|x rest IH]; intros from; [done|].
  intros (_ & _ & Hrest). destruct rest as [|y rest'].
  - simpl. intros [= <-]. exact Hrest.
  - intros Hlast. by eapply IH.
Qed.

Lemma partitions_bounds (lines : list LineIndex.t) (from to : Z) (ln : LineIndex.t) :
  partitions lines from to -> ln ∈ lines ->
  (from <= LineIndex.Start ln < LineIndex.End_ ln)%Z /\ (LineIndex.End_ ln <= to)%Z /\
  (from <= to)%Z.
Proof.
  revert from. induction lines as [|x rest IH]; intros from Hp Hin; [inversion Hin|].
  destruct Hp as (Hs & Hlt & Hrest).
  assert (LineIndex.End_ x <= to)%Z as Hle.
  { clear -Hrest. revert Hrest. generalize (LineIndex.End_ x).
    induction rest as [|y rest IH]; simpl; intros z; [lia|].
    intros (_ & Hlt & Hrest). apply IH in Hrest. lia. }
  apply elem_of_cons in Hin as [->|Hin]; [lia|].
  destruct (IH _ Hrest Hin) as (? & ? & ?). lia.
Qed.

Section build.
Context `{MapRange} `{Codec} `{Text}.

Lemma build_lines_clean (fuel : nat) (br : Reader) (rule : SelectedRule.t)
    (offset : Z) (lines : list LineIndex.t) :
  (length (remaining br) < fuel)%nat ->
  failure br = None \/ failure br = Some EOF ->
  indexer.build_lines fuel br rule offset lines =
    Some (Ok (lines ++ index_chunks rule offset (physical_lines (remaining br)))).
Proof.
  revert br offset lines. induction fuel as [|fuel IH]; intros br offset lines Hfuel Hclean; [lia|].
  cbn [indexer.build_lines]. unfold ReadBytes.
  pose proof (physical_lines_span (remaining br)) as Hspan.
  destruct (span_delim newline (remaining br)) as [[chunk rest]|] eqn:Hsp.
  - apply span_delim_Some in Hsp as (Hb & Hne & _).
    destruct chunk as [|c chunk]; [done|].
    cbn -[indexer.build_lines index_chunks physical_lines int64_add].
    rewrite IH; cbn [remaining failure]; [|rewrite Hb in Hfuel; rewrite length_app in Hfuel; simpl in Hfuel; lia|done].
    rewrite Hspan. cbn [index_chunks]. by rewrite <- (assoc_L (++)).
  - assert (match failure br with Some e => e | None => EOF end = EOF) as ->.
    { by destruct Hclean as [-> | ->]. }
    rewrite Hspan. destruct (remaining br) as [|c r]; cbn; [by rewrite app_nil_r | done].
Qed.

Lemma build_lines_total (fuel : nat) (br : Reader) (rule : SelectedRule.t)
    (offset : Z) (lines : list LineIndex.t) :
  (length (remaining br) < fuel)%nat ->
  is_Some (indexer.build_lines fuel br rule offset lines).
Proof.
  revert br offset lines. induction fuel as [|fuel IH]; intros br offset lines Hfuel; [lia|].
  cbn [indexer.build_lines]. unfold ReadBytes.
  destruct (span_delim newline (remaining br)) as [[chunk rest]|] eqn:Hsp.
  - apply span_delim_Some in Hsp as (Hb & Hne & _).
    destruct chunk as [|c chunk]; [done|].
    cbn -[indexer.build_lines int64_add]. apply IH. cbn.
    rewrite Hb, length_app in Hfuel. simpl in Hfuel. lia.
  - destruct (failure br) as [[|msg]|]; destruct (remaining br); cbn; eauto.
Qed.

Lemma index_chunks_partitions (rule : SelectedRule.t) (chunks : list bytes) (offset : Z) :
  Forall (fun chunk => chunk <> []) chunks ->
  (0 <= offset)%Z ->
  (offset + Z.of_nat (length (concat chunks)) < 2 ^ 63)%Z ->
  partitions (index_chunks rule offset chunks) offset
    (offset + Z.of_nat (length (concat chunks))).
Proof.
  revert offset. induction chunks as [|chunk rest IH]; intros offset Hne Hoff Hbound.
  - simpl. lia.
  - inversion Hne as [|? ? Hchunk Hrest]; subst.
    simpl in Hbound. rewrite length_app in Hbound.
    cbn [index_chunks partitions LineIndex.Start LineIndex.End_].
    unfold int64_add. rewrite int64_small by lia.
    assert (0 < length chunk)%nat by (destruct chunk; [done | simpl; lia]).
    split; [done|]. split; [lia|].
    simpl. rewrite length_app.
    replace (offset + Z.of_nat (length chunk + length (concat rest)))%Z
      with (offset + Z.of_nat (length chunk) + Z.of_nat (length (concat rest)))%Z by lia.
    apply IH; [done | lia | lia].
Qed.

Lemma index_chunks_ranges (rule : SelectedRule.t) (chunks : list bytes) (offset : Z)
    (pre content : bytes) :
  content = pre ++ concat chunks ->
  offset = Z.of_nat (length pre) ->
  (Z.of_nat (length content) < 2 ^ 63)%Z ->
  map (fun ln => byte_range content (LineIndex.Start ln) (LineIndex.End_ ln))
    (index_chunks rule offset chunks) = chunks.
Proof.
  revert offset pre. induction chunks as [|chunk rest IH]; intros offset pre Hc Hoff Hbound; [done|].
  cbn [index_chunks map LineIndex.Start LineIndex.End_].
  assert (length content = length pre + (length chunk + length (concat rest)))%nat as Hlen.
  { rewrite Hc. simpl. by rewrite !length_app. }
  unfold int64_add. rewrite int64_small by lia. f_equal.
  - unfold byte_range. rewrite Hoff.
    replace (Z.of_nat (length pre) + Z.of_nat (length chunk) - Z.of_nat (length pre))%Z
      with (Z.of_nat (length chunk)) by lia.
    rewrite !Nat2Z.id, Hc. simpl. rewrite drop_app_length. by rewrite take_app_length.
  - apply (IH _ (pre ++ chunk)).
    + rewrite Hc. simpl. by rewrite <- (assoc_L (++)).
    + rewrite length_app. lia.
    + done.
Qed.

Lemma index_chunks_length (rule : SelectedRule.t) (chunks : list bytes) (offset : Z) :
  length (index_chunks rule offset chunks) = length chunks.
Proof.
  revert offset. induction chunks as [|chunk rest IH]; intros offset; simpl; [done|].
  by rewrite IH.
Qed.

(** What [build] returns for a regular file: the index of its physical
    lines. *)
Lemma build_regular (fs : gmap string node) (sourcePath : string)
    (st : FileInfo) (rule : SelectedRule.t) (now : Z)
    (content : bytes) (mtime : Z) :
  fs !! sourcePath = Some (File content mtime) ->
  indexer.build fs sourcePath st rule now =
    Some (Ok {| FileIndex.SourcePath := sourcePath;
                FileIndex.Size := Size st;
                FileIndex.MtimeUnix := ModTimeUnixNano st;
                FileIndex.RuleHash := SelectedRule.RuleHash rule;
                FileIndex.Passthrough := false;
                FileIndex.BuiltAt := now;
                FileIndex.Lines := index_chunks rule 0 (physical_lines content) |}).
Proof.
  intros Hfile. unfold indexer.build, os.Open. rewrite Hfile.
  cbn [remaining]. by rewrite build_lines_clean by (cbn; auto).
Qed.

Lemma physical_lines_partitions (rule : SelectedRule.t) (content : bytes) :
  (Z.of_nat (length content) < 2 ^ 63)%Z ->
  partitions (index_chunks rule 0 (physical_lines content)) 0
    (Z.of_nat (length content)).
Proof.
  intros Hbound.
  pose proof (index_chunks_partitions rule (physical_lines content) 0
                (physical_lines_nonempty content)) as Hp.
  rewrite physical_lines_concat in Hp. apply Hp; lia.
Qed.

(** C5.  [build] over a source file of size [N] (a file size fits
    [int64]) returns an index whose lines are consecutive non-empty byte
    ranges from [0] to [N]: when the file is not empty the first line
    starts at [0] and the last line ends at [N]; each line starts where the
    line before it ends; the ranges, in order, make up the file, with no
    gap and no overlap; and each range holds one record, with its trailing
    newline if it has one (only the last may lack it).  The [size] of the
    index is [N] when [st] is the [os.Stat] of the file. *)
Theorem build_partitions (fs : gmap string node) (sourcePath : string)
    (st : FileInfo) (rule : SelectedRule.t) (now : Z)
    (content : bytes) (mtime : Z) :
  fs !! sourcePath = Some (File content mtime) ->
  (Z.of_nat (length content) < 2 ^ 63)%Z ->
  exists fi,
    indexer.build fs sourcePath st rule now = Some (Ok fi) /\
    let lines := FileIndex.Lines fi in
    let N := Z.of_nat (length content) in
    partitions lines 0 N /\
    (content <> [] ->
     exists first, lines !! 0%nat = Some first /\ LineIndex.Start first = 0%Z) /\
    (forall i a b,
       lines !! i = Some a -> lines !! S i = Some b ->
       LineIndex.End_ a = LineIndex.Start b) /\
    (content <> [] ->
     exists final, last lines = Some final /\ LineIndex.End_ final = N) /\
    concat (map (fun ln => byte_range content (LineIndex.Start ln) (LineIndex.End_ ln))
              lines) = content /\
    (forall i ln,
       lines !! i = Some ln ->
       one_record (byte_range content (LineIndex.Start ln) (LineIndex.End_ ln))
         (bool_decide (S i = length lines))) /\
    (os.Stat fs sourcePath = Ok st -> FileIndex.Size fi = N).
Proof.
  intros Hfile Hbound. rewrite (build_regular _ _ _ _ _ _ _ Hfile).
  eexists. split; [reflexivity|].
  cbn [FileIndex.Lines FileIndex.Size].
  set (lines := index_chunks rule 0 (physical_lines content)).
  assert (partitions lines 0 (Z.of_nat (length content))) as Hpart
    by by apply physical_lines_partitions.
  assert (map (fun ln => byte_range content (LineIndex.Start ln) (LineIndex.End_ ln))
            lines = physical_lines content) as Hranges.
  { apply (index_chunks_ranges rule _ 0 []); [|done|done].
    by rewrite physical_lines_concat. }
  assert (content <> [] -> lines <> []) as Hnonempty.
  { intros Hc Hnil. apply (f_equal length) in Hranges.
    rewrite length_map, Hnil in Hranges. simpl in Hranges.
    destruct (physical_lines content) eqn:Hpl; [|done].
    pose proof (physical_lines_concat content) as Hcat. rewrite Hpl in Hcat. done. }
  split; [exact Hpart|]. split; [|split; [|split; [|split; [|split]]]].
  - intros Hc. destruct lines as [|first rest] eqn:Hl; [by destruct (Hnonempty Hc)|].
    exists first. split; [done|]. by destruct Hpart as (-> & _).
  - intros i a b. by apply partitions_consecutive with (from := 0%Z) (to := Z.of_nat (length content)).
  - intros Hc. destruct (last lines) as [final|] eqn:Hlast.
    + exists final. split; [done|]. by eapply partitions_last.
    + apply last_None in Hlast. by destruct (Hnonempty Hc).
  - rewrite Hranges. apply physical_lines_concat.
  - intros i ln Hi.
    assert (physical_lines content !! i =
            Some (byte_range content (LineIndex.Start ln) (LineIndex.End_ ln))) as Hchunk.
    { rewrite <- Hranges. by rewrite list_lookup_fmap, Hi. }
    apply physical_lines_records in Hchunk.
    by rewrite <- Hranges, length_map in Hchunk.
  - unfold os.Stat. rewrite Hfile. by intros [= <-].
Qed.

End build.

(** ** What the filter writes *)

Section filter.
Context {A : Type} `{auth.Authorizer A}.

Lemma ReadAt_inside (content : bytes) (start end_ : Z) :
  (0 <= start)%Z -> (end_ <= Z.of_nat (length content))%Z -> (0 < end_ - start)%Z ->
  os.ReadAt content (repeat zero (Z.to_nat (end_ - start))) start =
    (byte_range content start end_, None).
Proof.
  intros Hs He Hsz. unfold os.ReadAt, byte_range.
  replace (start <? 0)%Z with false by lia.
  rewrite repeat_length, length_drop.
  rewrite Nat.min_l by lia. rewrite (drop_ge (repeat zero _)) by (rewrite repeat_length; lia).
  rewrite app_nil_r. by rewrite Nat.ltb_irrefl.
Qed.

Lemma filterLines_inside (content : bytes) (lines : list LineIndex.t) (az : A)
    (w : Buffer) :
  (Z.of_nat (length content) < 2 ^ 63)%Z ->
  ranges_in_source (Z.of_nat (length content)) lines az ->
  indexer.filterLines {| remaining := content; failure := None |} lines az w =
    ({| Bytes := Bytes w ++ visible_ranges content lines az |}, None).
Proof.
  intros Hbound. revert w. induction lines as [|ln rest IH]; intros w Hin.
  - cbn. by rewrite app_nil_r, Buffer_eta.
  - assert (ranges_in_source (Z.of_nat (length content)) rest az) as Hrest.
    { intros l Hl. apply Hin. by apply list_elem_of_further. }
    cbn [indexer.filterLines]. unfold visible_ranges. rewrite filter_cons.
    destruct (indexer.isVisible ln az) eqn:Hvis; cbn [negb].
    + rewrite decide_True by exact I.
      destruct (Hin ln (list_elem_of_here _ _) Hvis) as [Hs He].
      unfold int64_sub. 
      destruct (Z_le_gt_dec (LineIndex.End_ ln) (LineIndex.Start ln)) as [Hle|Hgt].
      * (* an empty range: nothing is read *)
        rewrite int64_small by lia.
        replace (_ <=? 0)%Z with true by lia.
        rewrite IH by done. cbn [map concat]. unfold visible_ranges, byte_range.
        replace (Z.to_nat (LineIndex.End_ ln - LineIndex.Start ln)) with 0%nat by lia.
        by rewrite take_0.
      * rewrite int64_small by lia.
        replace (_ <=? 0)%Z with false by lia.
        unfold indexer.file_ReadAt. cbn [failure remaining].
        rewrite ReadAt_inside by lia. cbn [Write Buffer_Writer].
        rewrite IH by done. cbn [Bytes map concat]. unfold visible_ranges.
        by rewrite <- (assoc_L (++)).
    + rewrite decide_False by exact id. by apply IH.
Qed.

(** C2 as amended.  For every non-passthrough index whose visible lines
    have their ranges inside the source (both ends are offsets of the
    source file, whose size fits [int64]), and every authorizer,
    [FilterToWriter] succeeds and appends to the sink exactly the
    concatenation, in line order, of the source byte ranges
    [[start, end)] of the visible lines, and nothing else. *)
Theorem FilterToWriter_ranges (fs : gmap string node) (fi : FileIndex.t) (az : A)
    (w : Buffer) (content : bytes) (mtime : Z) :
  FileIndex.Passthrough fi = false ->
  fs !! FileIndex.SourcePath fi = Some (File content mtime) ->
  (Z.of_nat (length content) < 2 ^ 63)%Z ->
  ranges_in_source (Z.of_nat (length content)) (FileIndex.Lines fi) az ->
  indexer.FilterToWriter fs fi az w =
    ({| Bytes := Bytes w ++ visible_ranges content (FileIndex.Lines fi) az |}, None).
Proof.
  intros Hpass Hfile Hbound Hin. unfold indexer.FilterToWriter, os.Open.
  rewrite Hpass, Hfile. by apply filterLines_inside.
Qed.

End filter.

Section built_filter.
Context `{MapRange} `{Codec} `{Text}.
Context {A : Type} `{auth.Authorizer A}.

(** The indexes that [build] makes satisfy the condition of
    [FilterToWriter_ranges]. *)
Lemma built_ranges_in_source (fs : gmap string node) (sourcePath : string)
    (st : FileInfo) (rule : SelectedRule.t) (now : Z) (content : bytes) (mtime : Z)
    (fi : FileIndex.t) (az : A) :
  fs !! sourcePath = Some (File content mtime) ->
  (Z.of_nat (length content) < 2 ^ 63)%Z ->
  indexer.build fs sourcePath st rule now = Some (Ok fi) ->
  FileIndex.Passthrough fi = false /\
  FileIndex.SourcePath fi = sourcePath /\
  ranges_in_source (Z.of_nat (length content)) (FileIndex.Lines fi) az.
Proof.
  intros Hfile Hbound Hbuild.
  rewrite (build_regular _ _ _ _ _ _ _ Hfile) in Hbuild. injection Hbuild as <-.
  cbn. split; [done|]. split; [done|].
  intros ln Hln _.
  destruct (partitions_bounds _ _ _ _ (physical_lines_partitions rule content Hbound) Hln)
    as (? & ? & ?).
  lia.
Qed.

End built_filter.

(** ** Files without a rule *)

Section passthrough.
Context `{MapRange} `{Codec} `{FilePath} `{Text} `{IndexCodec}.


End passthrough.

(** ** The filesystem surface *)

Section surface.
Context `{MapRange} `{Codec} `{FilePath} `{Text} `{IndexCodec}.
Context {A : Type} `{auth.Authorizer A}.

Lemma foldl_snoc_map {X Y : Type} (f : X -> Y) (l : list X) (acc : list Y) :
  foldl (fun out e => out ++ [f e]) acc l = acc ++ map f l.
Proof.
  revert acc. induction l as [|x l IH]; intros acc; simpl.
  - by rewrite app_nil_r.
  - rewrite IH. by rewrite <- (assoc_L (++)).
Qed.

(** The file of package [fusefs] without build tag.  A directory
    listing presents every entry of the source directory under its
    physical name, in the order of the source, as a directory or a
    regular file: no compression suffix is stripped.  Reading a file whose
    name ends in [.jsonl] (whatever the case of the letters) returns the
    bytes that the Indexer filters ([BuildOrLoad], then [FilterToWriter]
    into an empty buffer); every other file, the [.jsonl.gz] and
    [.jsonl.tar.gz] variants included, is returned with the bytes it has
    in the source.  (The file with the build tag [!windows] differs: see
    [surface_presents_virtual_names].) *)
Theorem surface_serves_physical_names (fs : gmap string node)
    (d : fusefs.dirNode A) (path : string) (now : Z) :
  (forall entries,
     os.ReadDir fs (fusefs.sourcePath d) = Ok entries ->
     exists listing,
       fusefs.Readdir fs d = inl listing /\
       map fuse.Name listing = map DirEntry.Name entries /\
       map fuse.Mode listing =
         map (fun e => if DirEntry.IsDir e then fusefs.S_IFDIR else fusefs.S_IFREG)
           entries) /\
  (strings.HasSuffix (strings_ToLower path) ".jsonl" = true ->
   fusefs.fileData fs d path now =
     match indexer.BuildOrLoad fs path
             {| Options.SourceDir := fusefs.SourceDir (fusefs.cfg d);
                Options.MapperFileName := fusefs.MapperFileName (fusefs.cfg d);
                Options.MapperInherit := fusefs.MapperInherit (fusefs.cfg d);
                Options.MissingMapperMode := fusefs.MissingMapperMode (fusefs.cfg d);
                Options.MissingResource := fusefs.MissingResource (fusefs.cfg d);
                Options.IndexDir := fusefs.IndexDir (fusefs.cfg d);
                Options.FormatVersion := fusefs.IndexFormatVersion (fusefs.cfg d) |}
             now with
     | None => None
     | Some (Err e, fs') => Some (Err e, fs')
     | Some (Ok fi, fs') =>
         match indexer.FilterToWriter fs' fi (fusefs.az d) {| Bytes := [] |} with
         | (_, Some e) => Some (Err e, fs')
         | (b, None) => Some (Ok (Bytes b), fs')
         end
     end) /\
  (strings.HasSuffix (strings_ToLower path) ".jsonl" = false ->
   fusefs.fileData fs d path now = Some (os.ReadFile fs path, fs)) /\
  (strings.HasSuffix (strings_ToLower path) ".jsonl.gz" = true \/
   strings.HasSuffix (strings_ToLower path) ".jsonl.tar.gz" = true ->
   fusefs.fileData fs d path now = Some (os.ReadFile fs path, fs)).
Proof.
  split; [|split; [|split]].
  - intros entries Hdir. unfold fusefs.Readdir. rewrite Hdir.
    eexists. split; [reflexivity|]. rewrite foldl_snoc_map. cbn [app].
    rewrite !map_map. done.
  - intros Hsuf. unfold fusefs.fileData. by rewrite Hsuf.
  - intros Hsuf. unfold fusefs.fileData. by rewrite Hsuf.
  - intros Hsuf. unfold fusefs.fileData.
    assert (strings.HasSuffix (strings_ToLower path) ".jsonl" = false) as ->; [|done].
    destruct Hsuf as [Hsuf|Hsuf].
    + by apply (HasSuffix_excludes _ ".jsonl.gz"); [|simpl; lia|].
    + by apply (HasSuffix_excludes _ ".jsonl.tar.gz"); [|simpl; lia|].
Qed.

End surface.

(** ** The rule hash *)

Lemma insert_string_perm (k : string) (l : list string) :
  mapper.insert_string k l ≡ₚ k :: l.
Proof.
  induction l as [|x r IH]; simpl; [done|].
  destruct (String.leb k x); [done|]. rewrite IH. apply Permutation_swap.
Qed.

Lemma sort_Strings_perm (l : list string) : mapper.sort_Strings l ≡ₚ l.
Proof.
  induction l as [|x r IH]; simpl; [done|].
  unfold mapper.sort_Strings in *. simpl. by rewrite insert_string_perm, IH.
Qed.

Lemma foldl_insert_lookup {V : Type} (f : string -> V) (keys : list string)
    (acc : gmap string V) (k : string) :
  foldl (fun out k => <[k := f k]> out) acc keys !! k =
    if decide (k ∈ keys) then Some (f k) else acc !! k.
Proof.
  revert acc. induction keys as [|x keys IH]; intros acc; simpl; [done|].
  rewrite IH. destruct (decide (k ∈ keys)) as [Hin|Hnin].
  - rewrite decide_True; [done | by apply list_elem_of_further].
  - destruct (decide (k = x)) as [->|Hne].
    + rewrite decide_True by apply list_elem_of_here. by rewrite lookup_insert_eq.
    + rewrite decide_False by (intros [?|?]%elem_of_cons; done).
      by rewrite lookup_insert_ne.
Qed.

Section s.
Context `{MapRange}.

Lemma range_keys {V : Type} (m : gmap string V) (k : string) :
  k ∈ mapper.sort_Strings (map fst (range_order m)) <-> is_Some (m !! k).
Proof.
  rewrite sort_Strings_perm. rewrite range_order_perm.
  change (map fst (map_to_list m)) with ((map_to_list m).*1).
  rewrite list_elem_of_fmap. split.
  - intros ([k' v] & -> & Hin). apply elem_of_map_to_list in Hin. by exists v.
  - intros [v Hv]. exists (k, v). split; [done|].
    by apply elem_of_map_to_list.
Qed.

Lemma rebuilt_map {V : Type} (zero : V) (m : gmap string V) :
  foldl (fun out k => <[k := default zero (m !! k)]> out) ∅
    (mapper.sort_Strings (map fst (range_order m))) = m.
Proof.
  apply map_eq. intros k.
  rewrite (foldl_insert_lookup (fun k => default zero (m !! k))).
  destruct (decide _) as [Hin|Hnin].
  - apply range_keys in Hin as [v Hv]. by rewrite Hv.
  - rewrite lookup_empty. destruct (m !! k) eqn:Hk; [|done].
    destruct Hnin. apply range_keys. by eexists.
Qed.

Context `{Codec}.

Lemma sortedMap_id (m : gmap string string) : mapper.sortedMap m = m.
Proof. apply rebuilt_map. Qed.

Lemma sortedSliceMap_id (m : gmap string (list string)) : mapper.sortedSliceMap m = m.
Proof. apply (rebuilt_map []). Qed.

Lemma canonicalRule_id (r : MappingRule.t) : mapper.canonicalRule r = r.
Proof.
  destruct r as [m dec ot perm miss [kind ptr tmpl fields fa emit norm fb]].
  unfold mapper.canonicalRule. cbn.
  destruct fields as [fields|], fb as [fb|]; by rewrite ?sortedMap_id, ?sortedSliceMap_id.
Qed.

Lemma canonicalRules_marshal (rules : list MappingRule.t) :
  mapper.canonicalRules rules = json_Marshal_rules rules.
Proof.
  unfold mapper.canonicalRules. f_equal.
  induction rules as [|r rest IH]; simpl; [done|]. by rewrite canonicalRule_id, IH.
Qed.
End s.

Lemma hex_byte_inv (c : ascii) :
  ascii_of_nat (16 * hex_value (hex_digit (nat_of_ascii c / 16)) +
                hex_value (hex_digit (nat_of_ascii c mod 16))) = c.
Proof. destruct c as [[] [] [] [] [] [] [] []]; vm_compute; reflexivity. Qed.

Lemma hex_EncodeToString_inj (a b : bytes) :
  hex_EncodeToString a = hex_EncodeToString b -> a = b.
Proof.
  revert b. induction a as [|x a IH]; intros [|y b]; cbn [hex_EncodeToString]; try done.
  intros Heq. rewrite <- (hex_byte_inv x), <- (hex_byte_inv y).
  set (hx := hex_digit (nat_of_ascii x / 16)) in *.
  set (lx := hex_digit (nat_of_ascii x mod 16)) in *.
  set (hy := hex_digit (nat_of_ascii y / 16)) in *.
  set (ly := hex_digit (nat_of_ascii y mod 16)) in *.
  injection Heq as -> -> Hrest. f_equal. by apply IH.
Qed.

Section r.
Context `{MapRange} `{Codec} `{FilePath} `{Text}.

Lemma loadRules_from_hash (fuel : nat) (fs : gmap string node) (path : string)
    (inherit : bool) (seen : gset string) (rules : list MappingRule.t) (h : string) :
  mapper.loadRules_from fuel fs path inherit seen = Some (Ok (rules, h)) ->
  h = mapper.ruleHashOf rules.
Proof.
  destruct fuel as [|fuel]; [done|]. cbn [mapper.loadRules_from].
  destruct (filepath_Abs path) as [abs|e]; [|done].
  destruct (decide (abs ∈ seen)); [done|].
  destruct (os.ReadFile fs abs) as [b|e]; [|done].
  destruct (yaml_Unmarshal b) as [mf|]; [|done].
  destruct (negb _); [done|].
  destruct (inherit && _).
  - destruct (mapper.loadRules_from fuel fs _ inherit _) as [[[prules ph]|e]|]; try done.
    by intros [= <- <-].
  - by intros [= <- <-].
Qed.

Lemma loadRules_from_total (fuel : nat) (fs : gmap string node) (path : string)
    (inherit : bool) (seen : gset string) :
  (size (dom fs ∖ seen) < fuel)%nat ->
  is_Some (mapper.loadRules_from fuel fs path inherit seen).
Proof.
  revert path seen. induction fuel as [|fuel IH]; intros path seen Hfuel; [lia|].
  cbn [mapper.loadRules_from].
  destruct (filepath_Abs path) as [abs|e]; [|by eexists].
  destruct (decide (abs ∈ seen)) as [Hseen|Hnew]; [by eexists|].
  destruct (os.ReadFile fs abs) as [b|e] eqn:Hread; [|by eexists].
  destruct (yaml_Unmarshal b) as [mf|]; [|by eexists].
  destruct (negb _); [by eexists|].
  destruct (inherit && _); [|by eexists].
  assert (abs ∈ dom fs) as Hdom.
  { apply elem_of_dom. unfold os.ReadFile in Hread.
    destruct (fs !! abs); [by eexists | done]. }
  destruct (IH (filepath_Clean (filepath_Join (filepath_Dir abs) (MappingFile.Extends mf)))
              ({[abs]} ∪ seen)) as [r Hr].
  - assert (dom fs ∖ ({[abs]} ∪ seen) ⊂ dom fs ∖ seen) as Hsub by set_solver.
    apply subset_size in Hsub. lia.
  - rewrite Hr. destruct r as [[prules ph]|e]; by eexists.
Qed.

Lemma loadRules_total (fs : gmap string node) (path : string) (inherit : bool)
    (seen : gset string) :
  is_Some (mapper.loadRules fs path inherit seen).
Proof.
  apply loadRules_from_total.
  assert (size (dom fs ∖ seen) <= size (dom fs))%nat
    by (apply subseteq_size; set_solver).
  rewrite size_dom in *. lia.
Qed.

Lemma selectRule_hash (rules : list MappingRule.t) (mapperPath absFile : string)
    (cfg : Config.t) (ruleHash : string) (sel : SelectedRule.t) :
  mapper.selectRule rules mapperPath absFile cfg ruleHash = Some (Ok sel) ->
  SelectedRule.RuleHash sel = ruleHash /\ SelectedRule.Rule sel ∈ rules.
Proof.
  induction rules as [|r rest IH]; [done|]. cbn [mapper.selectRule].
  assert (mapper.selectRule rest mapperPath absFile cfg ruleHash = Some (Ok sel) ->
          SelectedRule.RuleHash sel = ruleHash /\ SelectedRule.Rule sel ∈ r :: rest) as Hrest.
  { intros Hsel. destruct (IH Hsel). split; [done | by apply list_elem_of_further]. }
  destruct (String.eqb _ ""); [done|]. cbv zeta.
  destruct (negb _ && negb _); [done|].
  destruct (negb _ && negb _); [done|].
  destruct (negb _ && negb _); [done|].
  intros [= <-]. split; [done | apply list_elem_of_here].
Qed.

Context `{!FilePathLaws}.

Lemma findMapper_total (fuel : nat) (fs : gmap string node) (dir absSource name : string) :
  strings.HasPrefix dir "/" = true ->
  (String.length dir < fuel)%nat ->
  is_Some (mapper.findMapper fuel fs dir absSource name).
Proof.
  revert dir. induction fuel as [|fuel IH]; intros dir Hroot Hfuel; [lia|].
  cbn [mapper.findMapper].
  destruct (os.Stat fs _); [by eexists|].
  destruct (String.eqb dir absSource); [by eexists|]. cbn [orb].
  destruct (String.eqb_spec dir (filepath_Dir dir)) as [Heq|Hne]; [by eexists|].
  destruct (filepath_Dir_rooted dir Hroot) as [Hr [Hfix|Hshort]]; [congruence|].
  apply IH; [done | lia].
Qed.

Lemma ResolveRuleForFile_total (fs : gmap string node) (filePath : string) (cfg : Config.t) :
  is_Some (mapper.ResolveRuleForFile fs filePath cfg).
Proof.
  unfold mapper.ResolveRuleForFile.
  destruct (filepath_Abs filePath) as [absFile|e] eqn:Habs; [|by eexists].
  destruct (filepath_Abs (Config.SourceDir _)) as [absSource|e]; [|by eexists].
  destruct (findMapper_total (S (String.length (filepath_Dir absFile))) fs
              (filepath_Dir absFile) absSource
              (Config.MapperFileName (mapper.defaults cfg))) as [mapperPath ->].
  { apply filepath_Dir_rooted. by eapply filepath_Abs_rooted. }
  { lia. }
  destruct (String.eqb mapperPath "").
  { destruct (String.eqb _ "deny"); by eexists. }
  destruct (loadRules_total fs mapperPath
              (Config.InheritParent (mapper.defaults cfg)) ∅) as [r ->].
  destruct r as [[rules ruleHash]|e]; [|by eexists].
  destruct (mapper.selectRule _ _ _ _ _) as [[sel|e]|]; try by eexists.
  destruct (String.eqb _ "deny"); by eexists.
Qed.

(** "No rule" is returned only when the missing-mapper mode is not
    "deny". *)
Lemma ResolveRuleForFile_no_rule (fs : gmap string node) (filePath : string)
    (cfg : Config.t) :
  mapper.ResolveRuleForFile fs filePath cfg = Some (Ok None) ->
  Config.MissingMapperMode (mapper.defaults cfg) <> "deny".
Proof.
  unfold mapper.ResolveRuleForFile.
  destruct (filepath_Abs filePath) as [absFile|e]; [|done].
  destruct (filepath_Abs (Config.SourceDir _)) as [absSource|e]; [|done].
  destruct (mapper.findMapper _ _ _ _ _) as [mapperPath|]; [|done].
  destruct (String.eqb mapperPath "").
  { destruct (String.eqb_spec (Config.MissingMapperMode (mapper.defaults cfg)) "deny");
      done. }
  destruct (mapper.loadRules _ _ _ _) as [[[rules ruleHash]|e]|]; try done.
  destruct (mapper.selectRule _ _ _ _ _) as [[sel'|e]|]; try done.
  destruct (String.eqb_spec (Config.MissingMapperMode (mapper.defaults cfg)) "deny");
    done.
Qed.

Lemma ResolveRuleForFile_hash (fs : gmap string node) (filePath : string)
    (cfg : Config.t) (sel : SelectedRule.t) :
  mapper.ResolveRuleForFile fs filePath cfg = Some (Ok (Some sel)) ->
  exists rules,
    SelectedRule.RuleHash sel = mapper.ruleHashOf rules /\
    SelectedRule.Rule sel ∈ rules.
Proof.
  unfold mapper.ResolveRuleForFile.
  destruct (filepath_Abs filePath) as [absFile|e]; [|done].
  destruct (filepath_Abs (Config.SourceDir _)) as [absSource|e]; [|done].
  destruct (mapper.findMapper _ _ _ _ _) as [mapperPath|]; [|done].
  destruct (String.eqb mapperPath "").
  { destruct (String.eqb _ "deny"); done. }
  destruct (mapper.loadRules _ _ _ _) as [[[rules ruleHash]|e]|] eqn:Hload; try done.
  apply loadRules_from_hash in Hload as ->.
  destruct (mapper.selectRule _ _ _ _ _) as [[sel'|e]|] eqn:Hsel; try done.
  - intros [= ->]. exists rules. by eapply selectRule_hash.
  - destruct (String.eqb _ "deny"); done.
Qed.
End r.

(** C6.  The rule hash that [loadRules] computes is the digest of the
    canonical form of the rule list it returns, local rules first and the
    rules inherited through [extends] after them, and of nothing else: no
    byte of an indexed file enters it.  It does not depend on the order in
    which the keys of a string-keyed table of a mapper (fields tables,
    fallback tables) come, neither in the mapping file (the decoder builds
    the same table from the entries in any order) nor when the runtime
    visits the table.  And it changes whenever the rule list changes, in
    the content of a rule or in the order of the rules, given that
    [json.Marshal] writes different rule lists differently and that SHA-1
    does not make the two serializations collide. *)
Theorem rule_hash_properties :
  (forall (R1 R2 : MapRange) (C : Codec) (rules : list MappingRule.t),
     @mapper.ruleHashOf R1 C rules = @mapper.ruleHashOf R2 C rules) /\
  (forall (R : MapRange) (C : Codec)
          (rules_of : gmap string string -> gmap string (list string) ->
                      list MappingRule.t)
          (fields fields' : list (string * string))
          (fallback fallback' : list (string * list string)),
     NoDup fields.*1 -> fields ≡ₚ fields' ->
     NoDup fallback.*1 -> fallback ≡ₚ fallback' ->
     mapper.ruleHashOf (rules_of (list_to_map fields) (list_to_map fallback)) =
     mapper.ruleHashOf (rules_of (list_to_map fields') (list_to_map fallback'))) /\
  (forall (R : MapRange) (C : Codec) (P : FilePath) (T : Text)
          (fs : gmap string node) (path : string) (inherit : bool)
          (seen : gset string) (rules : list MappingRule.t) (h : string),
     mapper.loadRules fs path inherit seen = Some (Ok (rules, h)) ->
     h = hex_EncodeToString (sha1_Sum (json_Marshal_rules rules))) /\
  (forall (R : MapRange) (C : Codec) (rules1 rules2 : list MappingRule.t),
     json_Marshal_rules rules1 <> json_Marshal_rules rules2 ->
     no_collision rules1 rules2 ->
     mapper.ruleHashOf rules1 <> mapper.ruleHashOf rules2) /\
  (forall (R : MapRange) (C : Codec) (rules1 rules2 : list MappingRule.t),
     Inj (=) (=) json_Marshal_rules ->
     no_collision rules1 rules2 ->
     rules1 <> rules2 ->
     mapper.ruleHashOf rules1 <> mapper.ruleHashOf rules2).
Proof.
  assert (forall (R : MapRange) (C : Codec) (rules1 rules2 : list MappingRule.t),
            json_Marshal_rules rules1 <> json_Marshal_rules rules2 ->
            no_collision rules1 rules2 ->
            mapper.ruleHashOf rules1 <> mapper.ruleHashOf rules2) as Hsensitive.
  { intros R C rules1 rules2 Hne Hsha Hhash.
    unfold mapper.ruleHashOf in Hhash. rewrite !canonicalRules_marshal in Hhash.
    apply hex_EncodeToString_inj in Hhash. by apply Hne, Hsha. }
  split; [|split; [|split; [|split]]].
  - intros R1 R2 C rules. unfold mapper.ruleHashOf.
    by rewrite !canonicalRules_marshal.
  - intros R C rules_of fields fields' fallback fallback' Hnd Hperm Hnd' Hperm'.
    by rewrite (list_to_map_proper fields fields'),
               (list_to_map_proper fallback fallback').
  - intros R C P T fs path inherit seen rules h Hload.
    apply loadRules_from_hash in Hload as ->.
    unfold mapper.ruleHashOf. by rewrite canonicalRules_marshal.
  - exact Hsensitive.
  - intros R C rules1 rules2 Hinj Hsha Hne.
    apply Hsensitive; [|done]. intros Heq. by apply Hne, Hinj.
Qed.

(** ** The loops end *)

Section totality.
Context `{MapRange} `{Codec} `{FilePath} `{Text} `{IndexCodec} `{Archive}.
Context `{!FilePathLaws}.
Context {A : Type} `{auth.Authorizer A} {W : Type} `{Writer W}.

Lemma build_total (fs : gmap string node) (sourcePath : string) (st : FileInfo)
    (rule : SelectedRule.t) (now : Z) :
  is_Some (indexer.build fs sourcePath st rule now).
Proof.
  unfold indexer.build. destruct (os.Open fs sourcePath) as [f|e]; [|by eexists].
  destruct (build_lines_total (S (length (remaining f))) f rule 0 []) as [r ->]; [lia|].
  destruct r; by eexists.
Qed.

Lemma BuildOrLoad_total (fs : gmap string node) (sourcePath : string)
    (opts : Options.t) (now : Z) :
  is_Some (indexer.BuildOrLoad fs sourcePath opts now).
Proof.
  unfold indexer.BuildOrLoad.
  destruct (ResolveRuleForFile_total fs sourcePath (Config_of opts)) as [r Hr].
  unfold Config_of in Hr. rewrite Hr.
  destruct r as [rule|e]; [|by eexists].
  destruct (os.Stat fs sourcePath) as [st|e]; [|by eexists].
  cbv zeta. destruct (if negb _ then _ else None); [by eexists|].
  destruct rule as [rule|]; [|by eexists].
  destruct (build_total fs sourcePath st rule now) as [r ->].
  destruct r; by eexists.
Qed.

Lemma renderEntries_total (entries : list (tar.Header * Reader)) (last : option error)
    (rule : option SelectedRule.t) (az : A) (w : W) :
  is_Some (projector.renderEntries entries last rule az w).
Proof.
  revert w. induction entries as [|[hdr tr] rest IH]; intros w.
  - cbn. destruct last as [[|msg]|]; by eexists.
  - cbn [projector.renderEntries].
    destruct (negb _); [apply IH|]. destruct (negb _); [apply IH|].
    unfold projector.renderStream.
    destruct (streamJSONLLines_total (S (length (remaining tr))) tr rule az w)
      as [[w' [e|]] ->]; [lia | by eexists | apply IH].
Qed.

Lemma RenderFiltered_total (fs : gmap string node) (sourcePath : string)
    (opts : Options.t) (az : A) (w : W) (now : Z) :
  is_Some (projector.RenderFiltered fs sourcePath opts az w now).
Proof.
  unfold projector.RenderFiltered.
  destruct (strings.HasSuffix _ ".jsonl").
  { destruct (BuildOrLoad_total fs sourcePath opts now) as [[[fi|e] fs'] ->]; by eexists. }
  destruct (ResolveRuleForFile_total fs (projector.virtualPathForRule sourcePath)
              (Config_of opts)) as [r Hr].
  unfold Config_of in Hr. rewrite Hr.
  destruct r as [rule|e]; [|by eexists].
  destruct (strings.HasSuffix _ ".jsonl.gz").
  { unfold projector.renderGzipJSONL.
    destruct (os.Open fs sourcePath) as [f|e]; [|by eexists].
    destruct (gzip_NewReader f) as [gz|e]; [|by eexists].
    unfold projector.renderStream.
    destruct (streamJSONLLines_total (S (length (remaining gz))) gz rule az w)
      as [r' ->]; [lia | by eexists]. }
  destruct (strings.HasSuffix _ ".jsonl.tar.gz"); [|by eexists].
  unfold projector.renderTarGzipJSONL.
  destruct (os.Open fs sourcePath) as [f|e]; [|by eexists].
  destruct (gzip_NewReader f) as [gz|e]; [|by eexists].
  destruct (tar_NewReader gz) as [entries last].
  destruct (renderEntries_total entries last rule az w) as [r' ->]. by eexists.
Qed.

End totality.

(** * Further properties of the code *)

(** ** Visibility and the authorizer *)

Section monotone.
Context {A B : Type} `{auth.Authorizer A} `{auth.Authorizer B}.
Context `{MapRange} `{Codec} `{FilePath} `{Text} `{IndexCodec} `{Archive}.

Lemma isVisible_monotone (az : A) (bz : B) (ln : LineIndex.t) :
  allows_more az bz ->
  indexer.isVisible ln az = true -> indexer.isVisible ln bz = true.
Proof.
  intros Hmore. rewrite !isVisible_unfold. intros [Hne Hvis]. split; [done|].
  destruct (String.eqb _ "all").
  - intros c Hc. by apply Hmore, Hvis.
  - destruct Hvis as (c & Hc & Hallowed). exists c. split; [done|]. by apply Hmore.
Qed.

Lemma visible_lines_sublist (az : A) (bz : B) (lines : list LineIndex.t) :
  allows_more az bz ->
  visible_lines lines az `sublist_of` visible_lines lines bz.
Proof.
  intros Hmore. unfold visible_lines. induction lines as [|ln rest IH]; [done|].
  rewrite !filter_cons.
  destruct (indexer.isVisible ln az) eqn:Haz.
  - rewrite (isVisible_monotone az bz ln Hmore Haz).
    rewrite !decide_True by exact I. by apply sublist_skip.
  - rewrite (decide_False (P := Is_true false)) by exact id.
    destruct (decide (Is_true (indexer.isVisible ln bz))); [by apply sublist_cons|done].
Qed.

(** X1.  An authorizer that allows every candidate another one allows sees
    every line the other one sees, in the index ([isVisible]) and in a
    decoded stream ([isVisibleLine]), under either decision: granting a
    permission never hides a line, and revoking one never reveals a line.
    The lines the one sees are, in order, among those the other sees. *)
Theorem visibility_monotone (az : A) (bz : B) :
  allows_more az bz ->
  (forall ln, indexer.isVisible ln az = true -> indexer.isVisible ln bz = true) /\
  (forall rule line,
     projector.isVisibleLine rule line az = true ->
     projector.isVisibleLine rule line bz = true) /\
  (forall lines, visible_lines lines az `sublist_of` visible_lines lines bz).
Proof.
  intros Hmore. split; [|split].
  - intros ln. by apply isVisible_monotone.
  - intros [r|] line; [|done]. unfold projector.isVisibleLine.
    destruct (mapper.EvaluateLine (Some r) line) as [cands|e]; [|done].
    destruct (length cands =? 0)%nat; [done|].
    destruct (String.eqb _ "all").
    + rewrite !everyAllowed_Forall. intros Hall c Hc. by apply Hmore, Hall.
    + rewrite !someAllowed_Exists. intros (c & Hc & Hallowed).
      exists c. split; [done|]. by apply Hmore.
  - intros lines. by apply visible_lines_sublist.
Qed.

End monotone.

(** ** The visible segments *)

Lemma byte_range_app (content : bytes) (a b c : Z) :
  (0 <= a <= b)%Z -> (b <= c)%Z ->
  byte_range content a b ++ byte_range content b c = byte_range content a c.
Proof.
  intros Hab Hbc. unfold byte_range.
  replace (Z.to_nat (c - a)) with (Z.to_nat (b - a) + Z.to_nat (c - b))%nat by lia.
  rewrite <- take_take_drop, drop_drop. do 3 f_equal. lia.
Qed.

Section segments.
Context {A : Type} `{auth.Authorizer A}.

Lemma segmentLines_acc (lines : list LineIndex.t) (az : A)
    (segments : list (Z * Z)) (current : option (Z * Z)) :
  indexer.segmentLines lines az segments current =
  segments ++ indexer.segmentLines lines az [] current.
Proof.
  revert segments current. induction lines as [|ln rest IH]; intros segments current.
  - cbn. destruct current; [done|by rewrite app_nil_r].
  - cbn [indexer.segmentLines]. destruct (indexer.isVisible ln az).
    + destruct current as [[s e]|]; [|by apply IH].
      destruct (e =? LineIndex.Start ln)%Z; [by apply IH|].
      rewrite IH, (IH [(s, e)]). by rewrite <- (assoc_L (++)).
    + destruct current as [seg|]; [|by apply IH].
      rewrite IH, (IH [seg]). by rewrite <- (assoc_L (++)).
Qed.

Lemma segment_bytes_app (content : bytes) (a b : list (Z * Z)) :
  segment_bytes content (a ++ b) = segment_bytes content a ++ segment_bytes content b.
Proof. unfold segment_bytes. by rewrite map_app, concat_app. Qed.

Lemma visible_ranges_cons (content : bytes) (ln : LineIndex.t)
    (rest : list LineIndex.t) (az : A) :
  visible_ranges content (ln :: rest) az =
  (if indexer.isVisible ln az
   then byte_range content (LineIndex.Start ln) (LineIndex.End_ ln) else []) ++
  visible_ranges content rest az.
Proof.
  unfold visible_ranges. rewrite filter_cons.
  destruct (indexer.isVisible ln az).
  - by rewrite decide_True by exact I.
  - by rewrite decide_False by exact id.
Qed.

Lemma segmentLines_bytes (content : bytes) (lines : list LineIndex.t) (az : A)
    (current : option (Z * Z)) :
  ranges_in_source (Z.of_nat (length content)) lines az ->
  forward_ranges lines az ->
  match current with
  | Some (s, e) => (0 <= s <= e)%Z
  | None => True
  end ->
  segment_bytes content (indexer.segmentLines lines az [] current) =
  match current with
  | Some (s, e) => byte_range content s e
  | None => []
  end ++ visible_ranges content lines az.
Proof.
  revert current. induction lines as [|ln rest IH]; intros current Hin Hfwd Hcur.
  - cbn. destruct current as [[s e]|]; [|done].
    unfold segment_bytes. cbn. by rewrite app_nil_r.
  - assert (ranges_in_source (Z.of_nat (length content)) rest az) as Hin'.
    { intros l Hl. apply Hin. by apply list_elem_of_further. }
    assert (forward_ranges rest az) as Hfwd'.
    { intros l Hl. apply Hfwd. by apply list_elem_of_further. }
    rewrite visible_ranges_cons. cbn [indexer.segmentLines].
    destruct (indexer.isVisible ln az) eqn:Hvis.
    + destruct (Hin ln (list_elem_of_here _ _) Hvis) as [Hs He].
      pose proof (Hfwd ln (list_elem_of_here _ _) Hvis) as Hse.
      destruct current as [[s e]|].
      * destruct (Z.eqb_spec e (LineIndex.Start ln)) as [->|Hne].
        -- rewrite IH by (done || lia).
           rewrite (assoc_L (++)). f_equal. symmetry. apply byte_range_app; lia.
        -- rewrite segmentLines_acc, segment_bytes_app, IH by (done || lia).
           unfold segment_bytes at 1. cbn. by rewrite app_nil_r.
      * rewrite IH by (done || lia). done.
    + destruct current as [[s e]|].
      * rewrite segmentLines_acc, segment_bytes_app, IH by done.
        unfold segment_bytes at 1. cbn. by rewrite app_nil_r.
      * by rewrite IH.
Qed.

(** X2.  What [FilterToWriter] writes is what [VisibleSegments] describes:
    for an index of a regular file, passthrough with the size of the file
    or not passthrough with the ranges of its visible lines inside the
    file and none of them ending before it starts, [FilterToWriter]
    appends to the sink the bytes of the source that the visible segments
    cover, in order, and nothing else. *)
Theorem FilterToWriter_segments (fs : gmap string node) (fi : FileIndex.t) (az : A)
    (w : Buffer) (content : bytes) (mtime : Z) :
  fs !! FileIndex.SourcePath fi = Some (File content mtime) ->
  (Z.of_nat (length content) < 2 ^ 63)%Z ->
  (FileIndex.Passthrough fi = true ->
   FileIndex.Size fi = Z.of_nat (length content)) ->
  (FileIndex.Passthrough fi = false ->
   ranges_in_source (Z.of_nat (length content)) (FileIndex.Lines fi) az /\
   forward_ranges (FileIndex.Lines fi) az) ->
  indexer.FilterToWriter fs fi az w =
    ({| Bytes := Bytes w ++ segment_bytes content (indexer.VisibleSegments fi az) |},
     None).
Proof.
  intros Hfile Hbound Hpass Hlines.
  unfold indexer.FilterToWriter, indexer.VisibleSegments, os.Open. rewrite Hfile.
  destruct (FileIndex.Passthrough fi).
  - rewrite Hpass by done. unfold segment_bytes, byte_range. cbn [map concat fst snd].
    rewrite Z.sub_0_r, Nat2Z.id, drop_0, firstn_all, app_nil_r.
    unfold indexer.io_Copy. cbn [remaining failure].
    destruct content as [|c r]; [by rewrite app_nil_r, Buffer_eta|done].
  - destruct Hlines as [Hin Hfwd]; [done|].
    rewrite filterLines_inside by done.
    by rewrite (segmentLines_bytes content _ az None).
Qed.

Lemma partitions_le (lines : list LineIndex.t) (from to : Z) :
  partitions lines from to -> (from <= to)%Z.
Proof.
  revert from. induction lines as [|ln rest IH]; intros from; cbn; [lia|].
  intros (? & ? & Hrest). specialize (IH _ Hrest). lia.
Qed.

Lemma gapped_weaken (segments : list (Z * Z)) (lo lo' : Z) :
  (lo' <= lo)%Z -> gapped segments lo -> gapped segments lo'.
Proof. destruct segments as [|seg rest]; [done|]. cbn. intros Hlo (? & ? & ?). repeat split; [lia|done..]. Qed.

Lemma segmentLines_gapped (lines : list LineIndex.t) (az : A) (from to : Z)
    (current : option (Z * Z)) :
  partitions lines from to ->
  match current with
  | Some (s, e) => (s < e)%Z /\ e = from
  | None => True
  end ->
  let segments := indexer.segmentLines lines az [] current in
  Forall (fun seg => (seg.2 <= to)%Z) segments /\
  match current with
  | Some (s, e) =>
      exists e' rest, segments = (s, e') :: rest /\ (e <= e')%Z /\ gapped rest e'
  | None => gapped segments (from - 1)
  end.
Proof.
  revert from current. induction lines as [|ln rest IH]; intros from current Hpart Hcur.
  - cbn in Hpart. subst to. cbn. destruct current as [[s e]|]; [|done].
    destruct Hcur as [Hse ->]. split; [by repeat constructor|].
    exists from, []. done.
  - destruct Hpart as (Hstart & Hlt & Hrest). cbn [indexer.segmentLines]. cbv zeta.
    destruct (indexer.isVisible ln az).
    + destruct current as [[s e]|].
      * destruct Hcur as [Hse ->]. rewrite Hstart, Z.eqb_refl.
        destruct (IH _ (Some (s, LineIndex.End_ ln)) Hrest)
          as (Hall & e' & r & Heq & He' & Hgap); [split; [lia|done]|].
        cbv zeta in Hall. rewrite Heq in Hall |- *.
        split; [done|]. exists e', r. repeat split; [lia|done].
      * destruct (IH _ (Some (LineIndex.Start ln, LineIndex.End_ ln)) Hrest)
          as (Hall & e' & r & Heq & He' & Hgap); [split; [lia|done]|].
        cbv zeta in Hall. rewrite Heq in Hall |- *.
        split; [done|]. cbn. repeat split; [lia|lia|done].
    + destruct current as [[s e]|].
      * destruct Hcur as [Hse ->].
        destruct (IH _ None Hrest) as (Hall & Hgap); [done|].
        rewrite segmentLines_acc. split.
        -- constructor; [|done]. cbn. pose proof (partitions_le _ _ _ Hrest). lia.
        -- exists from, (indexer.segmentLines rest az [] None). split; [done|].
           split; [lia|]. eapply gapped_weaken; [|done]. lia.
      * destruct (IH _ None Hrest) as (Hall & Hgap); [done|].
        split; [done|]. eapply gapped_weaken; [|done]. lia.
Qed.

End segments.

Section built_segments.
Context `{MapRange} `{Codec} `{Text}.
Context {A : Type} `{auth.Authorizer A}.

(** X3.  The visible segments of an index that [build] makes of a regular
    file are not empty, lie inside the file in ascending order, and never
    touch: visible lines that follow each other are merged into one
    segment, and between two segments at least one byte is left out. *)
Theorem built_segments_gapped (fs : gmap string node) (sourcePath : string)
    (st : FileInfo) (rule : SelectedRule.t) (now : Z) (content : bytes) (mtime : Z)
    (fi : FileIndex.t) (az : A) :
  fs !! sourcePath = Some (File content mtime) ->
  (Z.of_nat (length content) < 2 ^ 63)%Z ->
  indexer.build fs sourcePath st rule now = Some (Ok fi) ->
  gapped (indexer.VisibleSegments fi az) (-1) /\
  Forall (fun seg => (seg.2 <= Z.of_nat (length content))%Z)
    (indexer.VisibleSegments fi az).
Proof.
  intros Hfile Hbound Hbuild.
  rewrite (build_regular _ _ _ _ _ _ _ Hfile) in Hbuild.
  injection Hbuild as <-. unfold indexer.VisibleSegments. cbn [FileIndex.Passthrough FileIndex.Lines].
  pose proof (physical_lines_partitions rule content Hbound) as Hpart.
  destruct (segmentLines_gapped _ az _ _ None Hpart I) as [Hall Hgap].
  split; [exact Hgap | exact Hall].
Qed.

End built_segments.

(** ** The deny-all authorizer *)

Section deny_all.
Context `{MapRange} `{Codec} `{FilePath} `{Text} `{IndexCodec} `{Archive}.
Context {W : Type} `{Writer W}.

Lemma someAllowed_denied (cands : list auth.CandidateKey) :
  indexer.someAllowed auth.NewDenyAll cands = false.
Proof. induction cands as [|c rest IH]; [done|]. cbn. exact IH. Qed.

Lemma isVisible_denied (ln : LineIndex.t) :
  indexer.isVisible ln auth.NewDenyAll = false.
Proof.
  unfold indexer.isVisible. destruct (LineIndex.Candidates ln) as [|c rest]; [done|].
  cbn [length Nat.eqb]. destruct (String.eqb _ "all"); [done|].
  apply someAllowed_denied.
Qed.

Lemma isVisibleLine_denied (rule : SelectedRule.t) (line : bytes) :
  projector.isVisibleLine (Some rule) line auth.NewDenyAll = false.
Proof.
  unfold projector.isVisibleLine.
  destruct (mapper.EvaluateLine (Some rule) line) as [[|c rest]|e]; [done| |done].
  cbn [length Nat.eqb]. destruct (String.eqb _ "all"); [done|].
  apply someAllowed_denied.
Qed.

Lemma filterLines_denied (f : Reader) (lines : list LineIndex.t) (w : W) :
  indexer.filterLines f lines auth.NewDenyAll w = (w, None).
Proof.
  induction lines as [|ln rest IH]; [done|].
  cbn [indexer.filterLines]. by rewrite isVisible_denied.
Qed.

Lemma segmentLines_denied (lines : list LineIndex.t) :
  indexer.segmentLines lines auth.NewDenyAll [] None = [].
Proof.
  induction lines as [|ln rest IH]; [done|].
  cbn [indexer.segmentLines]. by rewrite isVisible_denied.
Qed.

Lemma streamJSONLLines_denied (fuel : nat) (br : Reader) (rule : SelectedRule.t) (w : W) :
  (length (remaining br) < fuel)%nat ->
  clean_end (failure br) ->
  projector.streamJSONLLines fuel br (Some rule) auth.NewDenyAll w = Some (w, None).
Proof.
  revert br. induction fuel as [|fuel IH]; intros br Hfuel Hclean; [lia|].
  cbn [projector.streamJSONLLines]. unfold ReadBytes.
  destruct (span_delim newline (remaining br)) as [[chunk rest]|] eqn:Hspan.
  - apply span_delim_Some in Hspan as (Hb & Hne & _).
    rewrite isVisibleLine_denied.
    replace (if (0 <? length chunk)%nat then (w, None) else (w, @None error))
      with (w, @None error) by (by destruct (0 <? length chunk)%nat).
    apply IH; [|done]. cbn. rewrite Hb, length_app in Hfuel.
    destruct chunk; [done|]. simpl in Hfuel. lia.
  - rewrite isVisibleLine_denied.
    replace (if (0 <? length (remaining br))%nat then (w, None) else (w, @None error))
      with (w, @None error) by (by destruct (0 <? length (remaining br))%nat).
    by destruct Hclean as [-> | ->].
Qed.

(** X4.  With the deny-all authorizer nothing of a file that a rule
    governs reaches the sink, whatever the sink is: [FilterToWriter] on an
    index that is not passthrough and [streamJSONLLines] under a rule
    return without error and leave the sink as it was, and there is no
    visible segment. *)
Theorem deny_all_writes_nothing (fs : gmap string node) (fi : FileIndex.t)
    (f : Reader) (w : W) :
  FileIndex.Passthrough fi = false ->
  os.Open fs (FileIndex.SourcePath fi) = Ok f ->
  indexer.FilterToWriter fs fi auth.NewDenyAll w = (w, None) /\
  indexer.VisibleSegments fi auth.NewDenyAll = [] /\
  (forall (r : Reader) (rule : SelectedRule.t),
     clean_end (failure r) ->
     projector.renderStream r (Some rule) auth.NewDenyAll w = Some (w, None)).
Proof.
  intros Hpass Hopen. unfold indexer.FilterToWriter, indexer.VisibleSegments.
  rewrite Hpass, Hopen. repeat split.
  - apply filterLines_denied.
  - apply segmentLines_denied.
  - intros r rule Hclean. apply streamJSONLLines_denied; [lia|done].
Qed.

End deny_all.

(** ** The index and the stream agree *)

Lemma TrimRight_bytes (b : bytes) (cutset : string) :
  bytes_of_string (strings.TrimRight (string_of_bytes b) cutset) =
  bytes_TrimRight b cutset.
Proof.
  induction b as [|c r IH]; [done|].
  cbn [string_of_bytes string_of_list_ascii strings.TrimRight bytes_TrimRight].
  fold (string_of_bytes r). rewrite <- IH.
  destruct (strings.TrimRight (string_of_bytes r) cutset) as [|x s]; cbn.
  - by destruct (strings.in_cutset c cutset).
  - done.
Qed.

Lemma byte_range_middle (pre chunk rest : bytes) :
  byte_range (pre ++ chunk ++ rest) (Z.of_nat (length pre))
    (Z.of_nat (length pre) + Z.of_nat (length chunk)) = chunk.
Proof.
  unfold byte_range. rewrite Nat2Z.id.
  replace (Z.to_nat (_ + _ - _)) with (length chunk) by lia.
  rewrite drop_app_length. by rewrite take_app_length.
Qed.

Section agreement.
Context `{MapRange} `{Codec} `{FilePath} `{Text} `{IndexCodec} `{Archive}.
Context {A : Type} `{auth.Authorizer A} {W : Type} `{Writer W}.

Lemma isVisibleLine_chunk (rule : SelectedRule.t) (chunk : bytes) (az : A)
    (start end_ : Z) :
  projector.isVisibleLine (Some rule)
    (bytes_TrimRight chunk (String carriage_return (String newline ""))) az =
  indexer.isVisible
    {| LineIndex.Start := start; LineIndex.End_ := end_;
       LineIndex.Decision := SelectedRule.Decision rule;
       LineIndex.Candidates := chunk_candidates rule chunk |} az.
Proof.
  unfold projector.isVisibleLine, indexer.isVisible, chunk_candidates.
  cbn [LineIndex.Candidates LineIndex.Decision]. rewrite TrimRight_bytes.
  by destruct (mapper.EvaluateLine _ _).
Qed.

Lemma stream_is_filter (fuel : nat) (pre b : bytes) (rule : SelectedRule.t)
    (az : A) (w : W) :
  (length b < fuel)%nat ->
  (Z.of_nat (length (pre ++ b)) < 2 ^ 63)%Z ->
  projector.streamJSONLLines fuel {| remaining := b; failure := None |}
    (Some rule) az w =
  Some (indexer.filterLines {| remaining := pre ++ b; failure := None |}
          (index_chunks rule (Z.of_nat (length pre)) (physical_lines b)) az w).
Proof.
  revert pre b w. induction fuel as [|fuel IH]; intros pre b w Hfuel Hbound; [lia|].
  cbn [projector.streamJSONLLines]. unfold ReadBytes. cbn [remaining failure].
  pose proof (physical_lines_span b) as Hspan.
  rewrite length_app in Hbound.
  destruct (span_delim newline b) as [[chunk rest]|] eqn:Hsp.
  - apply span_delim_Some in Hsp as (-> & Hne & _).
    rewrite Hspan. cbn [index_chunks indexer.filterLines].
    rewrite length_app in Hfuel, Hbound.
    assert (0 < length chunk)%nat as Hlen by (destruct chunk; [done|simpl; lia]).
    replace (0 <? length chunk)%nat with true by (symmetry; by apply Nat.ltb_lt).
    unfold int64_add. rewrite int64_small by lia.
    rewrite (isVisibleLine_chunk rule chunk az (Z.of_nat (length pre))
               (Z.of_nat (length pre) + Z.of_nat (length chunk))).
    assert (forall w',
      projector.streamJSONLLines fuel {| remaining := rest; failure := None |}
        (Some rule) az w' =
      Some (indexer.filterLines {| remaining := pre ++ chunk ++ rest; failure := None |}
              (index_chunks rule (Z.of_nat (length pre) + Z.of_nat (length chunk))
                 (physical_lines rest)) az w')) as Hnext.
    { intros w'. rewrite (IH (pre ++ chunk) rest w') by (rewrite ?length_app; lia).
      by rewrite length_app, Nat2Z.inj_add, <- (assoc_L (++)). }
    destruct (indexer.isVisible _ az); cbn [negb]; [|apply Hnext].
    cbn [LineIndex.Start LineIndex.End_]. unfold int64_sub.
    rewrite int64_small by lia.
    replace (_ <=? 0)%Z with false by lia.
    unfold indexer.file_ReadAt. cbn [failure remaining].
    rewrite ReadAt_inside by (rewrite ?length_app; lia).
    rewrite byte_range_middle.
    destruct (Write w chunk) as [w' [e|]]; [done|]. apply Hnext.
  - rewrite Hspan. destruct b as [|c r]; [done|].
    assert (0 < length (c :: r))%nat as Hlen by (simpl; lia).
    remember (c :: r) as chunk eqn:Hchunk.
    replace (match chunk with [] => [] | _ :: _ => [chunk] end) with [chunk]
      by (by rewrite Hchunk).
    cbn [index_chunks indexer.filterLines].
    replace (0 <? length chunk)%nat with true by (symmetry; by apply Nat.ltb_lt).
    unfold int64_add. rewrite int64_small by lia.
    rewrite (isVisibleLine_chunk rule chunk az (Z.of_nat (length pre))
               (Z.of_nat (length pre) + Z.of_nat (length chunk))).
    destruct (indexer.isVisible _ az); cbn [negb]; [|done].
    cbn [LineIndex.Start LineIndex.End_]. unfold int64_sub.
    rewrite int64_small by lia.
    replace (_ <=? 0)%Z with false by lia.
    unfold indexer.file_ReadAt. cbn [failure remaining].
    rewrite ReadAt_inside by (rewrite ?length_app; lia).
    replace (pre ++ chunk) with (pre ++ chunk ++ []) by (by rewrite app_nil_r).
    rewrite byte_range_middle.
    by destruct (Write w chunk) as [w' [e|]].
Qed.

End agreement.

(** ** Two evaluations of a line

    The index is built in one evaluation of the lines and a stream is
    filtered in another: the runtime is free to visit the tables of the
    rule in another order each time.  [M1] is the order of the one
    evaluation, [M2] that of the other. *)

Section two_orders.
Variables (M1 M2 : MapRange).
Context `{Codec} `{FilePath} `{Text} `{IndexCodec} `{Archive}.

Lemma range_order_one_key {V : Type} (m : gmap string V) :
  (size m <= 1)%nat -> @range_order M1 V m = @range_order M2 V m.
Proof.
  intros Hsize. pose proof (@range_order_perm M1 V m) as Hp1.
  pose proof (@range_order_perm M2 V m) as Hp2.
  rewrite <- length_map_to_list in Hsize.
  destruct (map_to_list m) as [|x [|y r]]; [| |cbn in Hsize; lia].
  - apply Permutation_nil_r in Hp1, Hp2. congruence.
  - apply Permutation_singleton_r in Hp1, Hp2. congruence.
Qed.

Lemma range_map_one_key {V : Type} (m : option (gmap string V)) :
  one_key m -> @range_map M1 V m = @range_map M2 V m.
Proof. destruct m as [m|]; [apply range_order_one_key|done]. Qed.

Lemma range_map_short {V : Type} (m : option (gmap string V)) :
  one_key m -> (length (@range_map M2 V m) <= 1)%nat.
Proof.
  destruct m as [m|]; cbn; [|lia]. intros Hsize.
  by rewrite (@range_order_perm M2 V m), length_map_to_list.
Qed.

Lemma buildCandidate_one_key (doc : any) (norm : NormalizeSpec.t)
    (fallback : option (gmap string (list string)))
    (objectType permission tmpl : string) (values : gmap string any) :
  (size values <= 1)%nat -> one_key fallback ->
  mapper.buildCandidate (H := M1) doc norm fallback objectType permission tmpl values =
  mapper.buildCandidate (H := M2) doc norm fallback objectType permission tmpl values.
Proof.
  intros Hvalues Hfallback. unfold mapper.buildCandidate.
  by rewrite (range_order_one_key values Hvalues), (range_map_one_key fallback Hfallback).
Qed.

Lemma collectFields_size (pfx errmsg : string) (resolve : string -> option any)
    (fields : list (string * string)) (vals vals' : gmap string any) :
  mapper.collectFields pfx errmsg resolve fields vals = Ok vals' ->
  (size vals' <= size vals + length fields)%nat.
Proof.
  revert vals. induction fields as [|[k p] rest IH]; intros vals;
    cbn [mapper.collectFields length].
  - intros [= <-]. lia.
  - destruct (negb _); [done|]. destruct (resolve p) as [v|].
    + intros Hrest. apply IH in Hrest.
      pose proof (map_size_insert k v vals) as Hins.
      destruct (vals !! k); cbn in Hins; lia.
    + intros [= <-]. lia.
Qed.

Lemma emitItems_one_key (doc : any) (norm : NormalizeSpec.t)
    (fallback : option (gmap string (list string)))
    (e : EmitSpec.t) (fa : FromArraySpec.t) (arr : list any)
    (out : list mapper.Candidate) :
  one_key fallback -> one_key (FromArraySpec.Fields fa) ->
  mapper.emitItems (H := M1) doc norm fallback e fa arr out =
  mapper.emitItems (H := M2) doc norm fallback e fa arr out.
Proof.
  intros Hfallback Hfields. revert out.
  induction arr as [|item rest IH]; intros out; cbn [mapper.emitItems]; [done|].
  rewrite (range_map_one_key _ Hfields).
  destruct (mapper.collectFields _ _ _ _ ∅) as [vals|err] eqn:Hvals; cbn; [|done].
  apply collectFields_size in Hvals. rewrite map_size_empty in Hvals.
  pose proof (range_map_short _ Hfields).
  rewrite buildCandidate_one_key by (lia || done).
  destruct (mapper.buildCandidate _ _ _ _ _ _ vals); apply IH.
Qed.

Lemma emitAll_one_key (doc : any) (norm : NormalizeSpec.t)
    (fallback : option (gmap string (list string)))
    (emit : list EmitSpec.t) (out : list mapper.Candidate) :
  one_key fallback ->
  Forall (fun e =>
            one_key (EmitSpec.Fields e) /\
            match EmitSpec.FromArray e with
            | Some fa => one_key (FromArraySpec.Fields fa)
            | None => True
            end) emit ->
  mapper.emitAll (H := M1) doc norm fallback emit out =
  mapper.emitAll (H := M2) doc norm fallback emit out.
Proof.
  intros Hfallback Hemit. revert out.
  induction Hemit as [|e rest [Hfields Harray] _ IH]; intros out;
    cbn [mapper.emitAll]; [done|].
  destruct (EmitSpec.FromArray e) as [fa|].
  - destruct (mapper.resolveRootPointer doc _) as [[]|]; try apply IH.
    rewrite emitItems_one_key by done.
    destruct (mapper.emitItems _ _ _ _ _ _ _) as [out'|err]; cbn; [apply IH|done].
  - rewrite (range_map_one_key _ Hfields).
    destruct (mapper.collectFields _ _ _ _ ∅) as [vals|err] eqn:Hvals; cbn; [|done].
    apply collectFields_size in Hvals. rewrite map_size_empty in Hvals.
    pose proof (range_map_short _ Hfields).
    rewrite buildCandidate_one_key by (lia || done).
    destruct (mapper.buildCandidate _ _ _ _ _ _ vals); apply IH.
Qed.

Lemma EvaluateLine_one_key (rule : SelectedRule.t) (line : bytes) :
  one_key_tables (SelectedRule.Rule rule) ->
  mapper.EvaluateLine (H := M1) (Some rule) line =
  mapper.EvaluateLine (H := M2) (Some rule) line.
Proof.
  intros [Hfallback Hemit]. unfold mapper.EvaluateLine.
  destruct (json_Unmarshal line) as [doc|]; [|done]. cbv zeta.
  destruct (String.eqb _ "json_pointer").
  - destruct (negb _); [done|].
    destruct (mapper.resolveRootPointer doc _) as [val|]; [|done].
    by rewrite buildCandidate_one_key by (by rewrite ?map_size_singleton).
  - destruct (String.eqb _ "multi_extract"); [|done].
    by rewrite emitAll_one_key.
Qed.

Lemma index_chunks_one_key (rule : SelectedRule.t) (offset : Z) (chunks : list bytes) :
  one_key_tables (SelectedRule.Rule rule) ->
  index_chunks (H := M1) rule offset chunks = index_chunks (H := M2) rule offset chunks.
Proof.
  intros Hrule. revert offset.
  induction chunks as [|chunk rest IH]; intros offset; cbn [index_chunks]; [done|].
  unfold chunk_candidates. by rewrite EvaluateLine_one_key, IH.
Qed.

Lemma ruleHashOf_order (rules : list MappingRule.t) :
  mapper.ruleHashOf (H := M1) rules = mapper.ruleHashOf (H := M2) rules.
Proof.
  unfold mapper.ruleHashOf.
  by rewrite (canonicalRules_marshal (H := M1)), (canonicalRules_marshal (H := M2)).
Qed.

Lemma loadRules_from_order (fuel : nat) (fs : gmap string node) (path : string)
    (inherit : bool) (seen : gset string) :
  mapper.loadRules_from (H := M1) fuel fs path inherit seen =
  mapper.loadRules_from (H := M2) fuel fs path inherit seen.
Proof.
  revert path seen. induction fuel as [|fuel IH]; intros path seen; [done|].
  cbn [mapper.loadRules_from].
  destruct (filepath_Abs path) as [abs|e]; [|done].
  destruct (decide (abs ∈ seen)); [done|].
  destruct (os.ReadFile fs abs) as [b|e]; [|done].
  destruct (yaml_Unmarshal b) as [mf|]; [|done].
  destruct (negb _); [done|]. cbv zeta. rewrite IH.
  destruct (inherit && _).
  - destruct (mapper.loadRules_from fuel fs _ inherit _) as [[[prules ph]|e]|];
      try done.
    by rewrite ruleHashOf_order.
  - by rewrite ruleHashOf_order.
Qed.

Lemma ResolveRuleForFile_order (fs : gmap string node) (filePath : string)
    (cfg : Config.t) :
  mapper.ResolveRuleForFile (H := M1) fs filePath cfg =
  mapper.ResolveRuleForFile (H := M2) fs filePath cfg.
Proof.
  unfold mapper.ResolveRuleForFile, mapper.loadRules.
  destruct (filepath_Abs filePath) as [absFile|e]; [|done].
  destruct (filepath_Abs (Config.SourceDir _)) as [absSource|e]; [|done].
  destruct (mapper.findMapper _ _ _ _ _) as [mapperPath|]; [|done].
  by rewrite loadRules_from_order.
Qed.

Context {A : Type} `{auth.Authorizer A}.

(** X5.  The two ways of filtering agree, whatever order the runtime
    gives the tables of the rule in the one evaluation and in the other,
    when no table of the rule has more than one key.  For a regular file
    and such a rule, [FilterToWriter] on the index that [build] makes of
    the file does to the sink exactly what [streamJSONLLines] does when it
    reads the same bytes under the same rule: the same lines are written
    by the same calls of [Write], in the same order, with the same error
    if a write fails, for every authorizer and every sink. *)
Theorem index_and_stream_agree {W : Type} `{Writer W} (fs : gmap string node)
    (sourcePath : string) (st : FileInfo) (rule : SelectedRule.t) (now : Z)
    (content : bytes) (mtime : Z) (fi : FileIndex.t) (az : A) (w : W) :
  one_key_tables (SelectedRule.Rule rule) ->
  fs !! sourcePath = Some (File content mtime) ->
  (Z.of_nat (length content) < 2 ^ 63)%Z ->
  indexer.build (H := M1) fs sourcePath st rule now = Some (Ok fi) ->
  projector.renderStream (H := M2) {| remaining := content; failure := None |}
    (Some rule) az w =
  Some (indexer.FilterToWriter fs fi az w).
Proof.
  intros Hrule Hfile Hbound Hbuild.
  rewrite (build_regular (H := M1) _ _ _ _ _ _ _ Hfile) in Hbuild.
  injection Hbuild as <-. rewrite (index_chunks_one_key _ _ _ Hrule).
  unfold indexer.FilterToWriter, os.Open, projector.renderStream.
  cbn [FileIndex.Passthrough FileIndex.SourcePath FileIndex.Lines remaining].
  rewrite Hfile.
  by rewrite (stream_is_filter (H := M2) _ [] content) by (cbn [app length]; lia).
Qed.

(** X6.  A gzip file renders as the plain file of its records does,
    whatever order the runtime gives the tables of the rule in the one
    rendering and in the other, when the rule found has no table with more
    than one key.  When [packed] (a name ending in [.jsonl.gz]) decodes
    without error to the bytes of the regular file [plain], which is the
    path under which the rule of [packed] is looked up, and no index
    cache is in use, [RenderFiltered] gives for both the same bytes and
    the same error: the rule found is the same, and the lines it lets
    through are the same. *)
Theorem plain_and_gzip_agree (fs : gmap string node) (plain packed : string)
    (opts : Options.t) (az : A) (w : Buffer) (now : Z) (content : bytes) (mtime : Z)
    (f : Reader) :
  Options.IndexDir opts = "" ->
  strings.HasSuffix (strings_ToLower plain) ".jsonl" = true ->
  strings.HasSuffix (strings_ToLower packed) ".jsonl.gz" = true ->
  projector.virtualPathForRule packed = plain ->
  fs !! plain = Some (File content mtime) ->
  (Z.of_nat (length content) < 2 ^ 63)%Z ->
  os.Open fs packed = Ok f ->
  gzip_NewReader f = Ok {| remaining := content; failure := None |} ->
  (forall sel,
     mapper.ResolveRuleForFile (H := M1) fs plain (Config_of opts) =
       Some (Ok (Some sel)) ->
     one_key_tables (SelectedRule.Rule sel)) ->
  projector.RenderFiltered (H := M2) fs packed opts az w now =
  projector.RenderFiltered (H := M1) fs plain opts az w now.
Proof.
  intros Hdir Hplain Hpacked Hvirtual Hfile Hbound Hopen Hgz Hrule.
  unfold projector.RenderFiltered.
  rewrite (HasSuffix_excludes _ ".jsonl.gz" ".jsonl" Hpacked) by (done || (simpl; lia)).
  rewrite Hplain, Hpacked, Hvirtual.
  unfold indexer.BuildOrLoad. rewrite <- ResolveRuleForFile_order.
  unfold Config_of in Hrule.
  destruct (mapper.ResolveRuleForFile (H := M1) fs plain _) as [[rule|e]|]; [|done..].
  unfold os.Stat. rewrite Hfile, Hdir. cbn [String.eqb negb].
  unfold projector.renderGzipJSONL. rewrite Hopen, Hgz.
  unfold projector.renderStream. cbn [remaining].
  destruct rule as [rule|].
  - rewrite (build_regular (H := M1) _ _ _ _ _ _ _ Hfile).
    rewrite (index_chunks_one_key _ _ _ (Hrule rule eq_refl)).
    rewrite (stream_is_filter (H := M2) _ [] content) by (cbn [app length]; lia).
    unfold indexer.FilterToWriter, os.Open.
    cbn [FileIndex.Passthrough FileIndex.SourcePath FileIndex.Lines].
    by rewrite Hfile.
  - rewrite streamJSONLLines_passthrough by (cbn [remaining failure]; (lia || done)).
    unfold indexer.FilterToWriter, os.Open, indexer.io_Copy.
    cbn [FileIndex.Passthrough FileIndex.SourcePath remaining failure].
    rewrite Hfile. cbn [remaining failure].
    destruct content as [|c r]; [by rewrite app_nil_r, Buffer_eta|done].
Qed.

End two_orders.

(** ** The index cache *)

Section index_cache.
Context `{MapRange} `{Codec} `{FilePath} `{Text} `{IndexCodec}.

Lemma MkdirAll_at_files (fuel : nat) (fs fs' : gmap string node) (path p : string)
    (b : bytes) :
  os.MkdirAll_at fuel fs path = Ok fs' ->
  os.ReadFile fs' p = Ok b -> os.ReadFile fs p = Ok b.
Proof.
  revert fs fs' path. induction fuel as [|fuel IH]; intros fs fs' path;
    cbn [os.MkdirAll_at]; destruct (fs !! path) as [[c mt|es]|] eqn:Hpath;
    try done; try (by intros [= <-]).
  - unfold os.Mkdir. cbn. destruct (String.eqb path ""); [done|]. intros [= <-].
    unfold os.ReadFile. destruct (decide (p = path)) as [->|Hne].
    + by rewrite lookup_insert_eq.
    + by rewrite lookup_insert_ne.
  - assert (forall made, os.Mkdir made path = Ok fs' ->
              os.ReadFile fs' p = Ok b -> os.ReadFile made p = Ok b) as Hmk.
    { intros made. unfold os.Mkdir. destruct (String.eqb path ""); [done|].
      intros [= <-]. unfold os.ReadFile. destruct (decide (p = path)) as [->|Hne].
      - by rewrite lookup_insert_eq.
      - by rewrite lookup_insert_ne. }
    destruct (String.eqb (os.parent path) ""); cbn; [apply Hmk|].
    destruct (os.MkdirAll_at fuel fs (os.parent path)) as [made|e] eqn:Hmade;
      cbn; [|done].
    intros Hmkdir Hread. eapply IH; [exact Hmade|]. by eapply Hmk.
Qed.

Lemma WriteFile_reads (fs fs' : gmap string node) (path : string) (data : bytes)
    (now : Z) :
  os.WriteFile fs path data now = Ok fs' -> os.ReadFile fs' path = Ok data.
Proof.
  unfold os.WriteFile, os.ReadFile.
  assert (<[path := File data now]> fs !! path = Some (File data now)) as Hin
    by apply lookup_insert_eq.
  destruct (fs !! path) as [[c mt|es]|]; [by intros [= <-]; rewrite Hin|done|].
  destruct (String.eqb (os.parent path) ""); [by intros [= <-]; rewrite Hin|].
  destruct (fs !! os.parent path) as [[c mt|es]|]; try done.
  intros [= <-]. by rewrite Hin.
Qed.

Lemma load_save (fs : gmap string node) (path : string) (fi : FileIndex.t) (now : Z) :
  (indexer.save fs path fi now).2 = None ->
  reads_back fi -> indexer.load (indexer.save fs path fi now).1 path = Ok fi.
Proof.
  intros Hsaved (b & Hmarshal & Hback). revert Hsaved. unfold indexer.save.
  destruct (os.MkdirAll fs _) as [made|e]; [|done]. rewrite Hmarshal.
  destruct (os.WriteFile made path b now) as [written|e] eqn:Hwrite; [|done].
  intros _. cbn [fst]. unfold indexer.load.
  rewrite (WriteFile_reads _ _ _ _ _ Hwrite). cbn. by rewrite Hback.
Qed.

Lemma load_not_saved (fs : gmap string node) (path : string) (fi : FileIndex.t)
    (now : Z) (e : error) (cached : FileIndex.t) :
  (indexer.save fs path fi now).2 = Some e ->
  indexer.load (indexer.save fs path fi now).1 path = Ok cached ->
  indexer.load fs path = Ok cached.
Proof.
  unfold indexer.save.
  destruct (os.MkdirAll fs _) as [made|e1] eqn:Hmade; [|done].
  assert (indexer.load made path = Ok cached -> indexer.load fs path = Ok cached)
    as Hmk.
  { unfold indexer.load. destruct (os.ReadFile made path) as [b|e2] eqn:Hread; [|done].
    by rewrite (MkdirAll_at_files _ _ _ _ _ _ Hmade Hread). }
  destruct (index_Marshal fi) as [b|e2]; [|by intros _].
  by destruct (os.WriteFile made path b now) as [written|e3].
Qed.

Lemma build_time (fs : gmap string node) (sourcePath : string) (st : FileInfo)
    (rule : SelectedRule.t) (now : Z) (fi : FileIndex.t) :
  indexer.build fs sourcePath st rule now = Some (Ok fi) -> FileIndex.BuiltAt fi = now.
Proof.
  unfold indexer.build. destruct (os.Open fs sourcePath) as [f|e]; [|done].
  destruct (indexer.build_lines _ f rule 0 []) as [[lines|e]|]; try done.
  by intros [= <-].
Qed.

Lemma BuildOrLoad_hit (fs : gmap string node) (sourcePath : string)
    (opts : Options.t) (now : Z) (rule : option SelectedRule.t) (st : FileInfo)
    (fi : FileIndex.t) :
  Options.IndexDir opts <> "" ->
  mapper.ResolveRuleForFile fs sourcePath (Config_of opts) = Some (Ok rule) ->
  os.Stat fs sourcePath = Ok st ->
  indexer.load fs (index_cache_path opts sourcePath st rule) = Ok fi ->
  indexer.BuildOrLoad fs sourcePath opts now = Some (Ok fi, fs).
Proof.
  intros Hdir Hrule Hstat Hload. unfold indexer.BuildOrLoad.
  unfold Config_of in Hrule. rewrite Hrule, Hstat.
  apply String.eqb_neq in Hdir. rewrite Hdir. cbn [negb].
  unfold index_cache_path in Hload. by rewrite Hload.
Qed.

Lemma BuildOrLoad_miss (fs : gmap string node) (sourcePath : string)
    (opts : Options.t) (now : Z) (rule : option SelectedRule.t) (st : FileInfo)
    (e : error) (fi : FileIndex.t) (fs' : gmap string node) :
  Options.IndexDir opts <> "" ->
  mapper.ResolveRuleForFile fs sourcePath (Config_of opts) = Some (Ok rule) ->
  os.Stat fs sourcePath = Ok st ->
  index_cache_path opts sourcePath st rule <> "" ->
  indexer.load fs (index_cache_path opts sourcePath st rule) = Err e ->
  indexer.BuildOrLoad fs sourcePath opts now = Some (Ok fi, fs') ->
  FileIndex.BuiltAt fi = now /\
  fs' = (indexer.save fs (index_cache_path opts sourcePath st rule) fi now).1.
Proof.
  intros Hdir Hrule Hstat Hpath Hload. unfold indexer.BuildOrLoad.
  unfold Config_of in Hrule. rewrite Hrule, Hstat.
  apply String.eqb_neq in Hdir. rewrite Hdir. cbn [negb].
  fold (index_cache_path opts sourcePath st rule).
  apply String.eqb_neq in Hpath. rewrite Hpath, Hload. cbn [negb].
  destruct rule as [r|].
  - destruct (indexer.build fs sourcePath st r now) as [[built|e']|] eqn:Hbuild;
      [|done..].
    intros [= <- <-]. split; [by eapply build_time|done].
  - by intros [= <- <-].
Qed.

(** X7.  The index cache.  When an index directory is set, a file resolves
    to [rule] and has the stat [st]: an index that the cache file of
    [(file, size, mtime, rule hash, format version)] decodes to is
    returned as it is, and nothing is written.  After a call that returned
    an index, when [save] does not fail on that index and the index
    survives marshalling, every later call returns the same index, with
    the build time of the first call, as long as the file and its rule
    are resolved as before.  The error of [save] is dropped: when [save]
    fails after a miss (the index directory cannot be made, the index not
    marshalled, or the file not written), the call returns its index all
    the same, but a later call, for which the file and its rule are
    resolved as before, does not find it: the index it returns is of its
    own time. *)
Theorem BuildOrLoad_cache (fs : gmap string node) (sourcePath : string)
    (opts : Options.t) (now : Z) (rule : option SelectedRule.t) (st : FileInfo) :
  Options.IndexDir opts <> "" ->
  mapper.ResolveRuleForFile fs sourcePath (Config_of opts) = Some (Ok rule) ->
  os.Stat fs sourcePath = Ok st ->
  let cachePath := index_cache_path opts sourcePath st rule in
  (forall fi,
     indexer.load fs cachePath = Ok fi ->
     indexer.BuildOrLoad fs sourcePath opts now = Some (Ok fi, fs)) /\
  (forall fi fs' later,
     indexer.BuildOrLoad fs sourcePath opts now = Some (Ok fi, fs') ->
     (indexer.save fs cachePath fi now).2 = None ->
     reads_back fi ->
     cachePath <> "" ->
     mapper.ResolveRuleForFile fs' sourcePath (Config_of opts) = Some (Ok rule) ->
     os.Stat fs' sourcePath = Ok st ->
     indexer.BuildOrLoad fs' sourcePath opts later = Some (Ok fi, fs')) /\
  (forall e e' fi fs' later fi' fs'',
     indexer.load fs cachePath = Err e ->
     indexer.BuildOrLoad fs sourcePath opts now = Some (Ok fi, fs') ->
     (indexer.save fs cachePath fi now).2 = Some e' ->
     cachePath <> "" ->
     mapper.ResolveRuleForFile fs' sourcePath (Config_of opts) = Some (Ok rule) ->
     os.Stat fs' sourcePath = Ok st ->
     indexer.BuildOrLoad fs' sourcePath opts later = Some (Ok fi', fs'') ->
     FileIndex.BuiltAt fi = now /\ FileIndex.BuiltAt fi' = later).
Proof.
  intros Hdir Hrule Hstat cachePath. split; [|split].
  - intros fi. by apply BuildOrLoad_hit.
  - intros fi fs' later Hfirst Hsaved Hback Hpath Hrule' Hstat'.
    apply BuildOrLoad_hit with rule st; try done. fold cachePath.
    destruct (indexer.load fs cachePath) as [cached|e] eqn:Hload.
    + rewrite (BuildOrLoad_hit _ _ _ now _ _ _ Hdir Hrule Hstat Hload) in Hfirst.
      by injection Hfirst as <- <-.
    + destruct (BuildOrLoad_miss _ _ _ _ _ _ _ _ _ Hdir Hrule Hstat Hpath Hload Hfirst)
        as [_ ->].
      by apply load_save.
  - intros e e' fi fs' later fi' fs'' Hload Hfirst Hfailed Hpath Hrule' Hstat' Hlater.
    destruct (BuildOrLoad_miss _ _ _ _ _ _ _ _ _ Hdir Hrule Hstat Hpath Hload Hfirst)
      as [Hnow ->].
    split; [exact Hnow|].
    destruct (indexer.load (indexer.save fs cachePath fi now).1 cachePath)
      as [cached|e''] eqn:Hload'.
    + apply (load_not_saved _ _ _ _ _ _ Hfailed) in Hload'.
      fold cachePath in Hload. by rewrite Hload in Hload'.
    + by destruct (BuildOrLoad_miss _ _ _ _ _ _ _ _ _ Hdir Hrule' Hstat' Hpath
                     Hload' Hlater).
Qed.

End index_cache.

(** ** The key of the index cache *)

Lemma app_sep_inj_l {T : Type} (c : T) (a b x y : list T) :
  c ∉ a -> c ∉ b -> a ++ c :: x = b ++ c :: y -> a = b /\ x = y.
Proof.
  revert b. induction a as [|u a IH]; intros [|v b] Ha Hb; cbn.
  - by intros [= ->].
  - intros [= <- _]. exfalso. apply Hb. by left.
  - intros [= -> _]. exfalso. apply Ha. by left.
  - intros [= -> Heq]. destruct (IH b) as [-> ->]; [| |done|done].
    + intros Hin. apply Ha. by right.
    + intros Hin. apply Hb. by right.
Qed.

Lemma app_sep_inj_r {T : Type} (c : T) (a b x y : list T) :
  c ∉ x -> c ∉ y -> a ++ c :: x = b ++ c :: y -> a = b /\ x = y.
Proof.
  intros Hx Hy Heq. apply (f_equal reverse) in Heq.
  rewrite !reverse_app, !reverse_cons, <- !(assoc_L (++)) in Heq. cbn [app] in Heq.
  destruct (app_sep_inj_l c (reverse x) (reverse y) (reverse a) (reverse b))
    as [Hxy Hab]; [by rewrite elem_of_reverse..|done|].
  apply (f_equal reverse) in Hxy, Hab. rewrite !reverse_involutive in Hxy, Hab.
  done.
Qed.

Lemma bytes_of_string_app (a b : string) :
  bytes_of_string (a +:+ b) = bytes_of_string a ++ bytes_of_string b.
Proof.
  induction a as [|c a IH]; [by rewrite app_nil_l|].
  rewrite app_cons. cbn [bytes_of_string list_ascii_of_string app]. f_equal. exact IH.
Qed.

Lemma bytes_of_string_inj (a b : string) : bytes_of_string a = bytes_of_string b -> a = b.
Proof.
  intros Heq. apply (f_equal string_of_list_ascii) in Heq.
  unfold bytes_of_string in Heq. by rewrite !string_of_list_ascii_of_string in Heq.
Qed.

Lemma uint_pipe_free (d : Decimal.uint) :
  pipe ∉ bytes_of_string (NilEmpty.string_of_uint d).
Proof.
  induction d; cbn [NilEmpty.string_of_uint bytes_of_string list_ascii_of_string];
    [apply not_elem_of_nil|..];
    (apply not_elem_of_cons; split; [done|exact IHd]).
Qed.

Lemma Sprintf_d_pipe_free (n : Z) : pipe ∉ bytes_of_string (fmt.Sprintf_d n).
Proof.
  unfold fmt.Sprintf_d.
  assert (forall d, pipe ∉ bytes_of_string (NilZero.string_of_uint d)) as Hu.
  { intros d. destruct d; try apply uint_pipe_free.
    cbn. apply not_elem_of_cons. split; [done|apply not_elem_of_nil]. }
  destruct (Z.to_int n) as [d|d]; cbn [NilZero.string_of_int].
  - apply Hu.
  - cbn [bytes_of_string list_ascii_of_string]. apply not_elem_of_cons.
    split; [done|apply Hu].
Qed.

Lemma Sprintf_d_inj (a b : Z) : fmt.Sprintf_d a = fmt.Sprintf_d b -> a = b.
Proof.
  unfold fmt.Sprintf_d. intros Heq. apply DecimalZ.to_int_inj.
  assert (forall n, NilZero.int_of_string (NilZero.string_of_int (Z.to_int n)) =
                    Some (Z.to_int n)) as Hisi.
  { intros n. apply NilZero.isi; destruct n as [|p|p]; cbn; try done.
    - intros [= Hp]. by apply DecimalPos.Unsigned.to_uint_nonnil in Hp.
    - intros [= Hp]. by apply DecimalPos.Unsigned.to_uint_nonnil in Hp. }
  pose proof (Hisi a) as Ha. rewrite Heq, Hisi in Ha. by injection Ha.
Qed.

Lemma hex_digit_not_pipe (n : nat) : hex_digit n <> pipe.
Proof. do 16 (destruct n as [|n]; [done|]). done. Qed.

Lemma hex_pipe_free (b : bytes) : pipe ∉ bytes_of_string (hex_EncodeToString b).
Proof.
  induction b as [|c r IH]; [apply not_elem_of_nil|].
  cbn [hex_EncodeToString bytes_of_string list_ascii_of_string].
  apply not_elem_of_cons. split; [symmetry; apply hex_digit_not_pipe|].
  apply not_elem_of_cons. split; [symmetry; apply hex_digit_not_pipe|exact IH].
Qed.

Lemma rule_hash_pipe_free (h : string) : is_rule_hash h -> pipe ∉ bytes_of_string h.
Proof.
  intros [-> | [b ->]]; [|apply hex_pipe_free].
  cbn. rewrite !not_elem_of_cons. repeat split; try done. apply not_elem_of_nil.
Qed.

Lemma cache_key_inj (p1 p2 : string) (s1 s2 m1 m2 : Z) (h1 h2 : string) (v1 v2 : Z) :
  is_rule_hash h1 -> is_rule_hash h2 ->
  cache_key p1 s1 m1 h1 v1 = cache_key p2 s2 m2 h2 v2 ->
  p1 = p2 /\ s1 = s2 /\ m1 = m2 /\ h1 = h2 /\ v1 = v2.
Proof.
  intros Hh1%rule_hash_pipe_free Hh2%rule_hash_pipe_free Heq.
  apply (f_equal bytes_of_string) in Heq. unfold cache_key in Heq.
  rewrite !bytes_of_string_app in Heq.
  change (bytes_of_string "|") with [pipe] in Heq. cbn [app] in Heq.
  apply app_sep_inj_l in Heq as [Hv Heq]; [|apply Sprintf_d_pipe_free..].
  assert (forall a b c e : bytes,
            a ++ pipe :: b ++ pipe :: c ++ pipe :: e =
            ((a ++ pipe :: b) ++ pipe :: c) ++ pipe :: e) as Hre.
  { intros. by rewrite <- !(assoc_L (++)). }
  rewrite !Hre in Heq.
  apply app_sep_inj_r in Heq as [Heq Hh]; [|done..].
  apply app_sep_inj_r in Heq as [Heq Hm]; [|apply Sprintf_d_pipe_free..].
  apply app_sep_inj_r in Heq as [Hp Hs]; [|apply Sprintf_d_pipe_free..].
  apply bytes_of_string_inj in Hv, Hh, Hm, Hp, Hs.
  apply Sprintf_d_inj in Hv, Hm, Hs. done.
Qed.

Lemma string_app_inv_tail (a b c : string) : a +:+ c = b +:+ c -> a = b.
Proof.
  intros Heq. apply (f_equal bytes_of_string) in Heq.
  rewrite !bytes_of_string_app in Heq. apply app_inv_tail in Heq.
  by apply bytes_of_string_inj.
Qed.

Section cache_key.
Context `{MapRange} `{Codec} `{FilePath} `{Text} `{IndexCodec}.

(** X8.  The cache file of an index is named after the format version,
    the path of the source, its size, its modification time and the rule
    hash: with rule hashes as the code makes them, two cache paths in the
    same index directory are the same only if all five are, unless SHA-1
    makes the two keys collide ([filepath.Join] keeps different names in
    a directory different).  So a change of the file's size or time, or of
    the rules, never finds the index of the former state. *)
Theorem cacheFilePath_injective (indexDir : string) (p1 p2 : string)
    (s1 s2 m1 m2 : Z) (h1 h2 : string) (v1 v2 : Z) :
  is_rule_hash h1 -> is_rule_hash h2 ->
  (forall x y, filepath_Join indexDir x = filepath_Join indexDir y -> x = y) ->
  keys_do_not_collide (cache_key p1 s1 m1 h1 v1) (cache_key p2 s2 m2 h2 v2) ->
  indexer.cacheFilePath indexDir p1 s1 m1 h1 v1 =
  indexer.cacheFilePath indexDir p2 s2 m2 h2 v2 ->
  p1 = p2 /\ s1 = s2 /\ m1 = m2 /\ h1 = h2 /\ v1 = v2.
Proof.
  intros Hh1 Hh2 Hjoin Hsha Hpath. unfold indexer.cacheFilePath in Hpath.
  apply Hjoin, string_app_inv_tail, hex_EncodeToString_inj in Hpath.
  apply cache_key_inj; [done..|]. by apply Hsha.
Qed.

End cache_key.

(** ** The candidates of a line *)

Section candidates.
Context `{MapRange} `{Codec} `{Text}.

Lemma readOr_nonempty (permission : string) : readOr permission <> "".
Proof. unfold readOr. by destruct (String.eqb_spec permission ""). Qed.

Lemma buildCandidate_fields (doc : any) (norm : NormalizeSpec.t)
    (fallback : option (gmap string (list string)))
    (objectType permission tmpl : string) (values : gmap string any)
    (c : auth.CandidateKey) :
  mapper.buildCandidate doc norm fallback objectType permission tmpl values = Some c ->
  auth.ObjectType c = objectType /\ auth.ObjectID c <> "" /\
  auth.Permission c = readOr permission.
Proof.
  rewrite buildCandidate_unfold. cbv zeta.
  destruct (_ || _); [done|].
  destruct (String.eqb_spec (normalizeThenStrip objectType norm
                               (renderTemplate doc fallback tmpl values)) ""); [done|].
  by intros [= <-].
Qed.

Lemma emitItems_Forall (P : auth.CandidateKey -> Prop) (doc : any)
    (norm : NormalizeSpec.t) (fallback : option (gmap string (list string)))
    (e : EmitSpec.t) (fa : FromArraySpec.t) (arr : list any)
    (out out' : list auth.CandidateKey) :
  (forall tmpl values c,
     mapper.buildCandidate doc norm fallback (EmitSpec.ObjectType e)
       (EmitSpec.Permission e) tmpl values = Some c -> P c) ->
  Forall P out ->
  mapper.emitItems doc norm fallback e fa arr out = Ok out' ->
  Forall P out'.
Proof.
  intros Hbuild. revert out. induction arr as [|item rest IH]; intros out Hout; simpl.
  - by intros [= <-].
  - destruct (mapper.collectFields _ _ _ _ _) as [vals|err]; [simpl|done].
    destruct (mapper.buildCandidate _ _ _ _ _ _ _) as [cand|] eqn:Hb.
    + apply IH. apply Forall_app. split; [done|].
      apply Forall_singleton. by eapply Hbuild.
    + by apply IH.
Qed.

Lemma emitAll_Forall (P : auth.CandidateKey -> Prop) (doc : any)
    (norm : NormalizeSpec.t) (fallback : option (gmap string (list string)))
    (emit : list EmitSpec.t) (out out' : list auth.CandidateKey) :
  Forall (fun e => forall tmpl values c,
            mapper.buildCandidate doc norm fallback (EmitSpec.ObjectType e)
              (EmitSpec.Permission e) tmpl values = Some c -> P c) emit ->
  Forall P out ->
  mapper.emitAll doc norm fallback emit out = Ok out' ->
  Forall P out'.
Proof.
  intros Hemit. revert out. induction Hemit as [|e rest He Hrest IH]; intros out Hout; simpl.
  - by intros [= <-].
  - destruct (EmitSpec.FromArray e) as [fa|].
    + destruct (mapper.resolveRootPointer doc _) as [[| | | |arr|]|]; try by apply IH.
      destruct (mapper.emitItems _ _ _ _ _ _ _) as [out1|err] eqn:Hitems; [simpl|done].
      apply IH. by eapply emitItems_Forall.
    + destruct (mapper.collectFields _ _ _ _ _) as [vals|err]; [simpl|done].
      destruct (mapper.buildCandidate _ _ _ _ _ _ _) as [cand|] eqn:Hb.
      * apply IH. apply Forall_app. split; [done|].
        apply Forall_singleton. by eapply He.
      * by apply IH.
Qed.

Lemma dedupe_NoDup (out res : list auth.CandidateKey) (uniq : gset auth.CandidateKey) :
  NoDup res -> (forall c, c ∈ res -> c ∈ uniq) ->
  NoDup (mapper.dedupe out uniq res).
Proof.
  revert uniq res. induction out as [|x rest IH]; intros uniq res Hnd Hsub; simpl; [done|].
  destruct (decide (x ∈ uniq)) as [Hin|Hnot]; [by apply IH|].
  apply IH.
  - apply NoDup_app. split; [done|]. split; [|apply NoDup_singleton].
    intros c Hc ->%list_elem_of_singleton. by apply Hnot, Hsub.
  - intros c [Hc| ->%list_elem_of_singleton]%elem_of_app; set_solver.
Qed.

(** X9.  What [EvaluateLine] returns for a rule and a line, when it does
    not fail: no candidate twice; every candidate with an object id and a
    permission that are not empty (an empty permission of the rule reads as
    [read]); every candidate with the object type and permission of the
    rule or of one of the [emit] entries of its mapper; at most one
    candidate for a mapper of kind [json_pointer]; and no candidate at all
    for a line that is not JSON, which is no error. *)
Theorem EvaluateLine_candidates (rule : SelectedRule.t) (line : bytes) :
  (json_Unmarshal line = None -> mapper.EvaluateLine (Some rule) line = Ok []) /\
  (forall cands,
     mapper.EvaluateLine (Some rule) line = Ok cands ->
     NoDup cands /\
     (forall c, c ∈ cands ->
        auth.ObjectID c <> "" /\ auth.Permission c <> "" /\
        candidate_of_rule (SelectedRule.Rule rule) c) /\
     (MapperSpec.Kind (MappingRule.Mapper (SelectedRule.Rule rule)) = "json_pointer" ->
      (length cands <= 1)%nat)).
Proof.
  split.
  { intros Hjson. unfold mapper.EvaluateLine. by rewrite Hjson. }
  intros cands. unfold mapper.EvaluateLine.
  destruct (json_Unmarshal line) as [doc|].
  2:{ intros [= <-]. split; [constructor|]. split; [|simpl; lia].
      intros c Hc. inversion Hc. }
  set (r := SelectedRule.Rule rule). set (ms := MappingRule.Mapper r).
  set (P := fun c : auth.CandidateKey =>
              auth.ObjectID c <> "" /\ auth.Permission c <> "" /\
              candidate_of_rule r c).
  assert (forall out : option (list auth.CandidateKey),
            (forall l, out = Some l -> Forall P l) ->
            match out with
            | Some out => Ok (mapper.dedupe out ∅ [])
            | None => Ok []
            end = Ok cands ->
            NoDup cands /\ (forall c, c ∈ cands -> P c)) as Hfinish.
  { intros [out|] Hout [= <-].
    - split; [apply dedupe_NoDup; [constructor|intros c Hc; inversion Hc]|].
      intros c Hc. apply dedupe_elem in Hc as [Hc|Hc]; [|inversion Hc].
      specialize (Hout out eq_refl). rewrite Forall_forall in Hout. by apply Hout.
    - split; [constructor|]. intros c Hc. inversion Hc. }
  destruct (String.eqb_spec (MapperSpec.Kind ms) "json_pointer") as [Hkind|Hkind].
  - destruct (negb _); [done|].
    destruct (mapper.resolveRootPointer doc _) as [val|].
    + destruct (mapper.buildCandidate _ _ _ _ _ _ _) as [cand|] eqn:Hb.
      * intros Hres. pose proof Hres as [= <-].
        destruct (Hfinish (Some ([] ++ [cand]))) with (2 := Hres) as [Hnd Hall].
        { intros l [= <-]. apply Forall_singleton.
          apply buildCandidate_fields in Hb as (Htype & Hid & Hperm).
          split; [done|]. split; [rewrite Hperm; apply readOr_nonempty|].
          left. done. }
        split; [done|]. split; [done|]. intros _. cbn.
        destruct (decide _); simpl; lia.
      * intros [= <-]. split; [constructor|]. split; [|simpl; lia].
        intros c Hc. inversion Hc.
    + intros [= <-]. split; [constructor|]. split; [|simpl; lia].
      intros c Hc. inversion Hc.
  - destruct (String.eqb (MapperSpec.Kind ms) "multi_extract"); [|done].
    destruct (mapper.emitAll _ _ _ _ _) as [out|err] eqn:Hall; [|done].
    cbn [mbind result_bind]. intros Hres.
    destruct (Hfinish (Some out)) with (2 := Hres) as [Hnd Hin].
    { intros l [= <-]. eapply emitAll_Forall; [|constructor|exact Hall].
      apply Forall_forall. intros e He tmpl values c Hb.
      apply buildCandidate_fields in Hb as (Htype & Hid & Hperm).
      split; [done|]. split; [rewrite Hperm; apply readOr_nonempty|].
      right. exists e. done. }
    split; [done|]. split; [done|]. intros Hk. by destruct Hkind.
Qed.

End candidates.

(** ** Rule resolution *)

Section resolution.
Context `{MapRange} `{Codec} `{FilePath} `{Text}.

Lemma selectRule_cons (r : MappingRule.t) (rest : list MappingRule.t)
    (mapperPath absFile : string) (cfg : Config.t) (ruleHash : string) :
  mapper.selectRule (r :: rest) mapperPath absFile cfg ruleHash =
  if rule_matches mapperPath absFile r then
    let decision :=
      if String.eqb (MappingRule.Decision r) "" then "any"
      else MappingRule.Decision r in
    if negb (String.eqb decision "any") && negb (String.eqb decision "all")
    then Some (Err (Errorf ("invalid decision: " +:+ decision)))
    else
      let missing :=
        if String.eqb (MappingRule.MissingResourceKey r) ""
        then Config.DefaultMissingKey cfg
        else MappingRule.MissingResourceKey r in
      if negb (String.eqb missing "deny") && negb (String.eqb missing "ignore")
      then Some (Err (Errorf ("invalid missing_resource_key: " +:+ missing)))
      else Some (Ok {| SelectedRule.Decision := decision;
                       SelectedRule.MissingResourceKey := missing;
                       SelectedRule.Rule := r;
                       SelectedRule.RuleHash := ruleHash |})
  else mapper.selectRule rest mapperPath absFile cfg ruleHash.
Proof.
  cbn [mapper.selectRule]. unfold rule_matches. cbv zeta.
  destruct (String.eqb (strings_TrimSpace _) ""); [done|].
  destruct (doublestar_Match _ (filepath_ToSlash _));
    destruct (doublestar_Match _ (filepath_Base absFile)); done.
Qed.

Lemma selectRule_first (rules : list MappingRule.t) (mapperPath absFile : string)
    (cfg : Config.t) (ruleHash : string) (sel : SelectedRule.t) :
  mapper.selectRule rules mapperPath absFile cfg ruleHash = Some (Ok sel) ->
  exists pre post,
    rules = pre ++ SelectedRule.Rule sel :: post /\
    Forall (fun r => rule_matches mapperPath absFile r = false) pre /\
    rule_matches mapperPath absFile (SelectedRule.Rule sel) = true /\
    (SelectedRule.Decision sel = "any" \/ SelectedRule.Decision sel = "all") /\
    (MappingRule.Decision (SelectedRule.Rule sel) <> "" ->
     SelectedRule.Decision sel = MappingRule.Decision (SelectedRule.Rule sel)) /\
    (SelectedRule.MissingResourceKey sel = "deny" \/
     SelectedRule.MissingResourceKey sel = "ignore") /\
    (MappingRule.MissingResourceKey (SelectedRule.Rule sel) <> "" ->
     SelectedRule.MissingResourceKey sel =
       MappingRule.MissingResourceKey (SelectedRule.Rule sel)) /\
    SelectedRule.RuleHash sel = ruleHash.
Proof.
  induction rules as [|r rest IH]; [done|]. rewrite selectRule_cons.
  destruct (rule_matches mapperPath absFile r) eqn:Hmatch.
  - cbv zeta.
    set (decision := if String.eqb (MappingRule.Decision r) "" then "any"
                     else MappingRule.Decision r).
    set (missing := if String.eqb (MappingRule.MissingResourceKey r) ""
                    then Config.DefaultMissingKey cfg
                    else MappingRule.MissingResourceKey r).
    assert (MappingRule.Decision r <> "" -> decision = MappingRule.Decision r) as Hd.
    { subst decision. by destruct (String.eqb_spec (MappingRule.Decision r) ""). }
    assert (MappingRule.MissingResourceKey r <> "" ->
            missing = MappingRule.MissingResourceKey r) as Hm.
    { subst missing. by destruct (String.eqb_spec (MappingRule.MissingResourceKey r) ""). }
    destruct (String.eqb_spec decision "any") as [Hany|Hany];
      destruct (String.eqb_spec decision "all") as [Hall|Hall];
      cbn [negb andb]; try done.
    all: destruct (String.eqb_spec missing "deny") as [Hdeny|Hdeny];
      destruct (String.eqb_spec missing "ignore") as [Hignore|Hignore];
      cbn [negb andb]; try done.
    all: intros [= <-]; exists [], rest;
      cbn [SelectedRule.Rule SelectedRule.Decision SelectedRule.MissingResourceKey
           SelectedRule.RuleHash app];
      repeat split; auto.
  - intros Hsel. destruct (IH Hsel) as (pre & post & -> & Hpre & Hrest).
    exists (r :: pre), post. split; [done|]. split; [by constructor|done].
Qed.

Lemma selectRule_none (rules : list MappingRule.t) (mapperPath absFile : string)
    (cfg : Config.t) (ruleHash : string) :
  mapper.selectRule rules mapperPath absFile cfg ruleHash = None ->
  Forall (fun r => rule_matches mapperPath absFile r = false) rules.
Proof.
  induction rules as [|r rest IH]; [done|]. rewrite selectRule_cons.
  destruct (rule_matches mapperPath absFile r) eqn:Hmatch.
  - cbv zeta. destruct (negb _ && negb _); [done|]. by destruct (negb _ && negb _).
  - intros Hn. constructor; [done|by apply IH].
Qed.

Lemma ancestor_S (n : nat) (dir : string) :
  ancestor (S n) dir = ancestor n (filepath_Dir dir).
Proof. unfold ancestor. by rewrite Nat.iter_succ_r. Qed.

Lemma findMapper_nearest (fuel : nat) (fs : gmap string node)
    (dir absSource name m : string) :
  mapper.findMapper fuel fs dir absSource name = Some m ->
  m <> "" ->
  exists n,
    m = filepath_Join (ancestor n dir) name /\
    (exists st, os.Stat fs m = Ok st) /\
    forall k, (k < n)%nat ->
      (exists e, os.Stat fs (filepath_Join (ancestor k dir) name) = Err e) /\
      ancestor k dir <> absSource.
Proof.
  revert dir. induction fuel as [|fuel IH]; intros dir; [done|].
  cbn [mapper.findMapper].
  destruct (os.Stat fs (filepath_Join dir name)) as [st|e] eqn:Hstat.
  - intros [= <-] _. exists 0%nat. split; [done|]. split; [by exists st|]. lia.
  - destruct (String.eqb_spec dir absSource) as [Hsrc|Hsrc]; [by intros [= <-]|].
    cbn [orb]. destruct (String.eqb dir (filepath_Dir dir)); [by intros [= <-]|].
    intros Hfind Hne. destruct (IH _ Hfind Hne) as (n & -> & Hst & Hbelow).
    exists (S n). rewrite ancestor_S. split; [done|]. split; [done|].
    intros [|k] Hk.
    + split; [by exists e|done].
    + rewrite ancestor_S. apply Hbelow. lia.
Qed.

(** X10.  The rule that [ResolveRuleForFile] selects for a file is the
    first rule, in the order of the loaded list, whose glob matches the
    file, taken from the nearest mapping file: the one in the directory of
    the file or in the closest directory above it that has one, no
    directory on the way being the source root.  Its decision is [any] or
    [all] and its missing-key mode [deny] or [ignore], those of the rule
    when the rule names them; its hash is the hash of the loaded list. *)
Theorem ResolveRuleForFile_selects (fs : gmap string node) (filePath : string)
    (cfg : Config.t) (sel : SelectedRule.t) :
  mapper.ResolveRuleForFile fs filePath cfg = Some (Ok (Some sel)) ->
  exists absFile absSource n rules pre post,
    let name := Config.MapperFileName (mapper.defaults cfg) in
    let dir := filepath_Dir absFile in
    let mapperPath := filepath_Join (ancestor n dir) name in
    filepath_Abs filePath = Ok absFile /\
    filepath_Abs (Config.SourceDir cfg) = Ok absSource /\
    (exists st, os.Stat fs mapperPath = Ok st) /\
    (forall k, (k < n)%nat ->
       (exists e, os.Stat fs (filepath_Join (ancestor k dir) name) = Err e) /\
       ancestor k dir <> absSource) /\
    mapper.loadRules fs mapperPath (Config.InheritParent cfg) ∅ =
      Some (Ok (rules, SelectedRule.RuleHash sel)) /\
    rules = pre ++ SelectedRule.Rule sel :: post /\
    Forall (fun r => rule_matches mapperPath absFile r = false) pre /\
    rule_matches mapperPath absFile (SelectedRule.Rule sel) = true /\
    (SelectedRule.Decision sel = "any" \/ SelectedRule.Decision sel = "all") /\
    (MappingRule.Decision (SelectedRule.Rule sel) <> "" ->
     SelectedRule.Decision sel = MappingRule.Decision (SelectedRule.Rule sel)) /\
    (SelectedRule.MissingResourceKey sel = "deny" \/
     SelectedRule.MissingResourceKey sel = "ignore") /\
    (MappingRule.MissingResourceKey (SelectedRule.Rule sel) <> "" ->
     SelectedRule.MissingResourceKey sel =
       MappingRule.MissingResourceKey (SelectedRule.Rule sel)).
Proof.
  unfold mapper.ResolveRuleForFile.
  destruct (filepath_Abs filePath) as [absFile|e]; [|done].
  assert (Config.SourceDir (mapper.defaults cfg) = Config.SourceDir cfg) as ->.
  { unfold mapper.defaults. by repeat destruct (String.eqb _ ""). }
  assert (Config.InheritParent (mapper.defaults cfg) = Config.InheritParent cfg) as ->.
  { unfold mapper.defaults. by repeat destruct (String.eqb _ ""). }
  destruct (filepath_Abs (Config.SourceDir cfg)) as [absSource|e]; [|done].
  destruct (mapper.findMapper _ _ _ _ _) as [mapperPath|] eqn:Hfind; [|done].
  destruct (String.eqb_spec mapperPath "") as [Hempty|Hne].
  { destruct (String.eqb _ "deny"); done. }
  destruct (findMapper_nearest _ _ _ _ _ _ Hfind Hne) as (n & -> & Hst & Hbelow).
  destruct (mapper.loadRules _ _ _ _) as [[[rules ruleHash]|e]|] eqn:Hload; try done.
  destruct (mapper.selectRule _ _ _ _ _) as [[sel'|e]|] eqn:Hsel; try done.
  2:{ destruct (String.eqb _ "deny"); done. }
  intros [= ->].
  destruct (selectRule_first _ _ _ _ _ _ Hsel)
    as (pre & post & Hrules & Hpre & Hmatch & Hdec & Hdec' & Hmiss & Hmiss' & Hhash).
  exists absFile, absSource, n, rules, pre, post. cbv zeta.
  rewrite Hhash. repeat split; try done; by apply Hbelow.
Qed.

End resolution.

Section deny_mode.
Context `{MapRange} `{Codec} `{FilePath} `{Text} `{IndexCodec} `{Archive}.
Context {A : Type} `{auth.Authorizer A} {W : Type} `{Writer W}.

Lemma defaults_mode (cfg : Config.t) :
  Config.MissingMapperMode (mapper.defaults cfg) =
  if String.eqb (Config.MissingMapperMode cfg) "" then "deny"
  else Config.MissingMapperMode cfg.
Proof.
  unfold mapper.defaults.
  destruct (String.eqb (Config.MapperFileName cfg) "");
    cbn [Config.MissingMapperMode Config.DefaultMissingKey];
    destruct (String.eqb (Config.MissingMapperMode cfg) "") eqn:Hmode;
    cbn [Config.MissingMapperMode Config.DefaultMissingKey];
    rewrite ?Hmode; destruct (String.eqb (Config.DefaultMissingKey cfg) ""); done.
Qed.

Lemma deny_mode_no_rule (fs : gmap string node) (filePath : string) (cfg : Config.t) :
  Config.MissingMapperMode cfg = "" \/ Config.MissingMapperMode cfg = "deny" ->
  mapper.ResolveRuleForFile fs filePath cfg <> Some (Ok None).
Proof.
  intros Hmode Hres. apply ResolveRuleForFile_no_rule in Hres.
  rewrite defaults_mode in Hres. by destruct Hmode as [Hm | Hm]; rewrite Hm in Hres.
Qed.

(** X11.  Under the missing-mapper mode [deny], which is also what an
    empty mode means, no file is served without a rule: rule resolution
    never answers "no rule" (a file without mapping file or without
    matching rule is an error); without index cache, [BuildOrLoad] never
    returns a passthrough index; and when [RenderFiltered] ends without
    error on a compressed file, a rule had been selected for it. *)
Theorem deny_mode_needs_a_rule (fs : gmap string node) (sourcePath : string)
    (opts : Options.t) (now : Z) (az : A) (w : W) :
  Options.MissingMapperMode opts = "" \/ Options.MissingMapperMode opts = "deny" ->
  mapper.ResolveRuleForFile fs sourcePath (Config_of opts) <> Some (Ok None) /\
  (Options.IndexDir opts = "" ->
   forall fi fs',
     indexer.BuildOrLoad fs sourcePath opts now = Some (Ok fi, fs') ->
     FileIndex.Passthrough fi = false) /\
  (strings.HasSuffix (strings_ToLower sourcePath) ".jsonl" = false ->
   forall w' fs',
     projector.RenderFiltered fs sourcePath opts az w now = Some (w', None, fs') ->
     exists sel,
       mapper.ResolveRuleForFile fs (projector.virtualPathForRule sourcePath)
         (Config_of opts) = Some (Ok (Some sel))).
Proof.
  intros Hmode. split; [by apply deny_mode_no_rule|]. split.
  - intros Hdir fi fs'. unfold indexer.BuildOrLoad.
    pose proof (deny_mode_no_rule fs sourcePath (Config_of opts) Hmode) as Hno.
    unfold Config_of in Hno.
    destruct (mapper.ResolveRuleForFile fs sourcePath _) as [[[rule|]|e]|]; try done.
    destruct (os.Stat fs sourcePath) as [st|e]; [|done].
    rewrite Hdir. cbn [String.eqb negb].
    destruct (indexer.build fs sourcePath st rule now) as [[built|e]|] eqn:Hbuild;
      [|done..].
    intros [= <- <-]. unfold indexer.build in Hbuild.
    destruct (os.Open fs sourcePath); [|done].
    destruct (indexer.build_lines _ _ _ _ _) as [[lines|e]|]; [|done..].
    by injection Hbuild as <-.
  - intros Hplain w' fs'. unfold projector.RenderFiltered. rewrite Hplain.
    pose proof (deny_mode_no_rule fs (projector.virtualPathForRule sourcePath)
                  (Config_of opts) Hmode) as Hno.
    unfold Config_of in Hno |- *.
    destruct (mapper.ResolveRuleForFile fs _ _) as [[[rule|]|e]|]; try done.
    intros _. by exists rule.
Qed.

End deny_mode.

(** ** Virtual names *)

Lemma string_app_suffix (p q a b : string) :
  p +:+ a = q +:+ b -> (String.length a <= String.length b)%nat ->
  exists r, b = r +:+ a.
Proof.
  revert p. induction q as [|c q IH]; intros p Heq Hlen.
  - rewrite app_nil_l in Heq. by exists p.
  - destruct p as [|c' p].
    + rewrite app_nil_l in Heq. apply (f_equal String.length) in Heq.
      rewrite app_cons in Heq. cbn [String.length] in Heq.
      rewrite string_app_length in Heq. lia.
    + rewrite !app_cons in Heq. injection Heq as _ Heq. by eapply IH.
Qed.

Lemma HasSuffix_longer (s a b : string) :
  strings.HasSuffix s a = true ->
  (String.length a <= String.length b)%nat ->
  strings.HasSuffix b a = false ->
  strings.HasSuffix s b = false.
Proof.
  intros Ha Hlen Hba. destruct (strings.HasSuffix s b) eqn:Hb; [|done].
  apply HasSuffix_app in Ha as [p Hp]. apply HasSuffix_app in Hb as [q Hq].
  assert (strings.HasSuffix b a = true); [|congruence].
  apply HasSuffix_app. apply (string_app_suffix p q); [congruence|done].
Qed.

Lemma TrimSuffix_cases (s suffix : string) :
  s = strings.TrimSuffix s suffix \/ s = strings.TrimSuffix s suffix +:+ suffix.
Proof.
  unfold strings.TrimSuffix. destruct (strings.HasSuffix s suffix) eqn:Hs; [|by left].
  right. apply HasSuffix_app in Hs as [p ->].
  rewrite string_app_length.
  replace (String.length p + String.length suffix - String.length suffix)%nat
    with (String.length p) by lia.
  f_equal. clear. induction p as [|c p IH]; [by destruct suffix|].
  rewrite app_cons. cbn [String.length String.substring]. by rewrite <- IH.
Qed.

Section names.
Context `{Text}.

Lemma VirtualJSONLName_unprojected (name : string) :
  (projector.VirtualJSONLName name).2 = false ->
  (projector.VirtualJSONLName name).1 = name.
Proof.
  unfold projector.VirtualJSONLName.
  destruct (strings.HasSuffix (strings_ToLower name) ".jsonl"); [done|].
  destruct (strings.HasSuffix (strings_ToLower name) ".jsonl.gz"); [done|].
  by destruct (strings.HasSuffix (strings_ToLower name) ".jsonl.tar.gz").
Qed.

(** X12.  The virtual names.  The path under which the projector looks
    up the rule of a source is the name under which the listing shows it:
    [virtualPathForRule] and [VirtualJSONLName] give the same text.  A
    name that is not marked as projected is unchanged; a virtual name is
    the name itself or the name without a final [.gz] or [.tar.gz]; and a
    name is marked as projected exactly when its lower-case form ends in
    [.jsonl.gz] or [.jsonl.tar.gz]. *)
Theorem virtual_names (name : string) :
  projector.virtualPathForRule name = (projector.VirtualJSONLName name).1 /\
  ((projector.VirtualJSONLName name).2 = false ->
   (projector.VirtualJSONLName name).1 = name) /\
  (name = (projector.VirtualJSONLName name).1 \/
   name = (projector.VirtualJSONLName name).1 +:+ ".gz" \/
   name = (projector.VirtualJSONLName name).1 +:+ ".tar.gz") /\
  ((projector.VirtualJSONLName name).2 = true <->
   strings.HasSuffix (strings_ToLower name) ".jsonl.gz" = true \/
   strings.HasSuffix (strings_ToLower name) ".jsonl.tar.gz" = true).
Proof.
  unfold projector.virtualPathForRule, projector.VirtualJSONLName.
  destruct (strings.HasSuffix (strings_ToLower name) ".jsonl") eqn:Hplain.
  - rewrite (HasSuffix_longer _ ".jsonl" ".jsonl.gz" Hplain) by (done || (simpl; lia)).
    rewrite (HasSuffix_longer _ ".jsonl" ".jsonl.tar.gz" Hplain) by (done || (simpl; lia)).
    cbn. repeat split; try done; auto. by intros [|].
  - destruct (strings.HasSuffix (strings_ToLower name) ".jsonl.gz") eqn:Hgz.
    + cbn. repeat split; try done; auto.
      destruct (TrimSuffix_cases name ".gz"); auto.
    + destruct (strings.HasSuffix (strings_ToLower name) ".jsonl.tar.gz") eqn:Htgz.
      * cbn. repeat split; try done; auto.
        destruct (TrimSuffix_cases name ".tar.gz"); auto.
      * cbn. repeat split; try done; auto. by intros [|].
Qed.

End names.

(** ** What the projector emits *)

Section projection.
Context `{MapRange} `{Codec} `{FilePath} `{Text} `{IndexCodec} `{Archive}.
Context {A : Type} `{auth.Authorizer A}.

Lemma filtered_stream_span (rule : option SelectedRule.t) (az : A) (b : bytes) :
  filtered_stream rule az b =
  match span_delim newline b with
  | Some (chunk, rest) =>
      (if projector.isVisibleLine rule
            (bytes_TrimRight chunk (String carriage_return (String newline ""))) az
       then chunk else []) ++ filtered_stream rule az rest
  | None =>
      match b with
      | [] => []
      | _ => if projector.isVisibleLine rule
                  (bytes_TrimRight b (String carriage_return (String newline ""))) az
             then b else []
      end
  end.
Proof.
  unfold filtered_stream. pose proof (physical_lines_span b) as Hspan.
  destruct (span_delim newline b) as [[chunk rest]|].
  - rewrite Hspan, filter_cons.
    destruct (projector.isVisibleLine rule _ az).
    + by rewrite decide_True by exact I.
    + by rewrite decide_False by exact id.
  - rewrite Hspan. destruct b as [|c r]; [done|]. rewrite filter_cons, filter_nil.
    destruct (projector.isVisibleLine rule _ az).
    + rewrite decide_True by exact I. cbn. by rewrite app_nil_r.
    + by rewrite decide_False by exact id.
Qed.

Lemma streamJSONLLines_filtered (fuel : nat) (br : Reader)
    (rule : option SelectedRule.t) (az : A) (w : Buffer) :
  (length (remaining br) < fuel)%nat ->
  clean_end (failure br) ->
  projector.streamJSONLLines fuel br rule az w =
    Some ({| Bytes := Bytes w ++ filtered_stream rule az (remaining br) |}, None).
Proof.
  revert br w. induction fuel as [|fuel IH]; intros br w Hfuel Hclean; [lia|].
  cbn [projector.streamJSONLLines]. unfold ReadBytes.
  rewrite (filtered_stream_span rule az (remaining br)).
  destruct (span_delim newline (remaining br)) as [[chunk rest]|] eqn:Hspan.
  - apply span_delim_Some in Hspan as (Hb & Hne & _).
    assert (0 < length chunk)%nat as Hlen by (destruct chunk; [done|simpl; lia]).
    replace (0 <? length chunk)%nat with true by (symmetry; by apply Nat.ltb_lt).
    assert (length rest < fuel)%nat as Hrest
      by (rewrite Hb, length_app in Hfuel; lia).
    destruct (projector.isVisibleLine rule _ az); cbn [Write Buffer_Writer].
    + rewrite IH by done. cbn [Bytes remaining]. by rewrite <- (assoc_L (++)).
    + by rewrite IH by done.
  - assert (match failure br with Some e => e | None => EOF end = EOF) as ->.
    { by destruct Hclean as [-> | ->]. }
    destruct (remaining br) as [|c r]; [by rewrite app_nil_r, Buffer_eta|].
    cbn [length Nat.ltb Nat.leb].
    destruct (projector.isVisibleLine rule _ az); cbn [Write Buffer_Writer]; [done|].
    by rewrite app_nil_r, Buffer_eta.
Qed.

Lemma renderEntries_filtered (entries : list (tar.Header * Reader))
    (last : option error) (rule : option SelectedRule.t) (az : A) (w : Buffer) :
  (forall e, e ∈ entries -> jsonl_entry e = true -> clean_end (failure e.2)) ->
  clean_end last ->
  projector.renderEntries entries last rule az w =
    Some ({| Bytes := Bytes w ++ filtered_records rule az entries |}, None).
Proof.
  intros Hclean Hlast. revert w Hclean.
  induction entries as [|[hdr tr] rest IH]; intros w Hclean.
  - cbn. unfold filtered_records. cbn. rewrite app_nil_r, Buffer_eta.
    by destruct Hlast as [-> | ->].
  - cbn [projector.renderEntries]. unfold filtered_records.
    rewrite filter_cons.
    assert (jsonl_entry (hdr, tr) =
            Ascii.eqb (tar.Typeflag hdr) tar.TypeReg &&
            strings.HasSuffix (strings_ToLower (tar.Name hdr)) ".jsonl") as Hentry
      by reflexivity.
    assert (forall e, e ∈ rest -> jsonl_entry e = true -> clean_end (failure e.2))
      as Hrest.
    { intros e He. apply Hclean. by apply list_elem_of_further. }
    destruct (Ascii.eqb (tar.Typeflag hdr) tar.TypeReg) eqn:Hreg; cbn [negb andb] in *.
    + destruct (strings.HasSuffix _ ".jsonl") eqn:Hname; cbn [negb].
      * rewrite decide_True by (rewrite Hentry; exact I).
        unfold projector.renderStream.
        rewrite streamJSONLLines_filtered; [|lia|].
        -- rewrite IH by done. cbn. by rewrite <- (assoc_L (++)).
        -- apply (Hclean (hdr, tr)); [apply list_elem_of_here | done].
      * rewrite decide_False by (rewrite Hentry; exact id). by apply IH.
    + rewrite decide_False by (rewrite Hentry; exact id). by apply IH.
Qed.

(** X13.  What the projector writes for a compressed source under the
    rule that resolution gives (or none): for a [.jsonl.gz] that decodes
    to a stream with a clean end, the physical lines of the stream that
    the authorizer may see, whole, with their terminators and in order,
    and nothing else; for a [.jsonl.tar.gz], the same for each regular
    entry whose name ends in [.jsonl], in archive order, all under the one
    rule of the archive, entries of other kinds or names being skipped. *)
Theorem RenderFiltered_visible_lines (fs : gmap string node) (sourcePath : string)
    (opts : Options.t) (az : A) (w : Buffer) (now : Z) (f gz : Reader)
    (rule : option SelectedRule.t) :
  let lower := strings_ToLower sourcePath in
  mapper.ResolveRuleForFile fs (projector.virtualPathForRule sourcePath)
    (Config_of opts) = Some (Ok rule) ->
  os.Open fs sourcePath = Ok f ->
  gzip_NewReader f = Ok gz ->
  (strings.HasSuffix lower ".jsonl.gz" = true ->
   clean_end (failure gz) ->
   projector.RenderFiltered fs sourcePath opts az w now =
     Some ({| Bytes := Bytes w ++ filtered_stream rule az (remaining gz) |}, None, fs)) /\
  (strings.HasSuffix lower ".jsonl.tar.gz" = true ->
   forall entries last,
     tar_NewReader gz = (entries, last) ->
     clean_end last ->
     (forall e, e ∈ entries -> jsonl_entry e = true -> clean_end (failure e.2)) ->
     projector.RenderFiltered fs sourcePath opts az w now =
       Some ({| Bytes := Bytes w ++ filtered_records rule az entries |}, None, fs)).
Proof.
  intros lower Hrule Hopen Hgz. unfold Config_of in Hrule. split.
  - intros Hsuf Hclean. unfold projector.RenderFiltered. fold lower.
    rewrite (HasSuffix_excludes lower ".jsonl.gz" ".jsonl") by (done || (simpl; lia)).
    rewrite Hrule, Hsuf. unfold projector.renderGzipJSONL.
    rewrite Hopen, Hgz. unfold projector.renderStream.
    by rewrite streamJSONLLines_filtered by (done || lia).
  - intros Hsuf entries last Htar Hlast Hclean.
    unfold projector.RenderFiltered. fold lower.
    rewrite (HasSuffix_excludes lower ".jsonl.tar.gz" ".jsonl") by (done || (simpl; lia)).
    rewrite Hrule.
    rewrite (HasSuffix_excludes lower ".jsonl.tar.gz" ".jsonl.gz") by (done || (simpl; lia)).
    rewrite Hsuf. unfold projector.renderTarGzipJSONL.
    rewrite Hopen, Hgz, Htar. by rewrite renderEntries_filtered.
Qed.

End projection.

(** ** The surface with virtual names *)

Section virtual_surface.
Context `{MapRange} `{Codec} `{FilePath} `{Text} `{IndexCodec} `{Archive}.
Context {A : Type} `{auth.Authorizer A}.

Lemma resolved_name (dir : string) (e : DirEntry.t) :
  fusefs_unix.resolvedEntry.projected (resolved dir e) = false ->
  fusefs_unix.resolvedEntry.name (resolved dir e) = DirEntry.Name e.
Proof.
  unfold resolved. destruct (DirEntry.IsDir e); [done|].
  cbn [fusefs_unix.resolvedEntry.projected fusefs_unix.resolvedEntry.name].
  apply VirtualJSONLName_unprojected.
Qed.

Lemma resolveEntry_unfold (dir : string)
    (out : gmap string fusefs_unix.resolvedEntry.t) (e : DirEntry.t) :
  fusefs_unix.resolveEntry dir out e =
  let r := resolved dir e in
  let key := fusefs_unix.resolvedEntry.name r in
  if DirEntry.IsDir e then <[key := r]> out
  else
    match out !! key with
    | Some existing =>
        if negb (fusefs_unix.resolvedEntry.projected existing) then out
        else <[key := r]> out
    | None => <[key := r]> out
    end.
Proof.
  unfold fusefs_unix.resolveEntry, resolved.
  destruct (DirEntry.IsDir e); [done|].
  destruct (projector.VirtualJSONLName (DirEntry.Name e)) as [vname projected].
  cbn [fst snd fusefs_unix.resolvedEntry.name].
  destruct (out !! vname) as [existing|]; [|done].
  by destruct (negb _).
Qed.

(** Every binding of the map comes from an entry of the directory. *)
Lemma resolveEntries_from (dir : string) (entries : list DirEntry.t)
    (k : string) (r : fusefs_unix.resolvedEntry.t) :
  foldl (fusefs_unix.resolveEntry dir) ∅ entries !! k = Some r ->
  fusefs_unix.resolvedEntry.name r = k /\
  exists e, e ∈ entries /\ r = resolved dir e.
Proof.
  revert k r. induction entries as [|e entries IH] using rev_ind; intros k r.
  - cbn. by rewrite lookup_empty.
  - rewrite foldl_app. cbn [foldl]. rewrite resolveEntry_unfold. cbv zeta.
    set (out := foldl (fusefs_unix.resolveEntry dir) ∅ entries) in *.
    assert (out !! k = Some r ->
            fusefs_unix.resolvedEntry.name r = k /\
            exists e', e' ∈ entries ++ [e] /\ r = resolved dir e') as Hold.
    { intros Hk. destruct (IH _ _ Hk) as (Hname & e' & He' & Hr).
      split; [done|]. exists e'. split; [|done]. apply elem_of_app. by left. }
    assert (<[fusefs_unix.resolvedEntry.name (resolved dir e) := resolved dir e]> out
              !! k = Some r ->
            fusefs_unix.resolvedEntry.name r = k /\
            exists e', e' ∈ entries ++ [e] /\ r = resolved dir e') as Hnew.
    { intros Hk. apply lookup_insert_Some in Hk as [[<- <-]|[_ Hk]]; [|by apply Hold].
      split; [done|]. exists e. split; [|done].
      apply elem_of_app. right. apply list_elem_of_here. }
    destruct (DirEntry.IsDir e); [done|].
    destruct (out !! fusefs_unix.resolvedEntry.name (resolved dir e)) as [existing|];
      [|done].
    by destruct (negb _).
Qed.

Lemma resolveEntries_physical (dir : string) (entries : list DirEntry.t)
    (e : DirEntry.t) :
  NoDup (map DirEntry.Name entries) ->
  e ∈ entries ->
  fusefs_unix.resolvedEntry.projected (resolved dir e) = false ->
  foldl (fusefs_unix.resolveEntry dir) ∅ entries !! DirEntry.Name e =
    Some (resolved dir e).
Proof.
  intros Hnd He Hphys. revert Hnd He.
  induction entries as [|x entries IH] using rev_ind; intros Hnd He.
  - inversion He.
  - rewrite map_app in Hnd. apply NoDup_app in Hnd as (Hnd & Hnot & _).
    rewrite foldl_app. cbn [foldl]. rewrite resolveEntry_unfold. cbv zeta.
    set (out := foldl (fusefs_unix.resolveEntry dir) ∅ entries) in *.
    apply elem_of_app in He as [He|He].
    + (* an earlier entry: nothing that follows replaces it *)
      specialize (IH Hnd He).
      assert (DirEntry.Name x <> DirEntry.Name e) as Hne.
      { intros Heq. apply (Hnot (DirEntry.Name e)).
        - apply list_elem_of_fmap. by exists e.
        - rewrite <- Heq. cbn. apply list_elem_of_here. }
      destruct (decide (fusefs_unix.resolvedEntry.name (resolved dir x) =
                        DirEntry.Name e)) as [Hkey|Hkey].
      * rewrite Hkey, IH, Hphys. cbn [negb].
        destruct (DirEntry.IsDir x) eqn:Hdir; [|done].
        unfold resolved in Hkey. rewrite Hdir in Hkey. by cbn in Hkey.
      * destruct (DirEntry.IsDir x); [by rewrite lookup_insert_ne|].
        destruct (out !! fusefs_unix.resolvedEntry.name (resolved dir x))
          as [existing|]; [|by rewrite lookup_insert_ne].
        destruct (negb _); [done|by rewrite lookup_insert_ne].
    + (* the last entry: only a projected one can be in its place *)
      apply list_elem_of_singleton in He as ->.
      rewrite (resolved_name dir x Hphys).
      destruct (DirEntry.IsDir x); [by rewrite lookup_insert_eq|].
      destruct (out !! DirEntry.Name x) as [existing|] eqn:Hex;
        [|by rewrite lookup_insert_eq].
      destruct (fusefs_unix.resolvedEntry.projected existing) eqn:Hproj;
        cbn [negb]; [by rewrite lookup_insert_eq|].
      exfalso. destruct (resolveEntries_from _ _ _ _ Hex) as (Hname & e' & He' & ->).
      rewrite resolved_name in Hname by done.
      apply (Hnot (DirEntry.Name x)).
      * apply list_elem_of_fmap. exists e'. by split.
      * cbn. apply list_elem_of_here.
Qed.

Lemma resolveEntries_shown (dir : string) (entries : list DirEntry.t)
    (e : DirEntry.t) :
  e ∈ entries ->
  is_Some (foldl (fusefs_unix.resolveEntry dir) ∅ entries
             !! fusefs_unix.resolvedEntry.name (resolved dir e)).
Proof.
  induction entries as [|x entries IH] using rev_ind; intros He; [inversion He|].
  rewrite foldl_app. cbn [foldl]. rewrite resolveEntry_unfold. cbv zeta.
  set (out := foldl (fusefs_unix.resolveEntry dir) ∅ entries) in *.
  assert (forall m : gmap string fusefs_unix.resolvedEntry.t,
            is_Some (out !! fusefs_unix.resolvedEntry.name (resolved dir e)) ->
            is_Some (<[fusefs_unix.resolvedEntry.name (resolved dir x) :=
                         resolved dir x]> out
                       !! fusefs_unix.resolvedEntry.name (resolved dir e))) as Hins.
  { intros _ Hs. rewrite lookup_insert_is_Some.
    destruct (decide (fusefs_unix.resolvedEntry.name (resolved dir x) =
                      fusefs_unix.resolvedEntry.name (resolved dir e))); auto. }
  apply elem_of_app in He as [He|He].
  - specialize (IH He).
    destruct (DirEntry.IsDir x); [by apply Hins|].
    destruct (out !! fusefs_unix.resolvedEntry.name (resolved dir x)) as [existing|];
      [|by apply Hins].
    destruct (negb _); [done|by apply Hins].
  - apply list_elem_of_singleton in He as ->.
    destruct (DirEntry.IsDir x); [rewrite lookup_insert_eq; by eexists|].
    destruct (out !! fusefs_unix.resolvedEntry.name (resolved dir x)) as [existing|] eqn:Hex;
      [|rewrite lookup_insert_eq; by eexists].
    destruct (negb _); [by rewrite Hex|rewrite lookup_insert_eq; by eexists].
Qed.

(** X14.  The map of a directory that the surface with virtual names
    shows.  For a directory whose entries have different names: every
    name shown stands for an entry of the directory, a file under its
    virtual name with its own path as source; every entry is shown under
    some name; and a directory, or a file whose name is not projected
    (a plain [.jsonl] file among them), is shown under its own name and
    stands for itself, whatever compressed files share its virtual name
    and wherever they come in the directory. *)
Theorem resolveEntries_physical_wins (fs : gmap string node)
    (d : fusefs.dirNode A) (dirEntries : list DirEntry.t) :
  os.ReadDir fs (fusefs.sourcePath d) = Ok dirEntries ->
  NoDup (map DirEntry.Name dirEntries) ->
  exists entries,
    fusefs_unix.resolveEntries fs d = Ok entries /\
    (forall k r, entries !! k = Some r ->
       fusefs_unix.resolvedEntry.name r = k /\
       exists e, e ∈ dirEntries /\ r = resolved (fusefs.sourcePath d) e) /\
    (forall e, e ∈ dirEntries ->
       is_Some (entries !!
                  fusefs_unix.resolvedEntry.name (resolved (fusefs.sourcePath d) e))) /\
    (forall e, e ∈ dirEntries ->
       fusefs_unix.resolvedEntry.projected (resolved (fusefs.sourcePath d) e) = false ->
       entries !! DirEntry.Name e = Some (resolved (fusefs.sourcePath d) e)).
Proof.
  intros Hread Hnd. unfold fusefs_unix.resolveEntries. rewrite Hread.
  eexists. split; [reflexivity|]. split; [|split].
  - intros k r. apply resolveEntries_from.
  - intros e. apply resolveEntries_shown.
  - intros e. by apply resolveEntries_physical.
Qed.

Lemma insert_string_sorted (k : string) (l : list string) :
  ascending l -> ascending (mapper.insert_string k l).
Proof.
  unfold ascending. induction l as [|x r IH]; intros Hl; cbn [mapper.insert_string].
  - by repeat constructor.
  - destruct (String.leb k x) eqn:Hkx.
    + constructor; [done|]. by constructor.
    + apply Sorted_inv in Hl as [Hr Hhd]. constructor; [by apply IH|].
      assert (String.leb x k = true) as Hxk.
      { destruct (String.leb_total k x) as [Hc|Hc]; [congruence|done]. }
      destruct r as [|y r]; cbn [mapper.insert_string].
      * by constructor.
      * destruct (String.leb k y); constructor; [done|].
        by apply HdRel_inv in Hhd.
Qed.

Lemma sort_Strings_sorted (l : list string) : ascending (mapper.sort_Strings l).
Proof.
  unfold mapper.sort_Strings. induction l as [|x r IH]; cbn [foldr].
  - constructor.
  - by apply insert_string_sorted.
Qed.

Lemma resolveEntries_key (fs : gmap string node) (d : fusefs.dirNode A)
    (entries : gmap string fusefs_unix.resolvedEntry.t) (k : string)
    (r : fusefs_unix.resolvedEntry.t) :
  fusefs_unix.resolveEntries fs d = Ok entries ->
  entries !! k = Some r -> fusefs_unix.resolvedEntry.name r = k.
Proof.
  intros Hres Hk. unfold fusefs_unix.resolveEntries in Hres.
  destruct (os.ReadDir fs (fusefs.sourcePath d)) as [dirEntries|e]; [|done].
  injection Hres as <-. by apply resolveEntries_from in Hk as [Hk _].
Qed.

Lemma Readdir_names (fs : gmap string node) (d : fusefs.dirNode A)
    (entries : gmap string fusefs_unix.resolvedEntry.t) :
  fusefs_unix.resolveEntries fs d = Ok entries ->
  exists listing,
    fusefs_unix.Readdir fs d = inl listing /\
    map fuse.Name listing =
      mapper.sort_Strings (map (fun kv => kv.1) (range_order entries)) /\
    (forall item, item ∈ listing ->
       exists r, entries !! fuse.Name item = Some r /\
         fuse.Mode item = mode_of (fusefs_unix.resolvedEntry.isDir r)).
Proof.
  intros Hres. unfold fusefs_unix.Readdir. rewrite Hres.
  eexists. split; [reflexivity|].
  rewrite !foldl_snoc_map. cbn [app].
  set (names := mapper.sort_Strings (map (fun kv => kv.1) (range_order entries))).
  assert (forall name, name ∈ names -> is_Some (entries !! name)) as Hnames.
  { intros name. apply range_keys. }
  split.
  - rewrite map_map. cbn [fuse.Name]. rewrite <- (map_id names) at 2.
    apply map_ext_in. intros name Hin%list_elem_of_In%Hnames. destruct Hin as [r Hr].
    rewrite Hr. cbn. by eapply resolveEntries_key.
  - intros item [name [-> Hin]]%list_elem_of_fmap.
    apply Hnames in Hin as [r Hr]. cbn [fuse.Name fuse.Mode]. rewrite Hr. cbn.
    exists r. rewrite (resolveEntries_key _ _ _ _ _ Hres Hr). done.
Qed.

(** X15.  The listing of a directory on the surface with virtual names:
    the names are the keys of the map of the directory, each once, in the
    ascending order of [sort.Strings] whatever the order in which the
    runtime visits the map, and the mode of a name tells whether it
    stands for a directory. *)
Theorem Readdir_listing (fs : gmap string node) (d : fusefs.dirNode A)
    (entries : gmap string fusefs_unix.resolvedEntry.t) :
  fusefs_unix.resolveEntries fs d = Ok entries ->
  exists listing,
    fusefs_unix.Readdir fs d = inl listing /\
    ascending (map fuse.Name listing) /\
    NoDup (map fuse.Name listing) /\
    (forall name, name ∈ map fuse.Name listing <-> is_Some (entries !! name)) /\
    (forall item, item ∈ listing ->
       exists r, entries !! fuse.Name item = Some r /\
         fuse.Mode item = mode_of (fusefs_unix.resolvedEntry.isDir r)).
Proof.
  intros Hres. destruct (Readdir_names fs d entries Hres) as (listing & Hlist & Hn & Hm).
  exists listing. split; [done|]. rewrite Hn.
  split; [apply sort_Strings_sorted|]. split; [|split; [|done]].
  - rewrite sort_Strings_perm, range_order_perm. apply NoDup_fst_map_to_list.
  - intros name. apply range_keys.
Qed.

(** X16.  [Lookup] and [Readdir] agree on which names exist: [Lookup]
    answers [ENOENT] for a name exactly when the listing of the directory
    does not have it.  A name that stands for a directory opens the
    directory behind it with the configuration and the authorizer of its
    parent; so a compressed file that is listed under its virtual name is
    not found under its own. *)
Theorem Lookup_agrees_with_Readdir (fs : gmap string node) (d : fusefs.dirNode A)
    (entries : gmap string fusefs_unix.resolvedEntry.t)
    (listing : list fuse.DirEntry) (name : string) (now : Z) :
  fusefs_unix.resolveEntries fs d = Ok entries ->
  fusefs_unix.Readdir fs d = inl listing ->
  (fusefs_unix.Lookup fs d name now = Some (inr fusefs.ENOENT, fs) <->
   name ∉ map fuse.Name listing) /\
  (forall r, entries !! name = Some r ->
     fusefs_unix.resolvedEntry.isDir r = true ->
     fusefs_unix.Lookup fs d name now =
       Some (inl (fusefs.DirInode
                    {| fusefs.cfg := fusefs.cfg d;
                       fusefs.az := fusefs.az d;
                       fusefs.sourcePath := fusefs_unix.resolvedEntry.source r |}), fs)).
Proof.
  intros Hres Hlist.
  destruct (Readdir_names fs d entries Hres) as (listing' & Hlist' & Hn & _).
  rewrite Hlist in Hlist'. injection Hlist' as <-.
  unfold fusefs_unix.Lookup. rewrite Hres. split.
  - rewrite Hn, range_keys. destruct (entries !! name) as [r|] eqn:Hr.
    + split; [|intros Hno; exfalso; apply Hno; by eexists].
      destruct (fusefs_unix.resolvedEntry.isDir r); [done|].
      destruct (fusefs_unix.fileData fs d r now) as [[[data|e] fs']|]; done.
    + split; [|done]. intros _ [r Hr']. done.
  - intros r Hr Hdir. by rewrite Hr, Hdir.
Qed.

(** X17.  What a name of the surface with virtual names reads as.  A
    name that stands for a file gives a memory file, read-only (mode
    [0o444]), whose size is the number of its bytes, and the bytes are:
    what [RenderFiltered] writes for the source behind the name, when the
    name is projected (a compressed file under its virtual name) or the
    source ends in [.jsonl]; the bytes of the source as they are,
    otherwise.  An error of either is the error [EIO]. *)
Theorem Lookup_serves_filtered (fs : gmap string node) (d : fusefs.dirNode A)
    (entries : gmap string fusefs_unix.resolvedEntry.t) (name : string) (now : Z)
    (r : fusefs_unix.resolvedEntry.t) :
  fusefs_unix.resolveEntries fs d = Ok entries ->
  entries !! name = Some r ->
  fusefs_unix.resolvedEntry.isDir r = false ->
  let source := fusefs_unix.resolvedEntry.source r in
  let filtered :=
    fusefs_unix.resolvedEntry.projected r ||
    strings.HasSuffix (strings_ToLower source) ".jsonl" in
  (filtered = true ->
   forall b err fs',
     projector.RenderFiltered fs source (Options_of (fusefs.cfg d)) (fusefs.az d)
       {| Bytes := [] |} now = Some (b, err, fs') ->
     fusefs_unix.Lookup fs d name now =
       Some (match err with
             | None => inl (fusefs.MemFile (Bytes b) 292 (Z.of_nat (length (Bytes b))))
             | Some _ => inr fusefs.EIO
             end, fs')) /\
  (filtered = false ->
   fusefs_unix.Lookup fs d name now =
     Some (match os.ReadFile fs source with
           | Ok data => inl (fusefs.MemFile data 292 (Z.of_nat (length data)))
           | Err _ => inr fusefs.EIO
           end, fs)).
Proof.
  intros Hres Hr Hdir source filtered. unfold fusefs_unix.Lookup.
  rewrite Hres, Hr, Hdir. unfold fusefs_unix.fileData. fold source.
  subst filtered. unfold Options_of.
  destruct (fusefs_unix.resolvedEntry.projected r);
    destruct (strings.HasSuffix (strings_ToLower source) ".jsonl");
    cbn [negb andb orb]; split; try done.
  1-3: intros _ b err fs' ->; by destruct err.
  intros _. by destruct (os.ReadFile fs source).
Qed.

Lemma TrimSuffix_app (p suffix : string) : strings.TrimSuffix (p +:+ suffix) suffix = p.
Proof.
  unfold strings.TrimSuffix.
  assert (strings.HasSuffix (p +:+ suffix) suffix = true) as ->
    by (apply HasSuffix_app; by exists p).
  rewrite string_app_length.
  replace (String.length p + String.length suffix - String.length suffix)%nat
    with (String.length p) by lia.
  induction p as [|c p IH]; [by destruct suffix|].
  rewrite app_cons. cbn [String.length String.substring]. by rewrite IH.
Qed.

Lemma VirtualJSONLName_compressed (e : DirEntry.t) (base : string) :
  compressed_as e base -> projector.VirtualJSONLName (DirEntry.Name e) = (base, true).
Proof.
  intros [_ [[Hname Hgz]|[Hname Htar]]]; unfold projector.VirtualJSONLName.
  - rewrite (HasSuffix_excludes _ ".jsonl.gz" ".jsonl" Hgz) by (done || (simpl; lia)).
    rewrite Hgz. by rewrite Hname, TrimSuffix_app.
  - rewrite (HasSuffix_excludes _ ".jsonl.tar.gz" ".jsonl" Htar) by (done || (simpl; lia)).
    rewrite (HasSuffix_excludes _ ".jsonl.tar.gz" ".jsonl.gz" Htar)
      by (done || (simpl; lia)).
    rewrite Htar. by rewrite Hname, TrimSuffix_app.
Qed.

(** C3.  The filesystem surface (the file of package [fusefs] that is
    built on every system but Windows).  For a directory whose entries
    have different names: the listing has every name once, and its names
    are those under which the entries are shown.  A compressed file of
    records, [base.gz] or [base.tar.gz], is shown as [base], without the
    compression suffix.  A directory, and a file that is not a compressed
    file of records, is shown under its own name, and that name stands
    for it: where a plain file and compressed files share a name, the
    plain file is the one that is served.  Reading a name that stands for
    a file gives a memory file with the filtered bytes: those that the
    Projector ([RenderFiltered]) writes for the compressed file behind the
    name, or, for a plain file whose path ends in [.jsonl], those that the
    Indexer produces ([BuildOrLoad], then [FilterToWriter]). *)
Theorem surface_presents_virtual_names (fs : gmap string node)
    (d : fusefs.dirNode A) (dirEntries : list DirEntry.t) (now : Z) :
  os.ReadDir fs (fusefs.sourcePath d) = Ok dirEntries ->
  NoDup (map DirEntry.Name dirEntries) ->
  let shown e := resolved (fusefs.sourcePath d) e in
  exists entries listing,
    fusefs_unix.resolveEntries fs d = Ok entries /\
    fusefs_unix.Readdir fs d = inl listing /\
    NoDup (map fuse.Name listing) /\
    (forall name,
       name ∈ map fuse.Name listing <->
       exists e, e ∈ dirEntries /\ name = fusefs_unix.resolvedEntry.name (shown e)) /\
    (forall e base, e ∈ dirEntries -> compressed_as e base ->
       fusefs_unix.resolvedEntry.name (shown e) = base /\
       fusefs_unix.resolvedEntry.projected (shown e) = true /\
       base ∈ map fuse.Name listing) /\
    (forall e, e ∈ dirEntries ->
       fusefs_unix.resolvedEntry.projected (shown e) = false ->
       DirEntry.Name e ∈ map fuse.Name listing /\
       entries !! DirEntry.Name e = Some (shown e)) /\
    (forall e plain base, e ∈ dirEntries -> plain ∈ dirEntries ->
       compressed_as e base ->
       DirEntry.Name plain = base ->
       fusefs_unix.resolvedEntry.projected (shown plain) = false ->
       entries !! base = Some (shown plain)) /\
    (forall name r, entries !! name = Some r ->
       fusefs_unix.resolvedEntry.isDir r = false ->
       let source := fusefs_unix.resolvedEntry.source r in
       let opts := Options_of (fusefs.cfg d) in
       (exists e, e ∈ dirEntries /\ DirEntry.IsDir e = false /\ r = shown e) /\
       (fusefs_unix.resolvedEntry.projected r = true ->
        fusefs_unix.Lookup fs d name now =
          served (projector.RenderFiltered fs source opts (fusefs.az d)
                    {| Bytes := [] |} now)) /\
       (fusefs_unix.resolvedEntry.projected r = false ->
        strings.HasSuffix (strings_ToLower source) ".jsonl" = true ->
        fusefs_unix.Lookup fs d name now =
          served (match indexer.BuildOrLoad fs source opts now with
                  | None => None
                  | Some (Err e, fs') => Some ({| Bytes := [] |}, Some e, fs')
                  | Some (Ok fi, fs') =>
                      Some (indexer.FilterToWriter fs' fi (fusefs.az d)
                              {| Bytes := [] |}, fs')
                  end))).
Proof.
  intros Hdir Hnd shown.
  assert (fusefs_unix.resolveEntries fs d =
            Ok (foldl (fusefs_unix.resolveEntry (fusefs.sourcePath d)) ∅ dirEntries))
    as Hres by (unfold fusefs_unix.resolveEntries; by rewrite Hdir).
  destruct (Readdir_names fs d _ Hres) as (listing & Hlist & Hn & _).
  assert (forall name,
            name ∈ map fuse.Name listing <->
            exists e, e ∈ dirEntries /\
                      name = fusefs_unix.resolvedEntry.name (shown e)) as Hnames.
  { intros name. rewrite Hn, range_keys. split.
    - intros [r Hr]. apply resolveEntries_from in Hr as (Hname & e & He & ->).
      by exists e.
    - intros (e & He & ->). by apply resolveEntries_shown. }
  eexists _, listing. split; [exact Hres|]. split; [exact Hlist|].
  split; [|split; [exact Hnames|split; [|split; [|split]]]].
  - rewrite Hn, sort_Strings_perm, range_order_perm. apply NoDup_fst_map_to_list.
  - intros e base He Hcompressed.
    assert (fusefs_unix.resolvedEntry.name (shown e) = base /\
            fusefs_unix.resolvedEntry.projected (shown e) = true) as [Hname Hproj].
    { subst shown. unfold resolved. destruct Hcompressed as [Hfile Hsuffix].
      rewrite Hfile.
      cbn [fusefs_unix.resolvedEntry.name fusefs_unix.resolvedEntry.projected].
      by rewrite (VirtualJSONLName_compressed e base (conj Hfile Hsuffix)). }
    split; [exact Hname|]. split; [exact Hproj|].
    apply Hnames. exists e. by rewrite Hname.
  - intros e He Hproj. split.
    + apply Hnames. exists e. split; [exact He|]. symmetry. by apply resolved_name.
    + by apply resolveEntries_physical.
  - intros e plain base He Hplain _ <- Hproj. by apply resolveEntries_physical.
  - intros name r Hr Hfile source opts. split; [|split].
    + apply resolveEntries_from in Hr as (_ & e & He & ->). exists e.
      split; [exact He|]. split; [|done].
      revert Hfile. subst shown. unfold resolved. by destruct (DirEntry.IsDir e).
    + intros Hproj. unfold fusefs_unix.Lookup. rewrite Hres, Hr, Hfile.
      unfold fusefs_unix.fileData. fold source. rewrite Hproj. cbn [negb andb].
      subst opts. unfold Options_of, served.
      by destruct (projector.RenderFiltered _ _ _ _ _ _) as [[[b [err|]] fs']|].
    + intros Hproj Hsuffix. unfold fusefs_unix.Lookup. rewrite Hres, Hr, Hfile.
      unfold fusefs_unix.fileData. fold source. rewrite Hproj, Hsuffix.
      cbn [negb andb]. unfold projector.RenderFiltered. rewrite Hsuffix.
      subst opts. unfold Options_of, served.
      destruct (indexer.BuildOrLoad _ _ _ _) as [[[fi|err] fs']|]; [|done..].
      by destruct (indexer.FilterToWriter fs' fi (fusefs.az d) _) as [b [err|]].
Qed.

End virtual_surface.

(** ** The authorizer of a permissions file *)

Lemma NewFromAllowList_elem (allow : list auth.CandidateKey) (c : auth.CandidateKey) :
  c ∈ auth.allowed (auth.NewFromAllowList allow) <->
  exists k, k ∈ allow /\ auth.defaultPermission k = c.
Proof.
  unfold auth.NewFromAllowList. cbn [auth.allowed].
  assert (forall acc : gset auth.CandidateKey,
            c ∈ foldl (fun acc k => {[auth.defaultPermission k]} ∪ acc) acc allow <->
            c ∈ acc \/ exists k, k ∈ allow /\ auth.defaultPermission k = c) as Hgen.
  { induction allow as [|x rest IH]; intros acc; cbn [foldl].
    - split; [by left|]. intros [Hc|(k & Hk & _)]; [done|inversion Hk].
    - rewrite IH. split.
      + intros [[->%elem_of_singleton|Hc]%elem_of_union|(k & Hk & Hd)].
        * right. exists x. split; [apply list_elem_of_here|done].
        * by left.
        * right. exists k. split; [by apply list_elem_of_further|done].
      + intros [Hc|(k & Hk & Hd)].
        * left. apply elem_of_union. by right.
        * apply elem_of_cons in Hk as [->|Hk].
          -- left. apply elem_of_union. left. by apply elem_of_singleton.
          -- right. by exists k. }
  rewrite Hgen. split; [|by right]. intros [Hc|Hc]; [|done]. by apply elem_of_empty in Hc.
Qed.

Lemma defaultPermission_nonempty (k : auth.CandidateKey) :
  auth.Permission (auth.defaultPermission k) <> "".
Proof.
  unfold auth.defaultPermission.
  by destruct (String.eqb_spec (auth.Permission k) "").
Qed.

Section permissions_file.
Context `{PermissionsCodec}.

(** X18.  The authorizer that [NewFromPermissionsFile] reads from a file
    allows exactly the keys of the [allow] list of the file, an entry
    without permission standing for the permission [read] and for no
    other: a candidate is allowed if and only if it is an entry of the
    list with its permission, or with [read] in place of an empty one.
    No candidate with an empty permission is ever allowed. *)
Theorem NewFromPermissionsFile_allows (fs : gmap string node) (path : string)
    (a : auth.SetAuthorizer) :
  permissions.NewFromPermissionsFile fs path = Ok a ->
  exists b allow,
    os.ReadFile fs path = Ok b /\
    json_Unmarshal_permissions b = Some allow /\
    (forall c, auth.IsAllowed a c = true <->
               exists k, k ∈ allow /\ auth.defaultPermission k = c) /\
    (forall c, auth.Permission c = "" -> auth.IsAllowed a c = false).
Proof.
  unfold permissions.NewFromPermissionsFile.
  destruct (os.ReadFile fs path) as [b|e]; [|done]. cbn [mbind result_bind].
  destruct (json_Unmarshal_permissions b) as [allow|] eqn:Hdecode; [|done].
  intros [= <-]. exists b, allow. split; [done|]. split; [done|].
  assert (forall c, auth.IsAllowed (auth.NewFromAllowList allow) c = true <->
                    exists k, k ∈ allow /\ auth.defaultPermission k = c) as Hallow.
  { intros c. cbn [auth.IsAllowed auth.Set_Authorizer].
    rewrite bool_decide_eq_true. apply NewFromAllowList_elem. }
  split; [done|]. intros c Hperm.
  destruct (auth.IsAllowed (auth.NewFromAllowList allow) c) eqn:Hc; [|done].
  apply Hallow in Hc as (k & _ & <-). by apply defaultPermission_nonempty in Hperm.
Qed.

End permissions_file.

(** ** The cache of the remote authorizer *)

Section remote_cache.
Context `{spicedb.Remote}.

Lemma defaultRead_idem (c : auth.CandidateKey) :
  spicedb.defaultRead (spicedb.defaultRead c) = spicedb.defaultRead c.
Proof.
  unfold spicedb.defaultRead.
  destruct (String.eqb_spec (auth.Permission c) "") as [Hp|Hp]; [done|].
  by destruct (String.eqb_spec (auth.Permission c) "").
Qed.

Lemma IsAllowed_hit (a : spicedb.SpiceDBAuthorizer) (c : auth.CandidateKey)
    (allowed : bool) :
  let k := spicedb.defaultRead c in
  auth.ObjectType k <> "" -> auth.ObjectID k <> "" ->
  spicedb.cache a !! k = Some allowed ->
  spicedb.IsAllowed a c = (allowed, a).
Proof.
  intros k Ht Hi Hc. unfold spicedb.IsAllowed. fold k.
  apply String.eqb_neq in Ht, Hi. by rewrite Ht, Hi, Hc.
Qed.

(** X19.  An answer of the remote end is kept.  When the check of a
    candidate that is not in the cache succeeds (status 200 and a body
    that decodes), [IsAllowed] returns whether the permissionship is
    [PERMISSIONSHIP_HAS_PERMISSION], stores that answer under the
    candidate, and every later call for the candidate returns it without
    a request, whatever the remote end would answer by then. *)
Theorem IsAllowed_answer_is_kept
    (a : spicedb.SpiceDBAuthorizer) (c : auth.CandidateKey) :
  let k := spicedb.defaultRead c in
  let first := spicedb.IsAllowed a c in
  auth.ObjectType k <> "" -> auth.ObjectID k <> "" ->
  spicedb.cache a !! k = None ->
  ~ remote_failure (spicedb.client_Do (length (spicedb.requests a)) k) ->
  (exists body permissionship,
     spicedb.client_Do (length (spicedb.requests a)) k = spicedb.Response 200 body /\
     spicedb.decode_permissionship body = Some permissionship /\
     first.1 = String.eqb permissionship "PERMISSIONSHIP_HAS_PERMISSION") /\
  spicedb.cache first.2 = <[k := first.1]> (spicedb.cache a) /\
  spicedb.requests first.2 = spicedb.requests a ++ [k] /\
  spicedb.IsAllowed first.2 c = (first.1, first.2).
Proof.
  intros k first Ht Hi Hmiss Hok. subst first.
  rewrite (IsAllowed_miss a c Ht Hi Hmiss). fold k.
  unfold spicedb.checkRemote. unfold remote_failure in Hok.
  destruct (spicedb.client_Do (length (spicedb.requests a)) k) as [e|status body];
    [by destruct Hok|].
  destruct (Z.eqb_spec status 200) as [->|Hstatus]; [|by destruct Hok; left].
  cbn [negb].
  destruct (spicedb.decode_permissionship body) as [p|] eqn:Hp;
    [|by destruct Hok; right].
  cbn [fst snd spicedb.cache spicedb.requests]. split; [by exists body, p|].
  split; [done|]. split; [done|].
  apply IsAllowed_hit; [done..|]. cbn [spicedb.cache]. apply lookup_insert_eq.
Qed.

(** X20.  What a call of [IsAllowed] can change, whatever the remote end
    does: at most one request is sent, after those sent before; no entry
    of the cache is removed or changed, and the only entry that can be
    added is the answer of this call under its candidate; a candidate
    without permission is the candidate with the permission [read]; and a
    candidate without object type or object id is denied without a request
    and without a cache entry. *)
Theorem IsAllowed_footprint (a : spicedb.SpiceDBAuthorizer) (c : auth.CandidateKey) :
  let r := spicedb.IsAllowed a c in
  (spicedb.requests r.2 = spicedb.requests a \/
   spicedb.requests r.2 = spicedb.requests a ++ [spicedb.defaultRead c]) /\
  (forall k b, spicedb.cache a !! k = Some b -> spicedb.cache r.2 !! k = Some b) /\
  (forall k b, spicedb.cache r.2 !! k = Some b ->
     spicedb.cache a !! k = Some b \/ (k = spicedb.defaultRead c /\ b = r.1)) /\
  spicedb.IsAllowed a (spicedb.defaultRead c) = r /\
  (auth.ObjectType c = "" \/ auth.ObjectID c = "" -> r = (false, a)).
Proof.
  cbv zeta.
  assert (auth.ObjectType (spicedb.defaultRead c) = auth.ObjectType c /\
          auth.ObjectID (spicedb.defaultRead c) = auth.ObjectID c) as [Htype Hid].
  { unfold spicedb.defaultRead. by destruct (String.eqb _ ""). }
  split; [|split; [|split; [|split]]].
  - unfold spicedb.IsAllowed. set (k := spicedb.defaultRead c).
    destruct (_ || _); [by left|].
    destruct (spicedb.cache a !! k); [by left|].
    pose proof (checkRemote_requests a k) as [_ Hreq].
    destruct (spicedb.checkRemote a k) as [[allowed|e] a']; by right.
  - intros k' b Hk'. unfold spicedb.IsAllowed. set (k := spicedb.defaultRead c).
    destruct (_ || _); [done|].
    destruct (spicedb.cache a !! k) as [allowed|] eqn:Hk; [done|].
    pose proof (checkRemote_requests a k) as [Hcache _].
    destruct (spicedb.checkRemote a k) as [[allowed|e] a']; cbn [snd fst] in *.
    + cbn [spicedb.cache]. rewrite Hcache.
      rewrite lookup_insert_ne; [done|]. intros <-. congruence.
    + by rewrite Hcache.
  - intros k' b. unfold spicedb.IsAllowed. set (k := spicedb.defaultRead c).
    destruct (_ || _); [by left|].
    destruct (spicedb.cache a !! k) as [allowed|] eqn:Hk; [by left|].
    pose proof (checkRemote_requests a k) as [Hcache _].
    destruct (spicedb.checkRemote a k) as [[allowed|e] a']; cbn [snd fst] in *.
    + cbn [spicedb.cache]. rewrite Hcache.
      intros [[<- <-]|[_ Hold]]%lookup_insert_Some; [by right|by left].
    + rewrite Hcache. by left.
  - unfold spicedb.IsAllowed. by rewrite defaultRead_idem.
  - intros Hempty. unfold spicedb.IsAllowed.
    assert (String.eqb (auth.ObjectType (spicedb.defaultRead c)) "" ||
            String.eqb (auth.ObjectID (spicedb.defaultRead c)) "" = true) as ->; [|done].
    rewrite Htype, Hid. destruct Hempty as [-> | ->]; [done|].
    by rewrite orb_true_r.
Qed.

End remote_cache.

(** ** The settings of the remote authorizer *)

Section remote_settings.
Context `{Text} `{spicedb.Url}.

Lemma parseSubject_ok (raw : string) (ref : spicedb.subjectRef.t) :
  spicedb.parseSubject raw = Ok ref ->
  spicedb.objectRef.ObjectType (spicedb.subjectRef.Object ref) <> "" /\
  spicedb.objectRef.ObjectID (spicedb.subjectRef.Object ref) <> "" /\
  (spicedb.subjectRef.OptionalRelation ref = "" <->
   (strings.Index (strings_TrimSpace raw) "#" < 0)%Z).
Proof.
  unfold spicedb.parseSubject.
  destruct (String.eqb (strings_TrimSpace raw) ""); [done|].
  set (i := strings.Index (strings_TrimSpace raw) "#").
  destruct (Z.leb_spec 0 i) as [Hi|Hi].
  - destruct (String.eqb_spec
                (strings_TrimSpace
                   (String.substring (Z.to_nat (i + 1))
                      (String.length (strings_TrimSpace raw) - Z.to_nat (i + 1))
                      (strings_TrimSpace raw))) "") as [Hrel|Hrel]; [done|].
    cbn [mbind result_bind].
    destruct (strings.SplitN _ ":" 2) as [|p0 [|p1 [|p2 rest]]]; try done.
    destruct (String.eqb_spec (strings_TrimSpace p0) "") as [Hp0|Hp0]; [done|].
    destruct (String.eqb_spec (strings_TrimSpace p1) "") as [Hp1|Hp1]; [done|].
    intros [= <-]. cbn. repeat split; try done. lia.
  - cbn [mbind result_bind].
    destruct (strings.SplitN _ ":" 2) as [|p0 [|p1 [|p2 rest]]]; try done.
    destruct (String.eqb_spec (strings_TrimSpace p0) "") as [Hp0|Hp0]; [done|].
    destruct (String.eqb_spec (strings_TrimSpace p1) "") as [Hp1|Hp1]; [done|].
    intros [= <-]. cbn. repeat split; try done.
Qed.

(** X21.  The remote authorizer that [NewSpiceDB] returns: its cache is
    empty and no request has been sent; its URL ends in
    [/v1/permissions/check]; its token is the configured one, which is not
    blank; its subject is the parsed one, with an object type and an
    object id that are not empty, and with a relation exactly when the
    subject text has a [#]; and its consistency is one of the two
    supported modes. *)
Theorem NewSpiceDB_settings (cfg : spicedb.SpiceDBConfig.t)
    (s : spicedb.settings) (a : spicedb.SpiceDBAuthorizer) :
  spicedb.NewSpiceDB cfg = Ok (s, a) ->
  spicedb.cache a = ∅ /\ spicedb.requests a = [] /\
  strings.HasSuffix (spicedb.url s) "/v1/permissions/check" = true /\
  spicedb.token s = spicedb.SpiceDBConfig.Token cfg /\
  strings_TrimSpace (spicedb.SpiceDBConfig.Token cfg) <> "" /\
  spicedb.parseSubject (spicedb.SpiceDBConfig.Subject cfg) = Ok (spicedb.subject s) /\
  spicedb.objectRef.ObjectType (spicedb.subjectRef.Object (spicedb.subject s)) <> "" /\
  spicedb.objectRef.ObjectID (spicedb.subjectRef.Object (spicedb.subject s)) <> "" /\
  (spicedb.subjectRef.OptionalRelation (spicedb.subject s) = "" <->
   (strings.Index (strings_TrimSpace (spicedb.SpiceDBConfig.Subject cfg)) "#" < 0)%Z) /\
  (spicedb.consistency s = {[ "minimizeLatency" := ABool true ]} \/
   spicedb.consistency s = {[ "fullyConsistent" := ABool true ]}).
Proof.
  unfold spicedb.NewSpiceDB.
  destruct (String.eqb (strings_TrimSpace (spicedb.SpiceDBConfig.Endpoint cfg)) "");
    [done|].
  destruct (spicedb.url_Parse _) as [host|e]; [|done].
  destruct (String.eqb host ""); [done|].
  destruct (String.eqb_spec (strings_TrimSpace (spicedb.SpiceDBConfig.Token cfg)) "")
    as [Htoken|Htoken]; [done|].
  destruct (spicedb.parseSubject (spicedb.SpiceDBConfig.Subject cfg)) as [subject|e]
    eqn:Hsubject; [|done].
  cbn [mbind result_bind].
  assert (spicedb.parseConsistency (spicedb.SpiceDBConfig.Consistency cfg) =
            Ok {[ "minimizeLatency" := ABool true ]} \/
          spicedb.parseConsistency (spicedb.SpiceDBConfig.Consistency cfg) =
            Ok {[ "fullyConsistent" := ABool true ]} \/
          exists e, spicedb.parseConsistency (spicedb.SpiceDBConfig.Consistency cfg) =
                      Err e) as Hmode.
  { unfold spicedb.parseConsistency. cbv zeta.
    destruct (String.eqb (if String.eqb _ "" then _ else _) "minimize_latency");
      [by left|].
    destruct (String.eqb (if String.eqb _ "" then _ else _) "fully_consistent");
      [by right; left|].
    right. right. by eexists. }
  apply parseSubject_ok in Hsubject as Hfields.
  destruct Hmode as [Hmode|[Hmode|[e Hmode]]]; rewrite Hmode; [| |done].
  all: intros [= <- <-]; cbn [spicedb.cache spicedb.requests spicedb.url spicedb.token
                              spicedb.subject spicedb.consistency].
  all: repeat split; try done; try apply Hfields; auto.
  all: apply HasSuffix_app; by eexists.
Qed.

End remote_settings.

(** ** The command *)

Section command.
Context `{Text} `{spicedb.Url} `{PermissionsCodec}.

Lemma NewSpiceDB_fresh (cfg : spicedb.SpiceDBConfig.t)
    (s : spicedb.settings) (a : spicedb.SpiceDBAuthorizer) :
  spicedb.NewSpiceDB cfg = Ok (s, a) -> a = {| spicedb.cache := ∅; spicedb.requests := [] |}.
Proof.
  unfold spicedb.NewSpiceDB.
  destruct (String.eqb _ ""); [done|].
  destruct (spicedb.url_Parse _) as [host|e]; [|done].
  destruct (String.eqb host ""); [done|].
  destruct (String.eqb _ ""); [done|].
  destruct (spicedb.parseSubject _) as [subject|e]; [|done]. cbn [mbind result_bind].
  destruct (spicedb.parseConsistency _) as [consistency|e]; [|done].
  cbn [mbind result_bind]. by intros [= <- <-].
Qed.

Lemma validate_accepts (fs : gmap string node) (c : main.commonFlags)
    (needMountFields : bool) :
  main.validate fs c needMountFields = None ->
  main.sourceDir c <> "" /\ main.readOnly c = true /\
  main.notDir fs (main.sourceDir c) = false /\
  (needMountFields = true ->
   main.mountDir c <> "" /\ main.notDir fs (main.mountDir c) = false) /\
  main.mapperResolution c = "nearest_ancestor" /\
  (main.missingMapper c = "deny" \/ main.missingMapper c = "passthrough") /\
  (main.missingResourceKey c = "deny" \/ main.missingResourceKey c = "ignore") /\
  (main.authBackend c = "file" \/ main.authBackend c = "spicedb") /\
  (main.authBackend c = "file" -> main.permissionsFile c = "" ->
   main.allowNoAuthz c = true) /\
  (main.authBackend c = "spicedb" ->
   main.spiceEndpoint c <> "" /\ main.subject c <> "").
Proof.
  unfold main.validate.
  destruct (String.eqb_spec (main.sourceDir c) "") as [|Hsource]; [done|].
  destruct (needMountFields && String.eqb (main.mountDir c) "") eqn:Hmount; [done|].
  destruct (String.eqb_spec (main.mapperResolution c) "nearest_ancestor")
    as [Hres|]; cbn [negb]; [|done].
  destruct (negb (String.eqb (main.missingMapper c) "deny") &&
            negb (String.eqb (main.missingMapper c) "passthrough")) eqn:Hmm; [done|].
  destruct (negb (String.eqb (main.missingResourceKey c) "deny") &&
            negb (String.eqb (main.missingResourceKey c) "ignore")) eqn:Hmk; [done|].
  destruct (main.readOnly c); cbn [negb]; [|done].
  destruct (main.notDir fs (main.sourceDir c)); [done|].
  destruct (needMountFields && main.notDir fs (main.mountDir c)) eqn:Hmdir; [done|].
  destruct (negb (String.eqb (main.authBackend c) "file") &&
            negb (String.eqb (main.authBackend c) "spicedb")) eqn:Hbackend; [done|].
  destruct (String.eqb (main.authBackend c) "file" &&
            String.eqb (main.permissionsFile c) "" &&
            negb (main.allowNoAuthz c)) eqn:Hauthz; [done|].
  destruct (String.eqb (main.authBackend c) "spicedb" &&
            String.eqb (main.spiceEndpoint c) "") eqn:Hend; [done|].
  destruct (String.eqb (main.authBackend c) "spicedb" &&
            String.eqb (main.subject c) "") eqn:Hsub; [done|].
  intros _.
  assert (forall a b, negb (String.eqb a b) = false -> a = b) as Heq.
  { intros a b Hab. apply negb_false_iff in Hab. by apply String.eqb_eq. }
  split; [done|]. split; [done|]. split; [done|].
  split.
  { intros ->. cbn [andb] in Hmount, Hmdir. split; [by apply String.eqb_neq|done]. }
  split; [done|].
  split. { apply andb_false_iff in Hmm as [Hm|Hm]; apply Heq in Hm; auto. }
  split. { apply andb_false_iff in Hmk as [Hm|Hm]; apply Heq in Hm; auto. }
  split. { apply andb_false_iff in Hbackend as [Hm|Hm]; apply Heq in Hm; auto. }
  split.
  { intros Hfile Hperm. rewrite Hfile, Hperm in Hauthz. cbn in Hauthz.
    by apply negb_false_iff in Hauthz. }
  intros Hspice. rewrite Hspice in Hend, Hsub. cbn in Hend, Hsub.
  split; by apply String.eqb_neq.
Qed.

(** X22.  Flags that [validate] accepts, and the authorizer that
    [newAuthorizer] makes of them.  Accepted flags name a source
    directory that is a directory, are read-only, resolve mappers by the
    nearest ancestor, have a missing-mapper mode [deny] or [passthrough],
    a missing-key mode [deny] or [ignore] and the backend [file] or
    [spicedb] (so [newAuthorizer] never meets an unsupported backend).
    With the backend [file] and no permissions file, which is accepted
    only with [allow-no-authz], the authorizer is the deny-all one; with a
    permissions file it is the one read from that file; with the backend
    [spicedb], endpoint and subject are set and the authorizer, when there
    is one, is a remote one with an empty cache. *)
Theorem validated_flags (fs : gmap string node) (env : gmap string string)
    (c : main.commonFlags) (needMountFields : bool) :
  main.validate fs c needMountFields = None ->
  main.sourceDir c <> "" /\ main.readOnly c = true /\
  main.notDir fs (main.sourceDir c) = false /\
  (needMountFields = true ->
   main.mountDir c <> "" /\ main.notDir fs (main.mountDir c) = false) /\
  main.mapperResolution c = "nearest_ancestor" /\
  (main.missingMapper c = "deny" \/ main.missingMapper c = "passthrough") /\
  (main.missingResourceKey c = "deny" \/ main.missingResourceKey c = "ignore") /\
  (main.authBackend c = "file" \/ main.authBackend c = "spicedb") /\
  (main.authBackend c = "file" -> main.permissionsFile c = "" ->
   main.allowNoAuthz c = true /\
   main.newAuthorizer fs env c = Ok (main.DenyAll auth.NewDenyAll)) /\
  (main.authBackend c = "file" -> main.permissionsFile c <> "" ->
   main.newAuthorizer fs env c =
     match permissions.NewFromPermissionsFile fs (main.permissionsFile c) with
     | Ok a => Ok (main.FromFile a)
     | Err e => Err e
     end) /\
  (main.authBackend c = "spicedb" ->
   main.spiceEndpoint c <> "" /\ main.subject c <> "" /\
   forall az, main.newAuthorizer fs env c = Ok az ->
     exists s, az = main.Remote s {| spicedb.cache := ∅; spicedb.requests := [] |}).
Proof.
  intros Hvalid.
  destruct (validate_accepts fs c needMountFields Hvalid)
    as (Hsource & Hro & Hdir & Hmount & Hres & Hmm & Hmk & Hbackend & Hauthz & Hremote).
  split; [done|]. split; [done|]. split; [done|]. split; [done|]. split; [done|].
  split; [done|]. split; [done|]. split; [done|].
  split.
  { intros Hfile Hperm. split; [by apply Hauthz|].
    unfold main.newAuthorizer. by rewrite Hfile, Hperm. }
  split.
  { intros Hfile Hperm. unfold main.newAuthorizer, permissions.New.
    rewrite Hfile. apply String.eqb_neq in Hperm. rewrite Hperm.
    cbn [String.eqb Ascii.eqb Bool.eqb].
    by destruct (permissions.NewFromPermissionsFile fs _). }
  intros Hspice. destruct (Hremote Hspice) as [Hend Hsub].
  split; [done|]. split; [done|].
  intros az. unfold main.newAuthorizer. rewrite Hspice.
  cbn [String.eqb Ascii.eqb Bool.eqb].
  destruct (String.eqb _ ""); [done|].
  destruct (spicedb.NewSpiceDB _) as [[s a]|e] eqn:Hnew; [|done].
  cbn [mbind result_bind]. intros [= <-]. exists s.
  by rewrite (NewSpiceDB_fresh _ _ _ Hnew).
Qed.

End command.

(** ** The chain of mapping files *)

Section chain.
Context `{MapRange} `{Codec} `{FilePath} `{Text}.

Lemma loadRules_from_chain (fuel : nat) (fs : gmap string node) (path : string)
    (inherit : bool) (seen : gset string) (rules : list MappingRule.t) (h : string) :
  mapper.loadRules_from fuel fs path inherit seen = Some (Ok (rules, h)) ->
  exists files,
    extends_chain fs inherit path files rules /\
    NoDup files /\ (forall f, f ∈ files -> f ∉ seen).
Proof.
  revert path seen rules h. induction fuel as [|fuel IH]; intros path seen rules h; [done|].
  cbn [mapper.loadRules_from].
  destruct (filepath_Abs path) as [abs|e] eqn:Habs; [|done].
  destruct (decide (abs ∈ seen)) as [Hseen|Hnew]; [done|].
  destruct (os.ReadFile fs abs) as [b|e] eqn:Hread; [|done].
  destruct (yaml_Unmarshal b) as [mf|] eqn:Hyaml; [|done].
  destruct (Z.eqb_spec (MappingFile.Version mf) 1) as [Hversion|]; [|done].
  cbn [negb app].
  assert (mapping_file_at fs abs mf) as Hfile by (by exists b).
  destruct (inherit && _) eqn:Hext.
  - destruct (mapper.loadRules_from fuel fs _ inherit _) as [[[prules ph]|e]|] eqn:Hparent;
      try done.
    intros [= <- <-].
    destruct (IH _ _ _ _ Hparent) as (files & Hchain & Hnd & Hfresh).
    exists (abs :: files). split; [by eapply chain_step|]. split.
    + constructor; [|done]. intros Hin. apply Hfresh in Hin. set_solver.
    + intros f [->|Hf]%elem_of_cons; [done|]. apply Hfresh in Hf. set_solver.
  - intros [= <- <-]. exists [abs]. split; [by eapply chain_end|]. split.
    + apply NoDup_singleton.
    + by intros f ->%list_elem_of_singleton.
Qed.

(** X23.  The rules that [loadRules] returns are those of the chain of
    mapping files that [extends] links, the rules of the nearest file
    first and those of each further file after them, so that a rule of a
    file comes before every rule it inherits; the chain is followed only
    when inheritance is on and stops at a blank [extends]; and no file is
    on the chain twice or was seen before: a chain that comes back to a
    file is an error, not a loop. *)
Theorem loadRules_follows_chain (fs : gmap string node) (path : string)
    (inherit : bool) (seen : gset string) (rules : list MappingRule.t) (h : string) :
  mapper.loadRules fs path inherit seen = Some (Ok (rules, h)) ->
  exists files,
    extends_chain fs inherit path files rules /\
    NoDup files /\ (forall f, f ∈ files -> f ∉ seen) /\
    h = mapper.ruleHashOf rules.
Proof.
  intros Hload. pose proof (loadRules_from_hash _ _ _ _ _ _ _ Hload) as Hh.
  apply loadRules_from_chain in Hload as (files & Hchain & Hnd & Hfresh).
  by exists files.
Qed.

End chain.

(** ** The loops end *)

Section termination.
Context `{MapRange} `{Codec} `{FilePath} `{Text} `{IndexCodec} `{Archive}.
Context `{!FilePathLaws}.
Context {A : Type} `{auth.Authorizer A} {W : Type} `{Writer W}.

(** X24.  Rule resolution, index building and rendering always return.
    The upward walk to the mapping file ends (the directory of a rooted
    path is rooted, and is the path itself or shorter); the chain of
    [extends] ends, at the latest when it comes back to a file; and the
    loops over the lines of a file or a stream end with the input. *)
Theorem resolution_and_rendering_return (fs : gmap string node) (path : string)
    (cfg : Config.t) (opts : Options.t) (inherit : bool) (seen : gset string)
    (az : A) (w : W) (now : Z) :
  is_Some (mapper.loadRules fs path inherit seen) /\
  is_Some (mapper.ResolveRuleForFile fs path cfg) /\
  is_Some (indexer.BuildOrLoad fs path opts now) /\
  is_Some (projector.RenderFiltered fs path opts az w now).
Proof.
  split; [apply loadRules_total|]. split; [apply ResolveRuleForFile_total|].
  split; [apply BuildOrLoad_total|apply RenderFiltered_total].
Qed.

End termination.

(** ** What the index stores for a line *)

Section built_lines.
Context `{MapRange} `{Codec} `{Text}.

Lemma index_chunks_lookup (rule : SelectedRule.t) (chunks : list bytes) (offset : Z)
    (i : nat) (ln : LineIndex.t) :
  index_chunks rule offset chunks !! i = Some ln ->
  LineIndex.Decision ln = SelectedRule.Decision rule /\
  exists chunk, chunks !! i = Some chunk /\
    LineIndex.Candidates ln = chunk_candidates rule chunk.
Proof.
  revert offset i. induction chunks as [|chunk rest IH]; intros offset i; [done|].
  cbn [index_chunks]. destruct i as [|i]; cbn.
  - intros [= <-]. split; [done|]. by exists chunk.
  - apply IH.
Qed.

(** X25.  The index that [build] makes of a regular file under a rule:
    it is not passthrough and carries the path, the size and time of the
    stat, the hash of the rule and the time of the build; it has one line
    for each physical line of the file, in order, with the decision of
    the rule and, as candidates, those that [EvaluateLine] gives for the
    bytes of the line without its terminator, none when the evaluation
    fails. *)
Theorem build_stores_candidates (fs : gmap string node) (sourcePath : string)
    (st : FileInfo) (rule : SelectedRule.t) (now : Z) (content : bytes) (mtime : Z) :
  fs !! sourcePath = Some (File content mtime) ->
  exists fi,
    indexer.build fs sourcePath st rule now = Some (Ok fi) /\
    FileIndex.SourcePath fi = sourcePath /\
    FileIndex.Size fi = Size st /\
    FileIndex.MtimeUnix fi = ModTimeUnixNano st /\
    FileIndex.RuleHash fi = SelectedRule.RuleHash rule /\
    FileIndex.Passthrough fi = false /\
    FileIndex.BuiltAt fi = now /\
    length (FileIndex.Lines fi) = length (physical_lines content) /\
    (forall i ln, FileIndex.Lines fi !! i = Some ln ->
       LineIndex.Decision ln = SelectedRule.Decision rule /\
       exists chunk, physical_lines content !! i = Some chunk /\
         LineIndex.Candidates ln = chunk_candidates rule chunk).
Proof.
  intros Hfile. rewrite (build_regular _ _ _ _ _ _ _ Hfile).
  eexists. split; [reflexivity|]. cbn.
  repeat (split; [done|]). split; [apply index_chunks_length|].
  intros i ln. apply index_chunks_lookup.
Qed.

End built_lines.

(** ** JSON pointers *)


Lemma prefix_slash (c : ascii) (r : string) :
  String.prefix "/" (String c r) = bool_decide (c = slash).
Proof.
  cbn [String.prefix]. destruct (ascii_dec "/" c) as [<-|Hne].
  - rewrite bool_decide_eq_true_2 by done. by destruct r.
  - rewrite bool_decide_eq_false_2; [done|]. intros ->. by apply Hne.
Qed.

Lemma split_from_plain (tok cur : string) :
  slash ∉ bytes_of_string tok ->
  strings.split_from "/" tok 0 cur = [cur +:+ tok].
Proof.
  revert cur. induction tok as [|c tok IH]; intros cur Hno.
  - cbn. by rewrite append_empty_r.
  - cbn [strings.split_from]. rewrite prefix_slash.
    cbn [bytes_of_string list_ascii_of_string] in Hno.
    apply not_elem_of_cons in Hno as [Hc Hno].
    rewrite bool_decide_eq_false_2 by done.
    rewrite IH by done. by rewrite string_app_assoc, app_cons, app_nil_l.
Qed.

Lemma split_from_snoc (x tok cur : string) :
  slash ∉ bytes_of_string tok ->
  strings.split_from "/" (x +:+ "/" +:+ tok) 0 cur =
  strings.split_from "/" x 0 cur ++ [tok].
Proof.
  intros Hno. revert cur. induction x as [|c x IH]; intros cur.
  - rewrite app_nil_l, app_cons, app_nil_l. cbn [strings.split_from].
    rewrite prefix_slash, bool_decide_eq_true_2 by done.
    cbn [String.length Nat.sub]. rewrite split_from_plain by done.
    by rewrite app_nil_l.
  - rewrite app_cons. cbn [strings.split_from]. rewrite !prefix_slash.
    destruct (bool_decide (c = slash)); cbn [String.length Nat.sub app].
    + by rewrite IH.
    + by rewrite IH.
Qed.

Section pointers.
Context `{MapRange} `{Codec} `{Text}.

Lemma walkRoot_snoc (parts : list string) (tok : string) (cur : any) :
  mapper.walkRoot (parts ++ [tok]) cur =
  match mapper.walkRoot parts cur with
  | Some v => mapper.descend v (mapper.unescape tok)
  | None => None
  end.
Proof.
  revert cur. induction parts as [|raw rest IH]; intros cur; cbn [app mapper.walkRoot].
  - by destruct (mapper.descend cur (mapper.unescape tok)).
  - destruct (mapper.descend cur (mapper.unescape raw)); [apply IH|done].
Qed.

Lemma walkItem_snoc (parts : list string) (tok : string) (cur : any) :
  mapper.walkItem (parts ++ [tok]) cur =
  match mapper.walkItem parts cur with
  | Some v => mapper.descend v tok
  | None => None
  end.
Proof.
  revert cur. induction parts as [|raw rest IH]; intros cur; cbn [app mapper.walkItem].
  - by destruct (mapper.descend cur tok).
  - destruct (mapper.descend cur raw); [apply IH|done].
Qed.

Lemma slice_from_cons (c : ascii) (r : string) : mapper.slice_from (String c r) 1 = r.
Proof.
  unfold mapper.slice_from. cbn [String.length Nat.sub String.substring].
  rewrite Nat.sub_0_r. apply substring_all.
Qed.

Lemma eqb_cons_nonempty (c : ascii) (r : string) :
  r <> "" -> String.eqb (String c r) (String c "") = false.
Proof. intros Hr. apply String.eqb_neq. by intros [= ->]. Qed.

Lemma prefix_dot_slash (r : string) :
  String.prefix "./" (String "." (String "/" r)) = true.
Proof. apply String.prefix_correct. cbn. by destruct r. Qed.

(** X26.  How a pointer is resolved.  A root pointer is followed token
    by token: the pointer [/] alone is the document itself, the empty
    pointer resolves to nothing, a pointer with one token descends from
    the document by that token, and a pointer that goes on with one more
    token descends by it from where the shorter pointer arrives (and
    resolves to nothing if the shorter one does).  A token of a root
    pointer is unescaped ([~1] is a slash, [~0] a tilde) before the
    descent; a token of an item pointer ([./...]) is taken as it is. *)
Theorem pointer_resolution (doc : any) (p tok : string) :
  slash ∉ bytes_of_string tok ->
  mapper.resolveRootPointer doc "" = None /\
  mapper.resolveRootPointer doc "/" = Some doc /\
  (tok <> "" ->
   mapper.resolveRootPointer doc ("/" +:+ tok) =
     mapper.descend doc (mapper.unescape tok)) /\
  (strings.HasPrefix p "/" = true -> p <> "/" ->
   mapper.resolveRootPointer doc (p +:+ "/" +:+ tok) =
     match mapper.resolveRootPointer doc p with
     | Some v => mapper.descend v (mapper.unescape tok)
     | None => None
     end) /\
  (tok <> "" ->
   mapper.resolveItemPointer doc ("./" +:+ tok) = mapper.descend doc tok) /\
  (strings.HasPrefix p "./" = true -> p <> "./" ->
   mapper.resolveItemPointer doc (p +:+ "/" +:+ tok) =
     match mapper.resolveItemPointer doc p with
     | Some v => mapper.descend v tok
     | None => None
     end).
Proof.
  intros Hno. split; [done|]. split; [done|]. split; [|split; [|split]].
  - intros Htok. unfold mapper.resolveRootPointer, strings.HasPrefix.
    rewrite app_cons, app_nil_l, prefix_slash, bool_decide_eq_true_2 by done.
    cbn [negb]. rewrite eqb_cons_nonempty by done.
    rewrite slice_from_cons. unfold strings.Split.
    rewrite split_from_plain by done. rewrite app_nil_l.
    cbn [mapper.walkRoot]. by destruct (mapper.descend doc _).
  - intros Hroot Hp. unfold mapper.resolveRootPointer, strings.HasPrefix in *.
    destruct p as [|c p']; [done|]. rewrite prefix_slash in Hroot.
    apply bool_decide_eq_true in Hroot as ->.
    rewrite app_cons, !prefix_slash, bool_decide_eq_true_2 by done. cbn [negb].
    assert (p' <> "") as Hp' by (intros ->; done).
    unfold slash in *.
    rewrite (eqb_cons_nonempty "/" p') by done.
    rewrite (eqb_cons_nonempty "/" (p' +:+ "/" +:+ tok)) by (by destruct p').
    rewrite !slice_from_cons. unfold strings.Split.
    rewrite split_from_snoc by done. apply walkRoot_snoc.
  - intros Htok. unfold mapper.resolveItemPointer, strings.HasPrefix.
    assert (String.prefix "./" ("./" +:+ tok) = true) as ->.
    { rewrite !app_cons, app_nil_l. apply prefix_dot_slash. }
    cbn [negb].
    assert (String.eqb ("./" +:+ tok) "./" = false) as ->.
    { apply String.eqb_neq. rewrite !app_cons, app_nil_l. by intros [= ->]. }
    assert (mapper.slice_from ("./" +:+ tok) 2 = tok) as ->.
    { rewrite !app_cons, app_nil_l. unfold mapper.slice_from.
      cbn [String.length Nat.sub String.substring].
      rewrite Nat.sub_0_r. apply substring_all. }
    unfold strings.Split. rewrite split_from_plain by done. rewrite app_nil_l.
    cbn [mapper.walkItem]. by destruct (mapper.descend doc tok).
  - intros Hroot Hp. unfold mapper.resolveItemPointer, strings.HasPrefix in *.
    destruct p as [|c [|c' p']]; [done| |].
    { cbn [String.prefix] in Hroot. by destruct (ascii_dec "." c). }
    cbn [String.prefix] in Hroot.
    destruct (ascii_dec "." c) as [<-|]; [|done].
    destruct (ascii_dec "/" c') as [<-|]; [|done].
    assert (p' <> "") as Hp' by (intros ->; done).
    assert (String.prefix "./" (String "." (String "/" p') +:+ "/" +:+ tok) = true) as ->.
    { rewrite !app_cons. apply prefix_dot_slash. }
    rewrite prefix_dot_slash.
    cbn [negb].
    assert (String.eqb (String "." (String "/" p') +:+ "/" +:+ tok) "./" = false) as ->.
    { apply String.eqb_neq. rewrite !app_cons. intros [= Heq]. by destruct p'. }
    assert (String.eqb (String "." (String "/" p')) "./" = false) as ->.
    { apply String.eqb_neq. by intros [= ->]. }
    assert (forall r, mapper.slice_from (String "." (String "/" r)) 2 = r) as Hslice.
    { intros r. unfold mapper.slice_from.
      cbn [String.length Nat.sub String.substring].
      rewrite Nat.sub_0_r. apply substring_all. }
    change (String "." (String "/" p') +:+ "/" +:+ tok)
      with (String "." (String "/" (p' +:+ "/" +:+ tok))).
    rewrite !Hslice. unfold strings.Split.
    rewrite split_from_snoc by done. apply walkItem_snoc.
Qed.

End pointers.

(** ** The keys of a permissions file, for inspection *)

Lemma ltb_asym (a b : string) : String.ltb a b = true -> String.ltb b a = false.
Proof.
  unfold String.ltb. rewrite (String.compare_antisym b a).
  by destruct (String.compare a b).
Qed.

Lemma ltb_total (a b : string) : String.ltb b a = false -> a <> b -> String.ltb a b = true.
Proof.
  unfold String.ltb. rewrite (String.compare_antisym b a).
  destruct (String.compare a b) eqn:Hcmp; try done.
  intros _ Hne. by apply String.compare_eq_iff in Hcmp.
Qed.

Lemma less_asym (a b : auth.CandidateKey) :
  permissions.less a b = true -> permissions.less b a = false.
Proof.
  unfold permissions.less.
  rewrite (String.eqb_sym (auth.ObjectType b)), (String.eqb_sym (auth.ObjectID b)).
  destruct (String.eqb (auth.ObjectType a) (auth.ObjectType b)); cbn [negb];
    [|apply ltb_asym].
  destruct (String.eqb (auth.ObjectID a) (auth.ObjectID b)); cbn [negb];
    apply ltb_asym.
Qed.

Lemma less_total (a b : auth.CandidateKey) :
  permissions.less b a = false -> a <> b -> permissions.less a b = true.
Proof.
  unfold permissions.less.
  rewrite (String.eqb_sym (auth.ObjectType b)), (String.eqb_sym (auth.ObjectID b)).
  destruct (String.eqb (auth.ObjectType a) (auth.ObjectType b)) eqn:Htype; cbn [negb].
  2: { intros Hlt _. apply ltb_total; [exact Hlt|]. by apply String.eqb_neq. }
  destruct (String.eqb (auth.ObjectID a) (auth.ObjectID b)) eqn:Hid; cbn [negb].
  2: { intros Hlt _. apply ltb_total; [exact Hlt|]. by apply String.eqb_neq. }
  intros Hlt Hne. apply ltb_total; [exact Hlt|]. intros Hperm. apply Hne.
  apply String.eqb_eq in Htype, Hid. destruct a, b. cbn in *. congruence.
Qed.

Lemma insert_key_perm (k : auth.CandidateKey) (l : list auth.CandidateKey) :
  permissions.insert_key k l ≡ₚ k :: l.
Proof.
  induction l as [|x r IH]; cbn [permissions.insert_key]; [done|].
  destruct (permissions.less x k); [|done].
  rewrite IH. apply Permutation_swap.
Qed.

Lemma insert_key_sorted (k : auth.CandidateKey) (l : list auth.CandidateKey) :
  Sorted (fun x y => permissions.less y x = false) l ->
  Sorted (fun x y => permissions.less y x = false) (permissions.insert_key k l).
Proof.
  induction l as [|x r IH]; cbn [permissions.insert_key]; intros Hsorted.
  - by repeat constructor.
  - destruct (permissions.less x k) eqn:Hless.
    + apply Sorted_inv in Hsorted as [Hr Hhd]. constructor; [by apply IH|].
      destruct r as [|y r]; cbn [permissions.insert_key].
      * constructor. by apply less_asym.
      * destruct (permissions.less y k); constructor.
        -- by apply HdRel_inv in Hhd.
        -- by apply less_asym.
    + constructor; [exact Hsorted|]. by constructor.
Qed.

Lemma sort_Slice_perm (l : list auth.CandidateKey) : permissions.sort_Slice l ≡ₚ l.
Proof.
  unfold permissions.sort_Slice. induction l as [|k l IH]; cbn [foldr]; [done|].
  by rewrite insert_key_perm, IH.
Qed.

Lemma sort_Slice_sorted (l : list auth.CandidateKey) :
  Sorted (fun x y => permissions.less y x = false) (permissions.sort_Slice l).
Proof.
  unfold permissions.sort_Slice. induction l as [|k l IH]; cbn [foldr].
  - constructor.
  - by apply insert_key_sorted.
Qed.

Lemma sorted_strictly (l : list auth.CandidateKey) :
  NoDup l ->
  Sorted (fun x y => permissions.less y x = false) l ->
  Sorted (fun x y => permissions.less x y = true) l.
Proof.
  induction l as [|x r IH]; intros Hnodup Hsorted; [constructor|].
  apply NoDup_cons in Hnodup as [Hx Hr].
  apply Sorted_inv in Hsorted as [Hsorted Hhd].
  constructor; [by apply IH|].
  destruct r as [|y r]; constructor.
  apply HdRel_inv in Hhd. apply less_total; [exact Hhd|].
  intros ->. apply Hx, list_elem_of_here.
Qed.

Section inspection.
Context `{SetRange}.

(** X27.  [DebugAllowed] lists every key that the authorizer allows,
    each one once, in strictly ascending order: by object type, then by
    object id, then by permission, whatever the order in which the set
    is visited. *)
Theorem DebugAllowed_sorted (a : auth.SetAuthorizer) :
  Sorted (fun x y => permissions.less x y = true) (permissions.DebugAllowed a) /\
  NoDup (permissions.DebugAllowed a) /\
  (forall c, c ∈ permissions.DebugAllowed a <-> auth.IsAllowed a c = true) /\
  permissions.DebugAllowed a ≡ₚ elements (auth.allowed a).
Proof.
  assert (permissions.DebugAllowed a ≡ₚ elements (auth.allowed a)) as Hperm.
  { unfold permissions.DebugAllowed.
    rewrite sort_Slice_perm.
    rewrite (foldl_snoc_map (fun k => k)). cbn [app]. rewrite map_id.
    apply range_set_perm. }
  assert (NoDup (permissions.DebugAllowed a)) as Hnodup.
  { rewrite Hperm. apply NoDup_elements. }
  split; [|split; [exact Hnodup|split; [|exact Hperm]]].
  - apply sorted_strictly; [exact Hnodup|]. apply sort_Slice_sorted.
  - intros c. rewrite Hperm, elem_of_elements. cbn [auth.IsAllowed auth.Set_Authorizer].
    by rewrite bool_decide_eq_true.
Qed.

End inspection.

(** * Executions on the concrete platform *)

Module Examples.
Import Fixture.

Lemma pos_bits_inj (p q : positive) : pos_bits p = pos_bits q -> p = q.
Proof.
  revert q. induction p as [p IH|p IH|]; intros [q|q|]; simpl; try done.
  - intros [= Hpq]. f_equal. by apply IH.
  - intros [= Hpq]. f_equal. by apply IH.
Qed.

Lemma marshal_injective_inj : Inj (=) (=) marshal_injective.
Proof. intros a b Hab. apply pos_bits_inj in Hab. by apply (inj encode). Qed.


Lemma before_last_slash_shorter (s : string) :
  s <> "" -> (String.length (before_last_slash s) < String.length s)%nat.
Proof.
  induction s as [|c r IH]; [done|]. intros _. cbn [before_last_slash].
  destruct (has_slash r) eqn:Hr; simpl; [|lia].
  assert (r <> "") as Hne by (by destruct r).
  specialize (IH Hne). lia.
Qed.

Lemma rooted_cons (p : string) :
  strings.HasPrefix p "/" = true -> exists rest, p = String "/"%char rest.
Proof.
  destruct p as [|c rest]; [done|]. unfold strings.HasPrefix.
  cbn [String.prefix].
  destruct (ascii_dec "/" c) as [<-|]; [|done]. intros _. by exists rest.
Qed.

Lemma cons_rooted (rest : string) :
  strings.HasPrefix (String "/"%char rest) "/" = true.
Proof.
  unfold strings.HasPrefix. cbn [String.prefix].
  destruct (ascii_dec "/" "/"); [|done]. by destruct rest.
Qed.

(** The slash-separated paths satisfy what the upward walk relies on. *)
Lemma file_path_laws : @FilePathLaws file_path.
Proof.
  split.
  - intros p a. unfold filepath_Abs. cbn. unfold path_Abs.
    destruct (strings.HasPrefix p "/") eqn:Hp; intros [= <-]; [done|].
    apply cons_rooted.
  - intros p [rest ->]%rooted_cons. cbn. split; [apply cons_rooted|].
    destruct rest as [|c r]; [by left|]. right.
    assert (String c r <> "") as Hne by done.
    pose proof (before_last_slash_shorter (String c r) Hne) as Hlt.
    cbn [path_Dir String.length] in *. lia.
Qed.

Lemma visibility_rule_witness :
  LineIndex.Decision (line_of "any" [row "orders_2"; row "orders_3"]) = "any" /\
  indexer.isVisible (line_of "any" [row "orders_2"; row "orders_3"]) alice = true /\
  indexer.isVisible (line_of "all" [row "orders_2"; row "orders_3"]) alice = false /\
  indexer.isVisible (line_of "all" []) alice = false.
Proof.
  pose proof (visibility_rule (line_of "any" [row "orders_2"; row "orders_3"])
                alice (selected "any" orders_rule) []) as (_ & Hany & _ & _).
  pose proof (visibility_rule (line_of "all" []) alice
                (selected "any" orders_rule) []) as (Hnil & _).
  split; [reflexivity|]. split; [|split].
  - apply Hany; [reflexivity|]. exists (row "orders_3").
    split; [|vm_compute; reflexivity].
    apply list_elem_of_further, list_elem_of_here.
  - vm_compute. reflexivity.
  - apply Hnil. reflexivity.
Defined.

Lemma IsAllowed_failure_not_cached_witness :
  (spicedb.IsAllowed fresh_authorizer (row "orders_1")).1 = false /\
  spicedb.cache (spicedb.IsAllowed fresh_authorizer (row "orders_1")).2 = ∅ /\
  (spicedb.IsAllowed (spicedb.IsAllowed fresh_authorizer (row "orders_1")).2
     (row "orders_1")).1 = true.
Proof.
  destruct (IsAllowed_failure_not_cached fresh_authorizer (row "orders_1"))
    as (Hfalse & Hcache & _ & _ & Hlater).
  - vm_compute. discriminate.
  - vm_compute. discriminate.
  - reflexivity.
  - simpl. left. lia.
  - split; [exact Hfalse|]. split; [exact Hcache|].
    rewrite Hlater. vm_compute. reflexivity.
Defined.

(** The integer 1000000 is written [1e+06], not [1000000]; and the record
    [{"id":null}] under the template [{value}] gives the candidate
    [row:<nil>] instead of no candidate. *)
Lemma value_stringification_counterexample :
  fmt.Sprintf_v (AFloat64 (float64_of_numeral false "1000000")) = "1e+06" /\
  fmt.Sprintf_v (AFloat64 (float64_of_numeral false "1000000")) <>
    plainDecimal false "1000000" /\
  mapper.EvaluateLine
    (Some (selected "any" (pointer_rule "row" "/id" "{value}" no_normalize)))
    (bytes_of_string (record1 "id" "1000000")) =
  Ok [ {| auth.ObjectType := "row"; auth.ObjectID := "1e+06";
          auth.Permission := "read" |} ] /\
  mapper.EvaluateLine
    (Some (selected "any" (pointer_rule "row" "/id" "{value}" no_normalize)))
    (bytes_of_string (record1 "id" "null")) =
  Ok [ {| auth.ObjectType := "row"; auth.ObjectID := "<nil>";
          auth.Permission := "read" |} ] /\
  mapper.EvaluateLine
    (Some (selected "any" (pointer_rule "row" "/id" "{value}" no_normalize)))
    (bytes_of_string (record1 "id" "null")) <> Ok [].
Proof.
  split; [vm_compute; reflexivity|].
  split; [vm_compute; discriminate|].
  split; [vm_compute; reflexivity|].
  split; [vm_compute; reflexivity|].
  vm_compute. discriminate.
Qed.

Lemma value_stringification_witness :
  fmt.Sprintf_v (AFloat64 (float64_of_numeral true "120")) = "-120" /\
  fmt.Sprintf_v (AFloat64 (float64_of_numeral false "12345678")) = "1.2345678e+07".
Proof.
  destruct value_stringification as (Hplain & Hexp & _).
  split.
  - rewrite Hplain; [reflexivity | reflexivity | simpl; lia].
  - rewrite Hexp; [reflexivity | reflexivity | simpl; lia].
Defined.

(** With [object_type: job], [trim_slash] and the template
    [job:/{value}/], the record [{"id":"a"}] renders [job:/a/].  The code
    trims the slashes first ([job:/a]) and strips the prefix then: the
    object id is [/a].  Stripping first and normalizing then gives [a]. *)
Lemma strip_then_normalize_counterexample :
  let doc := AMap [("id", AString "a")] in
  let values : gmap string any := {[ "value" := AString "a" ]} in
  let rendered := renderTemplate doc None "job:/{value}/" values in
  let code :=
    mapper.EvaluateLine
      (Some (selected "any" (pointer_rule "job" "/id" "job:/{value}/" trim_slash)))
      (bytes_of_string (record1 "id" (quoted "a"))) in
  rendered = "job:/a/" /\
  code = Ok [ {| auth.ObjectType := "job"; auth.ObjectID := "/a";
                 auth.Permission := "read" |} ] /\
  stripThenNormalize "job" trim_slash rendered = "a" /\
  code <> Ok [ {| auth.ObjectType := "job";
                  auth.ObjectID := stripThenNormalize "job" trim_slash rendered;
                  auth.Permission := "read" |} ].
Proof.
  split; [vm_compute; reflexivity|].
  split; [vm_compute; reflexivity|].
  split; [vm_compute; reflexivity|].
  vm_compute. discriminate.
Qed.

Lemma object_id_normalized_then_stripped_witness :
  normalized_then_stripped trim_slash
    {| auth.ObjectType := "job"; auth.ObjectID := "/a"; auth.Permission := "read" |}.
Proof.
  eapply (proj2 (object_id_normalized_then_stripped
                   (selected "any" (pointer_rule "job" "/id" "job:/{value}/" trim_slash))
                   (bytes_of_string (record1 "id" (quoted "a")))
                   _ ANil None "" "" "" ∅)).
  - vm_compute. reflexivity.
  - apply list_elem_of_here.
Defined.

(** The index records the lines [[0,3)] and [[3,5)]; the file now has three
    bytes.  The second read returns no byte and [io.EOF], which
    [FilterToWriter] lets pass: it writes the two bytes of the buffer it
    allocated, which are zero and are not bytes of the source. *)
Lemma FilterToWriter_counterexample :
  FileIndex.Passthrough stale_index = false /\
  cut_disk !! FileIndex.SourcePath stale_index = Some (File cut_file 2) /\
  indexer.FilterToWriter cut_disk stale_index alice empty =
    ({| Bytes := cut_file ++ [zero; zero] |}, None) /\
  visible_ranges cut_file (FileIndex.Lines stale_index) alice = cut_file /\
  indexer.FilterToWriter cut_disk stale_index alice empty <>
    ({| Bytes := Bytes empty ++
                 visible_ranges cut_file (FileIndex.Lines stale_index) alice |}, None).
Proof.
  split; [reflexivity|]. split; [reflexivity|].
  split; [vm_compute; reflexivity|]. split; [vm_compute; reflexivity|].
  vm_compute. discriminate.
Qed.

(** The index of [/data/orders.jsonl], filtered for [alice]: records 1 and
    3, with their line ends as they are in the source. *)
Lemma FilterToWriter_ranges_witness :
  exists fi,
    indexer.build disk "/data/orders.jsonl"
      {| Size := 86; ModTimeUnixNano := 2; StIsDir := false |}
      (selected "any" orders_rule) 0 = Some (Ok fi) /\
    indexer.FilterToWriter disk fi alice empty =
      ({| Bytes := bytes_of_string (order "1" +:+ nl +:+ order "3") |}, None).
Proof.
  eexists. split; [vm_compute; reflexivity|].
  rewrite (FilterToWriter_ranges disk _ alice empty orders 2).
  - vm_compute. reflexivity.
  - reflexivity.
  - reflexivity.
  - vm_compute. reflexivity.
  - replace (Z.of_nat (length orders)) with 86%Z by (vm_compute; reflexivity).
    intros ln Hln _. cbn [FileIndex.Lines] in Hln.
    repeat (apply elem_of_cons in Hln as [->|Hln]; [cbn; lia|]).
    by apply elem_of_nil in Hln.
Defined.


Lemma build_partitions_witness :
  exists fi,
    indexer.build disk "/data/orders.jsonl"
      {| Size := 86; ModTimeUnixNano := 2; StIsDir := false |}
      (selected "any" orders_rule) 0 = Some (Ok fi) /\
    partitions (FileIndex.Lines fi) 0 86 /\
    map (fun ln => (LineIndex.Start ln, LineIndex.End_ ln)) (FileIndex.Lines fi) =
      [(0, 29); (29, 58); (58, 86)]%Z.
Proof.
  destruct (build_partitions disk "/data/orders.jsonl"
              {| Size := 86; ModTimeUnixNano := 2; StIsDir := false |}
              (selected "any" orders_rule) 0 orders 2)
    as (fi & Hbuild & Hpart & _).
  - reflexivity.
  - vm_compute. reflexivity.
  - exists fi. split; [exact Hbuild|]. split; [exact Hpart|].
    vm_compute in Hbuild. injection Hbuild as <-. vm_compute. reflexivity.
Defined.

Lemma RenderFiltered_passthrough_witness :
  projector.RenderFiltered disk "/raw/raw.jsonl.gz" (options "/raw" "passthrough")
    auth.NewDenyAll empty 0 = Some ({| Bytes := orders |}, None, disk) /\
  projector.RenderFiltered disk "/raw/raw.jsonl.tar.gz" (options "/raw" "passthrough")
    auth.NewDenyAll empty 0 = Some ({| Bytes := orders |}, None, disk).
Proof.
  split.
  - destruct (RenderFiltered_passthrough disk "/raw/raw.jsonl.gz"
                (options "/raw" "passthrough") auth.NewDenyAll empty 0
                {| remaining := magic ++ orders; failure := None |}
                {| remaining := orders; failure := None |}) as (Hgz & _).
    + vm_compute. reflexivity.
    + vm_compute. reflexivity.
    + vm_compute. reflexivity.
    + rewrite Hgz; [reflexivity | vm_compute; reflexivity | reflexivity].
  - destruct (RenderFiltered_passthrough disk "/raw/raw.jsonl.tar.gz"
                (options "/raw" "passthrough") auth.NewDenyAll empty 0
                {| remaining := magic ++ orders; failure := None |}
                {| remaining := orders; failure := None |}) as (_ & Htar).
    + vm_compute. reflexivity.
    + vm_compute. reflexivity.
    + vm_compute. reflexivity.
    + assert (strings.HasSuffix (strings_ToLower "/raw/raw.jsonl.tar.gz")
                ".jsonl.tar.gz" = true) as Hsuf by (vm_compute; reflexivity).
      rewrite (Htar Hsuf _ _ eq_refl).
      * vm_compute. reflexivity.
      * by left.
      * intros e He _.
        repeat (apply elem_of_cons in He as [->|He]; [reflexivity|]).
        by apply elem_of_nil in He.
Defined.

(** The mapping file of [/data/sub] extends the one of [/data]: its rule
    comes first, the inherited one after it.  Writing the keys of its
    tables in another order leaves the hash as it is; exchanging the two
    rules changes it. *)
Lemma rule_hash_properties_witness :
  (exists h,
     mapper.loadRules extended_disk "/data/sub/.metricfs-map.yaml" true ∅ =
       Some (Ok ([table_rule [("namespace", "/ns"); ("name", "/name")]
                    [("namespace", ["/f/ns"]); ("name", ["/f/name"])];
                  orders_rule], h)) /\
     mapper.loadRules reordered_disk "/data/sub/.metricfs-map.yaml" true ∅ =
       Some (Ok ([table_rule [("name", "/name"); ("namespace", "/ns")]
                    [("name", ["/f/name"]); ("namespace", ["/f/ns"])];
                  orders_rule], h))) /\
  @mapper.ruleHashOf map_range injective_codec
    [table_rule [] []; orders_rule] <>
  @mapper.ruleHashOf map_range injective_codec
    [orders_rule; table_rule [] []].
Proof.
  destruct rule_hash_properties as (_ & Hkeys & _ & _ & Hsensitive).
  split.
  - exists (mapper.ruleHashOf
              [table_rule [("namespace", "/ns"); ("name", "/name")]
                 [("namespace", ["/f/ns"]); ("name", ["/f/name"])];
               orders_rule]).
    split; [vm_compute; reflexivity|].
    replace (mapper.ruleHashOf
               [table_rule [("namespace", "/ns"); ("name", "/name")]
                  [("namespace", ["/f/ns"]); ("name", ["/f/name"])];
                orders_rule])
      with (mapper.ruleHashOf
              [table_rule [("name", "/name"); ("namespace", "/ns")]
                 [("name", ["/f/name"]); ("namespace", ["/f/ns"])];
               orders_rule]).
    + vm_compute. reflexivity.
    + apply (Hkeys map_range codec (fun f fb => [table_rule_of f fb; orders_rule])).
      * apply (bool_decide_unpack _). vm_compute. exact I.
      * apply Permutation_swap.
      * apply (bool_decide_unpack _). vm_compute. exact I.
      * apply Permutation_swap.
  - apply Hsensitive.
    + exact marshal_injective_inj.
    + intros Heq. exact Heq.
    + discriminate.
Defined.

(** ** Executions for the further properties *)

(** [everyone] allows what [alice] allows: the lines that [alice] sees
    are among those that [everyone] sees. *)
Lemma visibility_monotone_witness :
  allows_more alice everyone /\
  visible_lines (FileIndex.Lines stale_index) alice `sublist_of`
    visible_lines (FileIndex.Lines stale_index) everyone /\
  (indexer.isVisible (line_of "any" [row "orders_2"; row "orders_3"]) alice = true ->
   indexer.isVisible (line_of "any" [row "orders_2"; row "orders_3"]) everyone = true).
Proof.
  assert (allows_more alice everyone) as Hmore.
  { intros c Hc. apply bool_decide_eq_true in Hc. apply bool_decide_eq_true.
    apply NewFromAllowList_elem in Hc as (k & Hk & <-).
    apply NewFromAllowList_elem.
    apply elem_of_cons in Hk as [->|Hk];
      [exists (row "orders_1"); split; [apply list_elem_of_here|reflexivity]|].
    apply elem_of_cons in Hk as [->|Hk]; [|by apply elem_of_nil in Hk].
    exists (row "orders_3"). split; [|reflexivity].
    do 2 apply list_elem_of_further. apply list_elem_of_here. }
  destruct (visibility_monotone alice everyone Hmore) as (Hline & _ & Hsub).
  split; [exact Hmore|]. split; [apply Hsub | apply Hline].
Defined.

(** Both lines of [stale_index] are visible to [alice] and touch: they
    are one segment, and the five bytes of the whole file are written. *)
Lemma FilterToWriter_segments_witness :
  indexer.VisibleSegments stale_index alice = [(0, 5)%Z] /\
  indexer.FilterToWriter whole_disk stale_index alice empty =
    ({| Bytes := whole_file |}, None).
Proof.
  split; [vm_compute; reflexivity|].
  rewrite (FilterToWriter_segments whole_disk stale_index alice empty whole_file 1).
  - vm_compute. reflexivity.
  - reflexivity.
  - vm_compute. reflexivity.
  - discriminate.
  - intros _. split.
    + intros ln Hln _. cbn [FileIndex.Lines stale_index] in Hln.
      repeat (apply elem_of_cons in Hln as [->|Hln]; [vm_compute; intuition discriminate|]).
      by apply elem_of_nil in Hln.
    + intros ln Hln _. cbn [FileIndex.Lines stale_index] in Hln.
      repeat (apply elem_of_cons in Hln as [->|Hln]; [vm_compute; discriminate|]).
      by apply elem_of_nil in Hln.
Defined.

(** The index of [/data/orders.jsonl] for [alice]: the first and the third
    record, with the second one as the gap between them. *)
Lemma built_segments_gapped_witness :
  exists fi,
    indexer.build disk "/data/orders.jsonl" orders_stat (selected "any" orders_rule) 0 =
      Some (Ok fi) /\
    indexer.VisibleSegments fi alice = [(0, 29); (58, 86)]%Z /\
    gapped (indexer.VisibleSegments fi alice) (-1).
Proof.
  eexists. split; [vm_compute; reflexivity|].
  split; [vm_compute; reflexivity|].
  eapply (built_segments_gapped disk "/data/orders.jsonl" orders_stat
            (selected "any" orders_rule) 0 orders 2).
  - reflexivity.
  - vm_compute. reflexivity.
  - vm_compute. reflexivity.
Defined.

(** The authorizer that denies everything gets no byte of the indexed
    file and no byte of the stream. *)
Lemma deny_all_writes_nothing_witness :
  indexer.FilterToWriter whole_disk stale_index auth.NewDenyAll empty = (empty, None) /\
  indexer.VisibleSegments stale_index auth.NewDenyAll = [] /\
  projector.renderStream {| remaining := orders; failure := None |}
    (Some (selected "any" orders_rule)) auth.NewDenyAll empty = Some (empty, None).
Proof.
  destruct (deny_all_writes_nothing whole_disk stale_index
              {| remaining := whole_file; failure := None |} empty)
    as (Hfilter & Hsegments & Hstream).
  - reflexivity.
  - vm_compute. reflexivity.
  - split; [exact Hfilter|]. split; [exact Hsegments|].
    apply Hstream. by left.
Defined.

Lemma orders_rule_one_key : one_key_tables orders_rule.
Proof. split; [exact I | constructor]. Qed.

(** Streaming the three records for [alice] under one order of [range]
    writes what filtering them through the index built under the reverse
    order writes. *)
Lemma index_and_stream_agree_witness :
  exists fi,
    @indexer.build reversed_range codec text disk "/data/orders.jsonl" orders_stat
      (selected "any" orders_rule) 0 = Some (Ok fi) /\
    @projector.renderStream map_range codec text _ _ _ _
      {| remaining := orders; failure := None |}
      (Some (selected "any" orders_rule)) alice empty =
    Some (indexer.FilterToWriter disk fi alice empty).
Proof.
  eexists. split; [vm_compute; reflexivity|].
  apply (index_and_stream_agree reversed_range map_range disk "/data/orders.jsonl"
           orders_stat (selected "any" orders_rule) 0 orders 2).
  - exact orders_rule_one_key.
  - reflexivity.
  - vm_compute. reflexivity.
  - vm_compute. reflexivity.
Defined.

(** [/data/orders.jsonl.gz] holds the records of [/data/orders.jsonl]:
    the two files render alike, the one under one order of [range] and
    the other under the reverse order. *)
Lemma plain_and_gzip_agree_witness :
  @projector.RenderFiltered map_range codec file_path text index_codec archive _ _ _ _
    disk "/data/orders.jsonl.gz" (options "/data" "deny") alice empty 0 =
  @projector.RenderFiltered reversed_range codec file_path text index_codec archive
    _ _ _ _ disk "/data/orders.jsonl" (options "/data" "deny") alice empty 0.
Proof.
  apply (plain_and_gzip_agree reversed_range map_range disk "/data/orders.jsonl"
           "/data/orders.jsonl.gz" (options "/data" "deny") alice empty 0 orders 2
           {| remaining := magic ++ orders; failure := None |}).
  - reflexivity.
  - vm_compute. reflexivity.
  - vm_compute. reflexivity.
  - vm_compute. reflexivity.
  - reflexivity.
  - vm_compute. reflexivity.
  - vm_compute. reflexivity.
  - vm_compute. reflexivity.
  - intros sel Hsel. vm_compute in Hsel. injection Hsel as <-.
    split; [exact I | constructor].
Defined.

Lemma bits_pos_bits (p : positive) : bits_pos (pos_bits p) = Some p.
Proof. induction p as [p IH|p IH|]; cbn [pos_bits bits_pos]; by rewrite ?IH. Qed.

Lemma keeping_codec_reads_back (fi : FileIndex.t) :
  @reads_back keeping_codec fi.
Proof.
  exists (pos_bits (encode fi)). split; [reflexivity|].
  cbn [index_Unmarshal keeping_codec]. rewrite bits_pos_bits. apply decode_encode.
Qed.

(** With an index directory, the first call on [/data/short.jsonl] makes
    the passthrough index, makes the directory [/cache] and writes the
    cache file; a later call on the file system so left returns the same
    index from the cache and writes nothing.  Where a regular file stands
    at [/cache], the first call returns its index and leaves the file
    system as it was, and the later call makes an index of its own. *)
Lemma BuildOrLoad_cache_witness :
  let opts := cached_options "/data" "passthrough" in
  let cachePath := index_cache_path opts "/data/short.jsonl" short_stat None in
  let index_at now :=
    {| FileIndex.SourcePath := "/data/short.jsonl";
       FileIndex.Size := 5;
       FileIndex.MtimeUnix := 1;
       FileIndex.RuleHash := "passthrough";
       FileIndex.Passthrough := true;
       FileIndex.BuiltAt := now;
       FileIndex.Lines := [] |} in
  let fs' :=
    <[cachePath := File (pos_bits (encode (index_at 0%Z))) 0]>
      (<["/cache" := Dir []]> whole_disk) in
  (@indexer.BuildOrLoad map_range codec file_path text keeping_codec
     whole_disk "/data/short.jsonl" opts 0 = Some (Ok (index_at 0%Z), fs') /\
   @indexer.BuildOrLoad map_range codec file_path text keeping_codec
     fs' "/data/short.jsonl" opts 9 = Some (Ok (index_at 0%Z), fs')) /\
  (exists fi fi',
     @indexer.BuildOrLoad map_range codec file_path text keeping_codec
       blocked_disk "/data/short.jsonl" opts 0 = Some (Ok fi, blocked_disk) /\
     @indexer.BuildOrLoad map_range codec file_path text keeping_codec
       blocked_disk "/data/short.jsonl" opts 9 = Some (Ok fi', blocked_disk) /\
     FileIndex.BuiltAt fi = 0%Z /\ FileIndex.BuiltAt fi' = 9%Z).
Proof.
  intros opts cachePath index_at fs'.
  assert (Options.IndexDir opts <> "") as Hdir by discriminate.
  split.
  - assert (@indexer.BuildOrLoad map_range codec file_path text keeping_codec
              whole_disk "/data/short.jsonl" opts 0 = Some (Ok (index_at 0%Z), fs'))
      as Hfirst by (apply (bool_decide_unpack _); vm_compute; exact I).
    split; [exact Hfirst|].
    assert (mapper.ResolveRuleForFile whole_disk "/data/short.jsonl" (Config_of opts) =
              Some (Ok None)) as Hrule by (vm_compute; reflexivity).
    assert (os.Stat whole_disk "/data/short.jsonl" = Ok short_stat) as Hstat
      by (vm_compute; reflexivity).
    destruct (@BuildOrLoad_cache map_range codec file_path text keeping_codec
                whole_disk "/data/short.jsonl" opts 0 None short_stat
                Hdir Hrule Hstat) as (_ & Hsaved & _).
    apply Hsaved.
    + exact Hfirst.
    + vm_compute. reflexivity.
    + apply keeping_codec_reads_back.
    + vm_compute. discriminate.
    + vm_compute. reflexivity.
    + vm_compute. reflexivity.
  - assert (@indexer.BuildOrLoad map_range codec file_path text keeping_codec
              blocked_disk "/data/short.jsonl" opts 0 =
              Some (Ok (index_at 0%Z), blocked_disk))
      as Hfirst by (apply (bool_decide_unpack _); vm_compute; exact I).
    assert (@indexer.BuildOrLoad map_range codec file_path text keeping_codec
              blocked_disk "/data/short.jsonl" opts 9 =
              Some (Ok (index_at 9%Z), blocked_disk))
      as Hlater by (apply (bool_decide_unpack _); vm_compute; exact I).
    assert (mapper.ResolveRuleForFile blocked_disk "/data/short.jsonl" (Config_of opts) =
              Some (Ok None)) as Hrule by (vm_compute; reflexivity).
    assert (os.Stat blocked_disk "/data/short.jsonl" = Ok short_stat) as Hstat
      by (vm_compute; reflexivity).
    destruct (@BuildOrLoad_cache map_range codec file_path text keeping_codec
                blocked_disk "/data/short.jsonl" opts 0 None short_stat
                Hdir Hrule Hstat) as (_ & _ & Hfailed).
    exists (index_at 0%Z), (index_at 9%Z).
    split; [exact Hfirst|]. split; [exact Hlater|].
    eapply (Hfailed _ _ (index_at 0%Z) blocked_disk 9%Z (index_at 9%Z) blocked_disk).
    + vm_compute. reflexivity.
    + exact Hfirst.
    + vm_compute. reflexivity.
    + vm_compute. discriminate.
    + exact Hrule.
    + exact Hstat.
    + exact Hlater.
Defined.

Lemma path_Join_inj (dir x y : string) : path_Join dir x = path_Join dir y -> x = y.
Proof.
  unfold path_Join. intros Heq. apply (f_equal bytes_of_string) in Heq.
  destruct (String.eqb dir "").
  all: destruct (String.eqb dir "/");
    rewrite ?bytes_of_string_app in Heq; repeat apply app_inv_head in Heq;
    by apply bytes_of_string_inj.
Qed.

(** The file of five bytes and the file cut to three get different cache
    files. *)
Lemma cacheFilePath_injective_witness :
  is_rule_hash "passthrough" /\
  indexer.cacheFilePath "/cache" "/data/short.jsonl" 5 1 "passthrough" 1 <>
  indexer.cacheFilePath "/cache" "/data/short.jsonl" 3 2 "passthrough" 1.
Proof.
  assert (is_rule_hash "passthrough") as Hhash by (by left).
  split; [exact Hhash|]. intros Heq.
  destruct (cacheFilePath_injective "/cache" "/data/short.jsonl" "/data/short.jsonl"
              5 3 1 2 "passthrough" "passthrough" 1 1 Hhash Hhash)
    as (_ & Hsize & _).
  - intros x y. apply path_Join_inj.
  - intros Hsum. by apply bytes_of_string_inj.
  - exact Heq.
  - discriminate Hsize.
Defined.

(** The first record under the rule of the tests: one candidate, of the
    object type and the permission of the rule. *)
Lemma EvaluateLine_candidates_witness :
  mapper.EvaluateLine (Some (selected "any" orders_rule))
    (bytes_of_string (order "1")) = Ok [row "orders_1"] /\
  NoDup [row "orders_1"] /\
  candidate_of_rule orders_rule (row "orders_1") /\
  mapper.EvaluateLine (Some (selected "any" orders_rule))
    (bytes_of_string "not json") = Ok [].
Proof.
  destruct (EvaluateLine_candidates (selected "any" orders_rule)
              (bytes_of_string (order "1"))) as (_ & Hcands).
  destruct (EvaluateLine_candidates (selected "any" orders_rule)
              (bytes_of_string "not json")) as (Hbad & _).
  assert (mapper.EvaluateLine (Some (selected "any" orders_rule))
            (bytes_of_string (order "1")) = Ok [row "orders_1"]) as Heval
    by (vm_compute; reflexivity).
  destruct (Hcands _ Heval) as (Hnodup & Hall & _).
  split; [exact Heval|]. split; [exact Hnodup|]. split.
  - apply Hall, list_elem_of_here.
  - apply Hbad. vm_compute. reflexivity.
Defined.

(** The rule of [/data/orders.jsonl] is the first matching one of the
    mapping file of its directory, with the decision [any]. *)
Lemma ResolveRuleForFile_selects_witness :
  exists sel,
    mapper.ResolveRuleForFile disk "/data/orders.jsonl"
      (Config_of (options "/data" "deny")) = Some (Ok (Some sel)) /\
    SelectedRule.Rule sel = orders_rule /\
    (SelectedRule.Decision sel = "any" \/ SelectedRule.Decision sel = "all") /\
    (SelectedRule.MissingResourceKey sel = "deny" \/
     SelectedRule.MissingResourceKey sel = "ignore").
Proof.
  eexists. split; [vm_compute; reflexivity|]. split; [reflexivity|].
  edestruct (ResolveRuleForFile_selects disk "/data/orders.jsonl"
               (Config_of (options "/data" "deny")))
    as (absFile & absSource & n & rules & pre & post & Hsel).
  - vm_compute. reflexivity.
  - cbv zeta in Hsel.
    destruct Hsel as (_ & _ & _ & _ & _ & _ & _ & _ & Hdecision & _ & Hmissing & _).
    split; [exact Hdecision | exact Hmissing].
Defined.

(** [/raw] has no mapping file: in the mode [deny] no file of it resolves
    to the absence of a rule, and nothing of [raw.jsonl.gz] is rendered. *)
Lemma deny_mode_needs_a_rule_witness :
  Options.MissingMapperMode (options "/raw" "deny") = "deny" /\
  mapper.ResolveRuleForFile disk "/raw/raw.jsonl" (Config_of (options "/raw" "deny")) <>
    Some (Ok None) /\
  (forall w', projector.RenderFiltered disk "/raw/raw.jsonl.gz" (options "/raw" "deny")
                alice empty 0 <> Some (w', None, disk)).
Proof.
  split; [reflexivity|]. split.
  - apply (deny_mode_needs_a_rule disk "/raw/raw.jsonl" (options "/raw" "deny") 0
             alice empty). by right.
  - intros w' Hrender.
    destruct (deny_mode_needs_a_rule disk "/raw/raw.jsonl.gz" (options "/raw" "deny") 0
                alice empty) as (_ & _ & Hgz); [by right|].
    destruct (Hgz eq_refl w' disk Hrender) as (sel & Hsel).
    vm_compute in Hsel. discriminate Hsel.
Defined.

(** [/data/orders.jsonl.gz] and [/data/orders.jsonl.tar.gz] for [alice]:
    the first and the third record, whole. *)
Lemma RenderFiltered_visible_lines_witness :
  projector.RenderFiltered disk "/data/orders.jsonl.gz" (options "/data" "deny")
    alice empty 0 =
    Some ({| Bytes := bytes_of_string (order "1" +:+ nl +:+ order "3") |}, None, disk) /\
  projector.RenderFiltered disk "/data/orders.jsonl.tar.gz" (options "/data" "deny")
    alice empty 0 =
    Some ({| Bytes := bytes_of_string (order "1" +:+ nl +:+ order "3") |}, None, disk).
Proof.
  split.
  - edestruct (RenderFiltered_visible_lines disk "/data/orders.jsonl.gz"
                 (options "/data" "deny") alice empty 0
                 {| remaining := magic ++ orders; failure := None |}
                 {| remaining := orders; failure := None |}) as (Hgz & _).
    + vm_compute. reflexivity.
    + vm_compute. reflexivity.
    + vm_compute. reflexivity.
    + rewrite Hgz; [|vm_compute; reflexivity|by left].
      do 4 f_equal; vm_compute; reflexivity.
  - edestruct (RenderFiltered_visible_lines disk "/data/orders.jsonl.tar.gz"
                 (options "/data" "deny") alice empty 0
                 {| remaining := magic ++ orders; failure := None |}
                 {| remaining := orders; failure := None |}) as (_ & Htar).
    + vm_compute. reflexivity.
    + vm_compute. reflexivity.
    + vm_compute. reflexivity.
    + assert (strings.HasSuffix (strings_ToLower "/data/orders.jsonl.tar.gz")
                ".jsonl.tar.gz" = true) as Hsuf by (vm_compute; reflexivity).
      rewrite (Htar Hsuf _ _ eq_refl).
      * do 4 f_equal; vm_compute; reflexivity.
      * by left.
      * intros e He _.
        repeat (apply elem_of_cons in He as [->|He]; [by left|]).
        by apply elem_of_nil in He.
Defined.

(** In [/data] three files go by the name [orders.jsonl]: the name is
    served from the plain file. *)
Lemma resolveEntries_physical_wins_witness :
  exists entries,
    fusefs_unix.resolveEntries disk (mount "/data" "deny") = Ok entries /\
    entries !! "orders.jsonl" =
      Some {| fusefs_unix.resolvedEntry.name := "orders.jsonl";
              fusefs_unix.resolvedEntry.source := "/data/orders.jsonl";
              fusefs_unix.resolvedEntry.isDir := false;
              fusefs_unix.resolvedEntry.projected := false |}.
Proof.
  destruct (resolveEntries_physical_wins disk (mount "/data" "deny")
              [ file_entry ".metricfs-map.yaml"; file_entry "orders.jsonl";
                file_entry "orders.jsonl.gz"; file_entry "orders.jsonl.tar.gz" ])
    as (entries & Hres & _ & _ & Hphysical).
  - reflexivity.
  - apply (bool_decide_unpack _). vm_compute. exact I.
  - exists entries. split; [exact Hres|].
    apply (Hphysical (file_entry "orders.jsonl")).
    + apply list_elem_of_further, list_elem_of_here.
    + vm_compute. reflexivity.
Defined.

Lemma shelf_entries :
  exists entries,
    fusefs_unix.resolveEntries shelf (mount "/s" "deny") = Ok entries /\
    entries !! "a.jsonl" =
      Some {| fusefs_unix.resolvedEntry.name := "a.jsonl";
              fusefs_unix.resolvedEntry.source := "/s/a.jsonl.gz";
              fusefs_unix.resolvedEntry.isDir := false;
              fusefs_unix.resolvedEntry.projected := true |} /\
    entries !! "notes.txt" =
      Some {| fusefs_unix.resolvedEntry.name := "notes.txt";
              fusefs_unix.resolvedEntry.source := "/s/notes.txt";
              fusefs_unix.resolvedEntry.isDir := false;
              fusefs_unix.resolvedEntry.projected := false |} /\
    entries !! "sub" =
      Some {| fusefs_unix.resolvedEntry.name := "sub";
              fusefs_unix.resolvedEntry.source := "/s/sub";
              fusefs_unix.resolvedEntry.isDir := true;
              fusefs_unix.resolvedEntry.projected := false |} /\
    entries !! "a.jsonl.gz" = None.
Proof.
  eexists. split; [reflexivity|].
  repeat split; vm_compute; reflexivity.
Qed.

Lemma shelf_listing :
  exists listing,
    fusefs_unix.Readdir shelf (mount "/s" "deny") = inl listing /\
    map fuse.Name listing = [".metricfs-map.yaml"; "a.jsonl"; "notes.txt"; "sub"].
Proof. eexists. split; vm_compute; reflexivity. Qed.

(** The listing of [/s]: the names in ascending order, the compressed
    file under its virtual name only. *)
Lemma Readdir_listing_witness :
  exists listing,
    fusefs_unix.Readdir shelf (mount "/s" "deny") = inl listing /\
    ascending (map fuse.Name listing) /\
    "a.jsonl" ∈ map fuse.Name listing /\
    "a.jsonl.gz" ∉ map fuse.Name listing.
Proof.
  destruct shelf_entries as (entries & Hres & Hvirtual & _ & _ & Hphysical).
  destruct (Readdir_listing shelf (mount "/s" "deny") entries Hres)
    as (listing & Hread & Hasc & _ & Hnames & _).
  exists listing. split; [exact Hread|]. split; [exact Hasc|]. split.
  - apply Hnames. by rewrite Hvirtual.
  - intros Hin. apply Hnames in Hin. rewrite Hphysical in Hin. by destruct Hin.
Defined.

(** Looking up the physical name of the compressed file finds nothing;
    looking up the directory gives its node. *)
Lemma Lookup_agrees_with_Readdir_witness :
  fusefs_unix.Lookup shelf (mount "/s" "deny") "a.jsonl.gz" 0 =
    Some (inr fusefs.ENOENT, shelf) /\
  fusefs_unix.Lookup shelf (mount "/s" "deny") "sub" 0 =
    Some (inl (fusefs.DirInode
                 {| fusefs.cfg := fusefs.cfg (mount "/s" "deny");
                    fusefs.az := alice;
                    fusefs.sourcePath := "/s/sub" |}), shelf).
Proof.
  destruct shelf_entries as (entries & Hres & _ & _ & Hsub & _).
  destruct shelf_listing as (listing & Hread & Hnames).
  split.
  - apply (Lookup_agrees_with_Readdir shelf (mount "/s" "deny") entries listing
             "a.jsonl.gz" 0 Hres Hread).
    rewrite Hnames. apply (bool_decide_unpack _). vm_compute. exact I.
  - destruct (Lookup_agrees_with_Readdir shelf (mount "/s" "deny") entries listing
                "sub" 0 Hres Hread) as (_ & Hdir).
    apply (Hdir _ Hsub eq_refl).
Defined.

(** The virtual name serves the filtered records of the compressed file;
    the file of another kind is served as it is stored. *)
Lemma Lookup_serves_filtered_witness :
  fusefs_unix.Lookup shelf (mount "/s" "deny") "a.jsonl" 0 =
    Some (inl (fusefs.MemFile (bytes_of_string (order "1" +:+ nl +:+ order "3"))
                 292 57), shelf) /\
  fusefs_unix.Lookup shelf (mount "/s" "deny") "notes.txt" 0 =
    Some (inl (fusefs.MemFile (bytes_of_string "hi") 292 2), shelf).
Proof.
  destruct shelf_entries as (entries & Hres & Hvirtual & Hnotes & _ & _).
  split.
  - destruct (Lookup_serves_filtered shelf (mount "/s" "deny") entries "a.jsonl" 0
                _ Hres Hvirtual eq_refl) as (Hfiltered & _).
    rewrite (Hfiltered eq_refl
               {| Bytes := bytes_of_string (order "1" +:+ nl +:+ order "3") |}
               None shelf).
    + reflexivity.
    + apply (bool_decide_unpack _). vm_compute. exact I.
  - destruct (Lookup_serves_filtered shelf (mount "/s" "deny") entries "notes.txt" 0
                _ Hres Hnotes eq_refl) as (_ & Hplain).
    rewrite Hplain by (vm_compute; reflexivity). reflexivity.
Defined.

(** The permissions file allows the two rows for [read]: its entry
    without permission counts as [read], a query without permission is
    denied. *)
Lemma NewFromPermissionsFile_allows_witness :
  exists a,
    permissions.NewFromPermissionsFile office "/etc/permissions.json" = Ok a /\
    auth.IsAllowed a (row "orders_3") = true /\
    auth.IsAllowed a {| auth.ObjectType := "metric_row"; auth.ObjectID := "orders_3";
                        auth.Permission := "" |} = false.
Proof.
  destruct (permissions.NewFromPermissionsFile office "/etc/permissions.json")
    as [a|e] eqn:Hnew; [|vm_compute in Hnew; discriminate Hnew].
  destruct (NewFromPermissionsFile_allows office "/etc/permissions.json" a Hnew)
    as (b & allow & Hread & Hdecode & Hallowed & Hblank).
  exists a. split; [reflexivity|]. split.
  - apply Hallowed.
    assert (allow = [ row "orders_1";
                      {| auth.ObjectType := "metric_row"; auth.ObjectID := "orders_3";
                         auth.Permission := "" |} ]) as ->.
    { vm_compute in Hread. injection Hread as <-.
      vm_compute in Hdecode. by injection Hdecode as <-. }
    eexists. split; [apply list_elem_of_further, list_elem_of_here|reflexivity].
  - apply Hblank. reflexivity.
Defined.

(** After the failed first request the remote end answers: the answer is
    stored, and the same question is answered from the store. *)
Lemma IsAllowed_answer_is_kept_witness :
  (spicedb.IsAllowed tried_authorizer (row "orders_2")).1 = true /\
  spicedb.cache (spicedb.IsAllowed tried_authorizer (row "orders_2")).2 =
    {[ row "orders_2" := true ]} /\
  spicedb.IsAllowed (spicedb.IsAllowed tried_authorizer (row "orders_2")).2
    (row "orders_2") =
  (true, (spicedb.IsAllowed tried_authorizer (row "orders_2")).2).
Proof.
  destruct (IsAllowed_answer_is_kept tried_authorizer (row "orders_2"))
    as ((body & permissionship & Hdo & Hdecode & Hfirst) & Hcache & _ & Hagain).
  - discriminate.
  - discriminate.
  - reflexivity.
  - intros [Hstatus|Hbody]; [by apply Hstatus|vm_compute in Hbody; discriminate Hbody].
  - assert ((spicedb.IsAllowed tried_authorizer (row "orders_2")).1 = true) as Htrue.
    { rewrite Hfirst. vm_compute in Hdo. injection Hdo as <-.
      vm_compute in Hdecode. by injection Hdecode as <-. }
    split; [exact Htrue|]. split.
    + rewrite Hcache, Htrue. reflexivity.
    + rewrite Hagain, Htrue. reflexivity.
Defined.

(** The settings made of an endpoint without scheme, a subject with a
    relation and the mode [fully_consistent]. *)
Lemma NewSpiceDB_settings_witness :
  exists s a,
    spicedb.NewSpiceDB remote_config = Ok (s, a) /\
    spicedb.url s = "http://spicedb:8443/v1/permissions/check" /\
    spicedb.cache a = ∅ /\
    spicedb.subjectRef.OptionalRelation (spicedb.subject s) <> "" /\
    spicedb.consistency s = {[ "fullyConsistent" := ABool true ]}.
Proof.
  destruct (spicedb.NewSpiceDB remote_config) as [[s a]|e] eqn:Hnew;
    [|vm_compute in Hnew; discriminate Hnew].
  destruct (NewSpiceDB_settings remote_config s a Hnew)
    as (Hcache & _ & _ & _ & _ & _ & _ & _ & Hrelation & _).
  exists s, a. split; [reflexivity|].
  assert (Hs := Hnew). vm_compute in Hs. injection Hs as <- <-.
  split; [vm_compute; reflexivity|]. split; [reflexivity|]. split.
  - intros Hblank. apply Hrelation in Hblank. vm_compute in Hblank. discriminate Hblank.
  - vm_compute. reflexivity.
Defined.

(** Flags that pass the checks: with the permissions file the authorizer
    is read from it, with [--allow-no-authz] alone it denies everything,
    and with the remote backend it starts with an empty store. *)
Lemma validated_flags_witness :
  main.validate office (flags "file" "/etc/permissions.json" false) true = None /\
  main.newAuthorizer office environment (flags "file" "" true) =
    Ok (main.DenyAll auth.NewDenyAll) /\
  (exists a,
     main.newAuthorizer office environment (flags "file" "/etc/permissions.json" false) =
       Ok (main.FromFile a)) /\
  (exists s,
     main.newAuthorizer office environment (flags "spicedb" "" false) =
       Ok (main.Remote s fresh_authorizer)).
Proof.
  split; [reflexivity|]. split; [|split].
  - destruct (validated_flags office environment (flags "file" "" true) true)
      as (_ & _ & _ & _ & _ & _ & _ & _ & Hnone & _); [reflexivity|].
    by apply Hnone.
  - destruct (validated_flags office environment
                (flags "file" "/etc/permissions.json" false) true)
      as (_ & _ & _ & _ & _ & _ & _ & _ & _ & Hfile & _); [reflexivity|].
    rewrite Hfile by done. cbn [main.permissionsFile flags].
    destruct (permissions.NewFromPermissionsFile office "/etc/permissions.json")
      as [a|e] eqn:Hnew; [by exists a|vm_compute in Hnew; discriminate Hnew].
  - destruct (validated_flags office environment (flags "spicedb" "" false) true)
      as (_ & _ & _ & _ & _ & _ & _ & _ & _ & _ & Hremote); [reflexivity|].
    destruct (Hremote eq_refl) as (_ & _ & Hstarts).
    destruct (main.newAuthorizer office environment (flags "spicedb" "" false))
      as [az|e] eqn:Hnew; [|vm_compute in Hnew; discriminate Hnew].
    destruct (Hstarts az eq_refl) as (s & ->). by exists s.
Defined.

(** The mapping file of [/data/sub] extends the one of [/data]: the chain
    has the rule of the first file, then the rule of the second. *)
Lemma loadRules_follows_chain_witness :
  exists files,
    extends_chain extended_disk true "/data/sub/.metricfs-map.yaml" files
      [ table_rule [("namespace", "/ns"); ("name", "/name")]
          [("namespace", ["/f/ns"]); ("name", ["/f/name"])];
        orders_rule ] /\
    NoDup files.
Proof.
  edestruct (loadRules_follows_chain extended_disk "/data/sub/.metricfs-map.yaml"
               true ∅) as (files & Hchain & Hnodup & _).
  - vm_compute. reflexivity.
  - exists files. split; [exact Hchain | exact Hnodup].
Defined.

(** On slash-separated paths every call returns, also for a path that
    does not exist. *)
Lemma resolution_and_rendering_return_witness :
  is_Some (mapper.ResolveRuleForFile disk "/nowhere/x.jsonl"
             (Config_of (options "/data" "deny"))) /\
  is_Some (projector.RenderFiltered disk "/nowhere/x.jsonl.gz" (options "/data" "deny")
             alice empty 0).
Proof.
  split.
  - apply (@resolution_and_rendering_return _ _ _ _ _ _ file_path_laws _ _ _ _
             disk "/nowhere/x.jsonl" (Config_of (options "/data" "deny"))
             (options "/data" "deny") true ∅ alice empty 0).
  - apply (@resolution_and_rendering_return _ _ _ _ _ _ file_path_laws _ _ _ _
             disk "/nowhere/x.jsonl.gz" (Config_of (options "/data" "deny"))
             (options "/data" "deny") true ∅ alice empty 0).
Defined.

(** The index of [/data/orders.jsonl] has one line for each of the three
    records, with the candidates of the record. *)
Lemma build_stores_candidates_witness :
  exists fi,
    indexer.build disk "/data/orders.jsonl" orders_stat (selected "any" orders_rule) 7 =
      Some (Ok fi) /\
    FileIndex.BuiltAt fi = 7%Z /\
    length (FileIndex.Lines fi) = 3%nat /\
    map LineIndex.Candidates (FileIndex.Lines fi) =
      [[row "orders_1"]; [row "orders_2"]; [row "orders_3"]].
Proof.
  destruct (build_stores_candidates disk "/data/orders.jsonl" orders_stat
              (selected "any" orders_rule) 7 orders 2 eq_refl)
    as (fi & Hbuild & _ & _ & _ & _ & _ & Hnow & Hlength & _).
  exists fi. split; [exact Hbuild|]. split; [exact Hnow|]. split.
  - rewrite Hlength. vm_compute. reflexivity.
  - vm_compute in Hbuild. injection Hbuild as <-. vm_compute. reflexivity.
Defined.

(** Pointers into a nested document: [/a/b] goes on from where [/a]
    arrives; [~1] stands for the slash of the key [c/d] in a root pointer
    and for itself in an item pointer. *)
Lemma pointer_resolution_witness :
  mapper.resolveRootPointer nested_doc "/a/b" = Some (AString "x") /\
  mapper.resolveRootPointer nested_doc "/a/c~1d" = Some (AString "y") /\
  mapper.resolveItemPointer nested_doc "./a/c~1d" = None /\
  mapper.resolveItemPointer nested_doc "./a/b" = Some (AString "x").
Proof.
  assert (slash ∉ bytes_of_string "b") as Hb
    by (apply (bool_decide_unpack _); vm_compute; exact I).
  assert (slash ∉ bytes_of_string "c~1d") as Hcd
    by (apply (bool_decide_unpack _); vm_compute; exact I).
  destruct (pointer_resolution nested_doc "/a" "b" Hb) as (_ & _ & _ & Hroot & _ & _).
  destruct (pointer_resolution nested_doc "/a" "c~1d" Hcd) as (_ & _ & _ & Hescaped & _).
  destruct (pointer_resolution nested_doc "./a" "c~1d" Hcd)
    as (_ & _ & _ & _ & _ & Hitem).
  destruct (pointer_resolution nested_doc "./a" "b" Hb) as (_ & _ & _ & _ & _ & Hplain).
  split; [|split; [|split]].
  - change "/a/b" with ("/a" +:+ "/" +:+ "b").
    rewrite Hroot by (reflexivity || discriminate). vm_compute. reflexivity.
  - change "/a/c~1d" with ("/a" +:+ "/" +:+ "c~1d").
    rewrite Hescaped by (reflexivity || discriminate). vm_compute. reflexivity.
  - change "./a/c~1d" with ("./a" +:+ "/" +:+ "c~1d").
    rewrite Hitem by (reflexivity || discriminate). vm_compute. reflexivity.
  - change "./a/b" with ("./a" +:+ "/" +:+ "b").
    rewrite Hplain by (reflexivity || discriminate). vm_compute. reflexivity.
Defined.

(** The surface on [/s] and on [/data].  The compressed file
    [a.jsonl.gz] is listed as [a.jsonl] and under no other name, and
    reading [a.jsonl] gives its first and third record.  In [/data], where
    [orders.jsonl], [orders.jsonl.gz] and [orders.jsonl.tar.gz] share the
    name [orders.jsonl], the name stands for the plain file, and reading
    it gives the records that the Indexer lets through. *)
Lemma surface_presents_virtual_names_witness :
  (exists listing,
     fusefs_unix.Readdir shelf (mount "/s" "deny") = inl listing /\
     "a.jsonl" ∈ map fuse.Name listing /\
     "a.jsonl.gz" ∉ map fuse.Name listing) /\
  fusefs_unix.Lookup shelf (mount "/s" "deny") "a.jsonl" 0 =
    Some (inl (fusefs.MemFile (bytes_of_string (order "1" +:+ nl +:+ order "3"))
                 292 57), shelf) /\
  (exists entries,
     fusefs_unix.resolveEntries disk (mount "/data" "deny") = Ok entries /\
     entries !! "orders.jsonl" =
       Some {| fusefs_unix.resolvedEntry.name := "orders.jsonl";
               fusefs_unix.resolvedEntry.source := "/data/orders.jsonl";
               fusefs_unix.resolvedEntry.isDir := false;
               fusefs_unix.resolvedEntry.projected := false |}) /\
  fusefs_unix.Lookup disk (mount "/data" "deny") "orders.jsonl" 0 =
    Some (inl (fusefs.MemFile (bytes_of_string (order "1" +:+ nl +:+ order "3"))
                 292 57), disk).
Proof.
  destruct (surface_presents_virtual_names shelf (mount "/s" "deny")
              [ file_entry ".metricfs-map.yaml"; file_entry "a.jsonl.gz";
                dir_entry "sub"; file_entry "notes.txt" ] 0)
    as (entries & listing & Hres & Hlist & _ & Hnames & Hpacked & _ & _ & Hread).
  { reflexivity. }
  { apply (bool_decide_unpack _). vm_compute. exact I. }
  destruct (surface_presents_virtual_names disk (mount "/data" "deny")
              [ file_entry ".metricfs-map.yaml"; file_entry "orders.jsonl";
                file_entry "orders.jsonl.gz"; file_entry "orders.jsonl.tar.gz" ] 0)
    as (entries' & listing' & Hres' & _ & _ & _ & _ & _ & Hwins & Hread').
  { reflexivity. }
  { apply (bool_decide_unpack _). vm_compute. exact I. }
  assert (compressed_as (file_entry "a.jsonl.gz") "a.jsonl") as Hgz.
  { split; [reflexivity|]. left. split; [reflexivity | vm_compute; reflexivity]. }
  assert (compressed_as (file_entry "orders.jsonl.gz") "orders.jsonl") as Hgz'.
  { split; [reflexivity|]. left. split; [reflexivity | vm_compute; reflexivity]. }
  split; [|split; [|split]].
  - exists listing. split; [exact Hlist|]. split.
    + apply (Hpacked (file_entry "a.jsonl.gz") "a.jsonl");
        [apply list_elem_of_further, list_elem_of_here | exact Hgz].
    + intros Hin. apply Hnames in Hin as (e & He & Hname).
      repeat (apply elem_of_cons in He as [->|He];
              [vm_compute in Hname; discriminate Hname|]).
      by apply elem_of_nil in He.
  - assert (entries !! "a.jsonl" =
              Some {| fusefs_unix.resolvedEntry.name := "a.jsonl";
                      fusefs_unix.resolvedEntry.source := "/s/a.jsonl.gz";
                      fusefs_unix.resolvedEntry.isDir := false;
                      fusefs_unix.resolvedEntry.projected := true |}) as Hentry.
    { destruct shelf_entries as (entries0 & Hres0 & Hvirtual & _).
      rewrite Hres in Hres0. by injection Hres0 as <-. }
    destruct (Hread _ _ Hentry eq_refl) as (_ & Hprojected & _).
    rewrite (Hprojected eq_refl).
    assert (projector.RenderFiltered shelf "/s/a.jsonl.gz"
              (Options_of (fusefs.cfg (mount "/s" "deny"))) alice empty 0 =
              Some ({| Bytes := bytes_of_string (order "1" +:+ nl +:+ order "3") |},
                    None, shelf)) as Hrender
      by (apply (bool_decide_unpack _); vm_compute; exact I).
    cbn [fusefs_unix.resolvedEntry.source fusefs.az mount].
    unfold empty in Hrender. rewrite Hrender. reflexivity.
  - exists entries'. split; [exact Hres'|].
    apply (Hwins (file_entry "orders.jsonl.gz") (file_entry "orders.jsonl")
             "orders.jsonl").
    + do 2 apply list_elem_of_further. apply list_elem_of_here.
    + apply list_elem_of_further, list_elem_of_here.
    + exact Hgz'.
    + reflexivity.
    + vm_compute. reflexivity.
  - assert (entries' !! "orders.jsonl" =
              Some {| fusefs_unix.resolvedEntry.name := "orders.jsonl";
                      fusefs_unix.resolvedEntry.source := "/data/orders.jsonl";
                      fusefs_unix.resolvedEntry.isDir := false;
                      fusefs_unix.resolvedEntry.projected := false |}) as Hentry.
    { apply (Hwins (file_entry "orders.jsonl.gz") (file_entry "orders.jsonl")
               "orders.jsonl").
      + do 2 apply list_elem_of_further. apply list_elem_of_here.
      + apply list_elem_of_further, list_elem_of_here.
      + exact Hgz'.
      + reflexivity.
      + vm_compute. reflexivity. }
    destruct (Hread' _ _ Hentry eq_refl) as (_ & _ & Hplain).
    rewrite (Hplain eq_refl) by (vm_compute; reflexivity).
    assert (indexer.BuildOrLoad disk "/data/orders.jsonl"
              (Options_of (fusefs.cfg (mount "/data" "deny"))) 0 =
              Some (Ok {| FileIndex.SourcePath := "/data/orders.jsonl";
                          FileIndex.Size := 86;
                          FileIndex.MtimeUnix := 2;
                          FileIndex.RuleHash :=
                            mapper.ruleHashOf [orders_rule];
                          FileIndex.Passthrough := false;
                          FileIndex.BuiltAt := 0;
                          FileIndex.Lines :=
                            index_chunks (selected "any" orders_rule) 0
                              (physical_lines orders) |}, disk)) as Hbuild
      by (apply (bool_decide_unpack _); vm_compute; exact I).
    cbn [fusefs_unix.resolvedEntry.source fusefs.az mount].
    rewrite Hbuild. cbv iota beta.
    assert (forall fi,
              indexer.FilterToWriter disk fi alice {| Bytes := [] |} =
                ({| Bytes := bytes_of_string (order "1" +:+ nl +:+ order "3") |}, None) ->
              served (A := auth.SetAuthorizer)
                (Some (indexer.FilterToWriter disk fi alice {| Bytes := [] |}, disk)) =
              Some (inl (fusefs.MemFile
                           (bytes_of_string (order "1" +:+ nl +:+ order "3")) 292 57),
                    disk)) as Hserved by (by intros fi ->).
    apply Hserved. vm_compute. reflexivity.
Defined.

End Examples.
